(* ===== verification/_CoqProject ===== *)
-Q . S2P
Prelude.v
Text.v
Interfaces.v
TypeInfo.v
WaitMap.v
Errors.v
Core.v
CoreWord.v
CoreQueue.v
Pipe.v
PipeSpec.v
PipeSession.v
PipeTypes.v
Handles.v
HandlesSpec.v
BiDiHandles.v
CoreConc.v
ConcSafety.v
CoreWait.v
ConcProgress.v
ConcRefine.v
CoreReserve.v
BiDi.v
Message.v
ReqRsp.v
ReqRspSpec.v
ReqRspSystem.v
ConnTable.v
ConnTableSpec.v
PlugTail.v
PlugTailSpec.v
SerBox.v
SerBoxSpec.v
Oneshot.v
OneshotErased.v
OneshotSpec.v
OneshotRace.v
Machine.v
MachineSpec.v
Display.v
Debug.v
EndToEnd.v
Link.v
LinkSpec.v
LinkEnds.v
LinkEndsSpec.v
LeakCheck.v
LeakCheckSpec.v
Connector.v
ConnectorSpec.v
ConnectPath.v
Examples.v
ReserveExamples.v
HandlesExamples.v
SystemExamples.v
ReqRspExamples.v
ConnectExamples.v
PlugTailExamples.v
LinkExamples.v
LeakExamples.v
