(* ===== verification/Prelude.v ===== *)
(** * tricky-pipe, calliope and plugtail

    The three crates of the repository: [tricky-pipe], asynchronous channels whose ends may
    be typed, serializing or type-erased, on the heap or in a static; [calliope], a small
    connection protocol that multiplexes such channels over one wire; [plugtail], storage
    made of a header and a tail of items.

    ** How the program is modelled

    Code is translated definition by definition, under its own names.  Stateful code is a
    computation [M S A] ([Prelude]): a function from the state it works on to the state after
    and an outcome, a value or [Panic] or [OutOfFuel].  [Panic] stands for a panic of a debug
    build ([unreachable!], [expect], an arithmetic overflow) and for every place where the
    code would run into undefined behaviour (an uninitialized cell, freed memory, a type
    confusion), so "does not panic" is also memory safety of the model.  [wp m Q s] says that
    [m] run from [s] ends with a value and in a state that satisfy [Q].  An asynchronous
    function is a type of suspended states and a poll function.  Machine words are integers
    with their wrap-around written out.

    Loops whose end is not structural take fuel, and the theorems name the fuel that is
    enough: 2 for a poll of a channel ([poll_dequeue_loop]) and 5 for [reserve_poll], because
    a stored wakeup is consumed at most once; 3 and 2 for the polls of the shared box and of
    the one-shot channel, for the same reason; 65 for [SharedState_drop], as a queue has at
    most 64 messages; [request_fuel], two steps per sequence number in use; 8 for a poll of
    [connect], four of them for the places where it may wait and the rest for the loop of
    [sender].  Where no fuel is enough, that is a theorem
    too ([OneshotSpec.sender_never_returns], [ConnectorSpec.unanswered_connect_hangs]).

    Code outside of the repository is an interface with the laws the code relies on
    ([Interfaces], [WaitMap]): the bit fields of [mycelium_bitfield], the index allocator of
    [mnemos_bitslab], [maitake_sync]'s [WaitCell], [WaitQueue] and [WaitMap], [postcard].
    [Interfaces.Concrete] and [WaitMap.ConcreteMap] give instances that meet the laws; the
    witnesses in the [*Examples] files are computed with them.

    ** Bounds

    A pipe's ring has positions of 10 bits and does not outlive them: the receiver finds
    nothing from position 1023 on ([LAST_POS], [CoreQueue]), and from 960 claims on an
    overtaken sender may panic ([SAFE_CLAIMS], [ConcSafety.overtaken_sender_panics]).  These
    are findings about the code, not choices of the model: what is interleaved is stated for
    at most 960 claims over the life of a channel, and what delivers a message for fewer than
    1023 delivered before.

    ** The parts

    - [Errors] (mpsc/error.rs), [Core] (mpsc/channel_core.rs, the bounded ring, its words and
      its two waiting places), [Pipe] (mpsc/mod.rs, arc_impl.rs, static_impl.rs: every handle,
      the element cells, the reference count, type erasure).  [CoreWord] has the arithmetic
      of the packed words.  [CoreQueue.core_refines_queue]: each operation of the core
      implements an operation on a queue; [PipeSpec]: each operation of the handles does what
      it promises, on every branch; [PipeSession]: any sequence of calls of a program, from
      the creation of a channel to the end of its last handle, loses and duplicates nothing.
      [PipeTypes]: sending and casting through type-erased handles.
    - [Handles] (the structs of mpsc/mod.rs that hold a pipe, and the vtables): a memory of
      many channels, handles as pointers into it, and programs that make, clone, convert, use
      and drop them.  [HandlesSpec]: as long as nothing overflows, every channel's counts are
      the numbers of its handles, and no freed channel is used; [HandlesExamples] has the two
      programs that the counting goes wrong for.
    - [TypeInfo] (typeinfo.rs): the type ids that erased handles carry and assert.
    - [CoreConc], [ConcSafety]: the same core access by access, any number of senders and a
      receiver interleaved: no panic, first in first out, exclusive cells; run alone, a
      thread of it has the memory and the results of the sequential calls.  [CoreWait] adds the receiver's task and the tasks that close the
      channel: no wakeup is lost.  [ConcProgress]: nobody waits for a thread that stopped.
      [ConcRefine]: the interleaved core implements a bounded first-in first-out channel with
      permits, each access being a step of that specification or none.  [CoreReserve] adds the
      tasks of senders that wait for room: none is stranded beside free room, and a receiver
      that takes a message lets one of them go on.
    - [BiDi] (bidi.rs): the pair of channels with [wait], and its serializing form, an
      instance of the interface [SerChannel] that the connection table uses.
      [BiDiHandles]: the same as the owner of two handles in the memory of [Handles]; it is
      converted, split and dropped without a wrong count.
    - [Oneshot] (oneshot.rs) and [SerBox] (serbox.rs): each call by call, refining an abstract
      phase, and access by access for two threads ([OneshotSpec], [SerBoxSpec]).
      [OneshotErased]: the type-erased receiver, which the serializing one is made of, does
      what the typed one does; [OneshotRace]: a send, a receive and [close] at the same time.
    - [Message] (message.rs, service.rs): headers and frames, to bytes and back.
    - [ConnTable] (conn_table.rs): every handler of the link state machine; [ConnTableSpec]:
      the table is a finite map of connections with a free list inside, each handler's effect
      on the map, no panic over any history, the handshake of two tables.
    - [Machine] (lib.rs): the loop of an interface; [MachineSpec]: it never panics, whatever
      the wire delivers; [EndToEnd]: a message from one interface's client to the other's.
    - [Link], [LinkSpec]: the connection protocol as a transition system, its invariant, and
      two running machines joined by a wire in each direction, which implement it: frames
      reach the connection they are for, and the two tables agree when nothing is under way.
      That protocol is of connections that are set up, used and refused ([served]: no local
      task ends one or stops to wait for one); [LinkEnds] and
      [LinkEndsSpec] add connections that end, at either side and at any time: resets end
      what they name, and when nothing is under way and no dead entry is left the tables agree
      again.  They assume what the code does not check, that an identifier is taken again only
      when nothing refers to its last connection and that the callers of connects stay;
      [LinkExamples] shows what happens otherwise.
    - [Connector] (client.rs, lib.rs): connecting, over a box, a one-shot channel and the
      channel of requests; [ConnectorSpec]: every connect returns what became of its own
      request, whatever is given up or left unanswered, and exactly when a later connect
      panics or never returns; [ConnectPath]: a connect on its whole way, through the machine to the
      frame, and from the acknowledgement back to the caller.
    - [ReqRsp] (req_rsp.rs): requests, dispatcher, shutdown; [ReqRspSpec], [ReqRspSystem]: a
      system of requests, one dispatcher and a peer in which nothing panics, answers reach
      their requests and shutdown ends all of them.
    - [PlugTail] (plugtail/src/lib.rs): the layout of the memory and the reference-counted
      storage; [PlugTailSpec]: the tail is in bounds and aligned, and any interleaving of its
      handles frees it exactly once.

    Components meet in interfaces: [SerChannel] (a connection's local channel, promised to the
    table, given by [BiDi]), [ResponseSender] (the answer to a connect), [Wire], [Pluggable].
    Shared state between components (the channel of requests between connector and machine,
    the box and the one-shot channel between connector and interface) is one value of the
    model, used from both sides.

    - [Text] (numbers as a formatter writes them), [Display] (what identifiers, resets and
      errors print, and that it tells them apart), [Debug] (what [{:?}] prints of handles,
      boxes and channels: the addresses and the length a handle prints are not those of its
      channel).
    - [LeakCheck] (loom.rs): the leak checker that the tests run under when [loom] is off: a
      registry per test, weak references to what is tracked, thread locals.  [LeakCheckSpec]:
      a test fails for a leak exactly when a value it tracks is alive at its end, and says
      where it was made; [LeakExamples].

    The witnesses and concrete runs are in [Examples], [ReserveExamples], [HandlesExamples],
    [SystemExamples], [ReqRspExamples], [ConnectExamples], [PlugTailExamples], [LinkExamples]
    and [LeakExamples].

    ** Not modelled

    Derived [Debug] implementations, the alternate form [{:#?}], and tracing; the half of
    [loom.rs] that re-exports the types of [loom]; [frame.rs], which no module includes; the
    tests; [Channels::from_static], whose body is [todo!].  Memory orderings: the
    interleavings are sequentially consistent.  A poll of a future is one step except where a
    file says that it is split ([CoreConc] and the files on it, [Oneshot], [SerBox],
    [PlugTail], the dispatcher of [ReqRsp]).  Interleaved senders that are cancelled while
    they wait for room: what [maitake_sync] does with the wakeup of a future that is dropped
    after it was woken is not documented.  What a link does once an identifier was taken again
    too early: there is no invariant left to state, only the runs of [LinkExamples].  The claim
    of a static box, channel or pipe is one atomic access, so that its model is a whole call.

    Simplifications that a reader of the code should know: [Registry::connect] may suspend and
    keep state, and is a function of the identity and the hello message, answered at once, so
    that await is part of the step of [process_inbound] it is in (the wait for room in a full
    channel is not: [RunProcess] suspends);
    [BiDi.ser_poll_recv] serializes a message and frees its place when it is received, where
    the code holds the [SerRecvRef] until the frame was sent; [CoreConc] does not count the
    loads of [close_reason] on a closed channel as steps of their own; and in [SerBox] the
    sharer's destructor drops the value and frees the box in one step. *)
From stdpp Require Export base tactics numbers list option relations sets gmap.
From Stdlib Require Export ZArith Lia.

#[global] Open Scope Z_scope.
#[global] Set Default Goal Selector "!".

(** ** Results, polls and outcomes *)

(** Rust's [Result]. *)
Inductive result (A E : Type) : Type :=
| Ok (a : A)
| Err (e : E).
Arguments Ok {A E} a.
Arguments Err {A E} e.

(** Rust's [core::task::Poll]. *)
Inductive poll (A : Type) : Type :=
| Pending
| Ready (a : A).
Arguments Pending {A}.
Arguments Ready {A} a.

(** What running a function leads to: a value, a panic ([unreachable!], a failed
    [expect], an arithmetic overflow of a debug build), or a loop that did not
    end within the fuel it was given. *)
Inductive outcome (A : Type) : Type :=
| Val (a : A)
| Panic
| OutOfFuel.
Arguments Val {A} a.
Arguments Panic {A}.
Arguments OutOfFuel {A}.

Definition result_map {A B E} (f : A -> B) (r : result A E) : result B E :=
  match r with Ok a => Ok (f a) | Err e => Err e end.
Definition result_map_err {A E F} (f : E -> F) (r : result A E) : result A F :=
  match r with Ok a => Ok a | Err e => Err (f e) end.
Definition result_is_ok {A E} (r : result A E) : bool :=
  match r with Ok _ => true | Err _ => false end.
Definition result_is_err {A E} (r : result A E) : bool := negb (result_is_ok r).
Definition result_ok {A E} (r : result A E) : option A :=
  match r with Ok a => Some a | Err _ => None end.
Definition ok_or {A E} (o : option A) (e : E) : result A E :=
  match o with Some a => Ok a | None => Err e end.
Definition poll_map {A B} (f : A -> B) (p : poll A) : poll B :=
  match p with Pending => Pending | Ready a => Ready (f a) end.

(** ** Stateful computations that may panic

    [M S A] threads a state [S] through a computation.  A panic keeps the state
    reached so far, the way an unwinding thread leaves shared memory. *)
Definition M (S A : Type) : Type := S -> S * outcome A.

#[export] Instance M_ret (S : Type) : MRet (M S) := fun A a s => (s, Val a).
#[export] Instance M_bind (S : Type) : MBind (M S) := fun A B f m s =>
  match m s with
  | (s', Val a) => f a s'
  | (s', Panic) => (s', Panic)
  | (s', OutOfFuel) => (s', OutOfFuel)
  end.

Definition panic {S A} : M S A := fun s => (s, Panic).
Definition out_of_fuel {S A} : M S A := fun s => (s, OutOfFuel).
Definition gets {S A} (f : S -> A) : M S A := fun s => (s, Val (f s)).
Definition modify {S} (f : S -> S) : M S unit := fun s => (f s, Val tt).
(** [expect]: the value of an option, or a panic. *)
Definition expect {S A} (o : option A) : M S A :=
  match o with Some a => mret a | None => panic end.

(** Runs a computation on a part of a larger state. *)
Definition zoom {S T A} (get : S -> T) (put : T -> S -> S) (m : M T A) : M S A :=
  fun s => match m (get s) with (t, o) => (put t s, o) end.

Lemma bind_val {S A B} (m : M S A) (f : A -> M S B) s s' a :
  m s = (s', Val a) -> (m ≫= f) s = f a s'.
Proof. intros H. unfold mbind, M_bind. by rewrite H. Qed.

Lemma bind_inv {S A B} (m : M S A) (f : A -> M S B) s s' b :
  (m ≫= f) s = (s', Val b) ->
  exists s1 a, m s = (s1, Val a) /\ f a s1 = (s', Val b).
Proof.
  unfold mbind, M_bind. destruct (m s) as [s1 [a| |]]; intros H; simplify_eq.
  eauto.
Qed.

(** [wp m Q s]: from [s], [m] ends without panic in a state and with a value that
    satisfy [Q]. *)
Definition wp {S A} (m : M S A) (Q : A -> S -> Prop) (s : S) : Prop :=
  exists s' a, m s = (s', Val a) /\ Q a s'.

Lemma wp_bind {S A B} (m : M S A) (f : A -> M S B) Q s :
  wp m (fun a s' => wp (f a) Q s') s -> wp (m ≫= f) Q s.
Proof. intros (s1 & a & Hm & s2 & b & Hf & HQ). exists s2, b. by rewrite (bind_val _ _ _ _ _ Hm). Qed.

Lemma wp_mono {S A} (m : M S A) (Q Q' : A -> S -> Prop) s :
  wp m Q s -> (forall a s', Q a s' -> Q' a s') -> wp m Q' s.
Proof. intros (s1 & a & Hm & HQ) H. exists s1, a. auto. Qed.

Lemma wp_ret {S A} (a : A) (Q : A -> S -> Prop) s : Q a s -> wp (mret a) Q s.
Proof. intros H. by exists s, a. Qed.

Lemma wp_gets {S A} (f : S -> A) (Q : A -> S -> Prop) s : Q (f s) s -> wp (gets f) Q s.
Proof. intros H. by exists s, (f s). Qed.

Lemma wp_modify {S} (f : S -> S) (Q : unit -> S -> Prop) s : Q tt (f s) -> wp (modify f) Q s.
Proof. intros H. by exists (f s), tt. Qed.

Lemma wp_zoom {S T A} (get : S -> T) put (m : M T A) (Q : A -> S -> Prop) s :
  wp m (fun a t => Q a (put t s)) (get s) -> wp (zoom get put m) Q s.
Proof. intros (t & a & Hm & HQ). exists (put t s), a. split; [|done]. unfold zoom. by rewrite Hm. Qed.

(** A run, split into the state it leaves and its outcome. *)
Lemma run_pair {S A} (m : M S A) s a : snd (m s) = Val a -> m s = (fst (m s), Val a).
Proof. intros <-. apply surjective_pairing. Defined.

(** How a computation ends, past a part of it that goes well. *)
Lemma wp_then {S A B} (m : M S A) (f : A -> M S B) (r : outcome B) s :
  wp m (fun a s' => snd (f a s') = r) s -> snd ((m ≫= f) s) = r.
Proof. intros (s1 & a & Hm & H). by rewrite (bind_val _ _ _ _ _ Hm). Qed.

(** ** Machine integers

    A [w]-bit unsigned word is a [Z] in [0, 2^w). *)
Definition u8_mod : Z := 256.
Definition u16_mod : Z := 65536.
Definition usize_mod : Z := 18446744073709551616.
Definition u8_wrap (z : Z) : Z := z mod u8_mod.
Definition u16_wrap (z : Z) : Z := z mod u16_mod.
Definition usize_wrap (z : Z) : Z := z mod usize_mod.
Definition is_u8 (z : Z) : Prop := 0 <= z < u8_mod.
Definition is_u16 (z : Z) : Prop := 0 <= z < u16_mod.
Definition is_usize (z : Z) : Prop := 0 <= z < usize_mod.

Definition u16_wrapping_add (a b : Z) : Z := u16_wrap (a + b).
(** [a << n] on [u16]: the bits shifted out are lost. *)
Definition u16_shl (a n : Z) : Z := u16_wrap (Z.shiftl a n).
Definition u16_shr (a n : Z) : Z := Z.shiftr a n.
(** [a as i16] of a [u16], and [i16::wrapping_sub]. *)
Definition as_i16 (a : Z) : Z := if a <? 32768 then a else a - u16_mod.
Definition i16_wrapping_sub (a b : Z) : Z := as_i16 (u16_wrap (a - b)).
(** [a - b] on [usize] in a debug build panics below zero; in a release build it wraps. *)
Definition usize_checked_sub (a b : Z) : option Z := if b <=? a then Some (a - b) else None.
Definition usize_wrapping_sub (a b : Z) : Z := usize_wrap (a - b).
Definition usize_wrapping_add (a b : Z) : Z := usize_wrap (a + b).

(** [lia] for goals with [/] and [mod]. *)
Ltac mlia := Z.div_mod_to_equations; lia.

Lemma u16_wrap_range z : is_u16 (u16_wrap z).
Proof. unfold is_u16, u16_wrap, u16_mod. mlia. Qed.

Lemma u16_wrap_small z : is_u16 z -> u16_wrap z = z.
Proof. unfold is_u16, u16_wrap, u16_mod. intros. by apply Z.mod_small. Qed.

Lemma i16_wrapping_sub_small a b :
  -32768 <= a - b < 32768 -> i16_wrapping_sub a b = a - b.
Proof.
  intros H. unfold i16_wrapping_sub, as_i16, u16_wrap, u16_mod.
  destruct (Z.ltb_spec ((a - b) mod 65536) 32768); mlia.
Qed.

(** ** Bits *)

Lemma land_pow2_testbit w k :
  0 <= k -> Z.land w (2 ^ k) = if Z.testbit w k then 2 ^ k else 0.
Proof.
  intros Hk. apply Z.bits_inj'. intros i Hi.
  rewrite Z.land_spec, Z.pow2_bits_eqb by done.
  destruct (Z.eqb_spec k i) as [->|Hne].
  - destruct (Z.testbit w i); [rewrite Z.pow2_bits_eqb, Z.eqb_refl by done|rewrite Z.bits_0]; done.
  - rewrite andb_false_r. destruct (Z.testbit w k); [|by rewrite Z.bits_0].
    rewrite Z.pow2_bits_eqb by done. symmetry. by apply Z.eqb_neq.
Qed.

Lemma land_pow2_eqb0 w k :
  0 <= k -> (Z.land w (2 ^ k) =? 0) = negb (Z.testbit w k).
Proof.
  intros Hk. rewrite land_pow2_testbit by done.
  destruct (Z.testbit w k); simpl; [|done].
  apply Z.eqb_neq. pose proof (Z.pow_pos_nonneg 2 k). lia.
Qed.

(** ** Reachability *)

(** A predicate that holds initially and is preserved by every step holds in every
    reachable state. *)
Lemma rtc_invariant {A} (R : relation A) (P : A -> Prop) x y :
  P x -> (forall a b, R a b -> P a -> P b) -> rtc R x y -> P y.
Proof. intros Hx Hstep. induction 1; eauto. Qed.

(** ** Automation *)

#[global] Arguments Z.modulo : simpl never.
#[global] Arguments Z.div : simpl never.
#[global] Arguments Z.land : simpl never.
#[global] Arguments Z.lor : simpl never.
#[global] Arguments Z.shiftl : simpl never.
#[global] Arguments Z.shiftr : simpl never.
#[global] Arguments Z.pow : simpl never.
#[global] Arguments Z.add : simpl never.
#[global] Arguments Z.sub : simpl never.
#[global] Arguments Z.mul : simpl never.
#[global] Arguments Z.testbit : simpl never.
#[global] Arguments Z.to_nat : simpl never.
#[global] Arguments Z.of_nat : simpl never.

Create HintDb mgnp discriminated.
#[export] Hint Resolve u16_wrap_range : mgnp.
Create Rewrite HintDb mgnp_rw.
#[export] Hint Rewrite @u16_wrap_small using (unfold is_u16, u16_mod; lia) : mgnp_rw.

(** Unfolds the monad and computes. *)
Ltac run_M :=
  repeat (cbv [mbind M_bind mret M_ret gets modify panic out_of_fuel expect zoom] in *; cbn in *).

(** Case analysis on every match of the goal or of the hypotheses. *)
Ltac case_all :=
  repeat (case_match; simplify_eq/=; try done).
