(* ===== verification/Text.v ===== *)
(** Numbers as a formatter writes them: hexadecimal, binary, decimal, addresses. *)
From Stdlib Require Import String Ascii DecimalString.
From S2P Require Import Prelude.
Local Open Scope string_scope.

(** ** Decimal and binary numbers *)

(** [{n}] of an unsigned integer. *)
Definition decimal (n : Z) : string := NilZero.string_of_uint (N.to_uint (Z.to_N n)).
(** [{b}] and [{b:?}] of a [bool]. *)
Definition bool_text (b : bool) : string := if b then "true" else "false".

(** The binary digits of [n] in front of [acc], none of them a leading zero (but for zero). *)
Fixpoint binary (fuel : nat) (n : Z) (acc : string) : string :=
  match fuel with
  | O => acc
  | S fuel =>
      let acc := String (if Z.odd n then "1" else "0")%char acc in
      if (n / 2 =? 0)%Z then acc else binary fuel (n / 2) acc
  end.

(** ** Hexadecimal numbers *)

Definition digits (upper : bool) : string := if upper then "0123456789ABCDEF" else "0123456789abcdef".
Definition hex_digit (upper : bool) (d : Z) : ascii := default "0"%char (String.get (Z.to_nat d) (digits upper)).

(** The digits of [n] in front of [acc], none of them a leading zero (but for zero itself). *)
Fixpoint hex (upper : bool) (fuel : nat) (n : Z) (acc : string) : string :=
  match fuel with
  | O => acc
  | S fuel =>
      let acc := String (hex_digit upper (n mod 16)) acc in
      if (n / 16 =? 0)%Z then acc else hex upper fuel (n / 16) acc
  end.
Fixpoint zeros (n : nat) : string := match n with O => "" | S n => String "0" (zeros n) end.
(** [format!("{n:0width$x}")] of a [u16]: it has at most four digits. *)
Definition hex_u16 (upper : bool) (width : nat) (n : Z) : string :=
  let s := hex upper 4 n "" in zeros (width - String.length s) ++ s.

(** [{n:#0width$b}] of a [u8], which has at most eight digits: the prefix counts. *)
Definition alternate_binary_u8 (width : nat) (n : Z) : string :=
  let s := binary 8 n "" in "0b" ++ zeros (width - 2 - String.length s) ++ s.
(** [{p:p}] and [{p:#p}] of an address: the second has all the digits of a word. *)
Definition pointer (p : Z) : string := "0x" ++ hex false 16 p "".
Definition alternate_pointer (p : Z) : string :=
  let s := hex false 16 p "" in "0x" ++ zeros (16 - String.length s) ++ s.

(** ** What is written gives the number *)

(** The value of a string of hexadecimal digits, in either case. *)
Definition digit_value (c : ascii) : Z :=
  let n := Z.of_nat (nat_of_ascii c) in
  if (n <? 58)%Z then n - 48 else if (n <? 71)%Z then n - 55 else n - 87.
Fixpoint hex_value (acc : Z) (s : string) : Z :=
  match s with "" => acc | String c s => hex_value (acc * 16 + digit_value c) s end.

(** Four digits, and their value. *)
Definition four_digits (upper : bool) (n : Z) : bool :=
  let s := hex_u16 upper 4 n in (String.length s =? 4)%nat && (hex_value 0 s =? n)%Z.
Fixpoint all_from (f : Z -> bool) (k : nat) (n : Z) : bool :=
  match k with O => true | S k => f n && all_from f k (n + 1) end.
Lemma all_from_spec f k n m : all_from f k n = true -> n <= m < n + Z.of_nat k -> f m = true.
Proof.
  revert n. induction k as [|k IH]; intros n; cbn [all_from]; [lia|]. intros [Hn Hk]%andb_true_iff Hm.
  destruct (decide (m = n)) as [->|]; [done|]. apply (IH (n + 1)); [done|lia].
Qed.
Lemma four_digits_all : all_from (fun n => four_digits true n && four_digits false n) (Z.to_nat u16_mod) 0 = true.
Proof. vm_compute. reflexivity. Qed.

Lemma hex_u16_four upper n : 0 <= n < u16_mod ->
  String.length (hex_u16 upper 4 n) = 4%nat /\ hex_value 0 (hex_u16 upper 4 n) = n.
Proof.
  intros Hn. assert (Hf : four_digits upper n = true).
  { destruct (andb_prop _ _ (all_from_spec _ _ _ n four_digits_all ltac:(lia))). by destruct upper. }
  apply andb_true_iff in Hf as [Hl Hv]. split; [by apply Nat.eqb_eq|by apply Z.eqb_eq].
Qed.

Lemma append_length s t : String.length (s ++ t) = (String.length s + String.length t)%nat.
Proof. induction s as [|c s IH]; [done|]. exact (f_equal S IH). Qed.
Lemma append_inj s s' t t' : String.length s = String.length s' -> s ++ t = s' ++ t' -> s = s' /\ t = t'.
Proof.
  revert s'. induction s as [|c s IH]; intros [|c' s'] Hl H; cbn in *; try done.
  injection Hl as Hl. injection H as -> H. destruct (IH _ Hl H) as [-> ->]. done.
Qed.

(** A state word of four flags is written with all four. *)
Example four_flags : alternate_binary_u8 6 5 = "0b0101" /\ alternate_binary_u8 6 0 = "0b0000".
Proof. done. Qed.
Example address_forms : pointer 48879 = "0xbeef" /\ alternate_pointer 48879 = "0x000000000000beef".
Proof. done. Qed.
