(* ===== verification/Interfaces.v ===== *)
(** The third-party code the channels and the connection table rely on, as
    interfaces: a class of operations per crate type, a class of the laws its
    documentation states, and, in [Module Concrete], an instance that meets them.
    No definition that models the repository depends on [Concrete]; only the
    witnesses and the executable examples do.

    - [mycelium-bitfield]: [PackUsize] and [PackUsizeLaws];
    - [mnemos-bitslab]: [IndexAlloc] and [IndexAllocLaws];
    - [maitake-sync]: [WaitCellApi], [WaitQueueApi], their laws, and the order in which a
      queue wakes ([WaitQueueFifo]);
    - [postcard] (with [serde]): [PostcardError] and [Postcard]. *)
From S2P Require Import Prelude.

(** ** postcard *)

Abbreviation bytes := (list Z).

(** [postcard::Error]: the variants the repository names, and the others. *)
Inductive PostcardError : Type :=
| DeserializeUnexpectedEnd
| DeserializeBadVarint
| DeserializeBadBool
| DeserializeBadChar
| DeserializeBadUtf8
| DeserializeBadOption
| DeserializeBadEnum
| DeserializeBadEncoding
| DeserializeBadCrc
| SerdeDeCustom
| OtherPostcardError (code : Z).

#[export] Instance PostcardError_eq_dec : EqDecision PostcardError.
Proof. solve_decision. Defined.

(** Serialization and deserialization of the values of one type.  [pc_to_slice]
    takes the buffer and returns it as written, with the length of the prefix
    that holds the serialized value. *)
Class Postcard (T : Type) := {
  pc_to_allocvec : T -> result bytes PostcardError;
  pc_to_allocvec_cobs : T -> result bytes PostcardError;
  pc_to_slice : T -> bytes -> bytes * result nat PostcardError;
  pc_to_slice_cobs : T -> bytes -> bytes * result nat PostcardError;
  pc_from_bytes : bytes -> result T PostcardError;
  pc_from_bytes_cobs : bytes -> result T PostcardError;
  pc_take_from_bytes : bytes -> result (T * bytes) PostcardError;
}.

(** What the documentation of [postcard] promises of these functions. *)
Class PostcardLaws (T : Type) `{Postcard T} : Prop := {
  pc_round_trip v bs : pc_to_allocvec v = Ok bs -> pc_from_bytes bs = Ok v;
  pc_round_trip_cobs v bs : pc_to_allocvec_cobs v = Ok bs -> pc_from_bytes_cobs bs = Ok v;
  pc_take_round_trip v bs rest :
    pc_to_allocvec v = Ok bs -> pc_take_from_bytes (bs ++ rest) = Ok (v, rest);
  pc_take_suffix bs v rest :
    pc_take_from_bytes bs = Ok (v, rest) -> exists used, bs = used ++ rest;
  pc_to_slice_fits v bs buf :
    pc_to_allocvec v = Ok bs -> (length bs <= length buf)%nat ->
    pc_to_slice v buf = (bs ++ drop (length bs) buf, Ok (length bs));
}.

(** ** mycelium-bitfield: packing specifications on [usize] *)

Class PackUsize := {
  Pack : Type;
  least_significant : Z -> Pack;
  pack_next : Pack -> Z -> Pack;
  pack_remaining : Pack -> Pack;
  first_bit : Pack -> Z;
  least_significant_index : Pack -> Z;
  contained_in_any : Pack -> Z -> bool;
}.

(** A packing covers [pack_bits] bits from [least_significant_index] up. *)
Class PackUsizeLaws {PU : PackUsize} := {
  pack_bits : Pack -> Z;
  least_significant_lsi n : least_significant_index (least_significant n) = 0;
  least_significant_bits n : pack_bits (least_significant n) = n;
  pack_next_lsi p n : least_significant_index (pack_next p n) = least_significant_index p + pack_bits p;
  pack_next_bits p n : pack_bits (pack_next p n) = n;
  pack_remaining_lsi p : least_significant_index (pack_remaining p) = least_significant_index p + pack_bits p;
  first_bit_eq p : first_bit p = 2 ^ least_significant_index p;
  contained_in_any_eq p w :
    contained_in_any p w =
    negb (Z.land w (Z.shiftl (Z.ones (pack_bits p)) (least_significant_index p)) =? 0);
}.

(** ** mnemos-bitslab: [IndexAllocWord] *)

Class IndexAlloc := {
  IndexAllocWord : Type;
  ia_with_capacity : Z -> IndexAllocWord;
  ia_allocate : IndexAllocWord -> (IndexAllocWord * option Z)%type;
  ia_free : IndexAllocWord -> Z -> IndexAllocWord;
}.

(** An allocator hands out an index below its capacity that nobody holds, fails only
    when all are held, and takes an index back. *)
Class IndexAllocLaws {IA : IndexAlloc} := {
  ia_capacity : IndexAllocWord -> Z;
  ia_allocated : IndexAllocWord -> gset Z;
  ia_new_capacity c : ia_capacity (ia_with_capacity c) = c;
  ia_new_allocated c : ia_allocated (ia_with_capacity c) = ∅;
  ia_allocate_some a a' i :
    ia_allocate a = (a', Some i) ->
    0 <= i < ia_capacity a /\ (i ∉ ia_allocated a) /\
    ia_allocated a' = ({[i]} ∪ ia_allocated a) /\ ia_capacity a' = ia_capacity a;
  ia_allocate_none a a' :
    ia_allocate a = (a', None) ->
    (forall i, 0 <= i < ia_capacity a -> i ∈ ia_allocated a) /\
    ia_allocated a' = ia_allocated a /\ ia_capacity a' = ia_capacity a;
  ia_free_allocated a i :
    i ∈ ia_allocated a -> ia_allocated (ia_free a i) = ia_allocated a ∖ {[i]};
  ia_free_capacity a i : ia_capacity (ia_free a i) = ia_capacity a;
}.

(** ** maitake-sync: [WaitCell] and [WaitQueue] *)

(** A cell in which one task waits.  [poll_wait] is ready with [Err] once the cell
    is closed, and ready with [Ok] after a wakeup, which the cell keeps until a poll
    consumes it. *)
Class WaitCellApi := {
  WaitCell : Type;
  wc_new : WaitCell;
  wc_poll_wait : WaitCell -> (WaitCell * poll (result unit unit))%type;
  wc_wake : WaitCell -> WaitCell;
  wc_close : WaitCell -> WaitCell;
}.

Class WaitCellLaws {WCA : WaitCellApi} := {
  wc_closed : WaitCell -> bool;
  wc_new_closed : wc_closed wc_new = false;
  wc_close_closed c : wc_closed (wc_close c) = true;
  wc_wake_closed c : wc_closed (wc_wake c) = wc_closed c;
  wc_poll_closed_same c : wc_closed (fst (wc_poll_wait c)) = wc_closed c;
  wc_poll_closed c : wc_closed c = true -> snd (wc_poll_wait c) = Ready (Err tt);
  wc_poll_open c : wc_closed c = false -> snd (wc_poll_wait c) <> Ready (Err tt);
  wc_poll_consumes c :
    snd (wc_poll_wait c) = Ready (Ok tt) -> snd (wc_poll_wait (fst (wc_poll_wait c))) = Pending;
  wc_wake_ready c : wc_closed c = false -> snd (wc_poll_wait (wc_wake c)) = Ready (Ok tt);
}.

(** A queue of waiting tasks.  [WaitFut] is the future [WaitQueue::wait] returns;
    polling it registers the task, and a task that was woken or a queue that was
    closed makes it ready. *)
Class WaitQueueApi := {
  WaitQueue : Type;
  WaitFut : Type;
  wq_new : WaitQueue;
  wq_wait : WaitFut;
  wq_poll : WaitQueue -> WaitFut -> (WaitQueue * WaitFut * poll (result unit unit))%type;
  wq_wake : WaitQueue -> WaitQueue;
  wq_close : WaitQueue -> WaitQueue;
}.

Class WaitQueueLaws {WQA : WaitQueueApi} := {
  wq_closed : WaitQueue -> bool;
  wq_new_closed : wq_closed wq_new = false;
  wq_close_closed q : wq_closed (wq_close q) = true;
  wq_wake_closed q : wq_closed (wq_wake q) = wq_closed q;
  wq_poll_closed_same q f : wq_closed (fst (fst (wq_poll q f))) = wq_closed q;
  wq_poll_closed q f : wq_closed q = true -> snd (wq_poll q f) = Ready (Err tt);
  wq_poll_open q f : wq_closed q = false -> snd (wq_poll q f) <> Ready (Err tt);
  wq_poll_consumes q :
    snd (wq_poll q wq_wait) = Ready (Ok tt) ->
    snd (wq_poll (fst (fst (wq_poll q wq_wait))) wq_wait) = Pending;
}.

(** In which order, and how often, a queue wakes: its abstract state is whether a wakeup is
    stored, the next ticket, and the tickets of the futures that wait, oldest first. *)
Record FifoView := mkFifo { fq_stored : bool; fq_next : nat; fq_waiters : list nat }.

(** The first poll of a future consumes a stored wakeup or registers it; a later poll is
    ready once the future was woken. *)
Definition fifo_poll (v : FifoView) (t : option nat) : FifoView * option nat * poll (result unit unit) :=
  match t with
  | None =>
      if fq_stored v then (mkFifo false (fq_next v) (fq_waiters v), None, Ready (Ok tt))
      else (mkFifo false (S (fq_next v)) (fq_waiters v ++ [fq_next v]), Some (fq_next v), Pending)
  | Some n => (v, t, if decide (n ∈ fq_waiters v) then Pending else Ready (Ok tt))
  end.
(** [wake] wakes the future that waited longest; without one it stores the wakeup. *)
Definition fifo_wake (v : FifoView) : FifoView :=
  match fq_waiters v with
  | [] => mkFifo true (fq_next v) []
  | _ :: rest => mkFifo (fq_stored v) (fq_next v) rest
  end.

(** A queue that is open behaves as this one. *)
Class WaitQueueFifo {WQA : WaitQueueApi} {WQL : WaitQueueLaws} := {
  wq_view : WaitQueue -> FifoView;
  wf_ticket : WaitFut -> option nat;
  wq_new_view : wq_view wq_new = mkFifo false 0 [];
  wq_wait_ticket : wf_ticket wq_wait = None;
  wq_poll_view q f : wq_closed q = false ->
    (wq_view (fst (fst (wq_poll q f))), wf_ticket (snd (fst (wq_poll q f))), snd (wq_poll q f)) =
    fifo_poll (wq_view q) (wf_ticket f);
  wq_wake_view q : wq_closed q = false -> wq_view (wq_wake q) = fifo_wake (wq_view q);
}.

(** ** Instances that meet the laws *)

Module Concrete.

(** A packing is its offset and width. *)
Definition pack_mask (p : Z * Z) : Z := Z.shiftl (Z.ones (snd p)) (fst p).
Definition pack_usize : PackUsize := {|
  Pack := Z * Z;
  least_significant n := (0, n);
  pack_next p n := (fst p + snd p, n);
  pack_remaining p := (fst p + snd p, 64 - (fst p + snd p));
  first_bit p := 2 ^ fst p;
  least_significant_index p := fst p;
  contained_in_any p w := negb (Z.land w (pack_mask p) =? 0);
|}.
#[export] Existing Instance pack_usize.
#[export] Instance pack_usize_laws : PackUsizeLaws.
Proof. unshelve econstructor; [exact (fun p => snd p)|done..]. Defined.

(** The allocator as its capacity and the list of the indices in use. *)
Definition first_unused (cap : Z) (used : list Z) : option Z :=
  head (filter (fun i => i ∉ used) (seqZ 0 cap)).
Definition index_alloc : IndexAlloc := {|
  IndexAllocWord := Z * list Z;
  ia_with_capacity c := (c, []);
  ia_allocate a :=
    match first_unused (fst a) (snd a) with
    | Some i => ((fst a, i :: snd a), Some i)
    | None => (a, None)
    end;
  ia_free a i := (fst a, filter (fun j => j ≠ i) (snd a));
|}.
#[export] Existing Instance index_alloc.

Lemma first_unused_some cap used i :
  first_unused cap used = Some i -> 0 <= i < cap /\ i ∉ used.
Proof.
  unfold first_unused. intros H%head_Some_elem_of.
  apply list_elem_of_filter in H as [Hi Hin]. apply elem_of_seqZ in Hin. split; [lia|done].
Qed.

Lemma first_unused_none cap used i :
  first_unused cap used = None -> 0 <= i < cap -> i ∈ used.
Proof.
  unfold first_unused. intros H Hi. destruct (decide (i ∈ used)) as [|Hn]; [done|].
  apply head_None in H.
  assert (Hin : i ∈ filter (fun j => j ∉ used) (seqZ 0 cap)).
  { apply list_elem_of_filter. split; [done|]. apply elem_of_seqZ. lia. }
  rewrite H in Hin. by apply not_elem_of_nil in Hin.
Qed.

#[export] Instance index_alloc_laws : IndexAllocLaws.
Proof.
  unshelve econstructor; [exact (fun a => fst a)|exact (fun a => list_to_set (snd a))|..]; simpl.
  - done.
  - done.
  - intros [c u] a' i; simpl. destruct (first_unused c u) eqn:E; intros [= <- <-].
    apply first_unused_some in E as [? ?]. split_and!; [lia..| |done|done].
    by rewrite elem_of_list_to_set.
  - intros [c u] a'; simpl. destruct (first_unused c u) eqn:E; intros [= <-].
    split_and!; [|done|done]. intros i Hi. rewrite elem_of_list_to_set.
    by apply (first_unused_none c).
  - intros [c u] i _; simpl. apply set_eq. intros j.
    rewrite elem_of_difference, !elem_of_list_to_set, list_elem_of_filter, elem_of_singleton. tauto.
  - done.
Defined.

(** A cell is whether it is closed and whether a wakeup is stored. *)
Definition wait_cell : WaitCellApi := {|
  WaitCell := bool * bool;
  wc_new := (false, false);
  wc_poll_wait c :=
    if (fst c : bool) then (c, Ready (Err tt))
    else if (snd c : bool) then ((false, false), Ready (Ok tt))
    else (c, Pending);
  wc_wake c := (fst c, true);
  wc_close c := (true, snd c);
|}.
#[export] Existing Instance wait_cell.
#[export] Instance wait_cell_laws : WaitCellLaws.
Proof. unshelve econstructor; [exact (fun c => fst c)|..]; try done; intros [[] []]; simpl. all: try done. Defined.

(** A queue is whether it is closed, whether a wakeup is stored, the next ticket and
    the tickets that wait. *)
Definition wait_queue : WaitQueueApi := {|
  WaitQueue := bool * bool * nat * list nat;
  WaitFut := option nat;
  wq_new := (false, false, 0%nat, []);
  wq_wait := None;
  wq_poll q f :=
    match q with
    | (true, _, _, _) => (q, f, Ready (Err tt))
    | (false, stored, next, waiters) =>
        match f with
        | None => if (stored : bool) then ((false, false, next, waiters), None, Ready (Ok tt))
                  else ((false, false, S next, waiters ++ [next]), Some next, Pending)
        | Some n => if decide (n ∈ waiters) then (q, f, Pending) else (q, f, Ready (Ok tt))
        end
    end;
  wq_wake q :=
    match q with
    | (closed, stored, next, waiters) =>
        match waiters with
        | [] => (closed, true, next, [])
        | _ :: rest => (closed, stored, next, rest)
        end
    end;
  wq_close q := match q with (_, stored, next, waiters) => (true, stored, next, waiters) end;
|}.
#[export] Existing Instance wait_queue.
#[export] Instance wait_queue_laws : WaitQueueLaws.
Proof.
  unshelve econstructor; [exact (fun q => match q with (c, _, _, _) => c end)|..]; try done.
  - by intros [[[]]].
  - by intros [[[c s] n] [|x r]].
  - intros [[[[] []] n] w] [m|]; cbn -[decide]; try case_decide; done.
  - by intros [[[[] s] n] w] f.
  - intros [[[[] []] n] w] [m|]; cbn -[decide]; try case_decide; done.
  - by intros [[[[] []] n] w].
Defined.

#[export] Instance wait_queue_fifo : WaitQueueFifo.
Proof.
  unshelve econstructor.
  - exact (fun q => match q with (_, stored, next, waiters) => mkFifo stored next waiters end).
  - exact (fun f => f).
  - done.
  - done.
  - intros [[[[] []] n] w] [m|]; cbn -[decide]; try case_decide; done.
  - by intros [[[[] s] n] [|x r]].
Defined.

(** One byte per value: a [u8] as postcard encodes it, framed by COBS without the
    zero byte's special case. *)
Definition postcard_byte : Postcard Z := {|
  pc_to_allocvec z := Ok [z];
  pc_to_allocvec_cobs z := Ok [2; z; 0];
  pc_to_slice z buf :=
    match buf with [] => ([], Err (OtherPostcardError 0)) | _ :: rest => (z :: rest, Ok 1%nat) end;
  pc_to_slice_cobs z buf :=
    match buf with
    | _ :: _ :: _ :: rest => (2 :: z :: 0 :: rest, Ok 3%nat)
    | _ => (buf, Err (OtherPostcardError 0))
    end;
  pc_from_bytes bs := match bs with z :: _ => Ok z | [] => Err DeserializeUnexpectedEnd end;
  pc_from_bytes_cobs bs := match bs with [2; z; 0] => Ok z | _ => Err DeserializeBadEncoding end;
  pc_take_from_bytes bs := match bs with z :: rest => Ok (z, rest) | [] => Err DeserializeUnexpectedEnd end;
|}.
#[export] Existing Instance postcard_byte.
#[export] Instance postcard_byte_laws : PostcardLaws Z.
Proof.
  split; cbn.
  - by intros v bs [= <-].
  - by intros v bs [= <-].
  - by intros v bs rest [= <-].
  - intros [|b bs] v rest [= <- <-]. by exists [b].
  - intros v bs [|b buf] [= <-] Hl; cbn in *; [lia|done].
Defined.
End Concrete.
