(* ===== verification/TypeInfo.v ===== *)
(** Run-time type information: [tricky-pipe/src/typeinfo.rs].

    A type-erased handle remembers which type it was made from, and asserts it before it
    goes back to that type.  [core::any::TypeId::of] and [core::any::type_name] are the two
    members of [Any].  The model is of a debug build, as everywhere: a release build has
    only the name, and asserts nothing ([assert_matches_release]). *)
From stdpp Require Import strings.
From S2P Require Import Prelude.

(** [core::any] *)
Class Any (T : Type) := {
  type_id_of : Z;
  type_name : string;
}.
#[global] Arguments type_id_of T {_}.
#[global] Arguments type_name T {_}.

(** [struct TypeInfo]: both fields are functions in the source, since neither value is a
    constant expression. *)
Record TypeInfo := mkTypeInfo { ti_id : unit -> Z; ti_name : unit -> string }.

(** [TypeInfo::of] *)
Definition TypeInfo_of (T : Type) `{Any T} : TypeInfo := mkTypeInfo (fun _ => type_id_of T) (fun _ => type_name T).

(** [TypeInfo::name], [Display] and [Debug] *)
Definition TypeInfo_name (self : TypeInfo) : string := ti_name self tt.
Definition TypeInfo_Display (self : TypeInfo) : string := TypeInfo_name self.
Definition TypeInfo_Debug (self : TypeInfo) : string := TypeInfo_name self.

(** [TypeInfo::assert_matches]: what it panics with, if it does; as a step of a program;
    and in a release build. *)
Definition assert_message (T : Type) `{Any T} (self : TypeInfo) (what : string) : string :=
  "/!\ EXTREMELY SERIOUS WARNING: you would have just done a type confusion, this is Real Bad!" +:+
  String (Ascii.ascii_of_nat 10) EmptyString +:+
  "expected: `" +:+ what +:+ "<" +:+ type_name T +:+ ">`" +:+
  String (Ascii.ascii_of_nat 10) EmptyString +:+
  "   found: `" +:+ what +:+ "<" +:+ TypeInfo_name self +:+ ">`".
Definition matches (T : Type) `{Any T} (self : TypeInfo) : bool := ti_id self tt =? type_id_of T.
Definition assert_matches (T : Type) `{Any T} {S} (self : TypeInfo) (what : string) : M S unit :=
  if matches T self then mret tt else panic.
Definition assert_matches_release (T : Type) {S} (self : TypeInfo) (what : string) : M S unit := mret tt.

(** The assertion holds of the information of the type itself, and fails for that of a type
    with another identifier. *)
Lemma assert_matches_of (T : Type) `{Any T} {S} what (s : S) : assert_matches T (TypeInfo_of T) what s = (s, Val tt).
Proof. unfold assert_matches, matches. cbn. by rewrite Z.eqb_refl. Qed.
Lemma assert_matches_other (T U : Type) `{Any T, Any U} {S} what (s : S) :
  type_id_of T <> type_id_of U -> assert_matches T (TypeInfo_of U) what s = (s, Panic).
Proof. intros Hne. unfold assert_matches, matches. cbn. by destruct (Z.eqb_spec (type_id_of U) (type_id_of T)). Qed.

(** The type of the bytes the examples send. *)
Module ExampleTypes.
#[export] Instance any_u8 : Any Z := {| type_id_of := 8; type_name := "u8" |}.
Example found_u8 : assert_message Z (mkTypeInfo (fun _ => 16) (fun _ => "u16")) "SerBox" =
  "/!\ EXTREMELY SERIOUS WARNING: you would have just done a type confusion, this is Real Bad!
expected: `SerBox<u8>`
   found: `SerBox<u16>`".
Proof. reflexivity. Qed.
End ExampleTypes.
