(* ===== verification/WaitMap.v ===== *)
(** [maitake_sync::WaitMap], as an interface: tasks that wait for a value under a key.

    A [Wait] future belongs to a node of the map.  The laws speak of the status of a node:
    waiting under its key, woken with a value, or shut out by [close]; nodes that were not
    added yet, were polled to the end, or were dropped have none. *)
From S2P Require Import Prelude Interfaces.

(** [enum WaitError] and [enum WakeOutcome<V>]; the enum is non-exhaustive. *)
Inductive MapWaitError : Type :=
| MapClosed | AlreadyConsumed | NeverAdded | Duplicate | OtherWaitError (code : Z).
Inductive WakeOutcome (V : Type) : Type :=
| Woke | WakeClosed (v : V) | NoMatch (v : V).
Arguments Woke {V}.
Arguments WakeClosed {V} v.
Arguments NoMatch {V} v.

Class WaitMapApi (V : Type) := {
  WaitMap : Type;
  MapWait : Type;
  wm_new : WaitMap;
  wm_wait : Z -> MapWait;
  wm_enqueue : WaitMap -> MapWait -> WaitMap * MapWait * poll (result unit MapWaitError);
  wm_poll : WaitMap -> MapWait -> WaitMap * MapWait * poll (result V MapWaitError);
  wm_drop : WaitMap -> MapWait -> WaitMap;
  wm_wake : WaitMap -> Z -> V -> WaitMap * WakeOutcome V;
  wm_close : WaitMap -> WaitMap;
}.

Inductive wait_status (V : Type) : Type :=
| Waiting (key : Z) | Woken (v : V) | ShutOut.
Arguments Waiting {V} key.
Arguments Woken {V} v.
Arguments ShutOut {V}.

Class WaitMapLaws (V : Type) {WMA : WaitMapApi V} := {
  wm_closed : WaitMap -> bool;
  wm_status : WaitMap -> MapWait -> option (wait_status V);
  wm_keys : WaitMap -> gset Z;
  (** Nodes are told apart by their addresses. *)
  #[global] mw_eq_dec :: EqDecision MapWait;
  wm_new_closed : wm_closed wm_new = false;
  wm_new_status g : wm_status wm_new g = None;
  wm_keys_spec m k : k ∈ wm_keys m <-> exists g, wm_status m g = Some (Waiting k);
  wm_waiting_unique m g h k : wm_status m g = Some (Waiting k) -> wm_status m h = Some (Waiting k) -> g = h;
  wm_waiting_open m g k : wm_status m g = Some (Waiting k) -> wm_closed m = false;
  wm_shut_closed m g : wm_status m g = Some ShutOut -> wm_closed m = true;
  (** The node is added unless the map is closed or the key taken. *)
  wm_enqueue_closed m k : wm_closed m = true ->
    wm_enqueue m (wm_wait k) = (m, wm_wait k, Ready (Err MapClosed));
  wm_enqueue_duplicate m k : wm_closed m = false -> k ∈ wm_keys m ->
    wm_enqueue m (wm_wait k) = (m, wm_wait k, Ready (Err Duplicate));
  wm_enqueue_ok m k : wm_closed m = false -> k ∉ wm_keys m ->
    exists m' f, wm_enqueue m (wm_wait k) = (m', f, Ready (Ok tt)) /\ wm_status m f = None /\
      wm_status m' f = Some (Waiting k) /\ (forall g, g <> f -> wm_status m' g = wm_status m g) /\ wm_closed m' = false;
  (** A poll takes the value. *)
  wm_poll_waiting m f k : wm_status m f = Some (Waiting k) -> wm_poll m f = (m, f, Pending);
  wm_poll_ready m f s : wm_status m f = Some s -> (forall k, s <> Waiting k) ->
    exists m', wm_poll m f = (m', f, Ready (match s with Woken v => Ok v | _ => Err MapClosed end)) /\
      wm_status m' f = None /\ (forall g, g <> f -> wm_status m' g = wm_status m g) /\ wm_closed m' = wm_closed m;
  wm_drop_none m f : wm_status (wm_drop m f) f = None;
  wm_drop_other m f g : g <> f -> wm_status (wm_drop m f) g = wm_status m g;
  wm_drop_new m k : wm_drop m (wm_wait k) = m;
  wm_drop_closed m f : wm_closed (wm_drop m f) = wm_closed m;
  wm_wake_closed m k v : wm_closed m = true -> wm_wake m k v = (m, WakeClosed v);
  wm_wake_none m k v : wm_closed m = false -> k ∉ wm_keys m -> wm_wake m k v = (m, NoMatch v);
  wm_wake_some m k v g : wm_status m g = Some (Waiting k) ->
    exists m', wm_wake m k v = (m', Woke) /\ wm_status m' g = Some (Woken v) /\
      (forall h, h <> g -> wm_status m' h = wm_status m h) /\ wm_closed m' = false;
  wm_close_closed m : wm_closed (wm_close m) = true;
  wm_close_status m g :
    wm_status (wm_close m) g = match wm_status m g with Some (Waiting _) => Some ShutOut | s => s end;
}.

(** ** An instance that meets the laws *)

Module ConcreteMap.
Section Map.
Context {V : Type}.

(** Whether the map is closed, the node that waits under each key, and the values of woken
    nodes.  A node is its key and a number. *)
Record wmap := mkWmap { closed : bool; waiting : gmap Z nat; woken : gmap (Z * nat) V }.
Inductive wait := WNew (key : Z) | WNode (node : Z * nat).

#[export] Instance wait_eq_dec : EqDecision wait.
Proof. solve_decision. Defined.

Definition next_node (m : wmap) : nat := S (max_list ((fun p => snd (fst p)) <$> map_to_list (woken m))).
Definition remove_node (m : wmap) (n : Z * nat) : wmap :=
  mkWmap (closed m) (if decide (waiting m !! fst n = Some (snd n)) then delete (fst n) (waiting m) else waiting m)
    (delete n (woken m)).
Definition status (m : wmap) (f : wait) : option (wait_status V) :=
  match f with
  | WNew _ => None
  | WNode n =>
      if decide (waiting m !! fst n = Some (snd n)) then Some (if closed m then ShutOut else Waiting (fst n))
      else Woken <$> woken m !! n
  end.

#[export] Instance wait_map : WaitMapApi V := {|
  WaitMap := wmap;
  MapWait := wait;
  wm_new := mkWmap false ∅ ∅;
  wm_wait := WNew;
  wm_enqueue m f :=
    match f with
    | WNode _ => (m, f, Ready (Err AlreadyConsumed))
    | WNew k =>
        if closed m then (m, f, Ready (Err MapClosed))
        else match waiting m !! k with
             | Some _ => (m, f, Ready (Err Duplicate))
             | None => (mkWmap false (<[k := next_node m]> (waiting m)) (woken m), WNode (k, next_node m), Ready (Ok tt))
             end
    end;
  wm_poll m f :=
    match f with
    | WNew _ => (m, f, Ready (Err NeverAdded))
    | WNode n =>
        match status m f with
        | Some (Waiting _) => (m, f, Pending)
        | Some (Woken v) => (remove_node m n, f, Ready (Ok v))
        | Some ShutOut => (remove_node m n, f, Ready (Err MapClosed))
        | None => (m, f, Ready (Err AlreadyConsumed))
        end
    end;
  wm_drop m f := match f with WNew _ => m | WNode n => remove_node m n end;
  wm_wake m k v :=
    if closed m then (m, WakeClosed v)
    else match waiting m !! k with
         | None => (m, NoMatch v)
         | Some n => (mkWmap false (delete k (waiting m)) (<[(k, n) := v]> (woken m)), Woke)
         end;
  wm_close m := mkWmap true (waiting m) (woken m);
|}.

Lemma next_node_fresh m k : woken m !! (k, next_node m) = None.
Proof.
  destruct (woken m !! (k, next_node m)) as [v|] eqn:H; [|done]. exfalso.
  apply elem_of_map_to_list in H.
  assert (Hin : next_node m ∈ (fun p => snd (fst p)) <$> map_to_list (woken m))
    by (apply list_elem_of_fmap; by exists (k, next_node m, v)).
  apply max_list_elem_of_le in Hin. unfold next_node in Hin. lia.
Qed.

Lemma remove_node_none m n : status (remove_node m n) (WNode n) = None.
Proof.
  unfold status, remove_node. destruct n as [k i]. cbn. rewrite lookup_delete_eq. cbn.
  destruct (decide (waiting m !! k = Some i)) as [Hw|Hw]; [rewrite lookup_delete_eq; by rewrite decide_False|].
  by rewrite decide_False.
Qed.
Lemma remove_node_other m n g : g <> WNode n -> status (remove_node m n) g = status m g.
Proof.
  intros Hne. destruct g as [k|[k j]]; [done|]. destruct n as [k' i]. unfold status, remove_node. cbn.
  rewrite lookup_delete_ne by congruence.
  destruct (decide (waiting m !! k' = Some i)) as [Hw|Hw]; [|done].
  destruct (decide (k' = k)) as [->|Hk]; [|by rewrite lookup_delete_ne].
  rewrite lookup_delete_eq, Hw. rewrite !decide_False; [done|congruence..].
Qed.
(** A task is added under a free key. *)
Lemma enqueue_open m k : closed m = false -> waiting m !! k = None ->
  exists m' f, wm_enqueue m (wm_wait k) = (m', f, Ready (Ok tt)) /\ status m f = None /\
    status m' f = Some (Waiting k) /\ (forall g, g <> f -> status m' g = status m g) /\ closed m' = false.
Proof.
  intros Hc Hk. cbn. rewrite Hc, Hk. eexists _, _. split; [done|]. split; [|split; [|split; [|done]]].
  - cbn. rewrite Hk, decide_False by done. by rewrite next_node_fresh.
  - cbn. by rewrite lookup_insert_eq, decide_True.
  - intros [|[k' n']] Hne; cbn; [done|]. destruct (decide (k = k')) as [->|Hkk].
    + rewrite lookup_insert_eq, Hk. rewrite !decide_False; [done|done|congruence].
    + rewrite lookup_insert_ne by done. by rewrite Hc.
Qed.
(** The task that waits under a key gets the value. *)
Lemma wake_waiting m k v g : status m g = Some (Waiting k) ->
  exists m', wm_wake m k v = (m', Woke) /\ status m' g = Some (Woken v) /\
    (forall h, h <> g -> status m' h = status m h) /\ closed m' = false.
Proof.
  destruct g as [|[k' n]]; intros H; cbn in H; [done|]. case_decide as Hw; [|by destruct (woken m !! _)].
  destruct (closed m) eqn:Hc; simplify_eq. cbn in Hw |- *. rewrite Hc, Hw. eexists. split; [done|].
  split; [|split; [|done]].
  - cbn. rewrite lookup_delete_eq, lookup_insert_eq. by rewrite decide_False.
  - intros [|[k' n']] Hne; cbn; [done|]. rewrite lookup_insert_ne by congruence.
    destruct (decide (k = k')) as [->|Hkk].
    + rewrite lookup_delete_eq, Hw. rewrite !decide_False; [done|congruence..].
    + by rewrite lookup_delete_ne, Hc.
Qed.
End Map.
Arguments wmap : clear implicits.

#[export] Instance wait_map_laws {V} : WaitMapLaws V.
Proof.
  unshelve econstructor.
  - exact closed.
  - exact status.
  - exact (fun m => if closed m then ∅ else dom (waiting m)).
  - intros f g. cbn in *. apply wait_eq_dec.
  - done.
  - intros [k|[k n]]; done.
  - intros m k. cbn. unfold status. split.
    + destruct (closed m) eqn:Hc; [set_solver|]. intros [n Hn]%elem_of_dom. exists (WNode (k, n)). cbn.
      by rewrite decide_True.
    + intros [[k'|[k' n]] H]; cbn in H; [done|]. case_decide as Hw; [|by destruct (woken m !! (k', n))].
      destruct (closed m); simplify_eq. by apply elem_of_dom_2 in Hw.
  - intros m [|[k1 n1]] [|[k2 n2]] k; cbn; try done. intros H1 H2.
    case_decide; [|by destruct (woken m !! (k2, n2))]. case_decide; [|by destruct (woken m !! (k1, n1))].
    destruct (closed m); simplify_eq/=; congruence.
  - intros m [|[k1 n1]] k; cbn; [done|]. case_decide; [|by destruct (woken m !! _)]. by destruct (closed m).
  - intros m [|[k1 n1]]; cbn; [done|]. case_decide; [|by destruct (woken m !! _)]. by destruct (closed m).
  - cbn. intros m k ->. done.
  - cbn. intros m k ->. intros [n ->]%elem_of_dom. done.
  - intros m k Hc Hk. cbn in Hc, Hk. rewrite Hc in Hk. apply not_elem_of_dom in Hk. by apply enqueue_open.
  - cbn. intros m [|n] k H; cbn in *; [done|]. by rewrite H.
  - cbn. intros m [|n] s H Hs; cbn in *; [done|]. rewrite H. destruct s as [k|v|]; [by destruct (Hs k)|..];
      (eexists _; split; [done|]; split; [apply remove_node_none|]; split; [intros; by apply remove_node_other|done]).
  - cbn. intros m [|n]; [done|]. apply remove_node_none.
  - cbn. intros m [|n] g H; [done|]. by apply remove_node_other.
  - done.
  - cbn. by intros m [|n].
  - cbn. intros m k v ->. done.
  - cbn. intros m k v Hc. rewrite Hc. intros Hk%not_elem_of_dom. by rewrite Hk.
  - exact wake_waiting.
  - done.
  - cbn. intros m [|[k n]]; cbn; [done|]. case_decide; [by destruct (closed m)|]. by destruct (woken m !! _).
Defined.
End ConcreteMap.
