(* ===== verification/Errors.v ===== *)
(** The error values of the channels: [tricky-pipe/src/mpsc/error.rs]. *)
From S2P Require Import Prelude Interfaces.

(** [SendError<E, T>] *)
Inductive SendError (E T : Type) : Type :=
| SendDisconnected (message : T)
| SendErrorWith (message : T) (error : E).
Arguments SendDisconnected {E T} message.
Arguments SendErrorWith {E T} message error.

(** [TrySendError<E, T>] *)
Inductive TrySendError (E T : Type) : Type :=
| TrySendFull (message : T)
| TrySendDisconnected (message : T)
| TrySendErrorWith (message : T) (error : E).
Arguments TrySendFull {E T} message.
Arguments TrySendDisconnected {E T} message.
Arguments TrySendErrorWith {E T} message error.

(** [TryRecvError<E>] *)
Inductive TryRecvError (E : Type) : Type :=
| TryRecvEmpty
| TryRecvDisconnected
| TryRecvErrorWith (error : E).
Arguments TryRecvEmpty {E}.
Arguments TryRecvDisconnected {E}.
Arguments TryRecvErrorWith {E} error.

(** [RecvError<E>] *)
Inductive RecvError (E : Type) : Type :=
| RecvDisconnected
| RecvErrorWith (error : E).
Arguments RecvDisconnected {E}.
Arguments RecvErrorWith {E} error.

(** [SerSendError<E>] *)
Inductive SerSendError (E : Type) : Type :=
| SerSendDisconnected
| SerSendDeserialize (error : PostcardError)
| SerSendErrorWith (error : E).
Arguments SerSendDisconnected {E}.
Arguments SerSendDeserialize {E} error.
Arguments SerSendErrorWith {E} error.

(** [SerTrySendError<E>] *)
Inductive SerTrySendError (E : Type) : Type :=
| SerTrySendDisconnected
| SerTrySendFull
| SerTrySendDeserialize (error : PostcardError)
| SerTrySendErrorWith (error : E).
Arguments SerTrySendDisconnected {E}.
Arguments SerTrySendFull {E}.
Arguments SerTrySendDeserialize {E} error.
Arguments SerTrySendErrorWith {E} error.

Module SendErr.
  (** [SendError::into_inner] *)
Definition into_inner {E T} (self : SendError E T) : T :=
  match self with
  | SendDisconnected msg => msg
  | SendErrorWith message _ => message
  end.

  (** [SendError::with_message] *)
Definition with_message {E T N} (self : SendError E T) (message : N) : SendError E N :=
  match self with
  | SendDisconnected _ => SendDisconnected message
  | SendErrorWith _ error => SendErrorWith message error
  end.
End SendErr.

Module TrySendErr.
  (** [TrySendError::into_inner] *)
Definition into_inner {E T} (self : TrySendError E T) : T :=
  match self with
  | TrySendDisconnected inner => inner
  | TrySendFull t => t
  | TrySendErrorWith message _ => message
  end.

  (** [TrySendError::with_message] *)
Definition with_message {E T N} (self : TrySendError E T) (message : N) : TrySendError E N :=
  match self with
  | TrySendDisconnected _ => TrySendDisconnected message
  | TrySendFull _ => TrySendFull message
  | TrySendErrorWith _ error => TrySendErrorWith message error
  end.
End TrySendErr.

(** [SerSendError::from_send_error] *)
Definition from_send_error {E} (err : SendError E unit) : SerSendError E :=
  match err with
  | SendDisconnected _ => SerSendDisconnected
  | SendErrorWith _ error => SerSendErrorWith error
  end.

(** [SerTrySendError::from_try_send_error] *)
Definition from_try_send_error {E} (err : TrySendError E unit) : SerTrySendError E :=
  match err with
  | TrySendDisconnected _ => SerTrySendDisconnected
  | TrySendErrorWith _ error => SerTrySendErrorWith error
  | TrySendFull _ => SerTrySendFull
  end.

(** [SerTrySendError::from_ser_send_error] *)
Definition from_ser_send_error {E} (err : SerSendError E) : SerTrySendError E :=
  match err with
  | SerSendDisconnected => SerTrySendDisconnected
  | SerSendErrorWith e => SerTrySendErrorWith e
  | SerSendDeserialize e => SerTrySendDeserialize e
  end.
