(* ===== verification/Core.v ===== *)
(** The shared core of a channel: [tricky-pipe/src/mpsc/channel_core.rs].

    The data ([Core], [Reservation], the packed [state] word, the position words)
    and every operation of [impl Core], one definition per method, as stateful
    computations over the atomics.  Here an operation runs without interference
    (compare-and-swap succeeds exactly when the values agree); [CoreConc] runs the
    same loops one atomic access at a time.  The target has 64-bit [usize], on which
    the source gives a capacity of at most 64. *)
From S2P Require Import Prelude Interfaces Errors.

(** ** Constants *)

(** [IndexAllocWord::MAX_CAPACITY] on a 64-bit target. *)
Definition MAX_CAPACITY : Z := 64.

(** [u16::trailing_ones] *)
Fixpoint trailing_ones (width : nat) (z : Z) : Z :=
  match width with
  | O => 0
  | S w => if Z.odd z then 1 + trailing_ones w (Z.shiftr z 1) else 0
  end.

Definition CLOSED : Z := Z.shiftl 1 0.
Definition MASK : Z := MAX_CAPACITY - 1.
Definition POS_SHIFT : Z := trailing_ones 16 MASK.
Definition POS_ONE : Z := u16_shl 1 POS_SHIFT.
Definition LAP_ONE : Z := u16_shl MASK POS_SHIFT.

#[global] Arguments CLOSED : simpl never.
#[global] Arguments MASK : simpl never.
#[global] Arguments POS_SHIFT : simpl never.
#[global] Arguments POS_ONE : simpl never.
#[global] Arguments LAP_ONE : simpl never.

(** The packed [state] word ([mod state]). *)
Section StateWord.
Context {PU : PackUsize}.
Definition RX_CLAIMED : Pack := least_significant 1.
Definition ERRORING : Pack := pack_next RX_CLAIMED 1.
Definition ERRORED : Pack := pack_next ERRORING 1.
Definition TX_CNT : Pack := pack_remaining ERRORED.
Definition TX_ONE : Z := first_bit TX_CNT.
Definition TX_SHIFT : Z := least_significant_index TX_CNT.
End StateWord.

(** A reserved index of the elements array. *)
Record Reservation := mkReservation { idx : Z }.

Section Core.
Context {PU : PackUsize} {IA : IndexAlloc} {WCA : WaitCellApi} {WQA : WaitQueueApi}.
Context {E : Type}.

(** [struct Core<E>]; [error] is [None] while the cell is uninitialised. *)
Record Core := mkCore {
  dequeue_pos : Z;
  cons_wait : WaitCell;
  enqueue_pos : Z;
  prod_wait : WaitQueue;
  indices : IndexAllocWord;
  queue : list Z;
  state : Z;
  capacity : Z;
  error : option E;
}.

Definition set_dequeue_pos (v : Z) (c : Core) : Core :=
  mkCore v (cons_wait c) (enqueue_pos c) (prod_wait c) (indices c) (queue c) (state c) (capacity c) (error c).
Definition set_cons_wait (v : WaitCell) (c : Core) : Core :=
  mkCore (dequeue_pos c) v (enqueue_pos c) (prod_wait c) (indices c) (queue c) (state c) (capacity c) (error c).
Definition set_enqueue_pos (v : Z) (c : Core) : Core :=
  mkCore (dequeue_pos c) (cons_wait c) v (prod_wait c) (indices c) (queue c) (state c) (capacity c) (error c).
Definition set_prod_wait (v : WaitQueue) (c : Core) : Core :=
  mkCore (dequeue_pos c) (cons_wait c) (enqueue_pos c) v (indices c) (queue c) (state c) (capacity c) (error c).
Definition set_indices (v : IndexAllocWord) (c : Core) : Core :=
  mkCore (dequeue_pos c) (cons_wait c) (enqueue_pos c) (prod_wait c) v (queue c) (state c) (capacity c) (error c).
Definition set_queue (v : list Z) (c : Core) : Core :=
  mkCore (dequeue_pos c) (cons_wait c) (enqueue_pos c) (prod_wait c) (indices c) v (state c) (capacity c) (error c).
Definition set_state (v : Z) (c : Core) : Core :=
  mkCore (dequeue_pos c) (cons_wait c) (enqueue_pos c) (prod_wait c) (indices c) (queue c) v (capacity c) (error c).
Definition set_error (v : option E) (c : Core) : Core :=
  mkCore (dequeue_pos c) (cons_wait c) (enqueue_pos c) (prod_wait c) (indices c) (queue c) (state c) (capacity c) v.

(** *** Atomic accesses *)

Definition dequeue_pos_load : M Core Z := gets dequeue_pos.
Definition enqueue_pos_load : M Core Z := gets enqueue_pos.
Definition dequeue_pos_fetch_or (v : Z) : M Core Z := fun c =>
  (set_dequeue_pos (Z.lor (dequeue_pos c) v) c, Val (dequeue_pos c)).
Definition enqueue_pos_fetch_or (v : Z) : M Core Z := fun c =>
  (set_enqueue_pos (Z.lor (enqueue_pos c) v) c, Val (enqueue_pos c)).
(** [compare_exchange]: [Ok] the expected value after a store, [Err] the actual one. *)
Definition dequeue_pos_cas (expected new : Z) : M Core (result Z Z) := fun c =>
  if dequeue_pos c =? expected then (set_dequeue_pos new c, Val (Ok expected))
  else (c, Val (Err (dequeue_pos c))).
Definition enqueue_pos_cas (expected new : Z) : M Core (result Z Z) := fun c =>
  if enqueue_pos c =? expected then (set_enqueue_pos new c, Val (Ok expected))
  else (c, Val (Err (enqueue_pos c))).
Definition slot_load (i : Z) : M Core Z := fun c =>
  match queue c !! Z.to_nat i with Some v => (c, Val v) | None => (c, Panic) end.
Definition slot_store (i v : Z) : M Core unit := fun c =>
  match queue c !! Z.to_nat i with
  | Some _ => (set_queue (<[Z.to_nat i := v]> (queue c)) c, Val tt)
  | None => (c, Panic)
  end.
Definition state_load : M Core Z := gets state.
Definition state_fetch_or (v : Z) : M Core Z := fun c =>
  (set_state (Z.lor (state c) v) c, Val (state c)).
Definition state_fetch_add (v : Z) : M Core Z := fun c =>
  (set_state (usize_wrapping_add (state c) v) c, Val (state c)).
Definition state_fetch_sub (v : Z) : M Core Z := fun c =>
  (set_state (usize_wrapping_sub (state c) v) c, Val (state c)).

Definition indices_allocate : M Core (option Z) := fun c =>
  match ia_allocate (indices c) with (a, r) => (set_indices a c, Val r) end.
Definition indices_free (i : Z) : M Core unit := fun c =>
  (set_indices (ia_free (indices c) i) c, Val tt).
Definition cons_wait_wake : M Core unit := fun c => (set_cons_wait (wc_wake (cons_wait c)) c, Val tt).
Definition cons_wait_close : M Core unit := fun c => (set_cons_wait (wc_close (cons_wait c)) c, Val tt).
Definition cons_wait_poll : M Core (poll (result unit unit)) := fun c =>
  match wc_poll_wait (cons_wait c) with (w, p) => (set_cons_wait w c, Val p) end.
Definition prod_wait_wake : M Core unit := fun c => (set_prod_wait (wq_wake (prod_wait c)) c, Val tt).
Definition prod_wait_close : M Core unit := fun c => (set_prod_wait (wq_close (prod_wait c)) c, Val tt).
Definition prod_wait_poll (f : WaitFut) : M Core (WaitFut * poll (result unit unit)) := fun c =>
  match wq_poll (prod_wait c) f with (w, f', p) => (set_prod_wait w c, Val (f', p)) end.
Definition error_write (e : E) : M Core unit := fun c => (set_error (Some e) c, Val tt).
(** [assume_init_ref]: reading an uninitialised error is undefined behaviour, which
    the model makes visible as a panic. *)
Definition error_read : M Core E := fun c =>
  match error c with Some e => (c, Val e) | None => (c, Panic) end.

(** *** [impl<E> Core<E>] *)

(** The core [Core::new] builds. *)
Definition new_core (cap : Z) : Core := {|
  dequeue_pos := 0;
  cons_wait := wc_new;
  enqueue_pos := 0;
  prod_wait := wq_new;
  indices := ia_with_capacity cap;
  queue := (fun i => u16_shl i POS_SHIFT) <$> seqZ 0 MAX_CAPACITY;
  state := TX_ONE;
  capacity := cap;
  error := None;
|}.

(** [Core::new], whose first statement is a [debug_assert!]. *)
Definition new (cap : Z) : outcome Core :=
  if cap <=? MAX_CAPACITY then Val (new_core cap) else Panic.

(** [Core::uncommit], which is also [Drop for Reservation]. *)
Definition uncommit (i : Z) : M Core unit :=
  indices_free i;; prod_wait_wake.

Definition try_claim_rx : M Core (option unit) :=
  st ← state_fetch_or (first_bit RX_CLAIMED);
  let claimed := negb (contained_in_any RX_CLAIMED st) in
  mret (if claimed then Some tt else None).

Definition close_rx : M Core unit :=
  enqueue_pos_fetch_or CLOSED;; prod_wait_close.

Definition close_tx : M Core unit :=
  dequeue_pos_fetch_or CLOSED;; cons_wait_close.

Definition close_with_error (e : E) : M Core bool :=
  let cant_error := Z.lor (first_bit ERRORING) (first_bit ERRORED) in
  st ← state_fetch_or (first_bit ERRORING);
  if negb (Z.land st cant_error =? 0) then mret false
  else
    error_write e;;
    state_fetch_or (first_bit ERRORED);;
    close_rx;;
    close_tx;;
    mret true.

Definition add_tx : M Core unit :=
  state_fetch_add TX_ONE;; mret tt.

Definition drop_tx : M Core unit :=
  st ← state_fetch_sub TX_ONE;
  let refs := Z.shiftr st TX_SHIFT in
  if refs =? 1 then
    v ← state_fetch_or 0;
    (* debug_assert_eq! *)
    if Z.shiftr v TX_SHIFT =? 0 then close_tx else panic
  else mret tt.

Definition is_empty : M Core bool :=
  enq ← enqueue_pos_load;
  deq ← dequeue_pos_load;
  mret (enq =? deq).

Definition is_full : M Core bool :=
  enq ← enqueue_pos_load;
  deq ← dequeue_pos_load;
  mret (u16_wrapping_add deq POS_ONE =? enq).

(** [Core::len]; the loop retries until the tail is stable. *)
Fixpoint len_loop (fuel : nat) : M Core Z :=
  match fuel with
  | O => out_of_fuel
  | S fuel =>
      enq ← enqueue_pos_load;
      deq ← dequeue_pos_load;
      enq' ← enqueue_pos_load;
      if enq' =? enq then
        let head := Z.land (u16_shr deq POS_SHIFT) MASK in
        let tail := Z.land (u16_shr deq POS_SHIFT) MASK in
        match head ?= tail with
        | Lt => mret (tail - head)
        | Eq => mret 0
        | Gt => cap ← gets capacity; expect (usize_checked_sub cap (head + tail))
        end
      else len_loop fuel
  end.
Definition len : M Core Z := len_loop 1.

(** [Core::close_reason] *)
Definition close_reason : M Core (option E) :=
  st ← state_load;
  if contained_in_any ERRORED st then e ← error_read; mret (Some e) else mret None.

(** [Core::try_reserve] *)
Definition try_reserve : M Core (result Reservation (TrySendError E unit)) :=
  enq ← enqueue_pos_load;
  if Z.land enq CLOSED =? CLOSED then
    reason ← close_reason;
    mret (Err match reason with
              | Some e => TrySendErrorWith tt e
              | None => TrySendDisconnected tt
              end)
  else
    i ← indices_allocate;
    mret (result_map mkReservation (ok_or i (TrySendFull tt))).

(** The future of [Core::reserve]: about to try, or waiting for capacity. *)
Inductive ReserveFuture : Type :=
| ReserveStart
| ReserveWaiting (w : WaitFut).

(** One poll of [Core::reserve]. *)
Fixpoint reserve_poll (fuel : nat) (f : ReserveFuture)
    : M Core (ReserveFuture * poll (result Reservation (SendError E unit))) :=
  match fuel with
  | O => out_of_fuel
  | S fuel =>
      match f with
      | ReserveStart =>
          r ← try_reserve;
          match r with
          | Ok res => mret (f, Ready (Ok res))
          | Err (TrySendDisconnected _) => mret (f, Ready (Err (SendDisconnected tt)))
          | Err (TrySendErrorWith _ e) => mret (f, Ready (Err (SendErrorWith tt e)))
          | Err (TrySendFull _) => reserve_poll fuel (ReserveWaiting wq_wait)
          end
      | ReserveWaiting w =>
          wp ← prod_wait_poll w;
          match wp with
          | (w', Pending) => mret (ReserveWaiting w', Pending)
          | (w', Ready (Ok _)) => reserve_poll fuel ReserveStart
          | (w', Ready (Err _)) =>
              reason ← close_reason;
              mret (ReserveWaiting w', Ready (Err match reason with
                                            | Some e => SendErrorWith tt e
                                            | None => SendDisconnected tt
                                            end))
          end
      end
  end.

(** [Core::try_dequeue]: the loop, from the value of [dequeue_pos] last seen. *)
Fixpoint try_dequeue_loop (fuel : nat) (head : Z) : M Core (result Reservation (TryRecvError E)) :=
  match fuel with
  | O => out_of_fuel
  | S fuel =>
      let pos := u16_shr head POS_SHIFT in
      let slot := Z.land pos MASK in
      v ← slot_load slot;
      let seq := u16_shr v POS_SHIFT in
      let dif := i16_wrapping_sub (as_i16 seq) (as_i16 (u16_wrapping_add pos 1)) in
      match dif ?= 0 with
      | Lt =>
          if negb (Z.land head CLOSED =? 0) then
            reason ← close_reason;
            mret (Err match reason with
                      | Some e => TryRecvErrorWith e
                      | None => TryRecvDisconnected
                      end)
          else mret (Err TryRecvEmpty)
      | Eq =>
          r ← dequeue_pos_cas head (u16_wrapping_add head POS_ONE);
          match r with
          | Ok _ =>
              slot_store slot (u16_wrapping_add v LAP_ONE);;
              mret (Ok (mkReservation (Z.land v MASK)))
          | Err actual => try_dequeue_loop fuel actual
          end
      | Gt => head' ← dequeue_pos_load; try_dequeue_loop fuel head'
      end
  end.
Definition try_dequeue : M Core (result Reservation (TryRecvError E)) :=
  head ← dequeue_pos_load; try_dequeue_loop 1 head.

(** One call of [Core::poll_dequeue]. *)
Fixpoint poll_dequeue_loop (fuel : nat) : M Core (poll (result Reservation (RecvError E))) :=
  match fuel with
  | O => out_of_fuel
  | S fuel =>
      r ← try_dequeue;
      match r with
      | Ok res => mret (Ready (Ok res))
      | Err TryRecvDisconnected => mret (Ready (Err RecvDisconnected))
      | Err (TryRecvErrorWith e) => mret (Ready (Err (RecvErrorWith e)))
      | Err TryRecvEmpty =>
          p ← cons_wait_poll;
          match p with
          | Pending => mret Pending
          | Ready _ => poll_dequeue_loop fuel
          end
      end
  end.
Definition poll_dequeue : M Core (poll (result Reservation (RecvError E))) := poll_dequeue_loop 2.

(** [Core::commit_send]: the loop, from the value of [enqueue_pos] last seen. *)
Fixpoint commit_send_loop (fuel : nat) (i tail : Z) : M Core (result unit (SendError E unit)) :=
  match fuel with
  | O => out_of_fuel
  | S fuel =>
      if Z.land tail CLOSED =? CLOSED then
        reason ← close_reason;
        mret (Err match reason with
                  | Some e => SendErrorWith tt e
                  | None => SendDisconnected tt
                  end)
      else
        let pos := u16_shr tail POS_SHIFT in
        let slot := Z.land pos MASK in
        v ← slot_load slot;
        let seq := u16_shr v POS_SHIFT in
        let dif := i16_wrapping_sub (as_i16 seq) (as_i16 pos) in
        match dif ?= 0 with
        | Lt => panic (* unreachable! *)
        | Eq =>
            r ← enqueue_pos_cas tail (u16_wrapping_add tail POS_ONE);
            match r with
            | Ok _ =>
                let new := u16_shl (u16_wrapping_add pos 1) POS_SHIFT in
                slot_store slot (Z.lor i new);;
                cons_wait_wake;;
                mret (Ok tt)
            | Err actual => commit_send_loop fuel i actual
            end
        | Gt => tail' ← enqueue_pos_load; commit_send_loop fuel i tail'
        end
  end.
Definition core_commit_send (i : Z) : M Core (result unit (SendError E unit)) :=
  (* debug_assert! *)
  if i <=? MASK then tail ← enqueue_pos_load; commit_send_loop 1 i tail else panic.

(** [Reservation::commit_send]: the destructor of the reservation does not run. *)
Definition commit_send (res : Reservation) : M Core (result unit (SendError E unit)) :=
  core_commit_send (idx res).

End Core.
Arguments Core {IA WCA WQA} E.
