(* ===== verification/CoreWord.v ===== *)
(** Arithmetic of the packed words of the channel core: the 16-bit position words
    ([enqueue_pos], [dequeue_pos] and the slots of the queue array) and the bits of
    the [state] word.  A position word is [word p r]: a 10-bit position [p] above six
    low bits [r], which hold the [CLOSED] flag in the position words and an index of
    the elements array in the slots. *)
From S2P Require Import Prelude Interfaces Errors Core.

Definition word (p r : Z) : Z := p * 64 + r.
(** A position word with its closed flag. *)
Definition pos_word (p : Z) (closed : bool) : Z := word p (Z.b2z closed).

Lemma consts : MASK = 63 /\ POS_SHIFT = 6 /\ POS_ONE = 64 /\ LAP_ONE = 4032 /\ CLOSED = 1.
Proof. done. Qed.

Lemma land_mask z : Z.land z MASK = z mod 64.
Proof. by apply (Z.land_ones z 6). Qed.

Lemma word_pos p r : 0 <= r < 64 -> u16_shr (word p r) POS_SHIFT = p.
Proof. intros. unfold u16_shr, word. rewrite Z.shiftr_div_pow2 by done. change (2 ^ POS_SHIFT) with 64. mlia. Qed.

Lemma word_low p r : 0 <= r < 64 -> Z.land (word p r) MASK = r.
Proof. intros. rewrite land_mask. unfold word. mlia. Qed.

Lemma pos_word_pos p b : u16_shr (pos_word p b) POS_SHIFT = p.
Proof. apply word_pos. destruct b; simpl; lia. Qed.

Lemma pos_word_closed p b : Z.land (pos_word p b) CLOSED = Z.b2z b.
Proof.
  unfold pos_word, word. rewrite (Z.land_ones _ 1) by done. change (2 ^ 1) with 2.
  destruct b; simpl; mlia.
Qed.

Lemma pos_word_closed_eqb p b : (Z.land (pos_word p b) CLOSED =? CLOSED) = b.
Proof. rewrite pos_word_closed. by destruct b. Qed.

Lemma pos_word_closed_eqb0 p b : (Z.land (pos_word p b) CLOSED =? 0) = negb b.
Proof. rewrite pos_word_closed. by destruct b. Qed.

Lemma pos_word_inj p p' b b' : pos_word p b = pos_word p' b' -> p = p' /\ b = b'.
Proof. unfold pos_word, word. destruct b, b'; simpl; intros; split; (done || lia). Qed.

(** Setting the flag, which bit 0 holds. *)
Lemma pos_word_close p b : Z.lor (pos_word p b) CLOSED = pos_word p true.
Proof.
  pose proof (Z.add_lor_land (pos_word p b) CLOSED) as H. rewrite pos_word_closed in H.
  change CLOSED with 1 in *. unfold pos_word, word in *. destruct b; simpl in *; lia.
Qed.

(** One position further; the 10-bit position wraps, the flag stays. *)
Lemma pos_word_next p b :
  0 <= p < 1024 -> u16_wrapping_add (pos_word p b) POS_ONE = pos_word ((p + 1) mod 1024) b.
Proof.
  intros. change POS_ONE with 64. unfold u16_wrapping_add, u16_wrap, u16_mod, pos_word, word.
  destruct b; simpl; mlia.
Qed.

(** Releasing a slot: the sequence number moves from [p + 1] to the next lap. *)
Lemma word_lap p r :
  0 <= p < 1024 -> 0 <= r < 64 ->
  u16_wrapping_add (word p r) LAP_ONE = word ((p + 63) mod 1024) r.
Proof.
  intros. change LAP_ONE with 4032. unfold u16_wrapping_add, u16_wrap, u16_mod, word. mlia.
Qed.

(** The word a sender publishes. *)
Lemma word_publish p i :
  0 <= p < 1024 -> 0 <= i < 64 ->
  Z.lor i (u16_shl (u16_wrapping_add p 1) POS_SHIFT) = word ((p + 1) mod 1024) i.
Proof.
  intros. change POS_SHIFT with 6. unfold u16_shl, u16_wrapping_add, u16_wrap, u16_mod, word.
  rewrite (Z.mod_small (p + 1)) by lia. rewrite Z.shiftl_mul_pow2 by lia. change (2 ^ 6) with 64.
  replace (((p + 1) * 64) mod 65536) with (((p + 1) mod 1024) * 64) by mlia.
  set (x := (p + 1) mod 1024). rewrite <- Z.add_nocarry_lor; [lia|].
  replace (x * 64) with (Z.shiftl x 6) by (rewrite Z.shiftl_mul_pow2 by lia; lia).
  replace i with (Z.land i (Z.ones 6)) by (rewrite Z.land_ones by lia; apply Z.mod_small; done).
  rewrite <- Z.land_assoc, (Z.land_comm (Z.ones 6)), Z.land_ones, Z.shiftl_mul_pow2 by lia.
  replace ((x * 2 ^ 6) mod 2 ^ 6) with 0 by mlia. apply Z.land_0_r.
Qed.

(** The signed distance of two 10-bit positions never overflows [i16]. *)
Lemma dif_small a b :
  0 <= a < 32768 -> 0 <= b < 32768 -> i16_wrapping_sub (as_i16 a) (as_i16 b) = a - b.
Proof.
  intros. unfold as_i16 at 1 2.
  destruct (Z.ltb_spec a 32768), (Z.ltb_spec b 32768); try lia.
  apply i16_wrapping_sub_small. lia.
Qed.

Lemma dif_dequeue s p :
  0 <= s < 1024 -> 0 <= p < 1024 ->
  i16_wrapping_sub (as_i16 s) (as_i16 (u16_wrapping_add p 1)) = s - (p + 1).
Proof.
  intros. unfold u16_wrapping_add, u16_wrap, u16_mod.
  rewrite Z.mod_small by lia. apply dif_small; lia.
Qed.

(** ** The [state] word *)

Section StateBits.
Context {PU : PackUsize} {PUL : PackUsizeLaws}.

Lemma lsi_eqs :
  least_significant_index RX_CLAIMED = 0 /\ least_significant_index ERRORING = 1 /\
  least_significant_index ERRORED = 2 /\ TX_SHIFT = 3.
Proof.
  unfold TX_SHIFT, TX_CNT, ERRORED, ERRORING, RX_CLAIMED.
  rewrite pack_remaining_lsi, !pack_next_lsi, !pack_next_bits, !least_significant_bits, !least_significant_lsi.
  done.
Qed.

Lemma RX_CLAIMED_bit : first_bit RX_CLAIMED = 1.
Proof. rewrite first_bit_eq. by destruct lsi_eqs as (-> & _). Qed.
Lemma ERRORING_bit : first_bit ERRORING = 2.
Proof. rewrite first_bit_eq. by destruct lsi_eqs as (_ & -> & _). Qed.
Lemma ERRORED_bit : first_bit ERRORED = 4.
Proof. rewrite first_bit_eq. by destruct lsi_eqs as (_ & _ & -> & _). Qed.
Lemma TX_SHIFT_eq : TX_SHIFT = 3.
Proof. by destruct lsi_eqs as (_ & _ & _ & ->). Qed.
Lemma TX_ONE_eq : TX_ONE = 8.
Proof. unfold TX_ONE. rewrite first_bit_eq. fold TX_SHIFT. by rewrite TX_SHIFT_eq. Qed.

Lemma contained_RX_CLAIMED w : contained_in_any RX_CLAIMED w = Z.testbit w 0.
Proof.
  rewrite contained_in_any_eq. destruct lsi_eqs as (-> & _).
  unfold RX_CLAIMED. rewrite least_significant_bits.
  change (Z.shiftl (Z.ones 1) 0) with (2 ^ 0). by rewrite land_pow2_eqb0, negb_involutive.
Qed.
Lemma contained_ERRORED w : contained_in_any ERRORED w = Z.testbit w 2.
Proof.
  rewrite contained_in_any_eq. destruct lsi_eqs as (_ & _ & -> & _).
  unfold ERRORED. rewrite pack_next_bits.
  change (Z.shiftl (Z.ones 1) 2) with (2 ^ 2). by rewrite land_pow2_eqb0, negb_involutive.
Qed.
End StateBits.

#[export] Hint Rewrite @RX_CLAIMED_bit @ERRORING_bit @ERRORED_bit @TX_SHIFT_eq @TX_ONE_eq
  @contained_RX_CLAIMED @contained_ERRORED : mgnp_rw.
