(* ===== verification/CoreQueue.v ===== *)
(** What the channel core promises, and that its operations implement it.

    [view] is the abstract state of a channel: how many messages were delivered, the
    indices queued (oldest first), the indices handed out, which ends closed, the
    closing error, the number of senders.  [rep c v] relates a [Core] with no
    operation in flight to its view; [refines m pre post] says that [m] runs without
    panicking from every represented state that satisfies [pre], and moves the view
    as [post] says. *)
From S2P Require Import Prelude Interfaces Errors Core CoreWord.

(** The largest number of messages a channel ever delivers: the last 10-bit position
    is never dequeued (see [try_dequeue_stuck]). *)
Definition LAST_POS : Z := 1023.

Section View.
Context {E : Type}.

Record view := View {
  v_cap : Z;
  v_delivered : Z;
  v_queued : list Z;
  v_held : gset Z;
  v_rx_closed : bool;
  v_tx_closed : bool;
  v_failed : option E;
  v_senders : Z;
  v_claimed : bool;
}.

Definition upd_queue (n : Z) (q : list Z) (h : gset Z) (v : view) : view :=
  View (v_cap v) n q h (v_rx_closed v) (v_tx_closed v) (v_failed v) (v_senders v) (v_claimed v).
Definition upd_held (h : gset Z) (v : view) : view := upd_queue (v_delivered v) (v_queued v) h v.
Definition upd_closed (rx tx : bool) (v : view) : view :=
  View (v_cap v) (v_delivered v) (v_queued v) (v_held v) rx tx (v_failed v) (v_senders v) (v_claimed v).
Definition upd_failed (e : option E) (v : view) : view :=
  View (v_cap v) (v_delivered v) (v_queued v) (v_held v) (v_rx_closed v) (v_tx_closed v) e (v_senders v) (v_claimed v).
Definition upd_senders (n : Z) (v : view) : view :=
  View (v_cap v) (v_delivered v) (v_queued v) (v_held v) (v_rx_closed v) (v_tx_closed v) (v_failed v) n (v_claimed v).
Definition upd_claimed (b : bool) (v : view) : view :=
  View (v_cap v) (v_delivered v) (v_queued v) (v_held v) (v_rx_closed v) (v_tx_closed v) (v_failed v) (v_senders v) b.

(** The view of a new channel. *)
Definition view_new (cap : Z) : view := View cap 0 [] ∅ false false None 1 false.
End View.
Arguments view : clear implicits.

(** The packed state word: claimed, erroring, errored, sender count. *)
Definition state_word (claimed errored : bool) (n : Z) : Z :=
  Z.b2z claimed + 2 * Z.b2z errored + 4 * Z.b2z errored + 8 * n.

Section Rep.
Context {PU : PackUsize} {PUL : PackUsizeLaws}.
Context {IA : IndexAlloc} {IAL : IndexAllocLaws}.
Context {WCA : WaitCellApi} {WCL : WaitCellLaws} {WQA : WaitQueueApi} {WQL : WaitQueueLaws}.
Context {E : Type}.
Implicit Types (c : Core E) (v : view E).

(** The slot of absolute position [j]: published with an index, or free for the
    sender that reaches [j]. *)
Definition slot_ok (qu : list Z) (j : Z) (content : option Z) : Prop :=
  match content with
  | Some i => qu !! Z.to_nat (j mod 64) = Some (word ((j + 1) mod 1024) i)
  | None => exists r, 0 <= r < 64 /\ qu !! Z.to_nat (j mod 64) = Some (word (j mod 1024) r)
  end.

Record rep c v : Prop := {
  rep_cap : 0 <= v_cap v <= MAX_CAPACITY /\ capacity c = v_cap v;
  rep_delivered : 0 <= v_delivered v <= LAST_POS;
  rep_deq : dequeue_pos c = pos_word (v_delivered v) (v_tx_closed v);
  rep_enq : enqueue_pos c =
    pos_word ((v_delivered v + Z.of_nat (length (v_queued v))) mod 1024) (v_rx_closed v);
  rep_length : length (queue c) = 64%nat;
  rep_slots : forall k : nat, (k < 64)%nat ->
    slot_ok (queue c) (v_delivered v + Z.of_nat k) (v_queued v !! k);
  rep_ia_cap : ia_capacity (indices c) = v_cap v;
  rep_alloc : ia_allocated (indices c) = list_to_set (v_queued v) ∪ v_held v;
  rep_nodup : NoDup (v_queued v);
  rep_disj : forall i, i ∈ v_queued v -> i ∉ v_held v;
  rep_range : forall i, i ∈ ia_allocated (indices c) -> 0 <= i < v_cap v;
  rep_error : error c = v_failed v;
  rep_senders : 0 <= v_senders v < 2 ^ 61;
  rep_state : state c = state_word (v_claimed v) (bool_decide (is_Some (v_failed v))) (v_senders v);
  rep_tx_wait : wc_closed (cons_wait c) = v_tx_closed v;
  rep_rx_wait : wq_closed (prod_wait c) = v_rx_closed v;
}.

Definition refines {A} (m : M (Core E) A) (pre : view E -> Prop)
    (post : view E -> A -> view E -> Prop) : Prop :=
  forall c v, rep c v -> pre v ->
  exists c' a v', m c = (c', Val a) /\ rep c' v' /\ post v a v'.

Lemma refines_bind {A B} (m : M (Core E) A) (k : A -> M (Core E) B) pre post post' :
  refines m pre post ->
  (forall v a, refines (k a) (fun v' => pre v /\ post v a v') (fun v' b v'' => post' v b v'')) ->
  refines (m ≫= k) pre post'.
Proof.
  intros Hm Hk c v Hr Hp. destruct (Hm c v Hr Hp) as (c1 & a & v1 & Hrun & Hr1 & Hpost).
  destruct (Hk v a c1 v1 Hr1 (conj Hp Hpost)) as (c2 & b & v2 & Hrun2 & Hr2 & Hpost2).
  exists c2, b, v2. by rewrite (bind_val _ _ _ _ _ Hrun).
Qed.

(** ** Queued indices fit in the capacity *)

Lemma range_length (l : list Z) n :
  NoDup l -> (forall i, i ∈ l -> 0 <= i < n) -> Z.of_nat (length l) <= Z.max 0 n.
Proof.
  intros Hnd Hin.
  assert (Hsub : l ⊆+ seqZ 0 n).
  { apply NoDup_submseteq; [done|]. intros i Hi%Hin. apply elem_of_seqZ. lia. }
  apply submseteq_length in Hsub. rewrite length_seqZ in Hsub. lia.
Qed.

Lemma rep_in_alloc c v i :
  rep c v -> i ∈ v_queued v \/ i ∈ v_held v -> i ∈ ia_allocated (indices c).
Proof. intros Hr Hi. rewrite (rep_alloc _ _ Hr), elem_of_union, elem_of_list_to_set. tauto. Qed.

Lemma rep_queue_bound c v : rep c v -> Z.of_nat (length (v_queued v)) <= v_cap v.
Proof.
  intros Hr. pose proof (rep_cap _ _ Hr).
  pose proof (range_length (v_queued v) (v_cap v) (rep_nodup _ _ Hr)) as H1.
  etransitivity; [apply H1|lia]. intros i Hi. apply (rep_range _ _ Hr), (rep_in_alloc _ _ _ Hr). tauto.
Qed.

(** A held index leaves room for one more queued index. *)
Lemma rep_queue_room c v i : rep c v -> i ∈ v_held v -> Z.of_nat (length (v_queued v)) < v_cap v.
Proof.
  intros Hr Hi. pose proof (rep_cap _ _ Hr).
  assert (Hb : Z.of_nat (length (i :: v_queued v)) <= Z.max 0 (v_cap v)).
  { apply range_length.
    - constructor; [|apply Hr]. intros Hq. by apply (rep_disj _ _ Hr i).
    - intros j Hj. apply (rep_range _ _ Hr), (rep_in_alloc _ _ _ Hr).
      apply elem_of_cons in Hj as [->|]; tauto. }
  simpl in Hb. lia.
Qed.

Lemma rep_held_range c v i : rep c v -> i ∈ v_held v -> 0 <= i < 64.
Proof.
  intros Hr Hi. pose proof (rep_cap _ _ Hr) as [Hc _]. unfold MAX_CAPACITY in Hc.
  assert (0 <= i < v_cap v); [|lia]. apply (rep_range _ _ Hr), (rep_in_alloc _ _ _ Hr). tauto.
Qed.

Lemma rep_queued_range c v i : rep c v -> i ∈ v_queued v -> 0 <= i < 64.
Proof.
  intros Hr Hi. pose proof (rep_cap _ _ Hr) as [Hc _]. unfold MAX_CAPACITY in Hc.
  assert (0 <= i < v_cap v); [|lia]. apply (rep_range _ _ Hr), (rep_in_alloc _ _ _ Hr). tauto.
Qed.

(** ** The slots *)

(** Writing the slot of [j] leaves the 63 other positions of a window alone. *)
Lemma slot_other (qu : list Z) j j' w content :
  0 <= j -> 0 <= j' -> j <> j' -> Z.abs (j - j') < 64 ->
  slot_ok qu j' content -> slot_ok (<[Z.to_nat (j mod 64) := w]> qu) j' content.
Proof.
  intros H0 H0' Hne Hw. unfold slot_ok.
  rewrite list_lookup_insert_ne; [done|]. mlia.
Qed.

Lemma slot_write (qu : list Z) j w :
  length qu = 64%nat -> <[Z.to_nat (j mod 64) := w]> qu !! Z.to_nat (j mod 64) = Some w.
Proof. intros Hl. apply list_lookup_insert_eq. rewrite Hl. mlia. Qed.

Lemma mod_1024_64 j : (j mod 1024) mod 64 = j mod 64.
Proof. mlia. Qed.

Lemma slot_load_at c p w :
  queue c !! Z.to_nat (p mod 64) = Some w -> slot_load (Z.land p MASK) c = (c, Val w).
Proof. intros H. unfold slot_load. by rewrite land_mask, H. Qed.

Lemma slot_store_at c p w w0 :
  queue c !! Z.to_nat (p mod 64) = Some w0 ->
  slot_store (Z.land p MASK) w c =
  (set_queue (<[Z.to_nat (p mod 64) := w]> (queue c)) c, Val tt).
Proof. intros H. unfold slot_store. by rewrite land_mask, H. Qed.

(** ** The state word *)

Lemma state_word_bits b e n :
  Z.testbit (state_word b e n) 0 = b /\ Z.testbit (state_word b e n) 1 = e /\
  Z.testbit (state_word b e n) 2 = e.
Proof.
  unfold state_word. rewrite !Z.testbit_odd, !Z.shiftr_div_pow2 by done. cbn [Z.pow Z.pow_pos Pos.iter Z.mul Pos.mul].
  split_and!.
  - replace ((_ + _) / 1) with (Z.b2z b + 2 * (Z.b2z e + 2 * Z.b2z e + 4 * n)) by mlia.
    rewrite Z.odd_add_mul_2. by destruct b.
  - replace ((_ + _) / 2) with (Z.b2z e + 2 * (Z.b2z e + 2 * n)) by (destruct b, e; simpl; mlia).
    rewrite Z.odd_add_mul_2. by destruct e.
  - replace ((_ + _) / 4) with (Z.b2z e + 2 * n) by (destruct b, e; simpl; mlia).
    rewrite Z.odd_add_mul_2. by destruct e.
Qed.

Lemma lor_pow2 w k : 0 <= k -> Z.lor w (2 ^ k) = if Z.testbit w k then w else w + 2 ^ k.
Proof.
  intros Hk. pose proof (Z.add_lor_land w (2 ^ k)) as H.
  rewrite land_pow2_testbit in H by done. destruct (Z.testbit w k); lia.
Qed.

Lemma state_word_claim b e n : Z.lor (state_word b e n) 1 = state_word true e n.
Proof.
  rewrite (lor_pow2 _ 0) by done. destruct (state_word_bits b e n) as (-> & _).
  destruct b; unfold state_word; simpl Z.b2z; lia.
Qed.

Lemma close_reason_run c v : rep c v -> close_reason c = (c, Val (v_failed v)).
Proof.
  intros Hr. unfold close_reason, state_load, error_read. run_M.
  rewrite contained_ERRORED, (rep_state _ _ Hr).
  destruct (state_word_bits (v_claimed v) (bool_decide (is_Some (v_failed v))) (v_senders v)) as (_ & _ & ->).
  pose proof (rep_error _ _ Hr) as He.
  case_bool_decide as H.
  - destruct H as [e He']. rewrite He, He'. done.
  - destruct (v_failed v); [|done]. by destruct H.
Qed.

(** ** Each operation implements its abstract counterpart *)

(** A fresh channel represents the empty view. *)
Lemma new_rep cap : 0 <= cap <= MAX_CAPACITY -> rep (new_core cap) (view_new cap).
Proof.
  intros Hcap. pose proof TX_ONE_eq as Htx.
  split; cbn -[seqZ Z.modulo]; try done.
  - intros k Hk. rewrite lookup_nil. exists 0. split; [lia|].
    rewrite list_lookup_fmap, lookup_seqZ_lt by (unfold MAX_CAPACITY; mlia).
    simpl. f_equal. change POS_SHIFT with 6.
    unfold u16_shl, u16_wrap, u16_mod, word. rewrite Z.shiftl_mul_pow2 by lia. mlia.
  - apply ia_new_capacity.
  - rewrite ia_new_allocated. set_solver.
  - constructor.
  - rewrite ia_new_allocated. set_solver.
  - apply wc_new_closed.
  - apply wq_new_closed.
Qed.

Definition same_view {A} (a : A) (v : view E) (b : A) (v' : view E) : Prop := b = a /\ v' = v.

Definition try_reserve_post (v : view E) (r : result Reservation (TrySendError E unit)) (v' : view E) : Prop :=
  if v_rx_closed v then
    r = Err (match v_failed v with Some e => TrySendErrorWith tt e | None => TrySendDisconnected tt end) /\ v' = v
  else
    (exists i, r = Ok (mkReservation i) /\ 0 <= i < v_cap v /\ (i ∉ v_queued v) /\ (i ∉ v_held v) /\
               v' = upd_held ({[i]} ∪ v_held v) v) \/
    (r = Err (TrySendFull tt) /\ v' = v /\
     forall i, 0 <= i < v_cap v -> i ∈ v_queued v \/ i ∈ v_held v).

Theorem try_reserve_spec : refines try_reserve (fun _ => True) try_reserve_post.
Proof.
  intros c v Hr _. unfold try_reserve, enqueue_pos_load, indices_allocate, try_reserve_post. run_M.
  rewrite (rep_enq _ _ Hr), pos_word_closed_eqb.
  destruct (v_rx_closed v) eqn:Hcl.
  - rewrite (close_reason_run _ _ Hr). eexists _, _, v. split; [reflexivity|]. by destruct (v_failed v).
  - destruct (ia_allocate (indices c)) as [a [i|]] eqn:Ha.
    + apply ia_allocate_some in Ha as (Hi & Hni & Hal & Hac).
      rewrite (rep_ia_cap _ _ Hr) in *. rewrite (rep_alloc _ _ Hr) in Hni, Hal.
      eexists _, _, _. split; [reflexivity|]. split; [|left; exists i; repeat split; try done; set_solver].
      destruct Hr. split; cbn; try done.
      * rewrite Hal. set_solver.
      * set_solver.
      * intros j. rewrite Hal, !elem_of_union, elem_of_singleton.
        intros [->|Hj]; [lia|]. apply rep_range0. rewrite rep_alloc0. set_solver.
    + apply ia_allocate_none in Ha as (Hall & Hal & Hac).
      eexists _, _, v. split; [reflexivity|]. split.
      * destruct Hr. split; cbn; rewrite ?Hac, ?Hal; done.
      * right. split_and!; [done..|]. intros i Hi. rewrite (rep_ia_cap _ _ Hr) in Hall.
        apply Hall in Hi. rewrite (rep_alloc _ _ Hr) in Hi. set_solver.
Qed.

(** Giving a held index back. *)
Theorem uncommit_spec i :
  refines (uncommit i) (fun v => i ∈ v_held v) (fun v _ v' => v' = upd_held (v_held v ∖ {[i]}) v).
Proof.
  intros c v Hr Hi. unfold uncommit, indices_free, prod_wait_wake. run_M.
  assert (Hin : i ∈ ia_allocated (indices c)) by (apply (rep_in_alloc _ _ _ Hr); tauto).
  eexists _, _, _. split; [reflexivity|]. split; [|reflexivity].
  pose proof (ia_free_allocated _ _ Hin) as Hfree. pose proof (rep_disj _ _ Hr i) as Hd.
  destruct Hr. split; cbn; try done.
  - by rewrite ia_free_capacity.
  - rewrite Hfree, rep_alloc0. apply set_eq. intros j.
    rewrite !elem_of_difference, !elem_of_union, !elem_of_difference, elem_of_list_to_set, elem_of_singleton.
    split; [tauto|]. intros [Hj|?]; [|tauto]. split; [tauto|]. intros ->. tauto.
  - intros j Hj Hjh. apply (rep_disj0 j Hj). set_solver.
  - intros j. rewrite Hfree. intros Hj. apply rep_range0. set_solver.
  - by rewrite wq_wake_closed.
Qed.

Definition send_reason (e : option E) : SendError E unit :=
  match e with Some e => SendErrorWith tt e | None => SendDisconnected tt end.

Definition commit_send_post (i : Z) (v : view E) (r : result unit (SendError E unit)) (v' : view E) : Prop :=
  if v_rx_closed v then r = Err (send_reason (v_failed v)) /\ v' = v
  else r = Ok tt /\ v' = upd_queue (v_delivered v) (v_queued v ++ [i]) (v_held v ∖ {[i]}) v.

Lemma slot_at_tail c v :
  rep c v -> Z.of_nat (length (v_queued v)) < 64 ->
  let t := v_delivered v + Z.of_nat (length (v_queued v)) in
  exists r, 0 <= r < 64 /\ queue c !! Z.to_nat (t mod 64) = Some (word (t mod 1024) r).
Proof.
  intros Hr Hl t. pose proof (rep_slots _ _ Hr (length (v_queued v))) as H.
  rewrite lookup_ge_None_2 in H by lia. apply H. lia.
Qed.

Lemma slot_at_head c v i q :
  rep c v -> v_queued v = i :: q ->
  queue c !! Z.to_nat (v_delivered v mod 64) = Some (word ((v_delivered v + 1) mod 1024) i).
Proof.
  intros Hr Hq. pose proof (rep_slots _ _ Hr 0) as H. rewrite Hq, Z.add_0_r in H. apply H. lia.
Qed.

(** Publishing [i] in the slot of the tail. *)
Lemma commit_send_rep c v i :
  rep c v -> i ∈ v_held v -> v_rx_closed v = false ->
  let t := v_delivered v + Z.of_nat (length (v_queued v)) in
  rep (set_cons_wait (wc_wake (cons_wait c))
        (set_queue (<[Z.to_nat (t mod 64) := word ((t + 1) mod 1024) i]> (queue c))
          (set_enqueue_pos (pos_word ((t + 1) mod 1024) false) c)))
      (upd_queue (v_delivered v) (v_queued v ++ [i]) (v_held v ∖ {[i]}) v).
Proof.
  intros Hr Hi Hcl t. pose proof (rep_queue_room _ _ _ Hr Hi) as Hroom.
  pose proof (rep_cap _ _ Hr) as [Hcap _]. unfold MAX_CAPACITY in Hcap.
  pose proof (rep_disj _ _ Hr i) as Hd.
  destruct Hr. split; cbn -[Z.modulo]; try done.
  - rewrite length_app. cbn -[Z.modulo]. rewrite Hcl. f_equal. subst t. f_equal. lia.
  - by rewrite length_insert.
  - intros k Hk. destruct (decide (k = length (v_queued v))) as [->|Hne].
    + rewrite lookup_app_r, Nat.sub_diag by lia. cbn. by apply slot_write.
    + apply slot_other; [lia..|].
      destruct (decide (k < length (v_queued v))%nat).
      * rewrite lookup_app_l by lia. by apply rep_slots0.
      * rewrite lookup_ge_None_2 by (rewrite length_app; cbn; lia).
        rewrite <- (lookup_ge_None_2 (v_queued v) k) by lia. by apply rep_slots0.
  - rewrite rep_alloc0, list_to_set_app_L. cbn. apply set_eq. intros j.
    rewrite !elem_of_union, elem_of_difference, elem_of_singleton.
    destruct (decide (j = i)) as [->|]; set_solver.
  - apply NoDup_app. split_and!; [done| |apply NoDup_singleton].
    intros j Hj ->%list_elem_of_singleton. tauto.
  - intros j. rewrite elem_of_app, list_elem_of_singleton. set_solver.
  - by rewrite wc_wake_closed.
Qed.

Theorem commit_send_spec i :
  refines (commit_send (mkReservation i)) (fun v => i ∈ v_held v) (commit_send_post i).
Proof.
  intros c v Hr Hi. unfold commit_send, core_commit_send, enqueue_pos_load, commit_send_post. cbn [idx].
  pose proof (rep_held_range _ _ _ Hr Hi) as Hrange. pose proof (rep_queue_room _ _ _ Hr Hi) as Hroom.
  pose proof (rep_cap _ _ Hr) as [Hcap _]. unfold MAX_CAPACITY in Hcap.
  replace (i <=? MASK) with true by (symmetry; apply Z.leb_le; change MASK with 63; lia).
  cbn [commit_send_loop]. run_M. rewrite (rep_enq _ _ Hr), pos_word_closed_eqb.
  set (t := v_delivered v + Z.of_nat (length (v_queued v))) in *.
  destruct (v_rx_closed v) eqn:Hcl.
  - rewrite (close_reason_run _ _ Hr). eexists _, _, v. split; [reflexivity|]. done.
  - rewrite pos_word_pos.
    destruct (slot_at_tail _ _ Hr) as (r & Hrr & Hslot); [lia|]. fold t in Hslot.
    rewrite <- (mod_1024_64 t) in Hslot.
    rewrite (slot_load_at _ _ _ Hslot). cbn. rewrite word_pos by done.
    rewrite dif_small, Z.sub_diag by mlia. cbn.
    unfold enqueue_pos_cas. rewrite (rep_enq _ _ Hr), Hcl. fold t. rewrite Z.eqb_refl. cbn.
    rewrite pos_word_next, word_publish by mlia.
    rewrite (slot_store_at _ (t mod 1024) _ (word (t mod 1024) r)) by done. cbn. rewrite mod_1024_64.
    eexists _, _, _. split; [reflexivity|]. split; [|done].
    replace ((t mod 1024 + 1) mod 1024) with ((t + 1) mod 1024) by mlia.
    by apply commit_send_rep.
Qed.

Definition recv_reason (e : option E) : TryRecvError E :=
  match e with Some e => TryRecvErrorWith e | None => TryRecvDisconnected end.

Definition try_dequeue_post (v : view E) (r : result Reservation (TryRecvError E)) (v' : view E) : Prop :=
  match v_queued v with
  | i :: q =>
      if v_delivered v <? LAST_POS then
        r = Ok (mkReservation i) /\ v' = upd_queue (v_delivered v + 1) q ({[i]} ∪ v_held v) v
      else r = Err (if v_tx_closed v then recv_reason (v_failed v) else TryRecvEmpty) /\ v' = v
  | [] => r = Err (if v_tx_closed v then recv_reason (v_failed v) else TryRecvEmpty) /\ v' = v
  end.

(** Taking the head slot and releasing it for the next lap. *)
Lemma try_dequeue_rep c v i q :
  rep c v -> v_queued v = i :: q -> v_delivered v < LAST_POS ->
  rep (set_queue (<[Z.to_nat (v_delivered v mod 64) := word ((v_delivered v + 64) mod 1024) i]> (queue c))
        (set_dequeue_pos (pos_word (v_delivered v + 1) (v_tx_closed v)) c))
      (upd_queue (v_delivered v + 1) q ({[i]} ∪ v_held v) v).
Proof.
  intros Hr Hq Hlt. pose proof (rep_queue_bound _ _ Hr) as Hlen. rewrite Hq in Hlen. cbn in Hlen.
  assert (Hi : 0 <= i < 64) by (apply (rep_queued_range _ _ _ Hr); rewrite Hq; set_solver).
  destruct Hr. unfold LAST_POS, MAX_CAPACITY in *. split; cbn; try done.
  - unfold LAST_POS. lia.
  - rewrite rep_enq0, Hq. cbn. f_equal. f_equal. lia.
  - by rewrite length_insert.
  - intros k Hk. destruct (decide (k = 63%nat)) as [->|Hne].
    + rewrite lookup_ge_None_2 by lia. exists i. split; [done|].
      replace (v_delivered v + 1 + Z.of_nat 63) with (v_delivered v + 64) by lia.
      replace ((v_delivered v + 64) mod 64) with (v_delivered v mod 64) by mlia. by apply slot_write.
    + apply slot_other; [lia..|].
      replace (v_delivered v + 1 + Z.of_nat k) with (v_delivered v + Z.of_nat (S k)) by lia.
      specialize (rep_slots0 (S k)). rewrite Hq in rep_slots0. apply rep_slots0. lia.
  - rewrite rep_alloc0, Hq. cbn. set_solver.
  - rewrite Hq in rep_nodup0. by apply NoDup_cons in rep_nodup0 as [_ ?].
  - intros j Hj. rewrite Hq in rep_nodup0, rep_disj0. apply NoDup_cons in rep_nodup0 as [Hn _].
    rewrite elem_of_union, elem_of_singleton. intros [->|Hh]; [done|]. apply (rep_disj0 j); set_solver.
Qed.

(** The head slot is not published for this lap: the queue reports empty or closed. *)
Lemma try_dequeue_behind c v w :
  rep c v -> queue c !! Z.to_nat (v_delivered v mod 64) = Some w ->
  0 <= u16_shr w POS_SHIFT < v_delivered v + 1 -> u16_shr w POS_SHIFT < 1024 ->
  try_dequeue c =
  (c, Val (Err (if v_tx_closed v then recv_reason (v_failed v) else TryRecvEmpty))).
Proof.
  intros Hr Hw Hseq Hs. pose proof (rep_delivered _ _ Hr) as Hd. unfold LAST_POS in *.
  unfold try_dequeue, dequeue_pos_load. cbn [try_dequeue_loop]. run_M.
  rewrite (rep_deq _ _ Hr), pos_word_pos, pos_word_closed_eqb0, negb_involutive.
  rewrite (slot_load_at _ _ _ Hw), dif_dequeue by lia. cbn.
  destruct (Z.compare_spec (u16_shr w POS_SHIFT - (v_delivered v + 1)) 0); [lia| |lia].
  destruct (v_tx_closed v); [|done]. by rewrite (close_reason_run _ _ Hr).
Qed.

(** At the last position no slot value is ever ahead: [pos + 1] does not wrap to ten bits. *)
Lemma try_dequeue_stuck c v :
  rep c v -> v_delivered v = LAST_POS ->
  try_dequeue c =
  (c, Val (Err (if v_tx_closed v then recv_reason (v_failed v) else TryRecvEmpty))).
Proof.
  intros Hr Hlast. pose proof (rep_slots _ _ Hr 0) as Hslot. rewrite Z.add_0_r, Hlast in Hslot.
  unfold LAST_POS in *.
  assert (exists p r, 0 <= r < 64 /\ 0 <= p < 1024 /\
            queue c !! Z.to_nat (1023 mod 64) = Some (word p r)) as (p & r & Hrr & Hp & Hw).
  { destruct (v_queued v) as [|i q] eqn:Hq.
    - destruct Hslot as (r & ? & ?); [lia|]. eexists _, r. split; [done|]. split; [|done]. mlia.
    - eexists _, i. split; [apply (rep_queued_range _ _ _ Hr); rewrite Hq; set_solver|].
      split; [|apply Hslot; lia]. mlia. }
  apply (try_dequeue_behind _ _ (word p r) Hr); rewrite ?Hlast, ?word_pos; (done || lia).
Qed.

(** Nothing to deliver: the core is left exactly as it was. *)
Lemma try_dequeue_idle c v :
  rep c v -> v_queued v = [] \/ v_delivered v = LAST_POS ->
  try_dequeue c =
  (c, Val (Err (if v_tx_closed v then recv_reason (v_failed v) else TryRecvEmpty))).
Proof.
  intros Hr [Hq|Hd]; [|by apply try_dequeue_stuck]. pose proof (rep_delivered _ _ Hr) as Hd.
  destruct (decide (v_delivered v = LAST_POS)) as [|Hne]; [by apply try_dequeue_stuck|].
  unfold LAST_POS in *. destruct (slot_at_tail _ _ Hr) as (r & Hrr & Hw); [rewrite Hq; done|].
  rewrite Hq, Z.add_0_r in Hw.
  eapply try_dequeue_behind; [done..| |]; rewrite word_pos by done; mlia.
Qed.

Lemma try_dequeue_head c v i q :
  rep c v -> v_queued v = i :: q -> v_delivered v < LAST_POS ->
  exists c', try_dequeue c = (c', Val (Ok (mkReservation i))) /\
             rep c' (upd_queue (v_delivered v + 1) q ({[i]} ∪ v_held v) v).
Proof.
  intros Hr Hq Hlt. pose proof (rep_delivered _ _ Hr) as Hd.
  assert (Hi : 0 <= i < 64) by (apply (rep_queued_range _ _ _ Hr); rewrite Hq; set_solver).
  pose proof (slot_at_head _ _ _ _ Hr Hq) as Hw. unfold LAST_POS in *.
  unfold try_dequeue, dequeue_pos_load. cbn [try_dequeue_loop]. run_M.
  rewrite (rep_deq _ _ Hr), pos_word_pos.
  rewrite (slot_load_at _ _ _ Hw), word_pos, dif_dequeue by mlia. cbn.
  replace ((v_delivered v + 1) mod 1024 - (v_delivered v + 1)) with 0 by mlia. cbn.
  unfold dequeue_pos_cas. rewrite (rep_deq _ _ Hr), Z.eqb_refl. cbn.
  rewrite pos_word_next, word_lap, word_low by mlia.
  rewrite (slot_store_at _ _ _ (word ((v_delivered v + 1) mod 1024) i)) by done. cbn.
  eexists. split; [reflexivity|].
  replace (((v_delivered v + 1) mod 1024 + 63) mod 1024) with ((v_delivered v + 64) mod 1024) by mlia.
  rewrite (Z.mod_small (v_delivered v + 1)) by lia. by apply try_dequeue_rep.
Qed.

Theorem try_dequeue_spec : refines try_dequeue (fun _ => True) try_dequeue_post.
Proof.
  intros c v Hr _. unfold try_dequeue_post. pose proof (rep_delivered _ _ Hr) as Hd.
  destruct (v_queued v) as [|i q] eqn:Hq; [|destruct (Z.ltb_spec (v_delivered v) LAST_POS)].
  - eexists c, _, v. split; [|done]. apply try_dequeue_idle; tauto.
  - destruct (try_dequeue_head _ _ _ _ Hr Hq) as (c' & Hrun & Hr'); [done|]. by eexists c', _, _.
  - eexists c, _, v. split; [|done]. apply try_dequeue_idle; [done|right; lia].
Qed.

(** ** Closing, errors and handle counts *)

Theorem close_rx_spec :
  refines close_rx (fun _ => True) (fun v _ v' => v' = upd_closed true (v_tx_closed v) v).
Proof.
  intros c v Hr _. unfold close_rx, enqueue_pos_fetch_or, prod_wait_close. run_M.
  rewrite (rep_enq _ _ Hr), pos_word_close.
  eexists _, _, _. split; [reflexivity|]. split; [|reflexivity].
  destruct Hr. split; cbn; try done. apply wq_close_closed.
Qed.

Theorem close_tx_spec :
  refines close_tx (fun _ => True) (fun v _ v' => v' = upd_closed (v_rx_closed v) true v).
Proof.
  intros c v Hr _. unfold close_tx, dequeue_pos_fetch_or, cons_wait_close. run_M.
  rewrite (rep_deq _ _ Hr), pos_word_close.
  eexists _, _, _. split; [reflexivity|]. split; [|reflexivity].
  destruct Hr. split; cbn; try done. apply wc_close_closed.
Qed.

Definition close_with_error_post (e : E) (v : view E) (b : bool) (v' : view E) : Prop :=
  match v_failed v with
  | Some _ => b = false /\ v' = v
  | None => b = true /\ v' = upd_closed true true (upd_failed (Some e) v)
  end.

Lemma state_word_erroring b n : Z.lor (Z.lor (state_word b false n) 2) 4 = state_word b true n.
Proof.
  rewrite (lor_pow2 _ 1) by done. destruct (state_word_bits b false n) as (_ & -> & _).
  assert (H : Z.testbit (state_word b false n + 2 ^ 1) 2 = false).
  { rewrite Z.testbit_odd, Z.shiftr_div_pow2 by done. unfold state_word.
    change (2 ^ 2) with 4. change (2 ^ 1) with 2. cbn.
    replace (_ / 4) with (2 * n) by (destruct b; cbn; mlia). by rewrite Z.odd_mul. }
  rewrite (lor_pow2 _ 2), H by done. unfold state_word. cbn. lia.
Qed.

(** The first error wins: it is stored before it is announced, and both ends close. *)
Theorem close_with_error_spec e :
  refines (close_with_error e) (fun _ => True) (close_with_error_post e).
Proof.
  intros c v Hr _. unfold close_with_error, state_fetch_or, error_write, close_with_error_post,
    close_rx, close_tx, enqueue_pos_fetch_or, prod_wait_close, dequeue_pos_fetch_or, cons_wait_close.
  rewrite ERRORING_bit, ERRORED_bit. change (Z.lor 2 4) with 6. run_M.
  assert (Hbits : (Z.land (state c) 6 =? 0) = negb (bool_decide (is_Some (v_failed v)))).
  { rewrite (rep_state _ _ Hr). set (b := bool_decide _).
    destruct (state_word_bits (v_claimed v) b (v_senders v)) as (_ & H1 & H2).
    change 6 with (Z.lor (2 ^ 1) (2 ^ 2)). rewrite Z.land_lor_distr_r, !land_pow2_testbit, H1, H2 by done.
    by destruct b. }
  rewrite Hbits, negb_involutive. destruct (v_failed v) as [e'|] eqn:Hf; cbn.
  - eexists _, _, v. split; [reflexivity|]. split; [|done]. pose proof (rep_state _ _ Hr) as Hst.
    rewrite Hf in Hst. cbn in Hst.
    replace (Z.lor (state c) 2) with (state c); [by destruct c|].
    rewrite Hst, (lor_pow2 _ 1) by done. by destruct (state_word_bits (v_claimed v) true (v_senders v)) as (_ & -> & _).
  - rewrite (rep_enq _ _ Hr), (rep_deq _ _ Hr), !pos_word_close.
    eexists _, _, _. split; [reflexivity|]. split; [|done].
    pose proof (rep_state _ _ Hr) as Hst. rewrite Hf in Hst. cbn in Hst.
    destruct Hr. split; cbn; try done.
    + rewrite Hst. apply state_word_erroring.
    + apply wc_close_closed.
    + apply wq_close_closed.
Qed.

Theorem try_claim_rx_spec :
  refines try_claim_rx (fun _ => True)
    (fun v r v' => r = (if v_claimed v then None else Some tt) /\ v' = upd_claimed true v).
Proof.
  intros c v Hr _. unfold try_claim_rx, state_fetch_or. run_M.
  rewrite RX_CLAIMED_bit, contained_RX_CLAIMED, (rep_state _ _ Hr), state_word_claim.
  destruct (state_word_bits (v_claimed v) (bool_decide (is_Some (v_failed v))) (v_senders v)) as (-> & _).
  eexists _, _, _. split; [reflexivity|]. split; [|by destruct (v_claimed v)].
  destruct Hr. split; try done.
Qed.

Lemma state_word_senders b e n : Z.shiftr (state_word b e n) 3 = n.
Proof.
  unfold state_word. rewrite Z.shiftr_div_pow2 by done. change (2 ^ 3) with 8.
  destruct b, e; cbn; mlia.
Qed.

Theorem add_tx_spec :
  refines add_tx (fun v => v_senders v + 1 < 2 ^ 61) (fun v _ v' => v' = upd_senders (v_senders v + 1) v).
Proof.
  intros c v Hr Hn. unfold add_tx, state_fetch_add. rewrite TX_ONE_eq. run_M.
  eexists _, _, _. split; [reflexivity|]. split; [|reflexivity].
  destruct Hr. split; cbn; try done; [lia|].
  rewrite rep_state0. unfold usize_wrapping_add, usize_wrap, usize_mod, state_word.
  change (2 ^ 61) with 2305843009213693952 in *.
  destruct (v_claimed v), (bool_decide _); cbn; mlia.
Qed.

Definition drop_tx_view (v : view E) : view E :=
  let v1 := upd_senders (v_senders v - 1) v in
  if v_senders v =? 1 then upd_closed (v_rx_closed v1) true v1 else v1.

(** Dropping the last sender, and only the last, closes the channel for the receiver. *)
Theorem drop_tx_spec :
  refines drop_tx (fun v => 1 <= v_senders v) (fun v _ v' => v' = drop_tx_view v).
Proof.
  intros c v Hr Hn. unfold drop_tx, state_fetch_sub. rewrite TX_ONE_eq, TX_SHIFT_eq. run_M.
  pose proof (rep_senders _ _ Hr) as Hs. change (2 ^ 61) with 2305843009213693952 in Hs.
  set (st' := state_word (v_claimed v) (bool_decide (is_Some (v_failed v))) (v_senders v - 1)).
  assert (Hst : usize_wrapping_sub (state c) 8 = st').
  { rewrite (rep_state _ _ Hr). unfold usize_wrapping_sub, usize_wrap, usize_mod, st', state_word.
    destruct (v_claimed v), (bool_decide _); cbn; mlia. }
  assert (Hr1 : rep (set_state st' c) (upd_senders (v_senders v - 1) v)).
  { destruct Hr. split; cbn; try done. change (2 ^ 61) with 2305843009213693952. lia. }
  rewrite Hst, (rep_state _ _ Hr), state_word_senders. unfold drop_tx_view.
  destruct (Z.eqb_spec (v_senders v) 1) as [H1|H1]; cbn.
  - unfold state_fetch_or. cbn. rewrite Z.lor_0_r.
    replace (Z.shiftr st' 3) with 0 by (unfold st'; rewrite state_word_senders; lia). cbn.
    apply (close_tx_spec _ _ Hr1 I).
  - eexists _, _, _. by split.
Qed.

(** ** Waiting: one poll of a receive or of a reservation always ends *)

Definition poll_dequeue_post (v : view E) (p : poll (result Reservation (RecvError E))) (v' : view E) : Prop :=
  exists r, try_dequeue_post v r v' /\
  p = match r with
      | Ok res => Ready (Ok res)
      | Err TryRecvEmpty => Pending
      | Err TryRecvDisconnected => Ready (Err RecvDisconnected)
      | Err (TryRecvErrorWith e) => Ready (Err (RecvErrorWith e))
      end.

Lemma cons_wait_rep c v w : rep c v -> wc_closed w = v_tx_closed v -> rep (set_cons_wait w c) v.
Proof. intros [] H. by split. Qed.

Lemma prod_wait_rep c v w : rep c v -> wq_closed w = v_rx_closed v -> rep (set_prod_wait w c) v.
Proof. intros [] H. by split. Qed.

(** An empty poll leaves the view alone and tells how the wait went. *)
Lemma cons_wait_poll_run c v :
  rep c v -> v_tx_closed v = false ->
  exists c' p, cons_wait_poll c = (c', Val p) /\ rep c' v /\
    (p = Pending \/ (p = Ready (Ok tt) /\ snd (wc_poll_wait (cons_wait c')) = Pending)).
Proof.
  intros Hr Hcl. unfold cons_wait_poll.
  pose proof (wc_poll_closed_same (cons_wait c)) as Hsame.
  pose proof (wc_poll_open (cons_wait c)) as Hopen.
  pose proof (wc_poll_consumes (cons_wait c)) as Hcons.
  rewrite (rep_tx_wait _ _ Hr) in *. destruct (wc_poll_wait (cons_wait c)) as [w p] eqn:Hp.
  eexists _, p. split; [reflexivity|]. split; [by apply cons_wait_rep|]. cbn in *.
  destruct p as [|[[]|[]]]; [by left| |by destruct Hopen]. right. split; [done|]. by apply Hcons.
Qed.

(** A poll that finds nothing registers the task and ends: the wakeup it may consume
    makes the loop look once more, and the cell holds no second one. *)
Lemma poll_dequeue_unroll fuel c v :
  rep c v ->
  (exists c' a v', poll_dequeue_loop (S fuel) c = (c', Val a) /\ rep c' v' /\ poll_dequeue_post v a v') \/
  (exists c', poll_dequeue_loop (S fuel) c = poll_dequeue_loop fuel c' /\ rep c' v /\
     v_tx_closed v = false /\ (v_queued v = [] \/ v_delivered v = LAST_POS) /\
     snd (wc_poll_wait (cons_wait c')) = Pending).
Proof.
  intros Hr. cbn [poll_dequeue_loop].
  destruct (try_dequeue_spec c v Hr I) as (c1 & r & v1 & Hrun & Hr1 & Hpost).
  rewrite (bind_val _ _ _ _ _ Hrun).
  destruct r as [res|[| |e]];
    try by (left; eexists _, _, v1; split; [reflexivity|]; split; [done|]; eexists; split).
  assert (Hidle : v1 = v /\ v_tx_closed v = false /\ (v_queued v = [] \/ v_delivered v = LAST_POS)).
  { pose proof (rep_delivered _ _ Hr). unfold try_dequeue_post, recv_reason in Hpost.
    destruct (v_queued v); [|destruct (Z.ltb_spec (v_delivered v) LAST_POS)];
      destruct Hpost as [Hp ->]; try done; destruct (v_tx_closed v), (v_failed v); try done;
      (split_and!; [done..|]; first [by left | right; lia]). }
  destruct Hidle as (-> & Hcl & Hidle).
  destruct (cons_wait_poll_run _ _ Hr1 Hcl) as (c2 & p & Hpoll & Hr2 & [->|[-> Hnext]]);
    rewrite (bind_val _ _ _ _ _ Hpoll); [left|right].
  - eexists _, _, v. split; [reflexivity|]. split; [done|]. by eexists.
  - by exists c2.
Qed.

Theorem poll_dequeue_spec : refines poll_dequeue (fun _ => True) poll_dequeue_post.
Proof.
  intros c v Hr _. unfold poll_dequeue.
  destruct (poll_dequeue_unroll 1 c v Hr) as [?|(c1 & Heq & Hr1 & Hcl & Hidle & Hpend)]; [done|].
  rewrite Heq. destruct (poll_dequeue_unroll 0 c1 v Hr1) as [?|(c2 & Heq2 & _ & _ & _ & _)]; [done|].
  exfalso. revert Heq2. cbn [poll_dequeue_loop].
  rewrite (bind_val _ _ _ _ _ (try_dequeue_idle _ _ Hr1 Hidle)), Hcl.
  unfold cons_wait_poll, out_of_fuel. run_M.
  destruct (wc_poll_wait (cons_wait c1)) as [w p]. cbn in *. subst p. done.
Qed.

(** *** [reserve] *)

Definition reserve_post (v : view E) (fp : ReserveFuture * poll (result Reservation (SendError E unit)))
    (v' : view E) : Prop :=
  match snd fp with
  | Pending => v' = v /\ v_rx_closed v = false /\ (exists w, fst fp = ReserveWaiting w)
  | Ready (Ok (mkReservation i)) =>
      v_rx_closed v = false /\ 0 <= i < v_cap v /\ (i ∉ v_queued v) /\ (i ∉ v_held v) /\
      v' = upd_held ({[i]} ∪ v_held v) v
  | Ready (Err e) => v_rx_closed v = true /\ e = send_reason (v_failed v) /\ v' = v
  end.

Definition reserve_ok (m : M (Core E) (ReserveFuture * poll (result Reservation (SendError E unit)))) c v : Prop :=
  exists c' a v', m c = (c', Val a) /\ rep c' v' /\ reserve_post v a v'.

(** Trying: done, or full, and then the loop goes on to wait. *)
Lemma reserve_start_run fuel c v :
  rep c v ->
  reserve_ok (reserve_poll (S fuel) ReserveStart) c v \/
  exists c', reserve_poll (S fuel) ReserveStart c = reserve_poll fuel (ReserveWaiting wq_wait) c' /\
    rep c' v /\ v_rx_closed v = false /\ prod_wait c' = prod_wait c.
Proof.
  intros Hr. unfold reserve_ok. cbn [reserve_poll].
  destruct (try_reserve_spec c v Hr I) as (c1 & r & v1 & Hrun & Hr1 & Hpost).
  rewrite (bind_val _ _ _ _ _ Hrun).
  assert (Hpw : prod_wait c1 = prod_wait c).
  { revert Hrun. unfold try_reserve, enqueue_pos_load, indices_allocate. run_M.
    destruct (_ =? _); [rewrite (close_reason_run _ _ Hr)|destruct (ia_allocate _)]; by intros [= <- _]. }
  unfold try_reserve_post in Hpost. destruct (v_rx_closed v) eqn:Hcl.
  - destruct Hpost as [-> ->]. left.
    destruct (v_failed v) eqn:Hf; eexists _, _, v; (split; [reflexivity|]); unfold reserve_post; cbn;
      rewrite Hf; done.
  - destruct Hpost as [(i & -> & Hi & Hq & Hh & ->)|(-> & -> & _)].
    + left. eexists _, _, _. split; [reflexivity|]. split; [done|]. by unfold reserve_post; cbn.
    + right. by exists c1.
Qed.

(** Waiting: pending, closed, or woken, and then the loop tries again. *)
Lemma reserve_waiting_run fuel w c v :
  rep c v ->
  reserve_ok (reserve_poll (S fuel) (ReserveWaiting w)) c v \/
  exists c', reserve_poll (S fuel) (ReserveWaiting w) c = reserve_poll fuel ReserveStart c' /\
    rep c' v /\ prod_wait c' = fst (fst (wq_poll (prod_wait c) w)) /\
    snd (wq_poll (prod_wait c) w) = Ready (Ok tt).
Proof.
  intros Hr. unfold reserve_ok. cbn [reserve_poll]. unfold prod_wait_poll.
  pose proof (wq_poll_closed_same (prod_wait c) w) as Hsame.
  pose proof (wq_poll_open (prod_wait c) w) as Hopen.
  pose proof (wq_poll_closed (prod_wait c) w) as Hclosed.
  destruct (wq_poll (prod_wait c) w) as [[q w'] p] eqn:Hp. run_M. rewrite Hp.
  rewrite (rep_rx_wait _ _ Hr) in *. cbn in *.
  assert (Hr1 : rep (set_prod_wait q c) v) by (by apply prod_wait_rep).
  destruct p as [|[[]|[]]].
  - left. eexists _, _, v. split; [reflexivity|]. split; [done|]. unfold reserve_post. cbn.
    split_and!; [done| |by eexists]. destruct (v_rx_closed v); [by specialize (Hclosed eq_refl)|done].
  - right. by exists (set_prod_wait q c).
  - left. rewrite (close_reason_run _ _ Hr1). eexists _, _, v. split; [reflexivity|]. split; [done|].
    unfold reserve_post. cbn. split_and!; [|by destruct (v_failed v)|done].
    destruct (v_rx_closed v); [done|]. by destruct Hopen.
Qed.

(** A future that starts ends its poll within four rounds: one wakeup at most is
    stored in the queue. *)
Lemma reserve_start_ends fuel c v :
  rep c v -> reserve_ok (reserve_poll (4 + fuel) ReserveStart) c v.
Proof.
  intros Hr. cbn [Nat.add].
  destruct (reserve_start_run (3 + fuel) _ _ Hr) as [?|(c1 & E1 & Hr1 & Hcl & _)]; [done|].
  unfold reserve_ok. cbn [Nat.add] in *. rewrite E1.
  destruct (reserve_waiting_run (2 + fuel) wq_wait _ _ Hr1) as [?|(c2 & E2 & Hr2 & Hpw2 & Hrdy)]; [done|].
  cbn [Nat.add] in *. rewrite E2.
  destruct (reserve_start_run (1 + fuel) _ _ Hr2) as [?|(c3 & E3 & Hr3 & _ & Hpw3)]; [done|].
  cbn [Nat.add] in *. rewrite E3.
  destruct (reserve_waiting_run fuel wq_wait _ _ Hr3) as [?|(c4 & _ & _ & _ & Hrdy')]; [done|].
  rewrite Hpw3, Hpw2, (wq_poll_consumes _ Hrdy) in Hrdy'. done.
Qed.

Theorem reserve_poll_spec f : refines (reserve_poll 5 f) (fun _ => True) reserve_post.
Proof.
  intros c v Hr _. destruct f as [|w]; [by apply (reserve_start_ends 1)|].
  destruct (reserve_waiting_run 4 w _ _ Hr) as [?|(c1 & E1 & Hr1 & _)]; [done|].
  rewrite E1. by apply (reserve_start_ends 0).
Qed.

(** ** The queries *)

(** [is_empty] compares whole position words, flags included. *)
Theorem is_empty_spec :
  refines is_empty (fun _ => True)
    (fun v b v' => v' = v /\
       b = bool_decide (v_queued v = [] /\ v_rx_closed v = v_tx_closed v)).
Proof.
  intros c v Hr _. unfold is_empty, enqueue_pos_load, dequeue_pos_load. run_M.
  eexists c, _, v. split; [reflexivity|]. split; [done|]. split; [done|].
  pose proof (rep_delivered _ _ Hr). pose proof (rep_queue_bound _ _ Hr). pose proof (rep_cap _ _ Hr) as [? _].
  unfold LAST_POS, MAX_CAPACITY in *. rewrite (rep_enq _ _ Hr), (rep_deq _ _ Hr).
  case_bool_decide as Hc.
  - destruct Hc as [-> ->]. apply Z.eqb_eq. cbn. f_equal. mlia.
  - apply Z.eqb_neq. intros [Hp Hb]%pos_word_inj. apply Hc. split; [|done].
    apply length_zero_iff_nil. mlia.
Qed.

(** [is_full] compares the tail with the head one position further. *)
Theorem is_full_spec :
  refines is_full (fun _ => True)
    (fun v b v' => v' = v /\
       b = bool_decide (length (v_queued v) = 1%nat /\ v_rx_closed v = v_tx_closed v)).
Proof.
  intros c v Hr _. unfold is_full, enqueue_pos_load, dequeue_pos_load. run_M.
  eexists c, _, v. split; [reflexivity|]. split; [done|]. split; [done|].
  pose proof (rep_delivered _ _ Hr). pose proof (rep_queue_bound _ _ Hr). pose proof (rep_cap _ _ Hr) as [? _].
  unfold LAST_POS, MAX_CAPACITY in *. rewrite (rep_enq _ _ Hr), (rep_deq _ _ Hr), pos_word_next by lia.
  case_bool_decide as Hc.
  - destruct Hc as [-> ->]. apply Z.eqb_eq. f_equal.
  - apply Z.eqb_neq. intros [Hp Hb]%pos_word_inj. apply Hc. split; [|done]. mlia.
Qed.

(** [len] takes head and tail from the same word. *)
Theorem len_spec : refines len (fun _ => True) (fun v n v' => v' = v /\ n = 0).
Proof.
  intros c v Hr _. unfold len, enqueue_pos_load, dequeue_pos_load. cbn [len_loop]. unfold gets. run_M.
  rewrite Z.eqb_refl, Z.compare_refl. by eexists c, _, v.
Qed.

(** ** The channel core as a whole *)

(** The operations of the core that change it, with the type of what they return. *)
Inductive core_op : Type -> Type :=
| OpTryReserve : core_op (result Reservation (TrySendError E unit))
| OpReservePoll (f : ReserveFuture) : core_op (ReserveFuture * poll (result Reservation (SendError E unit)))
| OpUncommit (i : Z) : core_op unit
| OpCommitSend (i : Z) : core_op (result unit (SendError E unit))
| OpTryDequeue : core_op (result Reservation (TryRecvError E))
| OpPollDequeue : core_op (poll (result Reservation (RecvError E)))
| OpTryClaimRx : core_op (option unit)
| OpAddTx : core_op unit
| OpDropTx : core_op unit
| OpCloseRx : core_op unit
| OpCloseWithError (e : E) : core_op bool.

Definition core_run {A} (o : core_op A) : M (Core E) A :=
  match o with
  | OpTryReserve => try_reserve
  | OpReservePoll f => reserve_poll 5 f
  | OpUncommit i => uncommit i
  | OpCommitSend i => core_commit_send i
  | OpTryDequeue => try_dequeue
  | OpPollDequeue => poll_dequeue
  | OpTryClaimRx => try_claim_rx
  | OpAddTx => add_tx
  | OpDropTx => drop_tx
  | OpCloseRx => close_rx
  | OpCloseWithError e => close_with_error e
  end.

(** When a caller may call it: it holds the index, it is a sender. *)
Definition core_pre {A} (o : core_op A) (v : view E) : Prop :=
  match o with
  | OpUncommit i | OpCommitSend i => i ∈ v_held v
  | OpAddTx => v_senders v + 1 < 2 ^ 61
  | OpDropTx => 1 <= v_senders v
  | _ => True
  end.

(** What it does to the queue, the held indices and the flags. *)
Definition core_post {A} (o : core_op A) : view E -> A -> view E -> Prop :=
  match o with
  | OpTryReserve => try_reserve_post
  | OpReservePoll _ => reserve_post
  | OpUncommit i => fun v _ v' => v' = upd_held (v_held v ∖ {[i]}) v
  | OpCommitSend i => commit_send_post i
  | OpTryDequeue => try_dequeue_post
  | OpPollDequeue => poll_dequeue_post
  | OpTryClaimRx => fun v r v' => r = (if v_claimed v then None else Some tt) /\ v' = upd_claimed true v
  | OpAddTx => fun v _ v' => v' = upd_senders (v_senders v + 1) v
  | OpDropTx => fun v _ v' => v' = drop_tx_view v
  | OpCloseRx => fun v _ v' => v' = upd_closed true (v_tx_closed v) v
  | OpCloseWithError e => close_with_error_post e
  end.

(** C9: The channel core (two position words, 64 sequence slots, an index allocator, a
    state word, two wait lists) implements a bounded FIFO queue of indices: run from any
    state that represents a queue, each of its operations ends without a panic, whatever
    the loops it contains, in a state that represents the queue its specification names,
    and returns what the specification says. *)
Theorem core_refines_queue {A} (o : core_op A) c v :
  rep c v -> core_pre o v ->
  wp (core_run o) (fun a c' => exists v', rep c' v' /\ core_post o v a v') c.
Proof.
  intros Hr Hpre.
  assert (H : refines (core_run o) (core_pre o) (core_post o)).
  { destruct o; cbn; first [apply try_reserve_spec | apply reserve_poll_spec | apply uncommit_spec
      | apply commit_send_spec | apply try_dequeue_spec | apply poll_dequeue_spec | apply try_claim_rx_spec
      | apply add_tx_spec | apply drop_tx_spec | apply close_rx_spec | apply close_with_error_spec]. }
  destruct (H c v Hr Hpre) as (c' & a & v' & Hrun & Hr' & Hpost). exists c', a. eauto.
Qed.

(** What the three queries of a channel at rest really answer.  [is_empty] is right only
    while both ends are open or both closed; [is_full] is true exactly when ONE message is
    queued, whatever the capacity; [len] is always zero. *)
Theorem queries_spec c v :
  rep c v ->
  is_empty c = (c, Val (bool_decide (v_queued v = [] /\ v_rx_closed v = v_tx_closed v))) /\
  is_full c = (c, Val (bool_decide (length (v_queued v) = 1%nat /\ v_rx_closed v = v_tx_closed v))) /\
  snd (len c) = Val 0.
Proof.
  intros Hr. split_and!.
  - destruct (is_empty_spec c v Hr I) as (c' & b & v' & Hrun & _ & _ & ->). rewrite Hrun. f_equal.
    by injection Hrun as <-.
  - destruct (is_full_spec c v Hr I) as (c' & b & v' & Hrun & _ & _ & ->). rewrite Hrun. f_equal.
    by injection Hrun as <-.
  - destruct (len_spec c v Hr I) as (c' & n & v' & Hrun & _ & _ & ->). by rewrite Hrun.
Qed.

End Rep.
