(* ===== verification/Pipe.v ===== *)
(** The channel handles: [tricky-pipe/src/mpsc/mod.rs], the allocation-specific
    parts of [arc_impl.rs] and [static_impl.rs], and the type-erased accesses of the
    second half of [channel_core.rs].

    A [Pipe] is the shared state of one channel of messages of type [T]: the core, the
    elements array, the reference count of the [Arc].  A handle ([Receiver], [Sender],
    ...) is a pointer to it, so an operation of a handle is a computation over [Pipe].
    An element is [None] while it holds no message: it was never written, or its
    message was moved out.  Reading such an element is undefined behaviour in the
    source; here it is a panic, so that a theorem that says an operation does not
    panic also says it reads no uninitialised memory. *)
From S2P Require Import Prelude Interfaces Errors Core.

(** [core::any::TypeId] *)
Abbreviation TypeId := Z.

(** [struct ErasedSlice]: the pointer is the elements array of the pipe. *)
Record ErasedSlice := mkErasedSlice { es_len : Z; es_typ : TypeId }.

Section Pipe.
Context {PU : PackUsize} {IA : IndexAlloc} {WCA : WaitCellApi} {WQA : WaitQueueApi}.
Context {T E : Type} {PC : Postcard T}.

(** [SharedState<T, E>] ([arc_impl.rs]) and [StaticTrickyPipe<T, CAPACITY, E>]. *)
Record Pipe := mkPipe {
  core : Core E;
  elements : list (option T);
  strong_count : Z;
  (** the messages destroyed in place, in order *)
  destroyed : list T;
}.

Definition set_core (c : Core E) (p : Pipe) : Pipe := mkPipe c (elements p) (strong_count p) (destroyed p).
Definition set_elements (l : list (option T)) (p : Pipe) : Pipe := mkPipe (core p) l (strong_count p) (destroyed p).
Definition set_strong_count (n : Z) (p : Pipe) : Pipe := mkPipe (core p) (elements p) n (destroyed p).
Definition set_destroyed (l : list T) (p : Pipe) : Pipe := mkPipe (core p) (elements p) (strong_count p) l.

(** Runs an operation of the core. *)
Definition on_core {A} (m : M (Core E) A) : M Pipe A := zoom core set_core m.

(** *** Elements: [elems()[idx as usize]] *)

(** [assume_init_read]: moves the message out. *)
Definition elem_read (i : Z) : M Pipe T := fun p =>
  match elements p !! Z.to_nat i with
  | Some (Some x) => (set_elements (<[Z.to_nat i := None]> (elements p)) p, Val x)
  | _ => (p, Panic)
  end.
(** [assume_init_ref] *)
Definition elem_ref (i : Z) : M Pipe T := fun p =>
  match elements p !! Z.to_nat i with Some (Some x) => (p, Val x) | _ => (p, Panic) end.
(** [write]: the message there before, if any, is not dropped. *)
Definition elem_write (i : Z) (x : T) : M Pipe unit := fun p =>
  match elements p !! Z.to_nat i with
  | Some _ => (set_elements (<[Z.to_nat i := Some x]> (elements p)) p, Val tt)
  | None => (p, Panic)
  end.
(** The bounds check of [elems()[idx as usize].get_mut()]. *)
Definition elem_check (i : Z) : M Pipe unit := fun p =>
  match elements p !! Z.to_nat i with Some _ => (p, Val tt) | None => (p, Panic) end.
(** [drop_in_place] *)
Definition elem_drop (i : Z) : M Pipe unit :=
  x ← elem_read i; modify (fun p => set_destroyed (destroyed p ++ [x]) p).

(** ** Type erasure *)

(** [ErasedSlice::erase] of the elements of a pipe of [T], whose [TypeId] is [tid]. *)
Definition erase (tid : TypeId) : M Pipe ErasedSlice :=
  gets (fun p => mkErasedSlice (Z.of_nat (length (elements p))) tid).

(** [ErasedSlice::unerase], with its [debug_assert_eq!]. *)
Definition unerase (tid : TypeId) (es : ErasedSlice) : M Pipe unit :=
  if es_typ es =? tid then mret tt else panic.

Definition SerVtable_to_slice (tid : TypeId) (es : ErasedSlice) (i : Z) (buf : bytes)
    : M Pipe (bytes * result nat PostcardError) :=
  unerase tid es;; elem ← elem_ref i; mret (pc_to_slice elem buf).
Definition SerVtable_to_slice_framed (tid : TypeId) (es : ErasedSlice) (i : Z) (buf : bytes)
    : M Pipe (bytes * result nat PostcardError) :=
  unerase tid es;; elem ← elem_ref i; mret (pc_to_slice_cobs elem buf).
Definition SerVtable_to_vec (tid : TypeId) (es : ErasedSlice) (i : Z) : M Pipe (result bytes PostcardError) :=
  unerase tid es;; elem ← elem_ref i; mret (pc_to_allocvec elem).
Definition SerVtable_to_vec_framed (tid : TypeId) (es : ErasedSlice) (i : Z) : M Pipe (result bytes PostcardError) :=
  unerase tid es;; elem ← elem_ref i; mret (pc_to_allocvec_cobs elem).
Definition SerVtable_drop_elem (tid : TypeId) (es : ErasedSlice) (i : Z) : M Pipe unit :=
  unerase tid es;; elem_drop i.

Definition DeserVtable_from_bytes (tid : TypeId) (es : ErasedSlice) (i : Z) (buf : bytes)
    : M Pipe (result unit PostcardError) :=
  match pc_from_bytes buf with
  | Err e => mret (Err e)
  | Ok val => unerase tid es;; elem_write i val;; mret (Ok tt)
  end.
(** The framed variant decodes with [postcard::from_bytes] too. *)
Definition DeserVtable_from_bytes_framed (tid : TypeId) (es : ErasedSlice) (i : Z) (buf : bytes)
    : M Pipe (result unit PostcardError) :=
  match pc_from_bytes buf with
  | Err e => mret (Err e)
  | Ok val => unerase tid es;; elem_write i val;; mret (Ok tt)
  end.

(** ** Handles

    [tid] is the [TypeId] of [T]: a handle's vtables are those of the pipe's element
    type.  The reference counting of [arc_impl.rs] is [pipe], [erased_clone] and
    [erased_drop]; a static pipe has none ([static_clone], [static_drop]). *)
Section Handles.
Variable tid : TypeId.

(** A permit, a reference to a received message: a reservation and the slice. *)
Record SerRecvRef := mkSerRecvRef { srr_res : Reservation; srr_elems : ErasedSlice; srr_type : TypeId }.
Record Permit := mkPermit { permit_pipe : Reservation }.
Record SerPermit := mkSerPermit { sp_res : Reservation; sp_elems : ErasedSlice; sp_type : TypeId }.
Record ErasedPermit := mkErasedPermit { ep_res : Reservation; ep_elems : ErasedSlice; ep_type : TypeId }.

(** [Drop for Reservation] *)
Definition Reservation_drop (res : Reservation) : M Pipe unit := on_core (uncommit (idx res)).

(** *** [Receiver] *)

(** [take_value]: the reservation is dropped after the read. *)
Definition Receiver_take_value (res : Reservation) : M Pipe T :=
  x ← elem_read (idx res); Reservation_drop res;; mret x.

Definition Receiver_try_recv : M Pipe (result T (TryRecvError E)) :=
  r ← on_core try_dequeue;
  match r with
  | Ok res => x ← Receiver_take_value res; mret (Ok x)
  | Err e => mret (Err e)
  end.

Definition Receiver_poll_recv : M Pipe (poll (result T (RecvError E))) :=
  p ← on_core poll_dequeue;
  match p with
  | Pending => mret Pending
  | Ready (Ok res) => x ← Receiver_take_value res; mret (Ready (Ok x))
  | Ready (Err e) => mret (Ready (Err e))
  end.

(** [Future for Recv] *)
Definition Recv_poll : M Pipe (poll (result T (RecvError E))) := Receiver_poll_recv.

(** [Stream for Receiver]: [None] ends the stream. *)
Definition Receiver_poll_next : M Pipe (poll (option (result T E))) :=
  p ← Receiver_poll_recv;
  mret (poll_map (fun res => match res with
                             | Ok x => Some (Ok x)
                             | Err RecvDisconnected => None
                             | Err (RecvErrorWith error) => Some (Err error)
                             end) p).

Definition Receiver_close_with_error (error : E) : M Pipe bool := on_core (close_with_error error).
Definition Receiver_is_empty : M Pipe bool := on_core is_empty.
Definition Receiver_is_full : M Pipe bool := on_core is_full.
Definition Receiver_len : M Pipe Z := on_core len.
Definition Receiver_capacity : M Pipe Z := on_core (gets capacity).
(** [self.len() - self.capacity()] *)
Definition Receiver_remaining : M Pipe Z :=
  l ← Receiver_len; cap ← Receiver_capacity; expect (usize_checked_sub l cap).

(** *** [SerReceiver] and [SerRecvRef] *)

Definition SerReceiver_try_recv : M Pipe (result SerRecvRef (TryRecvError E)) :=
  r ← on_core try_dequeue;
  match r with
  | Ok res => es ← erase tid; mret (Ok (mkSerRecvRef res es tid))
  | Err e => mret (Err e)
  end.

Definition SerReceiver_poll_recv : M Pipe (poll (result SerRecvRef (RecvError E))) :=
  p ← on_core poll_dequeue;
  match p with
  | Pending => mret Pending
  | Ready (Ok res) => es ← erase tid; mret (Ready (Ok (mkSerRecvRef res es tid)))
  | Ready (Err e) => mret (Ready (Err e))
  end.
Definition SerRecv_poll : M Pipe (poll (result SerRecvRef (RecvError E))) := SerReceiver_poll_recv.

Definition SerReceiver_poll_next : M Pipe (poll (option (result SerRecvRef E))) :=
  p ← SerReceiver_poll_recv;
  mret (poll_map (fun res => match res with
                             | Ok x => Some (Ok x)
                             | Err RecvDisconnected => None
                             | Err (RecvErrorWith error) => Some (Err error)
                             end) p).

Definition SerReceiver_close_with_error (error : E) : M Pipe bool := on_core (close_with_error error).
Definition SerReceiver_is_empty : M Pipe bool := on_core is_empty.
Definition SerReceiver_is_full : M Pipe bool := on_core is_full.
Definition SerReceiver_len : M Pipe Z := on_core len.
Definition SerReceiver_capacity : M Pipe Z := on_core (gets capacity).
Definition SerReceiver_remaining : M Pipe Z :=
  l ← SerReceiver_len; cap ← SerReceiver_capacity; expect (usize_checked_sub l cap).

Definition SerRecvRef_to_slice (r : SerRecvRef) (buf : bytes) : M Pipe (bytes * result nat PostcardError) :=
  SerVtable_to_slice (srr_type r) (srr_elems r) (idx (srr_res r)) buf.
Definition SerRecvRef_to_slice_framed (r : SerRecvRef) (buf : bytes) : M Pipe (bytes * result nat PostcardError) :=
  SerVtable_to_slice_framed (srr_type r) (srr_elems r) (idx (srr_res r)) buf.
Definition SerRecvRef_to_vec (r : SerRecvRef) : M Pipe (result bytes PostcardError) :=
  SerVtable_to_vec (srr_type r) (srr_elems r) (idx (srr_res r)).
Definition SerRecvRef_to_vec_framed (r : SerRecvRef) : M Pipe (result bytes PostcardError) :=
  SerVtable_to_vec_framed (srr_type r) (srr_elems r) (idx (srr_res r)).
(** The destructor, then that of the field [res]. *)
Definition SerRecvRef_drop (r : SerRecvRef) : M Pipe unit :=
  SerVtable_drop_elem (srr_type r) (srr_elems r) (idx (srr_res r));; Reservation_drop (srr_res r).

(** *** [Permit] and [Sender] *)

(** [Permit::commit]: the outcome of the commit is ignored. *)
Definition Permit_commit (p : Permit) : M Pipe unit :=
  on_core (commit_send (permit_pipe p));; mret tt.
(** [Deref] and [DerefMut] for [Permit]: the slot, which may be uninitialized, and what the
    caller makes of it in place. *)
Definition Permit_deref (p : Permit) : M Pipe (option T) := fun s =>
  match elements s !! Z.to_nat (idx (permit_pipe p)) with Some x => (s, Val x) | None => (s, Panic) end.
Definition Permit_deref_mut (p : Permit) (f : option T -> option T) : M Pipe unit := fun s =>
  let i := Z.to_nat (idx (permit_pipe p)) in
  match elements s !! i with Some x => (set_elements (<[i := f x]> (elements s)) s, Val tt) | None => (s, Panic) end.
Definition Permit_send (p : Permit) (val : T) : M Pipe unit :=
  elem_write (idx (permit_pipe p)) val;; Permit_commit p.
Definition Permit_drop (p : Permit) : M Pipe unit := Reservation_drop (permit_pipe p).

Definition Sender_try_reserve : M Pipe (result Permit (TrySendError E unit)) :=
  r ← on_core try_reserve;
  match r with
  | Ok res => elem_check (idx res);; mret (Ok (mkPermit res))
  | Err e => mret (Err e)
  end.

(** One poll of [Sender::reserve]. *)
Definition Sender_reserve_poll (fuel : nat) (f : ReserveFuture)
    : M Pipe (ReserveFuture * poll (result Permit (SendError E unit))) :=
  fp ← on_core (reserve_poll fuel f);
  match fp with
  | (f', Ready (Ok res)) => elem_check (idx res);; mret (f', Ready (Ok (mkPermit res)))
  | (f', Ready (Err e)) => mret (f', Ready (Err e))
  | (f', Pending) => mret (f', Pending)
  end.

Definition Sender_try_send (message : T) : M Pipe (result unit (TrySendError E T)) :=
  r ← Sender_try_reserve;
  match r with
  | Ok permit => Permit_send permit message;; mret (Ok tt)
  | Err e => mret (Err (TrySendErr.with_message e message))
  end.

(** One poll of [Sender::send]. *)
Definition Sender_send_poll (fuel : nat) (message : T) (f : ReserveFuture)
    : M Pipe (ReserveFuture * poll (result unit (SendError E T))) :=
  fp ← Sender_reserve_poll fuel f;
  match fp with
  | (f', Ready (Ok permit)) => Permit_send permit message;; mret (f', Ready (Ok tt))
  | (f', Ready (Err e)) => mret (f', Ready (Err (SendErr.with_message e message)))
  | (f', Pending) => mret (f', Pending)
  end.

Definition Sender_close_with_error (error : E) : M Pipe bool := on_core (close_with_error error).
Definition Sender_is_empty : M Pipe bool := on_core is_empty.
Definition Sender_is_full : M Pipe bool := on_core is_full.
Definition Sender_len : M Pipe Z := on_core len.
Definition Sender_capacity : M Pipe Z := on_core (gets capacity).
Definition Sender_remaining : M Pipe Z :=
  l ← Sender_len; cap ← Sender_capacity; expect (usize_checked_sub l cap).

(** *** [SerPermit] and [DeserSender] *)

(** On a decoding error the permit is dropped, and its reservation with it. *)
Definition SerPermit_send (p : SerPermit) (bs : bytes) : M Pipe (result unit (SerSendError E)) :=
  r ← DeserVtable_from_bytes (sp_type p) (sp_elems p) (idx (sp_res p)) bs;
  match r with
  | Err e => Reservation_drop (sp_res p);; mret (Err (SerSendDeserialize e))
  | Ok _ => s ← on_core (commit_send (sp_res p)); mret (result_map_err from_send_error s)
  end.
Definition SerPermit_send_framed (p : SerPermit) (bs : bytes) : M Pipe (result unit (SerSendError E)) :=
  r ← DeserVtable_from_bytes_framed (sp_type p) (sp_elems p) (idx (sp_res p)) bs;
  match r with
  | Err e => Reservation_drop (sp_res p);; mret (Err (SerSendDeserialize e))
  | Ok _ => s ← on_core (commit_send (sp_res p)); mret (result_map_err from_send_error s)
  end.

Definition DeserSender_try_reserve : M Pipe (result SerPermit (TrySendError E unit)) :=
  r ← on_core try_reserve;
  match r with
  | Ok res => es ← erase tid; mret (Ok (mkSerPermit res es tid))
  | Err e => mret (Err e)
  end.
Definition DeserSender_reserve_poll (fuel : nat) (f : ReserveFuture)
    : M Pipe (ReserveFuture * poll (result SerPermit (SendError E unit))) :=
  fp ← on_core (reserve_poll fuel f);
  match fp with
  | (f', Ready (Ok res)) => es ← erase tid; mret (f', Ready (Ok (mkSerPermit res es tid)))
  | (f', Ready (Err e)) => mret (f', Ready (Err e))
  | (f', Pending) => mret (f', Pending)
  end.

Definition DeserSender_try_send (bs : bytes) : M Pipe (result unit (SerTrySendError E)) :=
  r ← DeserSender_try_reserve;
  match r with
  | Err e => mret (Err (from_try_send_error e))
  | Ok permit => s ← SerPermit_send permit bs; mret (result_map_err from_ser_send_error s)
  end.
Definition DeserSender_try_send_framed (bs : bytes) : M Pipe (result unit (SerTrySendError E)) :=
  r ← DeserSender_try_reserve;
  match r with
  | Err e => mret (Err (from_try_send_error e))
  | Ok permit => s ← SerPermit_send_framed permit bs; mret (result_map_err from_ser_send_error s)
  end.

Definition DeserSender_send_poll (fuel : nat) (bs : bytes) (f : ReserveFuture)
    : M Pipe (ReserveFuture * poll (result unit (SerSendError E))) :=
  fp ← DeserSender_reserve_poll fuel f;
  match fp with
  | (f', Ready (Err e)) => mret (f', Ready (Err (from_send_error e)))
  | (f', Ready (Ok permit)) => s ← SerPermit_send permit bs; mret (f', Ready s)
  | (f', Pending) => mret (f', Pending)
  end.
Definition DeserSender_send_framed_poll (fuel : nat) (bs : bytes) (f : ReserveFuture)
    : M Pipe (ReserveFuture * poll (result unit (SerSendError E))) :=
  fp ← DeserSender_reserve_poll fuel f;
  match fp with
  | (f', Ready (Err e)) => mret (f', Ready (Err (from_send_error e)))
  | (f', Ready (Ok permit)) => s ← SerPermit_send_framed permit bs; mret (f', Ready s)
  | (f', Pending) => mret (f', Pending)
  end.

Definition DeserSender_close_with_error (error : E) : M Pipe bool := on_core (close_with_error error).
Definition DeserSender_is_empty : M Pipe bool := on_core is_empty.
Definition DeserSender_is_full : M Pipe bool := on_core is_full.
Definition DeserSender_len : M Pipe Z := on_core len.
Definition DeserSender_capacity : M Pipe Z := on_core (gets capacity).
Definition DeserSender_remaining : M Pipe Z :=
  l ← DeserSender_len; cap ← DeserSender_capacity; expect (usize_checked_sub l cap).

(** *** [ErasedSender] and [ErasedPermit] *)

Definition ErasedSender_try_reserve : M Pipe (result ErasedPermit (TrySendError E unit)) :=
  r ← on_core try_reserve;
  match r with
  | Ok res => es ← erase tid; mret (Ok (mkErasedPermit res es tid))
  | Err e => mret (Err e)
  end.
Definition ErasedSender_reserve_poll (fuel : nat) (f : ReserveFuture)
    : M Pipe (ReserveFuture * poll (result ErasedPermit (SendError E unit))) :=
  fp ← on_core (reserve_poll fuel f);
  match fp with
  | (f', Ready (Ok res)) => es ← erase tid; mret (f', Ready (Ok (mkErasedPermit res es tid)))
  | (f', Ready (Err e)) => mret (f', Ready (Err e))
  | (f', Pending) => mret (f', Pending)
  end.
Definition ErasedSender_type_id : TypeId := tid.
Definition ErasedSender_is (target : TypeId) : bool := ErasedSender_type_id =? target.
Definition ErasedSender_close_with_error (error : E) : M Pipe bool := on_core (close_with_error error).
Definition ErasedSender_is_empty : M Pipe bool := on_core is_empty.
Definition ErasedSender_is_full : M Pipe bool := on_core is_full.
Definition ErasedSender_len : M Pipe Z := on_core len.
Definition ErasedSender_capacity : M Pipe Z := on_core (gets capacity).
Definition ErasedSender_remaining : M Pipe Z :=
  l ← ErasedSender_len; cap ← ErasedSender_capacity; expect (usize_checked_sub l cap).

Definition ErasedPermit_type_id (p : ErasedPermit) : TypeId := ep_type p.
Definition ErasedPermit_is (p : ErasedPermit) (target : TypeId) : bool := ErasedPermit_type_id p =? target.
Definition ErasedPermit_downcast (p : ErasedPermit) (target : TypeId) : M Pipe (result Permit ErasedPermit) :=
  if negb (ErasedPermit_is p target) then mret (Err p)
  else
    unerase target (ep_elems p);;
    elem_check (idx (ep_res p));;
    mret (Ok (mkPermit (ep_res p))).

(** *** Conversions and lifetimes

    A conversion ([into_serde], [into_erased]) takes the pointer out of a
    handle whose destructor does not run: it changes no count. *)

Definition Receiver_into_serde : M Pipe unit := mret tt.
Definition Sender_into_serde : M Pipe unit := mret tt.
Definition Sender_into_erased : M Pipe unit := mret tt.

(** [Drop for SharedState]: receives and destroys what is left. *)
Fixpoint SharedState_drop (fuel : nat) : M Pipe unit :=
  match fuel with
  | O => out_of_fuel
  | S fuel =>
      r ← on_core try_dequeue;
      match r with
      | Ok res => elem_drop (idx res);; Reservation_drop res;; SharedState_drop fuel
      | Err _ => mret tt
      end
  end.

(** [Arc::increment_strong_count] *)
Definition erased_clone : M Pipe unit := modify (fun p => set_strong_count (strong_count p + 1) p).
(** [drop(Arc::from_raw(ptr))]: the last reference destroys the shared state, whose
    queue holds at most 64 messages. *)
Definition erased_drop : M Pipe unit :=
  n ← gets strong_count;
  modify (fun p => set_strong_count (n - 1) p);;
  if n =? 1 then SharedState_drop 65 else mret tt.
(** The vtable entries of a static pipe. *)
Definition static_clone : M Pipe unit := mret tt.
Definition static_drop : M Pipe unit := mret tt.

(** [struct CoreVtable]: how the references to a pipe are counted. *)
Record CoreVtable := mkCoreVtable { vt_clone : M Pipe unit; vt_drop : M Pipe unit; vt_type_id : TypeId }.
Definition ARC_VTABLE : CoreVtable := mkCoreVtable erased_clone erased_drop tid.
Definition STATIC_VTABLE : CoreVtable := mkCoreVtable static_clone static_drop tid.

(** [ErasedPipe::typed]: the pipe is consumed; when the types differ it is dropped. *)
Definition typed (vt : CoreVtable) (target : TypeId) : M Pipe (option unit) :=
  if target =? vt_type_id vt then mret (Some tt) else vt_drop vt;; mret None.

(** [downcast] of a handle: a copy of its pipe (without a reference of its own) is asked for
    its type; the result is the typed handle, or [None] for the handle itself. *)
Definition SerReceiver_downcast (vt : CoreVtable) (target : TypeId) : M Pipe (option unit) := typed vt target.
Definition DeserSender_downcast (vt : CoreVtable) (target : TypeId) : M Pipe (option unit) := typed vt target.

(** [Clone] and [Drop] of the handles: the body, then the field [pipe]. *)
Definition Sender_clone (vt : CoreVtable) : M Pipe unit := on_core add_tx;; vt_clone vt.
Definition DeserSender_clone (vt : CoreVtable) : M Pipe unit := on_core add_tx;; vt_clone vt.
Definition ErasedSender_clone (vt : CoreVtable) : M Pipe unit := on_core add_tx;; vt_clone vt.
Definition Sender_drop (vt : CoreVtable) : M Pipe unit := on_core drop_tx;; vt_drop vt.
Definition DeserSender_drop (vt : CoreVtable) : M Pipe unit := on_core drop_tx;; vt_drop vt.
Definition ErasedSender_drop (vt : CoreVtable) : M Pipe unit := on_core drop_tx;; vt_drop vt.
Definition Receiver_drop (vt : CoreVtable) : M Pipe unit := on_core close_rx;; vt_drop vt.
Definition SerReceiver_drop (vt : CoreVtable) : M Pipe unit := on_core close_rx;; vt_drop vt.

(** *** [TrickyPipe] ([arc_impl.rs]) *)

Definition TrickyPipe_new (cap : Z) : outcome Pipe :=
  match new cap with
  | Val c => Val (mkPipe c (replicate (Z.to_nat cap) None) 1 [])
  | Panic => Panic
  | OutOfFuel => OutOfFuel
  end.
(** [TrickyPipe::pipe] clones the [Arc]. *)
Definition TrickyPipe_pipe : M Pipe unit := erased_clone.
Definition TrickyPipe_receiver : M Pipe (option unit) :=
  r ← on_core try_claim_rx;
  match r with None => mret None | Some _ => TrickyPipe_pipe;; mret (Some tt) end.
Definition TrickyPipe_sender : M Pipe unit := on_core add_tx;; TrickyPipe_pipe.
Definition TrickyPipe_ser_receiver : M Pipe (option unit) :=
  r ← on_core try_claim_rx;
  match r with None => mret None | Some _ => TrickyPipe_pipe;; mret (Some tt) end.
Definition TrickyPipe_deser_sender : M Pipe unit := on_core add_tx;; TrickyPipe_pipe.
Definition TrickyPipe_clone : M Pipe unit := on_core add_tx;; erased_clone.
Definition TrickyPipe_drop : M Pipe unit := on_core drop_tx;; erased_drop.

(** [SharedState::new]: a pipe around elements allocated by the caller. *)
Definition SharedState_new (elems : list (option T)) : outcome Pipe :=
  let cap := Z.of_nat (length elems) in
  if cap <=? MAX_CAPACITY then
    match new (u8_wrap cap) with
    | Val c => Val (mkPipe c elems 1 [])
    | Panic => Panic
    | OutOfFuel => OutOfFuel
    end
  else Panic.

(** *** [StaticTrickyPipe] ([static_impl.rs]) *)

Fixpoint is_power_of_two (width : nat) (z : Z) : bool :=
  match width with
  | O => false
  | S w => (z =? 1) || (Z.even z && is_power_of_two w (z / 2))
  end.

Definition StaticTrickyPipe_new (CAPACITY : Z) : outcome Pipe :=
  if is_power_of_two 64 CAPACITY && (CAPACITY <=? MAX_CAPACITY) then
    match new (u8_wrap CAPACITY) with
    | Val c => Val (mkPipe c (replicate (Z.to_nat CAPACITY) None) 0 [])
    | Panic => Panic
    | OutOfFuel => OutOfFuel
    end
  else Panic.
Definition StaticTrickyPipe_receiver : M Pipe (option unit) := on_core try_claim_rx.
Definition StaticTrickyPipe_sender : M Pipe unit := on_core add_tx.
Definition StaticTrickyPipe_ser_receiver : M Pipe (option unit) := on_core try_claim_rx.
(** No sender is counted for the handle it returns. *)
Definition StaticTrickyPipe_deser_sender : M Pipe unit := mret tt.

End Handles.

Lemma set_core_same (p : Pipe) : set_core (core p) p = p.
Proof. by destruct p. Qed.
End Pipe.
#[global] Arguments Pipe {IA WCA WQA} T E.

