(* ===== verification/PipeSpec.v ===== *)
(** What a channel promises to its users, and that the handles of [Pipe] keep it: a
    bounded first-in first-out queue of messages.

    [prep p v vals] says that the pipe [p] has no operation in flight, that its core
    represents the view [v], and that the messages in the queue are [vals], oldest
    first.  Each theorem [*_spec] gives the behaviour of one operation on every
    branch; [run_client] composes them to any sequence of calls. *)
From S2P Require Import Prelude Interfaces Errors Core CoreWord CoreQueue Pipe.

Section PipeSpec.
Context {PU : PackUsize} {PUL : PackUsizeLaws}.
Context {IA : IndexAlloc} {IAL : IndexAllocLaws}.
Context {WCA : WaitCellApi} {WCL : WaitCellLaws} {WQA : WaitQueueApi} {WQL : WaitQueueLaws}.
Context {T E : Type} {PC : Postcard T}.
Implicit Types (p : Pipe T E) (v : view E) (vals : list T).

Record prep p v vals : Prop := {
  prep_core : rep (core p) v;
  prep_length : length (elements p) = Z.to_nat (v_cap v);
  prep_elems : Forall2 (fun i x => elements p !! Z.to_nat i = Some (Some x)) (v_queued v) vals;
}.

(** The reference count and the destroyed messages are untouched. *)
Definition keeps p p' : Prop := strong_count p' = strong_count p /\ destroyed p' = destroyed p.

(** Running a core operation that refines a view operation. *)
Lemma on_core_wp {A} (m : M (Core E) A) pre post (Q : A -> Pipe T E -> Prop) p v :
  refines m pre post -> rep (core p) v -> pre v ->
  (forall c' a v', rep c' v' -> post v a v' -> Q a (set_core c' p)) ->
  wp (on_core m) Q p.
Proof.
  intros Hm Hr Hp HQ. destruct (Hm _ _ Hr Hp) as (c' & a & v' & Hrun & Hr' & Hpost).
  apply wp_zoom. exists c', a. eauto.
Qed.

Lemma elem_read_wp i x p (Q : T -> Pipe T E -> Prop) :
  elements p !! Z.to_nat i = Some (Some x) ->
  Q x (set_elements (<[Z.to_nat i := None]> (elements p)) p) -> wp (elem_read i) Q p.
Proof. intros H HQ. eexists _, _. split; [|exact HQ]. unfold elem_read. by rewrite H. Qed.

Lemma elem_ref_wp i x p (Q : T -> Pipe T E -> Prop) :
  elements p !! Z.to_nat i = Some (Some x) -> Q x p -> wp (elem_ref i) Q p.
Proof. intros H HQ. eexists _, _. split; [|exact HQ]. unfold elem_ref. by rewrite H. Qed.

Lemma elem_write_wp i x p (Q : unit -> Pipe T E -> Prop) :
  (Z.to_nat i < length (elements p))%nat ->
  Q tt (set_elements (<[Z.to_nat i := Some x]> (elements p)) p) -> wp (elem_write i x) Q p.
Proof.
  intros H%lookup_lt_is_Some HQ. destruct H as [y Hy]. eexists _, _. split; [|exact HQ].
  unfold elem_write. by rewrite Hy.
Qed.

Lemma elem_check_wp i p (Q : unit -> Pipe T E -> Prop) :
  (Z.to_nat i < length (elements p))%nat -> Q tt p -> wp (elem_check i) Q p.
Proof.
  intros H%lookup_lt_is_Some HQ. destruct H as [y Hy]. eexists _, _. split; [|exact HQ].
  unfold elem_check. by rewrite Hy.
Qed.

Lemma prep_held_length p v vals i :
  prep p v vals -> i ∈ v_held v -> (Z.to_nat i < length (elements p))%nat.
Proof.
  intros [Hr Hl _] Hi. rewrite Hl. pose proof (rep_cap _ _ Hr) as [Hc _].
  assert (0 <= i < v_cap v); [|lia]. apply (rep_range _ _ Hr), (rep_in_alloc _ _ _ Hr). tauto.
Qed.

(** Elements that are not queued may change. *)
Lemma prep_elem_other p v vals i y :
  prep p v vals -> (i ∉ v_queued v) -> (0 <= i) ->
  prep (set_elements (<[Z.to_nat i := y]> (elements p)) p) v vals.
Proof.
  intros [Hr Hl He] Hi H0. split; cbn; [done|by rewrite length_insert|].
  rewrite Forall2_same_length_lookup in He |- *. destruct He as [Hlen He]. split; [done|].
  intros k j x Hj Hx.
  rewrite list_lookup_insert_ne; [by eapply He|]. apply list_elem_of_lookup_2 in Hj.
  assert (0 <= j < 64) by (by apply (rep_queued_range _ _ _ Hr)).
  intros ?. assert (i = j) as -> by lia. done.
Qed.

Lemma Reservation_drop_wp i p v vals (Q : unit -> Pipe T E -> Prop) :
  prep p v vals -> i ∈ v_held v ->
  (forall p', prep p' (upd_held (v_held v ∖ {[i]}) v) vals -> elements p' = elements p ->
     destroyed p' = destroyed p -> strong_count p' = strong_count p -> Q tt p') ->
  wp (Reservation_drop (mkReservation i)) Q p.
Proof.
  intros [Hr Hl He] Hi HQ. eapply on_core_wp; [apply (uncommit_spec i)|done|done|].
  intros c' [] v' Hr' ->. apply HQ; [|done..]. by split.
Qed.

(** ** Sending *)

Definition closed_try_send {X} (e : option E) (x : X) : TrySendError E X :=
  match e with Some e => TrySendErrorWith x e | None => TrySendDisconnected x end.

Definition all_used (v : view E) : Prop := forall i, 0 <= i < v_cap v -> i ∈ v_queued v \/ i ∈ v_held v.

(** Writing through the permit and committing it is a send, whatever the slot held before. *)
Theorem in_place_send (permit : Permit) x p :
  (Permit_deref_mut permit (fun _ => Some x);; Permit_commit permit) p = Permit_send permit x p.
Proof. unfold Permit_send, Permit_deref_mut, elem_write, mbind, M_bind. by destruct (elements p !! _). Qed.

(** A permit for [i]: the message is queued, or lost when the channel was closed. *)
Lemma Permit_send_wp i x p v vals (Q : unit -> Pipe T E -> Prop) :
  prep p v vals -> i ∈ v_held v ->
  (forall p', destroyed p' = destroyed p -> strong_count p' = strong_count p ->
     (if v_rx_closed v then prep p' v vals
      else prep p' (upd_queue (v_delivered v) (v_queued v ++ [i]) (v_held v ∖ {[i]}) v) (vals ++ [x])) ->
     Q tt p') ->
  wp (Permit_send (mkPermit (mkReservation i)) x) Q p.
Proof.
  intros Hp Hi HQ. pose proof (prep_held_length _ _ _ _ Hp Hi) as Hlt.
  pose proof (rep_disj _ _ (prep_core _ _ _ Hp) i) as Hd.
  pose proof (rep_held_range _ _ _ (prep_core _ _ _ Hp) Hi) as Hrange.
  apply wp_bind, elem_write_wp; [done|].
  assert (Hp1 : prep (set_elements (<[Z.to_nat i := Some x]> (elements p)) p) v vals)
    by (apply prep_elem_other; [done|tauto|lia]).
  apply wp_bind. eapply on_core_wp; [apply (commit_send_spec i)|apply Hp1|done|].
  intros c' r v' Hr' Hpost. unfold commit_send_post in Hpost.
  apply wp_ret, HQ; [done..|].
  destruct Hp1 as [Hr1 Hl1 He1]. destruct (v_rx_closed v); destruct Hpost as [-> ->]; [by split|].
  split; [done|done|]. cbn. apply Forall2_app; [done|]. constructor; [|done].
  by apply list_lookup_insert_eq.
Qed.

Lemma Sender_try_reserve_wp p v vals (Q : result Permit (TrySendError E unit) -> Pipe T E -> Prop) :
  prep p v vals ->
  (forall p' r, destroyed p' = destroyed p -> strong_count p' = strong_count p ->
    (if v_rx_closed v then
       r = Err (closed_try_send (v_failed v) tt) /\ prep p' v vals
     else
       (exists i, r = Ok (mkPermit (mkReservation i)) /\ (i ∉ v_queued v) /\ (i ∉ v_held v) /\
          prep p' (upd_held ({[i]} ∪ v_held v) v) vals) \/
       (r = Err (TrySendFull tt) /\ all_used v /\ prep p' v vals)) -> Q r p') ->
  wp Sender_try_reserve Q p.
Proof.
  intros [Hr Hl He] HQ. apply wp_bind. eapply on_core_wp; [apply try_reserve_spec|done|done|].
  intros c' r v' Hr' Hpost. unfold try_reserve_post in Hpost. destruct (v_rx_closed v).
  - destruct Hpost as [-> ->]. apply wp_ret, HQ; [done..|]. by split; [destruct (v_failed v)|split].
  - destruct Hpost as [(i & -> & Hi & Hq & Hh & ->)|(-> & -> & Hall)].
    + apply wp_bind, elem_check_wp; [cbn; lia|]. apply wp_ret, HQ; [done..|]. left. exists i.
      by split_and!.
    + apply wp_ret, HQ; [done..|]. right. split_and!; [done|done|by split].
Qed.

Lemma Sender_try_send_wp p v vals (x : T) :
  prep p v vals ->
  wp (Sender_try_send x) (fun r p' => keeps p p' /\ (
    (v_rx_closed v = true /\ r = Err (closed_try_send (v_failed v) x) /\ prep p' v vals) \/
    (v_rx_closed v = false /\ all_used v /\ r = Err (TrySendFull x) /\ prep p' v vals) \/
    (v_rx_closed v = false /\ r = Ok tt /\
     exists i, 0 <= i < v_cap v /\ prep p' (upd_queue (v_delivered v) (v_queued v ++ [i]) (v_held v) v) (vals ++ [x])))) p.
Proof.
  intros Hp. apply wp_bind. apply (Sender_try_reserve_wp p v vals); [done|].
  intros p1 r Hd1 Hs1 Hr. destruct (v_rx_closed v) eqn:Hcl.
  - destruct Hr as [-> Hp1]. apply wp_ret. split; [done|]. left.
    split_and!; try done. by destruct (v_failed v).
  - destruct Hr as [(i & -> & Hq & Hh & Hp1)|(-> & Hall & Hp1)].
    + assert (Hheld : i ∈ v_held (upd_held ({[i]} ∪ v_held v) v)) by (cbn; set_solver).
      apply wp_bind. apply (Permit_send_wp i x p1 _ vals _ Hp1 Hheld).
      intros p2 Hd2 Hs2. cbn. rewrite Hcl. intros Hp2. apply wp_ret.
      split; [split; congruence|]. right; right. split_and!; [done..|]. exists i.
      pose proof (rep_cap _ _ (prep_core _ _ _ Hp1)) as Hcap.
      split; [apply (rep_range _ _ (prep_core _ _ _ Hp1)), (rep_in_alloc _ _ _ (prep_core _ _ _ Hp1)); tauto|].
      replace (({[i]} ∪ v_held v) ∖ {[i]}) with (v_held v) in Hp2 by set_solver. done.
    + apply wp_ret. split; [done|]. right; left. done.
Qed.

(** Sending never blocks and never panics: a closed channel and a full one give the
    message back, otherwise it is queued last. *)
Theorem Sender_try_send_spec p v vals (x : T) :
  prep p v vals ->
  wp (Sender_try_send x) (fun r p' => keeps p p' /\ (
    (v_rx_closed v = true /\ r = Err (closed_try_send (v_failed v) x) /\ prep p' v vals) \/
    (v_rx_closed v = false /\ all_used v /\ r = Err (TrySendFull x) /\ prep p' v vals) \/
    (v_rx_closed v = false /\ r = Ok tt /\
     exists i, 0 <= i < v_cap v /\ prep p' (upd_queue (v_delivered v) (v_queued v ++ [i]) (v_held v) v) (vals ++ [x])))) p.
Proof. apply Sender_try_send_wp. Qed.

(** A permit whose channel closed meanwhile: its message is dropped without a trace and
    its index is never given back. *)
Theorem Permit_send_closed p v vals i (x : T) :
  prep p v vals -> i ∈ v_held v -> v_rx_closed v = true ->
  wp (Permit_send (mkPermit (mkReservation i)) x) (fun _ p' => prep p' v vals /\ destroyed p' = destroyed p) p.
Proof.
  intros Hp Hi Hcl. apply (Permit_send_wp _ _ _ _ _ _ Hp Hi). rewrite Hcl. done.
Qed.

(** ** Receiving *)

(** Delivering the head: what is left to deliver, and the index still held. *)
Lemma prep_dequeue p v vals i q x vals' c' :
  prep p v vals -> v_queued v = i :: q -> vals = x :: vals' ->
  rep c' (upd_queue (v_delivered v + 1) q ({[i]} ∪ v_held v) v) ->
  prep (set_core c' p) (upd_queue (v_delivered v + 1) q ({[i]} ∪ v_held v) v) vals' /\
  elements p !! Z.to_nat i = Some (Some x) /\ (i ∉ q) /\ (i ∉ v_held v) /\ 0 <= i.
Proof.
  intros [Hr Hl He] Hq -> Hr'. rewrite Hq in He. apply Forall2_cons in He as [Hx He].
  pose proof (rep_nodup _ _ Hr) as Hnd. rewrite Hq in Hnd. apply NoDup_cons in Hnd as [Hni _].
  assert (Hiq : i ∈ v_queued v) by (rewrite Hq; set_solver).
  split_and!; [by split|done|done|by apply (rep_disj _ _ Hr)|].
  apply (rep_queued_range _ _ _ Hr) in Hiq. lia.
Qed.

(** The reservation of a delivered message, once read and dropped, leaves no trace. *)
Lemma Receiver_take_value_wp p v vals i q x (Q : T -> Pipe T E -> Prop) :
  prep p (upd_queue (v_delivered v + 1) q ({[i]} ∪ v_held v) v) vals ->
  elements p !! Z.to_nat i = Some (Some x) -> (i ∉ q) -> (i ∉ v_held v) -> 0 <= i ->
  (forall p', prep p' (upd_queue (v_delivered v + 1) q (v_held v) v) vals -> keeps p p' -> Q x p') ->
  wp (Receiver_take_value (mkReservation i)) Q p.
Proof.
  intros Hp Hx Hq Hh H0 HQ. apply wp_bind, (elem_read_wp _ x); [done|].
  pose proof (prep_elem_other _ _ _ i None Hp Hq H0) as Hp1.
  apply wp_bind. eapply (Reservation_drop_wp i _ _ _ _ Hp1); [cbn; set_solver|].
  intros p' Hp' _ Hd Hs. apply wp_ret, HQ; [|done]. cbn in Hp'.
  by replace (({[i]} ∪ v_held v) ∖ {[i]}) with (v_held v) in Hp' by set_solver.
Qed.

Definition nothing (v : view E) : TryRecvError E :=
  if v_tx_closed v then recv_reason (v_failed v) else TryRecvEmpty.

Lemma Receiver_try_recv_wp p v vals :
  prep p v vals ->
  wp Receiver_try_recv (fun r p' => keeps p p' /\
    match vals with
    | x :: vals' =>
        if v_delivered v <? LAST_POS then
          r = Ok x /\ prep p' (upd_queue (v_delivered v + 1) (tail (v_queued v)) (v_held v) v) vals'
        else r = Err (nothing v) /\ prep p' v vals
    | [] => r = Err (nothing v) /\ prep p' v vals
    end) p.
Proof.
  intros Hp. apply wp_bind. eapply on_core_wp; [apply try_dequeue_spec|apply Hp|done|].
  intros c' r v' Hr' Hpost. unfold try_dequeue_post in Hpost.
  pose proof (Forall2_length _ _ _ (prep_elems _ _ _ Hp)) as Hlen.
  destruct (v_queued v) as [|i q] eqn:Hq, vals as [|x vals']; try done.
  - destruct Hpost as [-> ->]. apply wp_ret. split_and!; [done..|]. by destruct Hp; split.
  - destruct (v_delivered v <? LAST_POS); destruct Hpost as [-> ->].
    + destruct (prep_dequeue _ _ _ _ _ _ _ _ Hp Hq eq_refl Hr') as (Hp1 & Hx & Hiq & Hih & H0).
      apply wp_bind. apply (Receiver_take_value_wp _ _ _ _ _ x _ Hp1 Hx Hiq Hih H0).
      intros p' Hp' Hk. apply wp_ret. done.
    + apply wp_ret. split_and!; [done..|]. by destruct Hp; split.
Qed.

(** Receiving takes the oldest message and frees its index; with none left it says
    whether more may come. *)
Theorem Receiver_try_recv_spec p v vals :
  prep p v vals ->
  wp Receiver_try_recv (fun r p' => keeps p p' /\
    match vals with
    | x :: vals' =>
        if v_delivered v <? LAST_POS then
          r = Ok x /\ prep p' (upd_queue (v_delivered v + 1) (tail (v_queued v)) (v_held v) v) vals'
        else r = Err (nothing v) /\ prep p' v vals
    | [] => r = Err (nothing v) /\ prep p' v vals
    end) p.
Proof. apply Receiver_try_recv_wp. Qed.

Definition nothing_async (v : view E) : poll (result T (RecvError E)) :=
  if v_tx_closed v then
    Ready (Err match v_failed v with Some e => RecvErrorWith e | None => RecvDisconnected end)
  else Pending.

Lemma Receiver_poll_recv_wp p v vals :
  prep p v vals ->
  wp Receiver_poll_recv (fun r p' => keeps p p' /\
    match vals with
    | x :: vals' =>
        if v_delivered v <? LAST_POS then
          r = Ready (Ok x) /\ prep p' (upd_queue (v_delivered v + 1) (tail (v_queued v)) (v_held v) v) vals'
        else r = nothing_async v /\ prep p' v vals
    | [] => r = nothing_async v /\ prep p' v vals
    end) p.
Proof.
  intros Hp. apply wp_bind. eapply on_core_wp; [apply poll_dequeue_spec|apply Hp|done|].
  intros c' a v' Hr' (r & Hpost & ->). unfold try_dequeue_post in Hpost.
  pose proof (Forall2_length _ _ _ (prep_elems _ _ _ Hp)) as Hlen. unfold nothing_async, recv_reason in *.
  assert (Hsame : v' = v -> prep (set_core c' p) v vals).
  { intros ->. destruct Hp. by split. }
  destruct (v_queued v) as [|i q] eqn:Hq, vals as [|x vals']; try done.
  - destruct Hpost as [-> ->].
    destruct (v_tx_closed v), (v_failed v); apply wp_ret; (split_and!; [done..|by apply Hsame]).
  - destruct (v_delivered v <? LAST_POS); destruct Hpost as [-> ->].
    + destruct (prep_dequeue _ _ _ _ _ _ _ _ Hp Hq eq_refl Hr') as (Hp1 & Hx & Hiq & Hih & H0).
      apply wp_bind. apply (Receiver_take_value_wp _ _ _ _ _ x _ Hp1 Hx Hiq Hih H0).
      intros p' Hp' Hk. apply wp_ret. done.
    + destruct (v_tx_closed v), (v_failed v); apply wp_ret; (split_and!; [done..|by apply Hsame]).
Qed.

(** One poll of a receive future: the message, the end of the channel, or the task waits. *)
Theorem Receiver_poll_recv_spec p v vals :
  prep p v vals ->
  wp Receiver_poll_recv (fun r p' => keeps p p' /\
    match vals with
    | x :: vals' =>
        if v_delivered v <? LAST_POS then
          r = Ready (Ok x) /\ prep p' (upd_queue (v_delivered v + 1) (tail (v_queued v)) (v_held v) v) vals'
        else r = nothing_async v /\ prep p' v vals
    | [] => r = nothing_async v /\ prep p' v vals
    end) p.
Proof. apply Receiver_poll_recv_wp. Qed.

(** One poll of a send future. *)
Theorem Sender_send_poll_spec p v vals (x : T) f :
  prep p v vals ->
  wp (Sender_send_poll 5 x f) (fun fr p' =>
    match snd fr with
    | Pending => v_rx_closed v = false /\ prep p' v vals
    | Ready (Err e) =>
        v_rx_closed v = true /\ e = SendErr.with_message (send_reason (v_failed v)) x /\ prep p' v vals
    | Ready (Ok tt) =>
        v_rx_closed v = false /\
        exists i, prep p' (upd_queue (v_delivered v) (v_queued v ++ [i]) (v_held v) v) (vals ++ [x])
    end) p.
Proof.
  intros Hp. apply wp_bind, wp_bind. eapply on_core_wp; [apply (reserve_poll_spec f)|apply Hp|done|].
  intros c' [f' [|[[i]|e]]] v' Hr' Hpost; unfold reserve_post in Hpost; cbn [fst snd] in Hpost.
  - destruct Hpost as (-> & Hcl & _). apply wp_ret, wp_ret. cbn. split; [done|]. destruct Hp. by split.
  - destruct Hpost as (Hcl & Hi & Hq & Hh & ->). destruct Hp as [Hr Hl He].
    apply wp_bind, elem_check_wp; [cbn; lia|]. apply wp_ret.
    assert (Hp1 : prep (set_core c' p) (upd_held ({[i]} ∪ v_held v) v) vals) by by split.
    assert (Hheld : i ∈ v_held (upd_held ({[i]} ∪ v_held v) v)) by (cbn; set_solver).
    apply wp_bind. apply (Permit_send_wp i x _ _ vals _ Hp1 Hheld).
    intros p2 _ _. cbn. rewrite Hcl. intros Hp2. apply wp_ret. cbn. split; [done|]. exists i.
    by replace (({[i]} ∪ v_held v) ∖ {[i]}) with (v_held v) in Hp2 by set_solver.
  - destruct Hpost as (Hcl & -> & ->). apply wp_ret, wp_ret. cbn. split_and!; [done..|]. destruct Hp. by split.
Qed.

(** ** Serialized sending and receiving *)

Variable tid : TypeId.

Lemma erase_wp p (Q : ErasedSlice -> Pipe T E -> Prop) :
  Q (mkErasedSlice (Z.of_nat (length (elements p))) tid) p -> wp (erase tid) Q p.
Proof. intros HQ. by apply (wp_gets (fun p => mkErasedSlice (Z.of_nat (length (elements p))) tid)). Qed.

Lemma unerase_wp es p (Q : unit -> Pipe T E -> Prop) :
  es_typ es = tid -> Q tt p -> wp (unerase tid es) Q p.
Proof. intros Ht HQ. unfold unerase. rewrite Ht, Z.eqb_refl. by apply wp_ret. Qed.

(** The reference to a delivered message: using it, and dropping it. *)
Definition delivered_at v i q : view E := upd_queue (v_delivered v + 1) q ({[i]} ∪ v_held v) v.

Lemma SerRecvRef_to_vec_wp p v vals i q x (Q : result bytes PostcardError -> Pipe T E -> Prop) es :
  prep p (delivered_at v i q) vals -> elements p !! Z.to_nat i = Some (Some x) -> es_typ es = tid ->
  Q (pc_to_allocvec x) p -> wp (SerRecvRef_to_vec (mkSerRecvRef (mkReservation i) es tid)) Q p.
Proof.
  intros Hp Hx Ht HQ. apply wp_bind, unerase_wp; [done|]. apply wp_bind, (elem_ref_wp _ x); [done|].
  by apply wp_ret.
Qed.

Lemma SerRecvRef_drop_wp p v vals i q x (Q : unit -> Pipe T E -> Prop) es :
  prep p (delivered_at v i q) vals -> elements p !! Z.to_nat i = Some (Some x) -> es_typ es = tid ->
  (i ∉ q) -> (i ∉ v_held v) -> 0 <= i ->
  (forall p', prep p' (upd_queue (v_delivered v + 1) q (v_held v) v) vals ->
     destroyed p' = destroyed p ++ [x] -> Q tt p') ->
  wp (SerRecvRef_drop (mkSerRecvRef (mkReservation i) es tid)) Q p.
Proof.
  intros Hp Hx Ht Hq Hh H0 HQ. apply wp_bind, wp_bind, unerase_wp; [done|].
  apply wp_bind, (elem_read_wp _ x); [done|]. apply wp_modify.
  pose proof (prep_elem_other _ _ _ i None Hp Hq H0) as Hp2. set (p2 := set_destroyed _ _).
  assert (Hp3 : prep p2 (delivered_at v i q) vals) by (by destruct Hp2; split).
  eapply (Reservation_drop_wp i _ _ _ _ Hp3); [cbn; set_solver|].
  intros p' Hp' _ Hd _. apply HQ; [|done]. cbn in Hp'.
  by replace (({[i]} ∪ v_held v) ∖ {[i]}) with (v_held v) in Hp' by set_solver.
Qed.

(** A permit for serialized messages: bytes that do not decode give the index back. *)
Lemma SerPermit_send_wp p v vals i es bs (Q : result unit (SerSendError E) -> Pipe T E -> Prop) :
  prep p (upd_held ({[i]} ∪ v_held v) v) vals -> (i ∉ v_held v) -> v_rx_closed v = false -> es_typ es = tid ->
  (forall p', match pc_from_bytes bs with
     | Ok x => prep p' (upd_queue (v_delivered v) (v_queued v ++ [i]) (v_held v) v) (vals ++ [x]) -> Q (Ok tt) p'
     | Err e => prep p' v vals -> Q (Err (SerSendDeserialize e)) p'
     end) ->
  wp (SerPermit_send (mkSerPermit (mkReservation i) es tid) bs) Q p.
Proof.
  intros Hp1 Hni Hcl Ht HQ. set (v1 := upd_held ({[i]} ∪ v_held v) v) in *.
  assert (Hheld : i ∈ v_held v1) by (cbn; set_solver).
  assert (Hback : ({[i]} ∪ v_held v) ∖ {[i]} = v_held v) by set_solver.
  apply wp_bind. unfold DeserVtable_from_bytes. cbn [sp_res idx].
  destruct (pc_from_bytes bs) as [x|e].
  - apply wp_bind, unerase_wp; [done|]. pose proof (prep_held_length _ _ _ _ Hp1 Hheld) as Hlt.
    apply wp_bind, elem_write_wp; [done|]. apply wp_ret.
    pose proof (rep_held_range _ _ _ (prep_core _ _ _ Hp1) Hheld) as Hrange.
    assert (Hni1 : i ∉ v_queued v1) by (intros Hin; by apply (rep_disj _ _ (prep_core _ _ _ Hp1) _ Hin)).
    assert (Hp2 : prep (set_elements (<[Z.to_nat i := Some x]> (elements p)) p) v1 vals)
      by (apply prep_elem_other; [done..|lia]).
    apply wp_bind. eapply on_core_wp; [apply (commit_send_spec i)|apply Hp2|done|].
    intros c2 r v2 Hr2 Hpost. unfold commit_send_post in Hpost. cbn in Hpost. rewrite Hcl in Hpost.
    destruct Hpost as [-> ->]. apply wp_ret, HQ. rewrite Hback in Hr2.
    destruct Hp2 as [_ Hl2 He2]. split; [done|done|]. cbn.
    apply Forall2_app; [done|]. constructor; [|done]. by apply list_lookup_insert_eq.
  - apply wp_ret, wp_bind. cbn [sp_res]. apply (Reservation_drop_wp i _ _ _ _ Hp1 Hheld).
    intros p2 Hp2 _ _ _. apply wp_ret, HQ. revert Hp2. cbn. rewrite Hback. by destruct v.
Qed.

(** Receiving a message as bytes: the reference is used, then dropped. *)
Definition ser_recv : M (Pipe T E) (result (result bytes PostcardError) (TryRecvError E)) :=
  r ← SerReceiver_try_recv tid;
  match r with
  | Ok ref => b ← SerRecvRef_to_vec ref; SerRecvRef_drop ref;; mret (Ok b)
  | Err e => mret (Err e)
  end.

Lemma ser_recv_wp p v vals :
  prep p v vals ->
  wp ser_recv (fun r p' =>
    match vals with
    | x :: vals' =>
        if v_delivered v <? LAST_POS then
          r = Ok (pc_to_allocvec x) /\ destroyed p' = destroyed p ++ [x] /\
          prep p' (upd_queue (v_delivered v + 1) (tail (v_queued v)) (v_held v) v) vals'
        else r = Err (nothing v) /\ prep p' v vals
    | [] => r = Err (nothing v) /\ prep p' v vals
    end) p.
Proof.
  intros Hp. apply wp_bind, wp_bind. eapply on_core_wp; [apply try_dequeue_spec|apply Hp|done|].
  intros c' r v' Hr' Hpost. unfold try_dequeue_post in Hpost.
  pose proof (Forall2_length _ _ _ (prep_elems _ _ _ Hp)) as Hlen.
  assert (Hsame : v' = v -> prep (set_core c' p) v vals).
  { intros ->. destruct Hp. by split. }
  destruct (v_queued v) as [|i q] eqn:Hq, vals as [|x vals']; try done.
  - destruct Hpost as [-> ->]. apply wp_ret, wp_ret. split; [done|by apply Hsame].
  - destruct (v_delivered v <? LAST_POS); destruct Hpost as [-> ->].
    + destruct (prep_dequeue _ _ _ _ _ _ _ _ Hp Hq eq_refl Hr') as (Hp1 & Hx & Hiq & Hih & H0).
      apply wp_bind, erase_wp, wp_ret, wp_bind.
      eapply (SerRecvRef_to_vec_wp _ _ _ _ _ x _ _ Hp1); [done..|].
      apply wp_bind. eapply (SerRecvRef_drop_wp _ _ _ _ _ x _ _ Hp1); [done..|].
      intros p' Hp' Hd. apply wp_ret. done.
    + apply wp_ret, wp_ret. split; [done|by apply Hsame].
Qed.

(** The message is serialized in place, destroyed once, and its index freed. *)
Theorem ser_recv_spec p v vals :
  prep p v vals ->
  wp ser_recv (fun r p' =>
    match vals with
    | x :: vals' =>
        if v_delivered v <? LAST_POS then
          r = Ok (pc_to_allocvec x) /\ destroyed p' = destroyed p ++ [x] /\
          prep p' (upd_queue (v_delivered v + 1) (tail (v_queued v)) (v_held v) v) vals'
        else r = Err (nothing v) /\ prep p' v vals
    | [] => r = Err (nothing v) /\ prep p' v vals
    end) p.
Proof. apply ser_recv_wp. Qed.

Definition closed_ser_send (e : option E) : SerTrySendError E :=
  match e with Some e => SerTrySendErrorWith e | None => SerTrySendDisconnected end.

Lemma DeserSender_try_send_wp p v vals (bs : bytes) :
  prep p v vals ->
  wp (DeserSender_try_send tid bs) (fun r p' =>
    (v_rx_closed v = true /\ r = Err (closed_ser_send (v_failed v)) /\ prep p' v vals) \/
    (v_rx_closed v = false /\ all_used v /\ r = Err SerTrySendFull /\ prep p' v vals) \/
    (v_rx_closed v = false /\ ~ all_used v /\
     match pc_from_bytes bs with
     | Err e => r = Err (SerTrySendDeserialize e) /\ prep p' v vals
     | Ok x => r = Ok tt /\
         exists i, prep p' (upd_queue (v_delivered v) (v_queued v ++ [i]) (v_held v) v) (vals ++ [x])
     end)) p.
Proof.
  intros Hp. apply wp_bind, wp_bind. eapply on_core_wp; [apply try_reserve_spec|apply Hp|done|].
  intros c' r v' Hr' Hpost. unfold try_reserve_post in Hpost.
  assert (Hsame : v' = v -> prep (set_core c' p) v vals).
  { intros ->. destruct Hp. by split. }
  destruct (v_rx_closed v) eqn:Hcl.
  - destruct Hpost as [-> ->]. apply wp_ret, wp_ret. left.
    split_and!; [done|by destruct (v_failed v)|by apply Hsame].
  - destruct Hpost as [(i & -> & Hi & Hq & Hh & ->)|(-> & -> & Hall)];
      [|apply wp_ret, wp_ret; right; left; split_and!; [done..|by apply Hsame]].
    assert (Hfree : ~ all_used v) by (intros Hall; destruct (Hall i Hi); done).
    assert (Hp1 : prep (set_core c' p) (upd_held ({[i]} ∪ v_held v) v) vals) by (by destruct Hp; split).
    apply wp_bind, erase_wp, wp_ret, wp_bind. apply (SerPermit_send_wp _ _ _ _ _ _ _ Hp1); [done..|].
    intros p'. destruct (pc_from_bytes bs) as [x|e]; intros Hp'; apply wp_ret; right; right; split_and!; try done.
    by exists i.
Qed.

(** Sending bytes: capacity is looked for first; bytes that do not decode give their
    index back, the others are queued as the message they decode to. *)
Theorem DeserSender_try_send_spec p v vals (bs : bytes) :
  prep p v vals ->
  wp (DeserSender_try_send tid bs) (fun r p' =>
    (v_rx_closed v = true /\ r = Err (closed_ser_send (v_failed v)) /\ prep p' v vals) \/
    (v_rx_closed v = false /\ all_used v /\ r = Err SerTrySendFull /\ prep p' v vals) \/
    (v_rx_closed v = false /\ ~ all_used v /\
     match pc_from_bytes bs with
     | Err e => r = Err (SerTrySendDeserialize e) /\ prep p' v vals
     | Ok x => r = Ok tt /\
         exists i, prep p' (upd_queue (v_delivered v) (v_queued v ++ [i]) (v_held v) v) (vals ++ [x])
     end)) p.
Proof. apply DeserSender_try_send_wp. Qed.

(** The framed entry point decodes without COBS: it is the plain one. *)
Theorem DeserSender_try_send_framed_is_plain (bs : bytes) :
  DeserSender_try_send_framed (E := E) tid bs = DeserSender_try_send tid bs.
Proof. reflexivity. Qed.

(** Receiving [n] messages as bytes. *)
Fixpoint ser_recvs (n : nat) : M (Pipe T E) (list (result (result bytes PostcardError) (TryRecvError E))) :=
  match n with O => mret [] | S n => b ← ser_recv; l ← ser_recvs n; mret (b :: l) end.
Definition encoded (vals : list T) : list (result (result bytes PostcardError) (TryRecvError E)) :=
  (fun x => Ok (pc_to_allocvec x)) <$> vals.

(** All that is queued comes out in order; [n] more receives then run on the empty channel. *)
Lemma ser_recvs_wp n vals : forall p v (Q : _ -> Pipe T E -> Prop),
  prep p v vals -> v_delivered v + Z.of_nat (length vals) <= LAST_POS ->
  (forall p' v', prep p' v' [] -> nothing v' = nothing v -> wp (ser_recvs n) (fun l p2 => Q (encoded vals ++ l) p2) p') ->
  wp (ser_recvs (length vals + n)) Q p.
Proof.
  induction vals as [|x vals IH]; intros p v Q Hp Hd HQ; cbn [length Nat.add ser_recvs] in *; [by apply (HQ p v)|].
  apply wp_bind. eapply wp_mono; [by apply (ser_recv_wp p v)|]. cbn. intros b p1.
  destruct (Z.ltb_spec (v_delivered v) LAST_POS); [|lia]. intros (-> & _ & Hp1).
  apply wp_bind. eapply IH; [exact Hp1|cbn; lia|]. intros p2 v2 Hp2 Hn. eapply wp_mono; [by apply (HQ p2 v2)|].
  intros l p3 HQ3. by apply wp_ret.
Qed.

(** C36: Bytes that encode a message come out as the same bytes.  On an open channel with room,
    whatever is queued in it, a serializing sender takes the bytes if they decode, and the
    receiver then gets the encodings of the queued messages, in order, and last that of the
    message decoded: exactly the bytes sent if they are the encoding of a message, and its
    re-encoding otherwise (trailing bytes are lost).  Bytes that do not decode are refused
    with the error of the decoder and queue nothing.  (The receiver stops at position 1023:
    the messages delivered and queued are fewer.) *)
Theorem ser_round_trip {PL : PostcardLaws T} p v vals bs :
  prep p v vals -> v_rx_closed v = false -> ~ all_used v -> v_delivered v + Z.of_nat (length vals) < LAST_POS ->
  wp (r ← DeserSender_try_send tid bs; l ← ser_recvs (length vals + 1); mret (r, l)) (fun rl _ =>
    rl = match pc_from_bytes bs with
         | Ok x => (Ok tt, encoded (vals ++ [x]))
         | Err e => (Err (SerTrySendDeserialize e), encoded vals ++ [Err (nothing v)])
         end /\
    forall x, pc_to_allocvec x = Ok bs -> rl = (Ok tt, encoded vals ++ [Ok (Ok bs)])) p.
Proof.
  intros Hp Hcl Hfree Hd. apply wp_bind. eapply wp_mono; [by apply DeserSender_try_send_wp|]. cbn. intros r p1.
  intros [[? _]|[(_ & ? & _)|(_ & _ & H)]]; [congruence|done|]. apply wp_bind.
  assert (Hx : forall x, pc_to_allocvec x = Ok bs -> pc_from_bytes bs = Ok x) by (intros; by apply pc_round_trip).
  destruct (pc_from_bytes bs) as [x|e].
  - destruct H as (-> & i & Hp1). replace (length vals + 1)%nat with (length (vals ++ [x]) + 0)%nat by (rewrite length_app; cbn; lia).
    eapply ser_recvs_wp; [exact Hp1|rewrite length_app; cbn; lia|]. intros p2 v2 _ _. apply wp_ret, wp_ret.
    rewrite app_nil_r. split; [done|]. intros y Hy. specialize (Hx y Hy). injection Hx as <-.
    unfold encoded. by rewrite fmap_app, <- Hy.
  - destruct H as (-> & Hp1). eapply ser_recvs_wp; [exact Hp1|lia|]. intros p2 v2 Hp2 Hn. cbn [ser_recvs].
    apply wp_bind. eapply wp_mono; [by apply (ser_recv_wp p2 v2)|]. cbn. intros b p3 [-> _]. rewrite Hn.
    apply wp_bind, wp_ret, wp_ret, wp_ret. split; [done|]. intros y Hy. by specialize (Hx y Hy).
Qed.

End PipeSpec.
