(* ===== verification/PipeSession.v ===== *)
(** A channel over its whole life: the destruction of the shared state, the balance of
    the reference and sender counts, and any sequence of calls a program can make
    through the handles it owns ([session]). *)
From S2P Require Import Prelude Interfaces Errors Core CoreWord CoreQueue Pipe PipeSpec.

Section PipeLife.
Context {PU : PackUsize} {PUL : PackUsizeLaws}.
Context {IA : IndexAlloc} {IAL : IndexAllocLaws}.
Context {WCA : WaitCellApi} {WCL : WaitCellLaws} {WQA : WaitQueueApi} {WQL : WaitQueueLaws}.
Context {T E : Type} {PC : Postcard T}.
Implicit Types (p : Pipe T E) (v : view E) (vals : list T).

(** ** Destruction *)

(** What the destructor of the shared state can still reach of the queue. *)
Definition reachable (v : view E) (vals : list T) : nat :=
  Nat.min (length vals) (Z.to_nat (LAST_POS - v_delivered v)).

Lemma SharedState_drop_loop vals : forall fuel p v,
  prep p v vals -> (length vals < fuel)%nat ->
  wp (SharedState_drop fuel) (fun _ p' =>
    destroyed p' = destroyed p ++ take (reachable v vals) vals /\ strong_count p' = strong_count p) p.
Proof.
  induction vals as [|x vals IH]; intros [|fuel] p v Hp Hf; cbn [length] in Hf; try lia; cbn [SharedState_drop];
    apply wp_bind; (eapply on_core_wp; [apply try_dequeue_spec|apply Hp|done|]);
    intros c' r v' Hr' Hpost; unfold try_dequeue_post in Hpost;
    pose proof (Forall2_length _ _ _ (prep_elems _ _ _ Hp)) as Hlen;
    destruct (v_queued v) as [|i q] eqn:Hq; try done.
  - destruct Hpost as [-> ->]. apply wp_ret. by rewrite app_nil_r.
  - pose proof (rep_delivered _ _ (prep_core _ _ _ Hp)) as Hd.
    destruct (Z.ltb_spec (v_delivered v) LAST_POS); destruct Hpost as [-> ->].
    + destruct (prep_dequeue _ _ _ _ _ _ _ _ Hp Hq eq_refl Hr') as (Hp1 & Hx & Hiq & Hih & H0).
      apply wp_bind, wp_bind, (elem_read_wp _ x), wp_modify; [done|].
      pose proof (prep_elem_other _ _ _ i None Hp1 Hiq H0) as Hp2.
      set (p2 := set_destroyed _ _).
      assert (Hp3 : prep p2 (upd_queue (v_delivered v + 1) q ({[i]} ∪ v_held v) v) vals)
        by (by destruct Hp2; split).
      apply wp_bind. apply (Reservation_drop_wp i _ _ _ _ Hp3); [cbn; set_solver|].
      intros p4 Hp4 _ Hd4 Hs4. eapply wp_mono; [apply (IH _ _ _ Hp4); lia|]. cbn.
      intros [] p5 [Hd5 Hs5]. split; [|by rewrite Hs5, Hs4].
      rewrite Hd5, Hd4. unfold p2, reachable. cbn. unfold LAST_POS in *.
      replace (Z.to_nat (1023 - v_delivered v)) with (S (Z.to_nat (1023 - (v_delivered v + 1)))) by lia.
      cbn. by rewrite <- app_assoc.
    + apply wp_ret. unfold reachable, LAST_POS in *.
      replace (Z.to_nat (1023 - v_delivered v)) with 0%nat by lia. by rewrite Nat.min_0_r, app_nil_r.
Qed.

Lemma vals_bound p v vals : prep p v vals -> Z.of_nat (length vals) <= v_cap v.
Proof.
  intros Hp. rewrite <- (Forall2_length _ _ _ (prep_elems _ _ _ Hp)).
  apply (rep_queue_bound (core p)), Hp.
Qed.

Lemma erased_drop_last_wp p v vals :
  prep p v vals -> strong_count p = 1 ->
  wp erased_drop (fun _ p' =>
    destroyed p' = destroyed p ++ take (reachable v vals) vals /\ strong_count p' = 0) p.
Proof.
  intros Hp Hn. unfold erased_drop. apply wp_bind, wp_gets. apply wp_bind, wp_modify. rewrite Hn. cbn.
  pose proof (vals_bound _ _ _ Hp). pose proof (rep_cap _ _ (prep_core _ _ _ Hp)) as [Hc _].
  unfold MAX_CAPACITY in Hc.
  assert (Hp1 : prep (set_strong_count 0 p) v vals) by (by destruct Hp; split).
  eapply wp_mono; [apply (SharedState_drop_loop vals 65 _ _ Hp1); lia|]. done.
Qed.

(** The last reference destroys the messages that were never received, each once and in
    order; the ones past the last position leak. *)
Theorem erased_drop_last p v vals :
  prep p v vals -> strong_count p = 1 ->
  wp erased_drop (fun _ p' =>
    destroyed p' = destroyed p ++ take (reachable v vals) vals /\ strong_count p' = 0) p.
Proof. apply erased_drop_last_wp. Qed.

Lemma erased_drop_wp p v vals (Q : unit -> Pipe T E -> Prop) :
  prep p v vals -> 1 < strong_count p ->
  (prep (set_strong_count (strong_count p - 1) p) v vals -> Q tt (set_strong_count (strong_count p - 1) p)) ->
  wp erased_drop Q p.
Proof.
  intros Hp Hn HQ. unfold erased_drop. apply wp_bind, wp_gets. apply wp_bind, wp_modify.
  destruct (Z.eqb_spec (strong_count p) 1); [lia|]. apply wp_ret, HQ. by destruct Hp; split.
Qed.

Lemma erased_clone_wp p v vals (Q : unit -> Pipe T E -> Prop) :
  prep p v vals ->
  (prep (set_strong_count (strong_count p + 1) p) v vals -> Q tt (set_strong_count (strong_count p + 1) p)) ->
  wp erased_clone Q p.
Proof. intros Hp HQ. apply wp_modify, HQ. by destruct Hp; split. Qed.

(** ** Views change, messages do not *)

Lemma prep_set_core p v v' vals c' :
  prep p v vals -> rep c' v' -> v_cap v' = v_cap v -> v_queued v' = v_queued v ->
  prep (set_core c' p) v' vals.
Proof. intros [Hr Hl He] Hr' Hc Hq. split; cbn; [done|by rewrite Hc|by rewrite Hq]. Qed.

Lemma core_step_wp {A} (m : M (Core E) A) pre post (Q : A -> Pipe T E -> Prop) p v vals :
  refines m pre post -> prep p v vals -> pre v ->
  (forall a v', post v a v' -> v_cap v' = v_cap v /\ v_queued v' = v_queued v) ->
  (forall a v' p', post v a v' -> prep p' v' vals -> strong_count p' = strong_count p ->
     destroyed p' = destroyed p -> Q a p') ->
  wp (on_core m) Q p.
Proof.
  intros Hm Hp Hpre Hsame HQ. eapply on_core_wp; [exact Hm|apply Hp|done|].
  intros c' a v' Hr' Hpost. destruct (Hsame _ _ Hpost). eapply HQ; [done|by eapply prep_set_core|done..].
Qed.

(** ** Counting the senders of a static pipe *)

Variable tid : TypeId.

(** A sender made by [sender] and dropped leaves the channel open: the static pipe counts
    as a sender itself. *)
Theorem static_sender_balanced p v vals :
  prep p v vals -> 1 <= v_senders v -> v_senders v + 1 < 2 ^ 61 ->
  wp (StaticTrickyPipe_sender;; Sender_drop (STATIC_VTABLE tid)) (fun _ p' => prep p' v vals) p.
Proof.
  intros Hp H1 H2. apply wp_bind. eapply core_step_wp; [apply add_tx_spec|exact Hp|done|by intros ? ? ->|].
  intros [] v1 p1 -> Hp1 _ _. apply wp_bind.
  eapply core_step_wp; [apply drop_tx_spec|exact Hp1|cbn; lia|..].
  { intros [] v2 ->. unfold drop_tx_view. by case_match. }
  intros [] v2 p2 -> Hp2 _ _. apply wp_ret. revert Hp2. unfold drop_tx_view. cbn.
  destruct (Z.eqb_spec (v_senders v + 1) 1); [lia|]. cbn.
  replace (v_senders v + 1 - 1) with (v_senders v) by lia. by destruct v.
Qed.

(** A sender made by [deser_sender] is not counted: of two such senders, dropping one
    disconnects the receiver although the other lives. *)
Theorem static_deser_sender_closes p v vals :
  prep p v vals -> v_senders v = 1 ->
  wp (StaticTrickyPipe_deser_sender;; StaticTrickyPipe_deser_sender;; DeserSender_drop (STATIC_VTABLE tid))
     (fun _ p' => exists v', prep p' v' vals /\ v_tx_closed v' = true /\ v_senders v' = 0) p.
Proof.
  intros Hp H1. apply wp_bind, wp_ret, wp_bind, wp_ret, wp_bind.
  eapply core_step_wp; [apply drop_tx_spec|exact Hp|cbn; lia|..].
  { intros [] v2 ->. unfold drop_tx_view. by case_match. }
  intros [] v2 p2 -> Hp2 _ _. apply wp_ret. eexists. split; [exact Hp2|].
  unfold drop_tx_view. rewrite H1. done.
Qed.

(** ** Closing *)

(** The view of a pipe after [close_with_error]. *)
Definition fail_view (e : E) (v : view E) : view E :=
  match v_failed v with
  | Some _ => v
  | None => upd_closed true true (upd_failed (Some e) v)
  end.

Lemma close_pipe_wp (e : E) p v vals (Q : bool -> Pipe T E -> Prop) :
  prep p v vals ->
  (forall p', prep p' (fail_view e v) vals -> Q (bool_decide (v_failed v = None)) p') ->
  wp (on_core (close_with_error e)) Q p.
Proof.
  intros Hp HQ. eapply core_step_wp; [apply (close_with_error_spec e)|exact Hp|done|..].
  { intros b v'. unfold close_with_error_post. destruct (v_failed v); by intros [_ ->]. }
  intros b v' p' Hpost Hp' _ _. unfold close_with_error_post in Hpost. revert HQ. unfold fail_view.
  destruct (v_failed v); destruct Hpost as [-> ->]; intros HQ; by apply HQ.
Qed.

(** Receives until there is nothing to receive: the messages, and why it ended. *)
Fixpoint drain (fuel : nat) : M (Pipe T E) (list T * TryRecvError E) :=
  match fuel with
  | O => out_of_fuel
  | S fuel =>
      r ← Receiver_try_recv;
      match r with
      | Ok x => l ← drain fuel; mret (x :: l.1, l.2)
      | Err e => mret ([], e)
      end
  end.

Lemma drain_wp vals : forall p v,
  prep p v vals -> v_delivered v + Z.of_nat (length vals) <= LAST_POS ->
  wp (drain (S (length vals))) (fun r _ => r = (vals, nothing v)) p.
Proof.
  induction vals as [|x vals IH]; intros p v Hp Hd; apply wp_bind;
    (eapply wp_mono; [by apply Receiver_try_recv_wp|]; cbn).
  - intros r p' (_ & -> & _). by apply wp_ret.
  - cbn [length] in Hd. destruct (Z.ltb_spec (v_delivered v) LAST_POS); [|lia].
    intros r p' (_ & -> & Hp'). apply wp_bind. eapply wp_mono; [apply (IH _ _ Hp'); cbn; lia|].
    cbn. intros r p2 ->. by apply wp_ret.
Qed.

(** Closing with an error is final: of two errors the first is kept and the second call
    answers [false], every later send gives the message back with the first error, and the
    receiver still gets, in order, every message sent before (up to the last position of
    the ring), and then the error. *)
Theorem close_with_error_final p v vals e e' (x : T) :
  prep p v vals -> v_failed v = None -> v_delivered v + Z.of_nat (length vals) <= LAST_POS ->
  wp (b ← Receiver_close_with_error e; b' ← Sender_close_with_error e'; s ← Sender_try_send x;
      r ← drain (S (length vals)); mret (b, b', s, r))
     (fun r _ => r = (true, false, Err (TrySendErrorWith x e), (vals, TryRecvErrorWith e))) p.
Proof.
  intros Hp Hf Hd. apply wp_bind. apply (close_pipe_wp _ _ _ _ _ Hp). intros p1 Hp1.
  apply wp_bind. apply (close_pipe_wp _ _ _ _ _ Hp1). intros p2 Hp2.
  unfold fail_view in Hp2 at 1. unfold fail_view in *. rewrite Hf in *. cbn in Hp2.
  apply wp_bind. eapply wp_mono; [by apply Sender_try_send_wp|]. cbn.
  intros s p3 (_ & [(_ & -> & Hp3)|[(? & _)|(? & _)]]); [|done..].
  apply wp_bind. eapply wp_mono; [apply (drain_wp _ _ _ Hp3); done|]. cbn.
  intros r p4 ->. by apply wp_ret.
Qed.

(** When the last sender is dropped the receiver gets, in order, every message sent
    before (up to the last position of the ring), and then [Disconnected]; while another
    sender lives it gets [Empty] instead. *)
Theorem last_sender_drop_drains p v vals :
  prep p v vals -> 1 <= v_senders v -> v_failed v = None -> v_tx_closed v = false ->
  1 < strong_count p -> v_delivered v + Z.of_nat (length vals) <= LAST_POS ->
  wp (Sender_drop (ARC_VTABLE tid);; drain (S (length vals)))
     (fun r _ => r = (vals, if v_senders v =? 1 then TryRecvDisconnected else TryRecvEmpty)) p.
Proof.
  intros Hp Hs Hf Ht Hn Hd. apply wp_bind, wp_bind.
  eapply core_step_wp; [apply drop_tx_spec|exact Hp|done|..].
  { intros [] v' ->. unfold drop_tx_view. by case_match. }
  intros [] v' p' -> Hp' Hn' _. eapply erased_drop_wp; [exact Hp'|lia|]. intros Hp2.
  assert (Hv : v_delivered (drop_tx_view v) = v_delivered v) by (unfold drop_tx_view; by case_match).
  eapply wp_mono; [apply (drain_wp _ _ _ Hp2); by rewrite Hv|]. cbn. intros r p3 ->.
  unfold nothing, drop_tx_view. destruct (v_senders v =? 1); cbn; by rewrite ?Hf, ?Ht.
Qed.

(** ** Queries *)

(** [remaining] subtracts the capacity from the length: it underflows on every channel
    that can hold a message. *)
Theorem Receiver_remaining_underflows p v vals :
  prep p v vals -> snd (Receiver_remaining p) = if v_cap v =? 0 then Val 0 else Panic.
Proof.
  intros Hp. destruct (len_spec _ _ (prep_core _ _ _ Hp) I) as (c' & n & v' & Hrun & Hr' & -> & ->).
  unfold Receiver_remaining, Receiver_len, Receiver_capacity, on_core. run_M. rewrite Hrun. cbn.
  destruct (rep_cap _ _ Hr') as [Hc ->]. unfold usize_checked_sub.
  destruct (Z.leb_spec (v_cap v) 0), (Z.eqb_spec (v_cap v) 0); try lia; cbn; [|done].
  by replace (0 - v_cap v) with 0 by lia.
Qed.

(** ** Sessions

    A program owns handles: the pipe itself, senders, a receiver, permits borrowed from a
    sender.  It can call what it has a handle for; [step] refuses (does nothing) otherwise,
    as the borrow checker would.  [accepted] records the messages the channel took while
    open, [received] those the receiver got. *)

Inductive cmd : Type :=
| NewSender | NewReceiver | CloneSender
| DropSender | DropReceiver | DropPipe
| TrySend (x : T) | TryReserve | PermitSend (x : T) | PermitDrop
| TryRecv | PollRecv | CloseWithError (e : E).

Record client := mkClient {
  cl_pipe : Pipe T E;
  cl_alive : bool;
  cl_tx : nat;
  cl_rx : bool;
  cl_permits : list Permit;
  cl_accepted : list T;
  cl_received : list T;
}.

Definition with_pipe (p : Pipe T E) (cl : client) : client :=
  mkClient p (cl_alive cl) (cl_tx cl) (cl_rx cl) (cl_permits cl) (cl_accepted cl) (cl_received cl).
Definition with_handles (alive : bool) (tx : nat) (rx : bool) (cl : client) : client :=
  mkClient (cl_pipe cl) alive tx rx (cl_permits cl) (cl_accepted cl) (cl_received cl).
Definition with_permits (l : list Permit) (cl : client) : client :=
  mkClient (cl_pipe cl) (cl_alive cl) (cl_tx cl) (cl_rx cl) l (cl_accepted cl) (cl_received cl).
Definition accept (x : T) (cl : client) : client :=
  mkClient (cl_pipe cl) (cl_alive cl) (cl_tx cl) (cl_rx cl) (cl_permits cl) (cl_accepted cl ++ [x]) (cl_received cl).
Definition receive (x : T) (cl : client) : client :=
  mkClient (cl_pipe cl) (cl_alive cl) (cl_tx cl) (cl_rx cl) (cl_permits cl) (cl_accepted cl) (cl_received cl ++ [x]).

(** Runs an operation and continues with its value; [None] if it did not return one. *)
Definition act {A} (m : M (Pipe T E) A) (k : A -> client -> client) (cl : client) : option client :=
  match m (cl_pipe cl) with
  | (p', Val a) => Some (k a (with_pipe p' cl))
  | (_, _) => None
  end.

(** Whether the channel takes messages. *)
Definition open_for_sending (cl : client) : bool :=
  Z.land (enqueue_pos (core (cl_pipe cl))) CLOSED =? 0.

Definition step (c : cmd) (cl : client) : option client :=
  let skip := Some cl in
  match c with
  | NewSender =>
      if cl_alive cl then act TrickyPipe_sender (fun _ => with_handles true (S (cl_tx cl)) (cl_rx cl)) cl else skip
  | NewReceiver =>
      if cl_alive cl then
        act TrickyPipe_receiver
          (fun r => match r with Some _ => with_handles true (cl_tx cl) true | None => id end) cl
      else skip
  | CloneSender =>
      match cl_tx cl with
      | O => skip
      | S _ => act (Sender_clone (ARC_VTABLE tid)) (fun _ => with_handles (cl_alive cl) (S (cl_tx cl)) (cl_rx cl)) cl
      end
  | DropSender =>
      match cl_tx cl, cl_permits cl with
      | S n, [] | S (S _ as n), _ :: _ =>
          act (Sender_drop (ARC_VTABLE tid)) (fun _ => with_handles (cl_alive cl) n (cl_rx cl)) cl
      | _, _ => skip
      end
  | DropReceiver =>
      if cl_rx cl then
        act (Receiver_drop (ARC_VTABLE tid)) (fun _ => with_handles (cl_alive cl) (cl_tx cl) false) cl
      else skip
  | DropPipe =>
      if cl_alive cl then act TrickyPipe_drop (fun _ => with_handles false (cl_tx cl) (cl_rx cl)) cl else skip
  | TrySend x =>
      match cl_tx cl with
      | O => skip
      | S _ => act (Sender_try_send x) (fun r => if result_is_ok r then accept x else id) cl
      end
  | TryReserve =>
      match cl_tx cl with
      | O => skip
      | S _ => act Sender_try_reserve
                 (fun r => match r with Ok p => with_permits (p :: cl_permits cl) | Err _ => id end) cl
      end
  | PermitSend x =>
      match cl_permits cl with
      | [] => skip
      | p :: l => act (Permit_send p x)
                    (fun _ cl' => let cl1 := with_permits l cl' in
                                  if open_for_sending cl then accept x cl1 else cl1) cl
      end
  | PermitDrop =>
      match cl_permits cl with
      | [] => skip
      | p :: l => act (Permit_drop p) (fun _ => with_permits l) cl
      end
  | TryRecv =>
      if cl_rx cl then
        act Receiver_try_recv (fun r => match r with Ok x => receive x | Err _ => id end) cl
      else skip
  | PollRecv =>
      if cl_rx cl then
        act Receiver_poll_recv (fun r => match r with Ready (Ok x) => receive x | _ => id end) cl
      else skip
  | CloseWithError e =>
      match cl_tx cl with O => skip | S _ => act (Sender_close_with_error e) (fun _ => id) cl end
  end.

Fixpoint steps (l : list cmd) (cl : client) : option client :=
  match l with [] => Some cl | c :: l => cl' ← step c cl; steps l cl' end.

Definition session (cap : Z) (l : list cmd) : option client :=
  match TrickyPipe_new cap with
  | Val p => steps l (mkClient p true 0 false [] [] [])
  | _ => None
  end.

(** *** The invariant of a session *)

(** While some handle lives. *)
Record live (n : Z) (cap : Z) (cl : client) v vals : Prop := {
  lv_prep : prep (cl_pipe cl) v vals;
  lv_cap : v_cap v = cap;
  lv_refs : strong_count (cl_pipe cl) = Z.b2z (cl_alive cl) + Z.of_nat (cl_tx cl) + Z.b2z (cl_rx cl);
  lv_some : 1 <= strong_count (cl_pipe cl);
  lv_senders : v_senders v = Z.b2z (cl_alive cl) + Z.of_nat (cl_tx cl) /\ v_senders v <= n;
  lv_claimed : cl_rx cl = true -> v_claimed v = true;
  lv_fifo : cl_accepted cl = cl_received cl ++ vals;
  lv_count : Z.of_nat (length (cl_received cl)) = v_delivered v;
  lv_destroyed : destroyed (cl_pipe cl) = [];
  lv_nodup : NoDup ((fun r => idx (permit_pipe r)) <$> cl_permits cl);
  lv_held : forall r, r ∈ cl_permits cl -> idx (permit_pipe r) ∈ v_held v;
  lv_borrow : cl_permits cl <> [] -> (0 < cl_tx cl)%nat;
}.

(** Once the last handle is gone. *)
Definition dead (cl : client) : Prop :=
  cl_alive cl = false /\ cl_tx cl = 0%nat /\ cl_rx cl = false /\ cl_permits cl = [] /\
  exists lost, cl_accepted cl = cl_received cl ++ destroyed (cl_pipe cl) ++ lost /\
    Z.of_nat (length (cl_received cl ++ destroyed (cl_pipe cl))) <= LAST_POS /\
    (lost = [] \/ Z.of_nat (length (cl_received cl ++ destroyed (cl_pipe cl))) = LAST_POS).

Definition sinv (n cap : Z) (cl : client) : Prop := (exists v vals, live n cap cl v vals) \/ dead cl.

Lemma act_wp {A} (m : M (Pipe T E) A) k cl Q (P : client -> Prop) :
  wp m Q (cl_pipe cl) -> (forall a p', Q a p' -> P (k a (with_pipe p' cl))) ->
  exists cl', act m k cl = Some cl' /\ P cl'.
Proof.
  intros (p' & a & Hm & HQ) H. exists (k a (with_pipe p' cl)). split; [|by apply H].
  unfold act. by rewrite Hm.
Qed.

Lemma skip_inv n cap cl : sinv n cap cl -> exists cl', Some cl = Some cl' /\ sinv (n + 1) cap cl'.
Proof.
  intros [(v & vals & H)|H]; exists cl; (split; [done|]); [left|by right].
  exists v, vals. destruct H. split; try done. destruct lv_senders0. split; [done|lia].
Qed.

(** The last handle goes: what was queued is destroyed, up to the last position. *)
Lemma last_drop_inv n cap cl v vals p' :
  live n cap cl v vals -> cl_permits cl = [] ->
  destroyed p' = take (reachable v vals) vals ->
  dead (with_handles false 0 false (with_pipe p' cl)).
Proof.
  intros [] Hp Hd. unfold dead. cbn. rewrite Hp, Hd. split_and!; [done..|].
  exists (drop (reachable v vals) vals). rewrite take_drop. split; [done|].
  pose proof (rep_delivered _ _ (prep_core _ _ _ lv_prep0)).
  rewrite length_app, length_take. unfold reachable, LAST_POS in *.
  split; [lia|]. destruct (decide (length vals <= Z.to_nat (1023 - v_delivered v))%nat).
  - left. apply drop_ge. lia.
  - right. lia.
Qed.

(** Dropping a handle: the counts go down together, and the last one destroys. *)
Lemma erased_drop_inv n cap cl v vals p1 v1 alive tx rx :
  live n cap cl v vals -> prep p1 v1 vals -> v_cap v1 = v_cap v -> v_delivered v1 = v_delivered v ->
  v_held v1 = v_held v -> v_claimed v1 = v_claimed v ->
  strong_count p1 = strong_count (cl_pipe cl) -> destroyed p1 = destroyed (cl_pipe cl) ->
  v_senders v1 = Z.b2z alive + Z.of_nat tx -> v_senders v1 <= n ->
  Z.b2z alive + Z.of_nat tx + Z.b2z rx = strong_count (cl_pipe cl) - 1 ->
  (rx = true -> cl_rx cl = true) -> (cl_permits cl <> [] -> (0 < tx)%nat) ->
  wp erased_drop (fun _ p' => sinv (n + 1) cap (with_handles alive tx rx (with_pipe p' cl))) p1.
Proof.
  intros Hl Hp1 Hcap Hdel Hheld Hclaim Hs Hd Hsend Hsn Hrefs Hrx Hb.
  destruct (decide (strong_count p1 = 1)) as [H1|H1].
  - eapply wp_mono; [by apply (erased_drop_last_wp _ _ _ Hp1)|]. cbn. intros [] p' [Hd' _]. right.
    assert (alive = false /\ tx = 0%nat /\ rx = false) as (-> & -> & ->)
      by (destruct alive, rx; cbn in Hrefs; (lia || (split_and!; [done|lia|done]))).
    eapply last_drop_inv; [exact Hl| |].
    + destruct (cl_permits cl); [done|]. specialize (Hb ltac:(done)). lia.
    + rewrite Hd', Hd, (lv_destroyed _ _ _ _ _ Hl). cbn. unfold reachable. by rewrite Hdel.
  - destruct Hl. eapply (erased_drop_wp _ _ _ _ Hp1); [lia|]. intros Hp2. left. exists v1, vals.
    split; cbn; try done; try congruence; try lia.
    + intros H. rewrite Hclaim. auto.
    + rewrite Hheld. auto.
Qed.

(** The invariant at a pipe that [H] describes. *)
Ltac live_at H :=
  left; eexists _, _; split; [exact H|..]; cbn; try done; try congruence; try lia; try tauto.

(** One more sender, by any constructor that counts it. *)
Lemma add_sender_inv n cap cl v vals alive :
  live n cap cl v vals -> n + 1 < 2 ^ 61 -> alive = cl_alive cl ->
  exists cl', act (on_core add_tx;; erased_clone)
                  (fun _ => with_handles alive (S (cl_tx cl)) (cl_rx cl)) cl = Some cl' /\ sinv (n + 1) cap cl'.
Proof.
  intros Hl Hn ->. destruct (lv_senders _ _ _ _ _ Hl) as [Hs Hsn].
  eapply act_wp; [|intros a p' HQ; exact HQ].
  apply wp_bind. eapply core_step_wp; [apply add_tx_spec|apply Hl|cbn; lia|by intros ? ? ->|].
  intros [] v1 p1 -> Hp1 Hc Hd. apply (erased_clone_wp _ _ _ _ Hp1). intros Hp2. destruct Hl. live_at Hp2.
Qed.

Lemma drop_sender_inv n cap cl v vals alive tx :
  live n cap cl v vals -> Z.b2z alive + Z.of_nat tx = v_senders v - 1 ->
  (cl_permits cl <> [] -> (0 < tx)%nat) ->
  exists cl', act (on_core drop_tx;; erased_drop) (fun _ => with_handles alive tx (cl_rx cl)) cl = Some cl' /\
              sinv (n + 1) cap cl'.
Proof.
  intros Hl Htx Hb. destruct (lv_senders _ _ _ _ _ Hl) as [Hs Hsn].
  eapply act_wp; [|intros a p' HQ; exact HQ].
  apply wp_bind. eapply core_step_wp; [apply drop_tx_spec|apply Hl|destruct alive; cbn in *; lia|..].
  { intros [] v2 ->. unfold drop_tx_view. by case_match. }
  intros [] v1 p1 -> Hp1 Hc Hd. pose proof (lv_refs _ _ _ _ _ Hl) as Hr.
  eapply (erased_drop_inv _ _ _ _ _ _ _ _ _ _ Hl Hp1); try done; try lia;
    unfold drop_tx_view; case_match; cbn; done || lia.
Qed.

Lemma drop_receiver_inv n cap cl v vals :
  live n cap cl v vals -> cl_rx cl = true ->
  exists cl', act (on_core close_rx;; erased_drop) (fun _ => with_handles (cl_alive cl) (cl_tx cl) false) cl = Some cl' /\
              sinv (n + 1) cap cl'.
Proof.
  intros Hl Hrx. destruct (lv_senders _ _ _ _ _ Hl) as [Hs Hsn].
  eapply act_wp; [|intros a p' HQ; exact HQ].
  apply wp_bind. eapply core_step_wp; [apply close_rx_spec|apply Hl|done|by intros ? ? ->|].
  intros [] v1 p1 -> Hp1 Hc Hd. pose proof (lv_refs _ _ _ _ _ Hl) as Hr. rewrite Hrx in Hr. cbn in Hr.
  eapply (erased_drop_inv _ _ _ _ _ _ _ _ _ _ Hl Hp1); cbn; try done; try lia. apply (lv_borrow _ _ _ _ _ Hl).
Qed.

Lemma new_receiver_inv n cap cl v vals :
  live n cap cl v vals -> cl_alive cl = true ->
  exists cl', act TrickyPipe_receiver
      (fun r => match r with Some _ => with_handles true (cl_tx cl) true | None => id end) cl = Some cl' /\
    sinv (n + 1) cap cl'.
Proof.
  intros Hl Ha. destruct (lv_senders _ _ _ _ _ Hl) as [Hs Hsn].
  eapply act_wp; [|intros a p' HQ; exact HQ]. apply wp_bind.
  eapply core_step_wp; [apply try_claim_rx_spec|apply Hl|done|by intros ? ? [_ ->]|].
  intros r v1 p1 [-> ->] Hp1 Hc Hd. destruct (v_claimed v) eqn:Hclaim.
  - apply wp_ret. destruct Hl. live_at Hp1.
  - assert (Hrx : cl_rx cl = false).
    { destruct (cl_rx cl) eqn:Hrx; [|done]. by rewrite (lv_claimed _ _ _ _ _ Hl Hrx) in Hclaim. }
    apply wp_bind. apply (erased_clone_wp _ _ _ _ Hp1). intros Hp2. apply wp_ret.
    destruct Hl. rewrite Hrx, Ha in *. cbn in *. live_at Hp2.
Qed.

(** What a receive leaves: the head gone, or everything as it was. *)
Lemma recv_inv n cap cl v vals p' x vals' :
  live n cap cl v vals -> vals = x :: vals' ->
  prep p' (upd_queue (v_delivered v + 1) (tail (v_queued v)) (v_held v) v) vals' ->
  strong_count p' = strong_count (cl_pipe cl) -> destroyed p' = destroyed (cl_pipe cl) ->
  sinv (n + 1) cap (receive x (with_pipe p' cl)).
Proof.
  intros [] -> Hp Hs Hd. live_at Hp.
  - rewrite lv_fifo0, <- app_assoc. done.
  - rewrite length_app. cbn. lia.
Qed.

Lemma same_inv n cap cl v vals p' :
  live n cap cl v vals -> prep p' v vals ->
  strong_count p' = strong_count (cl_pipe cl) -> destroyed p' = destroyed (cl_pipe cl) ->
  sinv (n + 1) cap (with_pipe p' cl).
Proof.
  intros [] Hp Hs Hd. live_at Hp.
Qed.

Lemma open_for_sending_eq n cap cl v vals : live n cap cl v vals -> open_for_sending cl = negb (v_rx_closed v).
Proof.
  intros Hl. unfold open_for_sending. rewrite (rep_enq _ _ (prep_core _ _ _ (lv_prep _ _ _ _ _ Hl))).
  apply pos_word_closed_eqb0.
Qed.

Lemma try_send_inv n cap cl v vals x :
  live n cap cl v vals ->
  exists cl', act (Sender_try_send x) (fun r => if result_is_ok r then accept x else id) cl = Some cl' /\
              sinv (n + 1) cap cl'.
Proof.
  intros Hl. eapply act_wp; [by apply Sender_try_send_wp, Hl|]. cbn.
  intros r p' [[Hs Hd] [(_ & -> & Hp)|[(_ & _ & -> & Hp)|(_ & -> & i & _ & Hp)]]];
    [by eapply same_inv..|]. cbn.
  destruct Hl. live_at Hp. by rewrite lv_fifo0, <- app_assoc.
Qed.

Lemma try_reserve_inv n cap cl v vals :
  live n cap cl v vals -> (0 < cl_tx cl)%nat ->
  exists cl', act Sender_try_reserve
      (fun r => match r with Ok p => with_permits (p :: cl_permits cl) | Err _ => id end) cl = Some cl' /\
    sinv (n + 1) cap cl'.
Proof.
  intros Hl Htx.
  eapply act_wp; [eapply Sender_try_reserve_wp; [apply Hl|]; intros p' r Hd Hs H; exact (conj Hd (conj Hs H))|].
  cbn. intros r p' (Hd & Hs & H). destruct (v_rx_closed v).
  - destruct H as [-> Hp]. destruct (v_failed v); by eapply same_inv.
  - destruct H as [(i & -> & Hq & Hh & Hp)|(-> & _ & Hp)]; [|by eapply same_inv].
    destruct Hl. live_at Hp.
    + constructor; [|done]. intros (r & Hr & Hin)%list_elem_of_fmap. apply Hh. cbn in Hr. rewrite Hr. auto.
    + intros r [->|Hr]%elem_of_cons; cbn; [set_solver|]. specialize (lv_held0 r Hr). set_solver.
Qed.

(** A permit is gone: its index leaves the held ones, and with it the list. *)
Lemma permits_tail v r l h :
  NoDup ((fun r => idx (permit_pipe r)) <$> r :: l) -> (forall r', r' ∈ r :: l -> idx (permit_pipe r') ∈ v_held v) ->
  v_held v ∖ {[idx (permit_pipe r)]} ⊆ h ->
  NoDup ((fun r => idx (permit_pipe r)) <$> l) /\ (forall r', r' ∈ l -> idx (permit_pipe r') ∈ h).
Proof.
  intros Hnd Hheld Hh. apply NoDup_cons in Hnd as [Hn Hnd]. split; [done|]. intros r' Hr'.
  apply Hh, elem_of_difference. split; [apply Hheld; set_solver|].
  rewrite elem_of_singleton. intros Heq. apply Hn, list_elem_of_fmap. by exists r'.
Qed.

Lemma permit_send_inv n cap cl v vals x r l :
  live n cap cl v vals -> cl_permits cl = r :: l ->
  exists cl', act (Permit_send r x)
      (fun _ cl' => let cl1 := with_permits l cl' in if open_for_sending cl then accept x cl1 else cl1) cl = Some cl' /\
    sinv (n + 1) cap cl'.
Proof.
  intros Hl Hpl. rewrite (open_for_sending_eq _ _ _ _ _ Hl). destruct r as [[i]].
  assert (Hi : i ∈ v_held v) by (apply (lv_held _ _ _ _ _ Hl (mkPermit (mkReservation i))); rewrite Hpl; set_solver).
  eapply act_wp.
  { apply (Permit_send_wp i x _ v vals (fun _ p' => keeps (cl_pipe cl) p' /\
      if v_rx_closed v then prep p' v vals
      else prep p' (upd_queue (v_delivered v) (v_queued v ++ [i]) (v_held v ∖ {[i]}) v) (vals ++ [x])));
      [apply Hl|exact Hi|done]. }
  cbn. intros [] p' [[Hs Hd] H]. destruct Hl. rewrite Hpl in *.
  destruct (v_rx_closed v) eqn:Hcl; cbn.
  - destruct (permits_tail v (mkPermit (mkReservation i)) l (v_held v)) as [Hnd Hheld]; [done..|set_solver|].
    live_at H. intros _. by apply lv_borrow0.
  - destruct (permits_tail v (mkPermit (mkReservation i)) l (v_held v ∖ {[i]})) as [Hnd Hheld]; [done..|].
    live_at H; [by rewrite lv_fifo0, <- app_assoc|]. intros _. by apply lv_borrow0.
Qed.

Lemma permit_drop_inv n cap cl v vals r l :
  live n cap cl v vals -> cl_permits cl = r :: l ->
  exists cl', act (Permit_drop r) (fun _ => with_permits l) cl = Some cl' /\ sinv (n + 1) cap cl'.
Proof.
  intros Hl Hpl. destruct r as [[i]].
  assert (Hi : i ∈ v_held v) by (apply (lv_held _ _ _ _ _ Hl (mkPermit (mkReservation i))); rewrite Hpl; set_solver).
  eapply act_wp.
  { apply (Reservation_drop_wp i _ v vals (fun _ p' => keeps (cl_pipe cl) p' /\
      prep p' (upd_held (v_held v ∖ {[i]}) v) vals)); [apply Hl|exact Hi|done]. }
  cbn. intros [] p' [[Hs Hd] H]. destruct Hl. rewrite Hpl in *.
  destruct (permits_tail v (mkPermit (mkReservation i)) l (v_held v ∖ {[i]})) as [Hnd Hheld]; [done..|].
  live_at H. intros _. by apply lv_borrow0.
Qed.

Lemma try_recv_inv n cap cl v vals :
  live n cap cl v vals ->
  exists cl', act Receiver_try_recv (fun r => match r with Ok x => receive x | Err _ => id end) cl = Some cl' /\
              sinv (n + 1) cap cl'.
Proof.
  intros Hl. eapply act_wp; [by apply Receiver_try_recv_wp, Hl|]. cbn. intros r p' [[Hs Hd] H].
  destruct vals as [|x vals']; [destruct H as [-> Hp]; by eapply same_inv|].
  destruct (v_delivered v <? LAST_POS); destruct H as [-> Hp]; [by eapply recv_inv|by eapply same_inv].
Qed.

Lemma poll_recv_inv n cap cl v vals :
  live n cap cl v vals ->
  exists cl', act Receiver_poll_recv (fun r => match r with Ready (Ok x) => receive x | _ => id end) cl = Some cl' /\
              sinv (n + 1) cap cl'.
Proof.
  intros Hl. eapply act_wp; [by apply Receiver_poll_recv_wp, Hl|]. cbn. intros r p' [[Hs Hd] H].
  assert (Hnone : forall r, r = nothing_async v -> prep p' v vals ->
    sinv (n + 1) cap (match r with Ready (Ok x) => receive x | _ => id end (with_pipe p' cl))).
  { intros r' -> Hp. unfold nothing_async. destruct (v_tx_closed v), (v_failed v); by eapply same_inv. }
  destruct vals as [|x vals']; [destruct H as [-> Hp]; by apply Hnone|].
  destruct (v_delivered v <? LAST_POS); destruct H as [-> Hp]; [by eapply recv_inv|by apply Hnone].
Qed.

Lemma close_error_inv n cap cl v vals e :
  live n cap cl v vals ->
  exists cl', act (Sender_close_with_error e) (fun _ => id) cl = Some cl' /\ sinv (n + 1) cap cl'.
Proof.
  intros Hl. eapply act_wp; [|intros a p' HQ; exact HQ].
  eapply core_step_wp; [apply (close_with_error_spec e)|apply Hl|done|..].
  { intros b v'. unfold close_with_error_post. destruct (v_failed v); by intros [_ ->]. }
  intros b v' p' Hpost Hp Hs Hd. unfold close_with_error_post in Hpost.
  destruct (v_failed v); destruct Hpost as [-> ->]; [by eapply same_inv|]. destruct Hl. live_at Hp.
Qed.

(** Every command of a live session runs. *)
Lemma step_live n cap cl v vals c :
  live n cap cl v vals -> n + 1 < 2 ^ 61 ->
  exists cl', step c cl = Some cl' /\ sinv (n + 1) cap cl'.
Proof.
  intros Hl Hn. pose proof (skip_inv n cap cl (or_introl (ex_intro _ v (ex_intro _ vals Hl)))) as Hskip.
  pose proof (lv_senders _ _ _ _ _ Hl) as [Hs _].
  destruct c; cbn [step].
  - destruct (cl_alive cl) eqn:Ha; [|done]. by eapply add_sender_inv.
  - destruct (cl_alive cl) eqn:Ha; [|done]. by eapply new_receiver_inv.
  - destruct (cl_tx cl) eqn:Ht; [done|]. rewrite <- Ht. by eapply add_sender_inv.
  - destruct (cl_tx cl) as [|[|m]] eqn:Ht, (cl_permits cl) eqn:Hp; try done;
      eapply drop_sender_inv; try done; try lia; by rewrite Hp.
  - destruct (cl_rx cl) eqn:Hr; [|done]. by eapply drop_receiver_inv.
  - destruct (cl_alive cl) eqn:Ha; [|done]. eapply drop_sender_inv; [done|cbn in *; lia|apply (lv_borrow _ _ _ _ _ Hl)].
  - destruct (cl_tx cl) eqn:Ht; [done|]. by eapply try_send_inv.
  - destruct (cl_tx cl) eqn:Ht; [done|]. eapply try_reserve_inv; [done|lia].
  - destruct (cl_permits cl) eqn:Hp; [done|]. by eapply permit_send_inv.
  - destruct (cl_permits cl) eqn:Hp; [done|]. by eapply permit_drop_inv.
  - destruct (cl_rx cl) eqn:Hr; [|done]. by eapply try_recv_inv.
  - destruct (cl_rx cl) eqn:Hr; [|done]. by eapply poll_recv_inv.
  - destruct (cl_tx cl) eqn:Ht; [done|]. by eapply close_error_inv.
Qed.

Lemma step_dead cl c : dead cl -> step c cl = Some cl.
Proof. intros (Ha & Ht & Hr & Hp & _). destruct c; cbn [step]; rewrite ?Ha, ?Ht, ?Hr, ?Hp; done. Qed.

Lemma steps_inv l : forall n cap cl,
  sinv n cap cl -> n + Z.of_nat (length l) < 2 ^ 61 ->
  exists cl', steps l cl = Some cl' /\ sinv (n + Z.of_nat (length l)) cap cl'.
Proof.
  induction l as [|c l IH]; intros n cap cl Hi Hn; cbn [steps length] in *.
  - exists cl. rewrite Z.add_0_r. done.
  - assert (exists cl1, step c cl = Some cl1 /\ sinv (n + 1) cap cl1) as (cl1 & -> & Hi1).
    { destruct Hi as [(v & vals & Hl)|Hd]; [eapply step_live; [done|lia]|].
      rewrite (step_dead _ _ Hd). exists cl. split; [done|by right]. }
    cbn. destruct (IH (n + 1) cap cl1 Hi1) as (cl' & Hst & Hi'); [lia|]. exists cl'. split; [done|].
    by replace (n + Z.of_nat (S (length l))) with (n + 1 + Z.of_nat (length l)) by lia.
Qed.

Lemma session_start cap : 0 <= cap <= MAX_CAPACITY ->
  exists p, TrickyPipe_new (E := E) cap = Val p /\ live 1 cap (mkClient p true 0 false [] [] []) (view_new cap) [].
Proof.
  intros Hc. unfold TrickyPipe_new, new. destruct (Z.leb_spec cap MAX_CAPACITY); [|lia].
  eexists. split; [reflexivity|]. split; cbn; try done; try lia.
  - split; cbn; [by apply new_rep|by rewrite length_replicate|constructor].
  - constructor.
  - set_solver.
Qed.


End PipeLife.
