(* ===== verification/PipeTypes.v ===== *)
(** Type erasure: the handles that forgot the type of their messages.

    An erased handle carries the [TypeId] of its channel in its vtable, and slices carry it
    in debug builds, where [unerase] panics on a type confusion.  Sending through an erased
    sender and a downcast is the same as sending through the typed one; a downcast of a
    whole handle is exact, but a failed one costs the channel a reference. *)
From S2P Require Import Prelude Interfaces Errors Core CoreWord CoreQueue Pipe PipeSpec PipeSession.

Section PipeTypes.
Context {PU : PackUsize} {PUL : PackUsizeLaws}.
Context {IA : IndexAlloc} {IAL : IndexAllocLaws}.
Context {WCA : WaitCellApi} {WCL : WaitCellLaws} {WQA : WaitQueueApi} {WQL : WaitQueueLaws}.
Context {T E : Type} {PC : Postcard T}.
Implicit Types (p : Pipe T E) (v : view E) (vals : list T) (target : TypeId).
Variable tid : TypeId.

(** What a caller of an erased sender does: reserve, try to downcast the permit, and send, or
    give the permit back. *)
Definition erased_try_send (target : TypeId) (x : T) : M (Pipe T E) (result bool (TrySendError E unit)) :=
  r ← ErasedSender_try_reserve tid;
  match r with
  | Err e => mret (Err e)
  | Ok ep =>
      d ← ErasedPermit_downcast ep target;
      match d with
      | Ok permit => Permit_send permit x;; mret (Ok true)
      | Err ep => Reservation_drop (ep_res ep);; mret (Ok false)
      end
  end.

(** C32: A channel of [T] is a channel of nothing else: for every type that is asked for, the
    permit of an erased sender is downcast exactly when [ErasedSender::is] says so, which is
    when it is the type of the messages; then the message is sent as by a typed sender, and
    otherwise the permit comes back and the channel is as before.  No type confusion is
    reached on the way. *)
Theorem erased_sender_typed p v vals target x :
  prep p v vals ->
  wp (erased_try_send target x) (fun r p' => keeps p p' /\
    (if v_rx_closed v then r = Err (closed_try_send (v_failed v) tt) /\ prep p' v vals
     else (r = Err (TrySendFull tt) /\ all_used v /\ prep p' v vals) \/
          (r = Ok (ErasedSender_is tid target) /\
           if ErasedSender_is tid target
           then exists i, prep p' (upd_queue (v_delivered v) (v_queued v ++ [i]) (v_held v) v) (vals ++ [x])
           else prep p' v vals))) p.
Proof.
  intros Hp. pose proof Hp as [Hr Hl He]. apply wp_bind, wp_bind. eapply on_core_wp; [apply try_reserve_spec|exact Hr|done|].
  intros c1 r v1 Hr1 Hpost. unfold try_reserve_post in Hpost. destruct (v_rx_closed v) eqn:Hcl.
  - destruct Hpost as [-> ->]. apply wp_ret, wp_ret. split; [done|]. split; [by destruct (v_failed v)|by split].
  - destruct Hpost as [(i & -> & Hi & Hq & Hh & ->)|(-> & -> & Hall)]; [|apply wp_ret, wp_ret; split; [done|]; left; by split_and!].
    apply wp_bind, erase_wp, wp_ret. unfold ErasedPermit_downcast, ErasedPermit_is, ErasedPermit_type_id, ErasedSender_is, ErasedSender_type_id.
    cbn [ep_type ep_elems ep_res]. set (p1 := set_core c1 p).
    assert (Hp1 : prep p1 (upd_held ({[i]} ∪ v_held v) v) vals) by (by split).
    assert (Hheld : i ∈ v_held (upd_held ({[i]} ∪ v_held v) v)) by (cbn; set_solver).
    assert (Hback : (({[i]} ∪ v_held v) ∖ {[i]}) = v_held v) by set_solver.
    destruct (Z.eqb_spec tid target) as [<-|Hne]; cbn [negb].
    + apply wp_bind, wp_bind, unerase_wp; [done|]. apply wp_bind, elem_check_wp; [cbn; lia|]. apply wp_ret, wp_bind.
      eapply Permit_send_wp; [exact Hp1|done|]. intros p2 Hd Hs Hp2. cbn in Hp2. rewrite Hcl, Hback in Hp2.
      apply wp_ret. split; [split; [exact Hs|exact Hd]|]. right. split; [done|]. by exists i.
    + apply wp_bind, wp_ret, wp_bind. eapply Reservation_drop_wp; [exact Hp1|done|]. intros p2 Hp2 _ Hd Hs. apply wp_ret.
      split; [split; [exact Hs|exact Hd]|]. right. split; [done|]. cbn in Hp2. rewrite Hback in Hp2. by destruct v.
Qed.

(** A downcast of a whole handle, receiver or sender: it succeeds exactly for the type of the
    messages and leaves the channel as it is; when it fails, the handle is returned, but
    the reference count has lost one. *)
Lemma downcast_wp p v vals target :
  prep p v vals -> 1 < strong_count p ->
  wp (typed (ARC_VTABLE tid) target) (fun r p' =>
    r = (if target =? tid then Some tt else None) /\ prep p' v vals /\ destroyed p' = destroyed p /\
    strong_count p' = strong_count p - (if target =? tid then 0 else 1)) p.
Proof.
  intros Hp Hn. unfold typed. cbn [vt_type_id ARC_VTABLE]. destruct (target =? tid).
  - apply wp_ret. split_and!; try done. lia.
  - apply wp_bind. eapply erased_drop_wp; [exact Hp|done|]. intros Hp'. by apply wp_ret.
Qed.

(** C39: A failed downcast of a handle frees its channel early: the copy of the pipe that was
    asked for its type is dropped, although it has no reference of its own.  With one
    sender and one receiver, after a downcast of the receiver to a wrong type (which gives
    the receiver back) the drop of the sender destroys the queued messages and the shared
    state, with the receiver still there. *)
Theorem failed_downcast_frees p v vals target :
  prep p v vals -> strong_count p = 2 -> v_senders v = 1 -> target <> tid ->
  wp (r ← SerReceiver_downcast (ARC_VTABLE tid) target; DeserSender_drop (ARC_VTABLE tid);; mret r) (fun r p' =>
    r = None /\ strong_count p' = 0 /\ destroyed p' = destroyed p ++ take (reachable v vals) vals) p.
Proof.
  intros Hp Hn Hs Hne. apply wp_bind. eapply wp_mono; [apply (downcast_wp p v vals target Hp); lia|].
  intros r p1 (-> & Hp1 & Hd1 & Hn1). rewrite (proj2 (Z.eqb_neq _ _) Hne) in *.
  apply wp_bind, wp_bind. eapply core_step_wp; [apply drop_tx_spec|exact Hp1|cbn; lia|..].
  { intros [] v' ->. unfold drop_tx_view. by case_match. }
  intros [] v' p2 -> Hp2 Hn2 Hd2. cbn [vt_drop ARC_VTABLE].
  assert (Hone : strong_count p2 = 1) by lia. eapply wp_mono; [exact (erased_drop_last_wp _ _ _ Hp2 Hone)|].
  intros [] p3 [Hd3 Hn3]. apply wp_ret. split; [done|]. split; [done|]. rewrite Hd3, Hd2, Hd1. do 2 f_equal.
  unfold reachable, drop_tx_view. by destruct (_ =? _).
Qed.
End PipeTypes.
