(* ===== verification/Handles.v ===== *)
(** Handles as pointers: [ErasedPipe], [TypedPipe] and the structs of [mpsc/mod.rs] that hold
    one, over a memory of many channels.

    In [Pipe] an operation of a handle runs on the shared state of its channel.  Here the
    shared states are cells of a memory, an [Arc]'s or a [static]'s, a handle is a pointer
    with a vtable, and several handles alias one channel.  Dropping the last reference to
    an [Arc] frees its cell; using a freed cell is a panic.  The messages of all channels
    have the type [T]. *)
From stdpp Require Import gmap strings.
From S2P Require Import Prelude Interfaces TypeInfo Errors Core Pipe.

Inductive storage : Type := InArc | InStatic.
#[export] Instance storage_eq_dec : EqDecision storage.
Proof. solve_decision. Defined.

Section Handles.
Context {PU : PackUsize} {IA : IndexAlloc} {WCA : WaitCellApi} {WQA : WaitQueueApi}.
Context {T E : Type} {AN : Any T} {PC : Postcard T}.

(** *** Memory *)

Record shared := mkShared { sh_storage : storage; sh_pipe : Pipe T E }.
Abbreviation memory := (gmap nat shared).

(** Runs an operation on the channel at an address. *)
Definition at_ptr {A} (ptr : nat) (m : M (Pipe T E) A) : M memory A := fun h =>
  match h !! ptr with
  | Some sh => match m (sh_pipe sh) with (p', o) => (<[ptr := mkShared (sh_storage sh) p']> h, o) end
  | None => (h, Panic)
  end.
Definition alloc (sh : shared) : M memory nat := fun h => let ptr := fresh (dom h) in (<[ptr := sh]> h, Val ptr).
(** The end of the last reference to an [Arc]. *)
Definition dealloc (ptr : nat) : M memory unit := fun h =>
  match h !! ptr with
  | Some sh => (if strong_count (sh_pipe sh) =? 0 then delete ptr h else h, Val tt)
  | None => (h, Panic)
  end.

(** *** [CoreVtable], [ErasedPipe], [TypedPipe] *)

(** [get_core] yields the address of the core; the core of a channel is at its address. *)
Record CoreVtable := mkCoreVtable {
  get_core : nat -> nat;
  get_elems : nat -> M memory ErasedSlice;
  vt_clone : nat -> M memory unit;
  vt_drop : nat -> M memory unit;
  vt_type_name : unit -> string;
  vt_type_id : unit -> TypeId;
}.
Record ErasedPipe := mkErasedPipe { ep_ptr : nat; ep_vtable : CoreVtable }.
Record TypedPipe := mkTypedPipe { tp_pipe : ErasedPipe }.

(** [TrickyPipe::CORE_VTABLE] and [StaticTrickyPipe::CORE_VTABLE]. *)
Definition arc_get_core (ptr : nat) : nat := ptr.
Definition arc_get_elems (ptr : nat) : M memory ErasedSlice := at_ptr ptr (erase (type_id_of T)).
Definition arc_clone (ptr : nat) : M memory unit := at_ptr ptr erased_clone.
Definition arc_drop (ptr : nat) : M memory unit := at_ptr ptr erased_drop;; dealloc ptr.
Definition static_get_core (ptr : nat) : nat := ptr.
Definition static_get_elems (ptr : nat) : M memory ErasedSlice := at_ptr ptr (erase (type_id_of T)).
Definition ARC_CORE_VTABLE : CoreVtable :=
  mkCoreVtable arc_get_core arc_get_elems arc_clone arc_drop (fun _ => type_name T) (fun _ => type_id_of T).
Definition STATIC_CORE_VTABLE : CoreVtable :=
  mkCoreVtable static_get_core static_get_elems (fun _ => mret tt) (fun _ => mret tt)
    (fun _ => type_name T) (fun _ => type_id_of T).

(** [ErasedPipe::clone_no_ref_inc], [core], [elems]; [Clone] and [Drop]; [typed]. *)
Definition ErasedPipe_clone_no_ref_inc (self : ErasedPipe) : ErasedPipe := mkErasedPipe (ep_ptr self) (ep_vtable self).
Definition ErasedPipe_core {A} (self : ErasedPipe) (m : M (Core E) A) : M memory A :=
  at_ptr (get_core (ep_vtable self) (ep_ptr self)) (on_core m).
Definition ErasedPipe_elems (self : ErasedPipe) : M memory ErasedSlice := get_elems (ep_vtable self) (ep_ptr self).
Definition ErasedPipe_clone (self : ErasedPipe) : M memory ErasedPipe :=
  vt_clone (ep_vtable self) (ep_ptr self);; mret (mkErasedPipe (ep_ptr self) (ep_vtable self)).
Definition ErasedPipe_drop (self : ErasedPipe) : M memory unit := vt_drop (ep_vtable self) (ep_ptr self).
Definition ErasedPipe_typed (self : ErasedPipe) (target : TypeId) : M memory (option TypedPipe) :=
  if target =? vt_type_id (ep_vtable self) tt then mret (Some (mkTypedPipe self))
  else ErasedPipe_drop self;; mret None.

Definition TypedPipe_new (ptr : nat) (vtable : CoreVtable) : TypedPipe := mkTypedPipe (mkErasedPipe ptr vtable).
Definition TypedPipe_erased (self : TypedPipe) : ErasedPipe := tp_pipe self.
Definition TypedPipe_clone_no_ref_inc (self : TypedPipe) : TypedPipe := mkTypedPipe (ErasedPipe_clone_no_ref_inc (tp_pipe self)).
Definition TypedPipe_core {A} (self : TypedPipe) (m : M (Core E) A) : M memory A := ErasedPipe_core (tp_pipe self) m.
Definition TypedPipe_elems (self : TypedPipe) : M memory unit :=
  es ← ErasedPipe_elems (tp_pipe self); at_ptr (ep_ptr (tp_pipe self)) (unerase (type_id_of T) es).
Definition TypedPipe_clone (self : TypedPipe) : M memory TypedPipe :=
  pipe ← ErasedPipe_clone (tp_pipe self); mret (mkTypedPipe pipe).

(** [SerVtable], [DeserVtable] and [Vtables]: the functions run on the channel the slice
    belongs to. *)
Record SerVtable := mkSerVtable {
  to_vec : ErasedSlice -> Z -> M (Pipe T E) (result bytes PostcardError);
  to_vec_framed : ErasedSlice -> Z -> M (Pipe T E) (result bytes PostcardError);
  to_slice : ErasedSlice -> Z -> bytes -> M (Pipe T E) (bytes * result nat PostcardError);
  to_slice_framed : ErasedSlice -> Z -> bytes -> M (Pipe T E) (bytes * result nat PostcardError);
  drop_elem : ErasedSlice -> Z -> M (Pipe T E) unit;
}.
Record DeserVtable := mkDeserVtable {
  from_bytes : ErasedSlice -> Z -> bytes -> M (Pipe T E) (result unit PostcardError);
  from_bytes_framed : ErasedSlice -> Z -> bytes -> M (Pipe T E) (result unit PostcardError);
}.
Definition SERIALIZE : SerVtable := {|
  to_vec := SerVtable_to_vec (type_id_of T);
  to_vec_framed := SerVtable_to_vec_framed (type_id_of T);
  to_slice := SerVtable_to_slice (type_id_of T);
  to_slice_framed := SerVtable_to_slice_framed (type_id_of T);
  drop_elem := SerVtable_drop_elem (type_id_of T);
|}.
Definition DESERIALIZE : DeserVtable := {|
  from_bytes := DeserVtable_from_bytes (type_id_of T);
  from_bytes_framed := DeserVtable_from_bytes_framed (type_id_of T);
|}.

(** *** Handles *)

Record TrickyPipe := mkTrickyPipe { tk_ptr : nat }.
Record StaticTrickyPipe := mkStaticTrickyPipe { st_ptr : nat }.
Record Receiver := mkReceiver { rx_pipe : TypedPipe }.
Record Sender := mkSender { tx_pipe : TypedPipe }.
Record SerReceiver := mkSerReceiver { sr_pipe : ErasedPipe; sr_vtable : SerVtable }.
Record DeserSender := mkDeserSender { ds_pipe : ErasedPipe; ds_vtable : DeserVtable }.
Record ErasedSender := mkErasedSender { es_pipe : ErasedPipe }.

Definition SerReceiver_new (pipe : TypedPipe) : SerReceiver := mkSerReceiver (TypedPipe_erased pipe) SERIALIZE.
Definition DeserSender_new (pipe : TypedPipe) : DeserSender := mkDeserSender (TypedPipe_erased pipe) DESERIALIZE.
Definition ErasedSender_new (pipe : TypedPipe) : ErasedSender := mkErasedSender (TypedPipe_erased pipe).

(** [TrickyPipe]: [new], [pipe], the constructors of handles, [Clone] and [Drop]. *)
Definition TrickyPipe_new (capacity : Z) : M memory TrickyPipe :=
  match Pipe.TrickyPipe_new capacity with
  | Val p => ptr ← alloc (mkShared InArc p); mret (mkTrickyPipe ptr)
  | _ => panic
  end.
Definition TrickyPipe_core {A} (self : TrickyPipe) (m : M (Core E) A) : M memory A := at_ptr (tk_ptr self) (on_core m).
Definition TrickyPipe_pipe (self : TrickyPipe) : M memory TypedPipe :=
  at_ptr (tk_ptr self) erased_clone;; mret (TypedPipe_new (tk_ptr self) ARC_CORE_VTABLE).
Definition TrickyPipe_receiver (self : TrickyPipe) : M memory (option Receiver) :=
  r ← TrickyPipe_core self try_claim_rx;
  match r with None => mret None | Some _ => p ← TrickyPipe_pipe self; mret (Some (mkReceiver p)) end.
Definition TrickyPipe_sender (self : TrickyPipe) : M memory Sender :=
  TrickyPipe_core self add_tx;; p ← TrickyPipe_pipe self; mret (mkSender p).
Definition TrickyPipe_ser_receiver (self : TrickyPipe) : M memory (option SerReceiver) :=
  r ← TrickyPipe_core self try_claim_rx;
  match r with None => mret None | Some _ => p ← TrickyPipe_pipe self; mret (Some (SerReceiver_new p)) end.
Definition TrickyPipe_deser_sender (self : TrickyPipe) : M memory DeserSender :=
  TrickyPipe_core self add_tx;; p ← TrickyPipe_pipe self; mret (DeserSender_new p).
Definition TrickyPipe_clone (self : TrickyPipe) : M memory TrickyPipe :=
  TrickyPipe_core self add_tx;; arc_clone (tk_ptr self);; mret (mkTrickyPipe (tk_ptr self)).
Definition TrickyPipe_drop (self : TrickyPipe) : M memory unit :=
  TrickyPipe_core self drop_tx;; arc_drop (tk_ptr self).

(** [StaticTrickyPipe] *)
Definition StaticTrickyPipe_new (CAPACITY : Z) : M memory StaticTrickyPipe :=
  match Pipe.StaticTrickyPipe_new CAPACITY with
  | Val p => ptr ← alloc (mkShared InStatic p); mret (mkStaticTrickyPipe ptr)
  | _ => panic
  end.
Definition StaticTrickyPipe_core {A} (self : StaticTrickyPipe) (m : M (Core E) A) : M memory A := at_ptr (st_ptr self) (on_core m).
Definition StaticTrickyPipe_pipe (self : StaticTrickyPipe) : TypedPipe := TypedPipe_new (st_ptr self) STATIC_CORE_VTABLE.
Definition StaticTrickyPipe_receiver (self : StaticTrickyPipe) : M memory (option Receiver) :=
  r ← StaticTrickyPipe_core self try_claim_rx;
  mret (option_map (fun _ => mkReceiver (StaticTrickyPipe_pipe self)) r).
Definition StaticTrickyPipe_sender (self : StaticTrickyPipe) : M memory Sender :=
  StaticTrickyPipe_core self add_tx;; mret (mkSender (StaticTrickyPipe_pipe self)).
Definition StaticTrickyPipe_ser_receiver (self : StaticTrickyPipe) : M memory (option SerReceiver) :=
  r ← StaticTrickyPipe_core self try_claim_rx;
  mret (option_map (fun _ => SerReceiver_new (StaticTrickyPipe_pipe self)) r).
Definition StaticTrickyPipe_deser_sender (self : StaticTrickyPipe) : M memory DeserSender :=
  mret (DeserSender_new (StaticTrickyPipe_pipe self)).

(** Conversions: the handle's destructor does not run. *)
Definition Receiver_into_serde (self : Receiver) : SerReceiver := SerReceiver_new (TypedPipe_clone_no_ref_inc (rx_pipe self)).
Definition Sender_into_serde (self : Sender) : DeserSender := DeserSender_new (TypedPipe_clone_no_ref_inc (tx_pipe self)).
Definition Sender_into_erased (self : Sender) : ErasedSender := ErasedSender_new (TypedPipe_clone_no_ref_inc (tx_pipe self)).
Definition SerReceiver_downcast (self : SerReceiver) (target : TypeId) : M memory (result Receiver SerReceiver) :=
  r ← ErasedPipe_typed (ErasedPipe_clone_no_ref_inc (sr_pipe self)) target;
  mret (match r with Some pipe => Ok (mkReceiver pipe) | None => Err self end).
Definition DeserSender_downcast (self : DeserSender) (target : TypeId) : M memory (result Sender DeserSender) :=
  r ← ErasedPipe_typed (ErasedPipe_clone_no_ref_inc (ds_pipe self)) target;
  mret (match r with Some pipe => Ok (mkSender pipe) | None => Err self end).

(** [Clone] and [Drop]: the body, then the field [pipe]. *)
Definition Sender_clone (self : Sender) : M memory Sender :=
  TypedPipe_core (tx_pipe self) add_tx;; pipe ← TypedPipe_clone (tx_pipe self); mret (mkSender pipe).
Definition DeserSender_clone (self : DeserSender) : M memory DeserSender :=
  ErasedPipe_core (ds_pipe self) add_tx;; pipe ← ErasedPipe_clone (ds_pipe self); mret (mkDeserSender pipe (ds_vtable self)).
Definition ErasedSender_clone (self : ErasedSender) : M memory ErasedSender :=
  ErasedPipe_core (es_pipe self) add_tx;; pipe ← ErasedPipe_clone (es_pipe self); mret (mkErasedSender pipe).
Definition Sender_drop (self : Sender) : M memory unit :=
  TypedPipe_core (tx_pipe self) drop_tx;; ErasedPipe_drop (tp_pipe (tx_pipe self)).
Definition DeserSender_drop (self : DeserSender) : M memory unit :=
  ErasedPipe_core (ds_pipe self) drop_tx;; ErasedPipe_drop (ds_pipe self).
Definition ErasedSender_drop (self : ErasedSender) : M memory unit :=
  ErasedPipe_core (es_pipe self) drop_tx;; ErasedPipe_drop (es_pipe self).
Definition Receiver_drop (self : Receiver) : M memory unit :=
  TypedPipe_core (rx_pipe self) close_rx;; ErasedPipe_drop (tp_pipe (rx_pipe self)).
Definition SerReceiver_drop (self : SerReceiver) : M memory unit :=
  ErasedPipe_core (sr_pipe self) close_rx;; ErasedPipe_drop (sr_pipe self).

(** [type_name] and [type_id] *)
Definition ErasedSender_type_name (self : ErasedSender) : string := vt_type_name (ep_vtable (es_pipe self)) tt.
Definition ErasedSender_type_id (self : ErasedSender) : TypeId := vt_type_id (ep_vtable (es_pipe self)) tt.

(** Sending and receiving through a handle. *)
Definition Sender_try_send (self : Sender) (message : T) : M memory (result unit (TrySendError E T)) :=
  at_ptr (ep_ptr (tp_pipe (tx_pipe self))) (Pipe.Sender_try_send message).
Definition Receiver_try_recv (self : Receiver) : M memory (result T (TryRecvError E)) :=
  at_ptr (ep_ptr (tp_pipe (rx_pipe self))) Pipe.Receiver_try_recv.

(** *** Programs

    A program owns a list of handles; an action on one of them replaces it by what is left
    of it and what it yields.  An action that the handle does not have changes nothing. *)
Inductive handle : Type :=
| HTricky (h : TrickyPipe) | HStatic (h : StaticTrickyPipe)
| HReceiver (h : Receiver) | HSender (h : Sender)
| HSerReceiver (h : SerReceiver) | HDeserSender (h : DeserSender) | HErasedSender (h : ErasedSender).

Inductive action : Type :=
| GetReceiver | GetSender | GetSerReceiver | GetDeserSender | GetStaticDeserSender
| Clone | IntoSerde | IntoErased | Downcast (target : TypeId) | Drop
| TrySend (x : T) | TryRecv.

Definition some_handle {A} (f : A -> handle) (r : option A) : list handle := match r with Some a => [f a] | None => [] end.

Definition act (a : action) (h : handle) : M memory (list handle) :=
  match a, h with
  | GetReceiver, HTricky k => r ← TrickyPipe_receiver k; mret (h :: some_handle HReceiver r)
  | GetReceiver, HStatic k => r ← StaticTrickyPipe_receiver k; mret (h :: some_handle HReceiver r)
  | GetSender, HTricky k => r ← TrickyPipe_sender k; mret [h; HSender r]
  | GetSender, HStatic k => r ← StaticTrickyPipe_sender k; mret [h; HSender r]
  | GetSerReceiver, HTricky k => r ← TrickyPipe_ser_receiver k; mret (h :: some_handle HSerReceiver r)
  | GetSerReceiver, HStatic k => r ← StaticTrickyPipe_ser_receiver k; mret (h :: some_handle HSerReceiver r)
  | GetDeserSender, HTricky k => r ← TrickyPipe_deser_sender k; mret [h; HDeserSender r]
  | GetStaticDeserSender, HStatic k => r ← StaticTrickyPipe_deser_sender k; mret [h; HDeserSender r]
  | Clone, HTricky k => r ← TrickyPipe_clone k; mret [h; HTricky r]
  | Clone, HSender k => r ← Sender_clone k; mret [h; HSender r]
  | Clone, HDeserSender k => r ← DeserSender_clone k; mret [h; HDeserSender r]
  | Clone, HErasedSender k => r ← ErasedSender_clone k; mret [h; HErasedSender r]
  | IntoSerde, HReceiver k => mret [HSerReceiver (Receiver_into_serde k)]
  | IntoSerde, HSender k => mret [HDeserSender (Sender_into_serde k)]
  | IntoErased, HSender k => mret [HErasedSender (Sender_into_erased k)]
  | Downcast target, HSerReceiver k =>
      r ← SerReceiver_downcast k target; mret [match r with Ok r => HReceiver r | Err k => HSerReceiver k end]
  | Downcast target, HDeserSender k =>
      r ← DeserSender_downcast k target; mret [match r with Ok r => HSender r | Err k => HDeserSender k end]
  | Drop, HTricky k => TrickyPipe_drop k;; mret []
  | Drop, HReceiver k => Receiver_drop k;; mret []
  | Drop, HSender k => Sender_drop k;; mret []
  | Drop, HSerReceiver k => SerReceiver_drop k;; mret []
  | Drop, HDeserSender k => DeserSender_drop k;; mret []
  | Drop, HErasedSender k => ErasedSender_drop k;; mret []
  | TrySend x, HSender k => Sender_try_send k x;; mret [h]
  | TryRecv, HReceiver k => Receiver_try_recv k;; mret [h]
  | _, _ => mret [h]
  end.

Inductive command : Type := NewPipe (capacity : Z) | NewStatic (CAPACITY : Z) | Do (n : nat) (a : action).

Record world := mkWorld { w_memory : memory; w_handles : list handle }.
Definition on_memory {A} (m : M memory A) : M world A :=
  zoom w_memory (fun mem w => mkWorld mem (w_handles w)) m.
Definition set_handles (l : list handle) : M world unit := modify (fun w => mkWorld (w_memory w) l).

Definition do_command (c : command) : M world unit :=
  hs ← gets w_handles;
  match c with
  | NewPipe cap => k ← on_memory (TrickyPipe_new cap); set_handles (hs ++ [HTricky k])
  | NewStatic cap => k ← on_memory (StaticTrickyPipe_new cap); set_handles (hs ++ [HStatic k])
  | Do n a =>
      match hs !! n with
      | None => mret tt
      | Some h => new ← on_memory (act a h); set_handles (base.delete n hs ++ new)
      end
  end.
Fixpoint run_commands (l : list command) : M world unit :=
  match l with [] => mret tt | c :: l => do_command c;; run_commands l end.
Definition world_new : world := mkWorld ∅ [].
End Handles.
