(* ===== verification/HandlesSpec.v ===== *)
(** Handles and their channels: the counts are right, nothing is used after it was freed.

    [winv] relates every channel of the memory to the handles that point to it: the
    strong count of an [Arc] is their number, the sender count the number of those that
    send, and at most one receives. *)
From stdpp Require Import gmap.
From S2P Require Import Prelude Interfaces TypeInfo Errors Core CoreWord CoreQueue Pipe PipeSpec PipeSession Handles.

Section HandlesSpec.
Context {PU : PackUsize} {PUL : PackUsizeLaws}.
Context {IA : IndexAlloc} {IAL : IndexAllocLaws}.
Context {WCA : WaitCellApi} {WCL : WaitCellLaws} {WQA : WaitQueueApi} {WQL : WaitQueueLaws}.
Context {T E : Type} {AN : Any T} {PC : Postcard T}.
Abbreviation memory := (gmap nat (shared (T := T) (E := E))).
Implicit Types (p : Pipe T E) (h : handle (T := T) (E := E)) (mem : memory) (st : storage).

(** *** Counting *)

Definition ptr_of h : nat :=
  match h with
  | HTricky k => tk_ptr k | HStatic k => st_ptr k
  | HReceiver k => ep_ptr (tp_pipe (rx_pipe k)) | HSender k => ep_ptr (tp_pipe (tx_pipe k))
  | HSerReceiver k => ep_ptr (sr_pipe k) | HDeserSender k => ep_ptr (ds_pipe k) | HErasedSender k => ep_ptr (es_pipe k)
  end.
(** References, senders (the pipe counts as one), receivers. *)
Definition ref h : Z := match h with HStatic _ => 0 | _ => 1 end.
Definition tx h : Z := match h with HTricky _ | HSender _ | HDeserSender _ | HErasedSender _ => 1 | _ => 0 end.
Definition rx h : Z := match h with HReceiver _ | HSerReceiver _ => 1 | _ => 0 end.
Fixpoint total (f : handle (T := T) (E := E) -> Z) (ptr : nat) (hs : list (handle (T := T) (E := E))) : Z :=
  match hs with [] => 0 | h :: hs => (if bool_decide (ptr_of h = ptr) then f h else 0) + total f ptr hs end.

Lemma held_app f ptr l l' : total f ptr (l ++ l') = total f ptr l + total f ptr l'.
Proof. induction l as [|h l IH]; cbn; [lia|]. rewrite IH. lia. Qed.
Lemma total_delete f ptr l n h :
  l !! n = Some h -> total f ptr l = (if bool_decide (ptr_of h = ptr) then f h else 0) + total f ptr (base.delete n l).
Proof.
  revert n. induction l as [|h' l IH]; intros [|n] Hn; try done.
  - cbn in Hn. by simplify_eq.
  - change (base.delete (S n) (h' :: l)) with (h' :: base.delete n l). cbn [total]. rewrite (IH n Hn). lia.
Qed.
Lemma held_nonneg f ptr l : (forall h, 0 <= f h) -> 0 <= total f ptr l.
Proof. intros Hf. induction l as [|h l IH]; cbn; [lia|]. case_bool_decide; [specialize (Hf h)|]; lia. Qed.
Lemma total_none f ptr l : (forall h, h ∈ l -> ptr_of h <> ptr) -> total f ptr l = 0.
Proof.
  induction l as [|h l IH]; intros Hl; cbn; [done|]. rewrite IH by (intros; apply Hl; by right).
  rewrite bool_decide_false; [done|]. apply Hl. by left.
Qed.
(** *** One channel *)

(** The core of a channel with [t] senders and [x] receivers. *)
Definition core_ok (k : Z) p (t x : Z) : Prop :=
  exists v vals, prep p v vals /\ v_senders v = t /\ t <= k /\ 0 <= x <= 1 /\ (x = 1 -> v_claimed v = true).
Definition own st : Z := match st with InArc => 0 | InStatic => 1 end.
Definition pipe_ok (k : Z) st p (r t x : Z) : Prop :=
  core_ok k p (t + own st) x /\ (st = InArc -> strong_count p = r /\ 0 < r).

Lemma core_ok_le k k' p t x : core_ok k p t x -> k <= k' -> core_ok k' p t x.
Proof. intros (v & vals & ? & ? & ? & [? ?] & ?) ?. exists v, vals. split_and!; try done; lia. Qed.

(** An operation of the core that keeps the messages. *)
Lemma core_ok_step {A} (m : M (Core E) A) pre post k p t x (Q : A -> Pipe T E -> Prop) :
  core_ok k p t x -> refines m pre post ->
  (forall v vals, prep p v vals -> v_senders v = t -> t <= k -> (x = 1 -> v_claimed v = true) -> pre v /\
    forall a v', post v a v' -> (v_cap v' = v_cap v /\ v_queued v' = v_queued v) /\
      forall p', prep p' v' vals -> strong_count p' = strong_count p -> Q a p') ->
  wp (on_core m) Q p.
Proof.
  intros (v & vals & Hp & Hs & Hk & _ & Hc) Hm Hpost. destruct (Hpost v vals Hp Hs Hk Hc) as [Hpre Hq].
  eapply core_step_wp; [exact Hm|exact Hp|exact Hpre|..].
  - intros a v' H. by apply Hq in H as [? _].
  - intros a v' p' H Hp' Hst _. apply Hq in H as [_ H]. by apply H.
Qed.

Lemma add_tx_ok k p t x :
  core_ok k p t x -> k + 1 < 2 ^ 61 ->
  wp (on_core add_tx) (fun _ p' => core_ok (k + 1) p' (t + 1) x /\ strong_count p' = strong_count p) p.
Proof.
  intros Hp Hk. pose proof Hp as (_ & _ & _ & _ & _ & Hx & _). eapply core_ok_step; [exact Hp|apply add_tx_spec|]. intros v vals Hv Hs Ht Hc. split; [lia|].
  intros a v' ->. split; [done|]. intros p' Hp' Hst. split; [|done]. exists (upd_senders (v_senders v + 1) v), vals.
  split_and!; try done; cbn; lia.
Qed.
Lemma drop_tx_ok k p t x :
  core_ok k p t x -> 1 <= t ->
  wp (on_core drop_tx) (fun _ p' => core_ok k p' (t - 1) x /\ strong_count p' = strong_count p) p.
Proof.
  intros Hp Ht1. pose proof Hp as (_ & _ & _ & _ & _ & Hx & _). eapply core_ok_step; [exact Hp|apply drop_tx_spec|]. intros v vals Hv Hs Ht Hc. split; [lia|].
  intros a v' ->. assert (Hd : v_senders (drop_tx_view v) = t - 1 /\ v_claimed (drop_tx_view v) = v_claimed v).
  { unfold drop_tx_view. rewrite Hs. by destruct (t =? 1). }
  split; [unfold drop_tx_view; by case_match|]. intros p' Hp' Hst. split; [|done]. exists (drop_tx_view v), vals.
  destruct Hd as [-> ->]. split_and!; try done; lia.
Qed.
Lemma claim_ok k p t x :
  core_ok k p t x ->
  wp (on_core try_claim_rx) (fun r p' => strong_count p' = strong_count p /\
    match r with Some _ => x = 0 /\ core_ok k p' t 1 | None => core_ok k p' t x end) p.
Proof.
  intros Hp. pose proof Hp as (_ & _ & _ & _ & _ & Hx & _). eapply core_ok_step; [exact Hp|apply try_claim_rx_spec|]. intros v vals Hv Hs Ht Hc. split; [done|].
  intros a v' [-> ->]. split; [done|]. intros p' Hp' Hst. split; [done|].
  assert (Hok : forall y, 0 <= y <= 1 -> core_ok k p' t y) by (intros; by exists (upd_claimed true v), vals).
  destruct (v_claimed v) eqn:Hcl; [by apply Hok|]. split; [|by apply Hok].
  destruct (decide (x = 1)) as [Hx1|]; [|lia]. by apply Hc in Hx1.
Qed.
Lemma close_rx_ok k p t x :
  core_ok k p t x ->
  wp (on_core close_rx) (fun _ p' => core_ok k p' t 0 /\ strong_count p' = strong_count p) p.
Proof.
  intros Hp. eapply core_ok_step; [exact Hp|apply close_rx_spec|]. intros v vals Hv Hs Ht Hc. split; [done|].
  intros a v' ->. split; [done|]. intros p' Hp' Hst. split; [|done]. by eexists _, vals.
Qed.
Lemma clone_ok k p t x :
  core_ok k p t x ->
  wp erased_clone (fun _ p' => core_ok k p' t x /\ strong_count p' = strong_count p + 1) p.
Proof. intros (v & vals & Hp & H). apply (erased_clone_wp _ _ _ _ Hp). intros Hp'. split; [|done]. by exists v, vals. Qed.
Lemma drop_ok k p t x :
  core_ok k p t x -> 0 < strong_count p ->
  wp erased_drop (fun _ p' => strong_count p' = strong_count p - 1 /\ (1 < strong_count p -> core_ok k p' t x)) p.
Proof.
  intros (v & vals & Hp & H) Hs. destruct (decide (strong_count p = 1)) as [H1|H1].
  - eapply wp_mono; [by apply (erased_drop_last_wp _ _ _ Hp)|]. cbn. intros _ p' [_ ->]. split; lia.
  - eapply (erased_drop_wp _ _ _ _ Hp); [lia|]. intros Hp'. split; [done|]. intros _. by exists v, vals.
Qed.

(** *** The memory *)

Definition vtable_of st : CoreVtable (T := T) (E := E) := match st with InArc => ARC_CORE_VTABLE | InStatic => STATIC_CORE_VTABLE end.
Definition wf_handle st h : Prop :=
  match h with
  | HTricky _ => st = InArc
  | HStatic _ => st = InStatic
  | HReceiver k => ep_vtable (tp_pipe (rx_pipe k)) = vtable_of st
  | HSender k => ep_vtable (tp_pipe (tx_pipe k)) = vtable_of st
  | HSerReceiver k => ep_vtable (sr_pipe k) = vtable_of st /\ sr_vtable k = SERIALIZE
  | HDeserSender k => ep_vtable (ds_pipe k) = vtable_of st /\ ds_vtable k = DESERIALIZE
  | HErasedSender k => ep_vtable (es_pipe k) = vtable_of st
  end.

Record minv (k : Z) mem (hs : list (handle (T := T) (E := E))) : Prop := {
  mi_pipes : forall ptr st p, mem !! ptr = Some (mkShared st p) ->
    pipe_ok k st p (total ref ptr hs) (total tx ptr hs) (total rx ptr hs);
  mi_handles : forall h, h ∈ hs -> exists st p, mem !! ptr_of h = Some (mkShared st p) /\ wf_handle st h;
}.

Lemma at_ptr_wp {A} (m : M (Pipe T E) A) ptr st p mem (Q : A -> Pipe T E -> Prop) (R : A -> memory -> Prop) :
  mem !! ptr = Some (mkShared st p) -> wp m Q p ->
  (forall a p', Q a p' -> R a (<[ptr := mkShared st p']> mem)) -> wp (at_ptr ptr m) R mem.
Proof.
  intros Hm (p' & a & Hrun & HQ) H. exists (<[ptr := mkShared st p']> mem), a. split; [|by apply H].
  unfold at_ptr. rewrite Hm. cbn. by rewrite Hrun.
Qed.

Lemma at_insert ptr sh mem : <[ptr := sh]> mem !! ptr = Some sh.
Proof. apply lookup_insert_eq. Qed.

Definition arc st : Z := match st with InArc => 1 | InStatic => 0 end.
(** The memory after an operation on one channel. *)
Definition at_channel ptr st mem (P : Pipe T E -> Prop) : memory -> Prop :=
  fun mem' => exists p', mem' = <[ptr := mkShared st p']> mem /\ P p'.

Lemma core_at_wp {A} (m : M (Core E) A) ptr st p p0 mem (Q : A -> Pipe T E -> Prop) :
  mem !! ptr = Some (mkShared st p0) -> wp (on_core m) Q p ->
  wp (at_ptr ptr (on_core m)) (fun a => at_channel ptr st mem (Q a)) (<[ptr := mkShared st p]> mem).
Proof.
  intros Hm Hw. eapply at_ptr_wp; [apply at_insert|exact Hw|]. intros a p' HQ. exists p'. split; [|done].
  by rewrite insert_insert_eq.
Qed.

(** [Clone] and [Drop] of the pipe of a handle. *)
Lemma clone_at_wp k st ptr p p0 mem t x :
  mem !! ptr = Some (mkShared st p0) -> core_ok k p t x ->
  wp (vt_clone (vtable_of st) ptr)
    (fun _ => at_channel ptr st mem (fun p' => core_ok k p' t x /\ strong_count p' = strong_count p + arc st))
    (<[ptr := mkShared st p]> mem).
Proof.
  intros Hm Hp. destruct st; cbn.
  - unfold arc_clone. eapply at_ptr_wp; [apply at_insert|by apply (clone_ok k _ t x)|].
    intros a p' HQ. exists p'. split; [|done]. by rewrite insert_insert_eq.
  - apply wp_ret. exists p. split; [done|]. split; [done|lia].
Qed.

Lemma drop_at_wp k st ptr p p0 mem t x :
  mem !! ptr = Some (mkShared st p0) -> core_ok k p t x -> (st = InArc -> 0 < strong_count p) ->
  wp (vt_drop (vtable_of st) ptr)
    (fun _ mem' => if bool_decide (st = InArc /\ strong_count p = 1) then mem' = base.delete ptr mem
       else at_channel ptr st mem (fun p' => core_ok k p' t x /\ strong_count p' = strong_count p - arc st) mem')
    (<[ptr := mkShared st p]> mem).
Proof.
  intros Hm Hp Hs. destruct st; cbn.
  - unfold arc_drop. apply wp_bind. eapply at_ptr_wp; [apply at_insert|apply (drop_ok k _ t x); [done|by apply Hs]|].
    intros a p' [Hst Hok]. eexists _, tt. split; [unfold dealloc; by rewrite lookup_insert_eq|]. cbn.
    rewrite insert_insert_eq. specialize (Hs eq_refl). case_bool_decide as Hd; destruct (Z.eqb_spec (strong_count p') 0) as [H0|H0].
    + by rewrite delete_insert_eq.
    + lia.
    + exfalso. apply Hd. split; [done|lia].
    + exists p'. split; [done|]. split; [|done]. apply Hok. destruct (decide (strong_count p = 1)) as [H1|]; [lia|lia].
  - apply wp_ret. rewrite bool_decide_false by naive_solver. exists p. split; [done|]. split; [done|lia].
Qed.

(** A handle is replaced by others on the same channel. *)
Lemma minv_update k mem hs n h new st p p' :
  minv k mem hs -> hs !! n = Some h -> mem !! ptr_of h = Some (mkShared st p) ->
  (forall h', h' ∈ new -> ptr_of h' = ptr_of h /\ wf_handle st h') ->
  (let c f := total f (ptr_of h) hs - f h + total f (ptr_of h) new in pipe_ok (k + 1) st p' (c ref) (c tx) (c rx)) ->
  minv (k + 1) (<[ptr_of h := mkShared st p']> mem) (base.delete n hs ++ new).
Proof.
  intros Hi Hn Hm Hnew Hok. split.
  - intros ptr st1 p1 H1. rewrite !held_app. destruct (decide (ptr = ptr_of h)) as [->|Hne].
    + rewrite lookup_insert_eq in H1. injection H1 as <- <-. cbv beta zeta in Hok.
      rewrite !(total_delete _ (ptr_of h) hs n h Hn), bool_decide_true in Hok by done.
      by replace (total ref (ptr_of h) (base.delete n hs) + total ref (ptr_of h) new) with
        (ref h + total ref (ptr_of h) (base.delete n hs) - ref h + total ref (ptr_of h) new) by lia;
      replace (total tx (ptr_of h) (base.delete n hs) + total tx (ptr_of h) new) with
        (tx h + total tx (ptr_of h) (base.delete n hs) - tx h + total tx (ptr_of h) new) by lia;
      replace (total rx (ptr_of h) (base.delete n hs) + total rx (ptr_of h) new) with
        (rx h + total rx (ptr_of h) (base.delete n hs) - rx h + total rx (ptr_of h) new) by lia.
    + rewrite lookup_insert_ne in H1 by done. pose proof (mi_pipes _ _ _ Hi _ _ _ H1) as [Hc Hs].
      rewrite !(total_none _ ptr new), !Z.add_0_r by (intros h' [-> _]%Hnew; congruence).
      rewrite !(total_delete _ ptr hs n h Hn), bool_decide_false in Hc by done.
      split; [eapply core_ok_le; [exact Hc|lia]|]. intros Ha. specialize (Hs Ha).
      by rewrite (total_delete _ ptr hs n h Hn), bool_decide_false in Hs by done.
  - intros h' Hin. rewrite elem_of_app in Hin. destruct Hin as [Hin|Hin].
    + assert (Hin' : h' ∈ hs) by (rewrite (delete_Permutation _ _ _ Hn); by right).
      destruct (mi_handles _ _ _ Hi _ Hin') as (st1 & p1 & H1 & Hw). destruct (decide (ptr_of h' = ptr_of h)) as [He|Hne].
      * exists st, p'. rewrite He, lookup_insert_eq. rewrite He, Hm in H1. by injection H1 as -> ->.
      * exists st1, p1. by rewrite lookup_insert_ne.
    + destruct (Hnew _ Hin) as [-> Hw]. exists st, p'. by rewrite lookup_insert_eq.
Qed.

(** The last reference to an [Arc] goes. *)
Lemma minv_free k mem hs n h p :
  minv k mem hs -> hs !! n = Some h -> mem !! ptr_of h = Some (mkShared InArc p) -> ref h = 1 -> strong_count p = 1 ->
  minv (k + 1) (base.delete (ptr_of h) mem) (base.delete n hs).
Proof.
  intros Hi Hn Hm Hr Hs. destruct (mi_pipes _ _ _ Hi _ _ _ Hm) as [_ Hcount]. destruct (Hcount eq_refl) as [Hcnt _].
  rewrite (total_delete _ _ hs n h Hn), bool_decide_true in Hcnt by done.
  assert (Hne : forall h', h' ∈ base.delete n hs -> ptr_of h' <> ptr_of h).
  { intros h' Hin He. assert (Hin' : h' ∈ hs) by (rewrite (delete_Permutation _ _ _ Hn); by right).
    destruct (mi_handles _ _ _ Hi _ Hin') as (st1 & p1 & H1 & Hw). rewrite He, Hm in H1. injection H1 as <- <-.
    assert (Href : ref h' = 1) by (by destruct h'). apply list_elem_of_lookup in Hin as [m Hin].
    rewrite (total_delete _ _ _ m h' Hin), bool_decide_true, Href in Hcnt by done.
    pose proof (held_nonneg ref (ptr_of h) (base.delete m (base.delete n hs)) ltac:(by intros [])). lia. }
  split.
  - intros ptr st1 p1 H1. apply lookup_delete_Some in H1 as [Hp H1].
    destruct (mi_pipes _ _ _ Hi _ _ _ H1) as [Hc Hs1].
    rewrite !(total_delete _ ptr hs n h Hn), bool_decide_false in Hc by done.
    split; [eapply core_ok_le; [exact Hc|lia]|]. intros Ha. specialize (Hs1 Ha).
    by rewrite (total_delete _ ptr hs n h Hn), bool_decide_false in Hs1 by done.
  - intros h' Hin. assert (Hin' : h' ∈ hs) by (rewrite (delete_Permutation _ _ _ Hn); by right).
    destruct (mi_handles _ _ _ Hi _ Hin') as (st1 & p1 & H1 & Hw). exists st1, p1. split; [|done].
    rewrite lookup_delete_ne; [done|]. intros He. by apply (Hne _ Hin).
Qed.

(** *** Actions *)

Section Action.
Variables (k : Z) (mem : memory) (hs : list (handle (T := T) (E := E))) (n : nat) (h : handle (T := T) (E := E)) (st : storage) (p : Pipe T E).
Hypotheses (Hi : minv k mem hs) (Hn : hs !! n = Some h) (Hm : mem !! ptr_of h = Some (mkShared st p)).
Hypotheses (Hw : wf_handle st h) (Hk : k + 1 < 2 ^ 61).

Definition sum f : Z := total f (ptr_of h) hs.
Definition after (new : list handle) : memory -> Prop := fun mem' => minv (k + 1) mem' (base.delete n hs ++ new).

Lemma sum_ge f : (forall h, 0 <= f h) -> f h <= sum f.
Proof.
  intros Hf. unfold sum. rewrite (total_delete _ _ hs n h Hn), bool_decide_true by done.
  pose proof (held_nonneg f (ptr_of h) (base.delete n hs) Hf). lia.
Qed.
Lemma here_ok : core_ok k p (sum tx + own st) (sum rx) /\ (st = InArc -> strong_count p = sum ref /\ 0 < sum ref).
Proof. exact (mi_pipes _ _ _ Hi _ _ _ Hm). Qed.
Lemma here_mem : mem = <[ptr_of h := mkShared st p]> mem.
Proof. symmetry. by apply insert_id. Qed.

(** The action has changed the channel of the handle, and left the handles [new] on it. *)
Lemma finish new (t x : Z) mem' (P : Pipe T E -> Prop) :
  at_channel (ptr_of h) st mem P mem' ->
  Forall (fun h' => ptr_of h' = ptr_of h /\ wf_handle st h') new ->
  (forall p', P p' -> core_ok (k + 1) p' t x /\
     (st = InArc -> strong_count p' = sum ref - ref h + foldr (fun h n => ref h + n) 0 new /\ 0 < strong_count p')) ->
  t = sum tx + own st - tx h + foldr (fun h n => tx h + n) 0 new ->
  x = sum rx - rx h + foldr (fun h n => rx h + n) 0 new ->
  after new mem'.
Proof.
  intros (p' & -> & HP) Hnew Hp -> ->. destruct (Hp p' HP) as [Hc Hs].
  assert (Hsum : forall f, total f (ptr_of h) new = foldr (fun h n => f h + n) 0 new).
  { intros f. clear -Hnew. induction Hnew as [|h' l [He _] _ IH]; [done|]. cbn [total foldr]. rewrite IH, bool_decide_true by done. done. }
  eapply minv_update; [exact Hi|exact Hn|exact Hm|by apply Forall_forall|]. cbv beta zeta. rewrite !Hsum. fold (sum ref) (sum tx) (sum rx).
  split; [|intros Ha; destruct (Hs Ha) as [-> ?]; split; [done|]; by destruct (Hs Ha) as [<- ?]].
  eapply core_ok_le; [|reflexivity].
  by replace (sum tx - tx h + foldr (fun h n => tx h + n) 0 new + own st) with (sum tx + own st - tx h + foldr (fun h n => tx h + n) 0 new) by lia.
Qed.

(** An action that leaves the channel as it is. *)
Lemma finish_same new :
  Forall (fun h' => ptr_of h' = ptr_of h /\ wf_handle st h') new ->
  foldr (fun h n => ref h + n) 0 new = ref h -> foldr (fun h n => tx h + n) 0 new = tx h ->
  foldr (fun h n => rx h + n) 0 new = rx h -> after new mem.
Proof.
  intros Hnew Hr Ht Hx. destruct here_ok as [Hc Hs].
  eapply (finish new (sum tx + own st) (sum rx) _ (fun p' => p' = p)); try done; try lia.
  - exists p. split; [exact here_mem|done].
  - intros p' ->. split; [eapply core_ok_le; [exact Hc|lia]|]. intros Ha. specialize (Hs Ha). lia.
Qed.

(** A sender is added: the count, then the pipe of the new handle. *)
Definition added : unit -> memory -> Prop := fun _ =>
  at_channel (ptr_of h) st mem (fun p' => core_ok (k + 1) p' (sum tx + own st + 1) (sum rx) /\
     strong_count p' = strong_count p + arc st).
Lemma add_wp : wp (at_ptr (ptr_of h) (on_core add_tx)) (fun _ => wp (vt_clone (vtable_of st) (ptr_of h)) added) mem.
Proof.
  destruct here_ok as [Hc Hs]. rewrite here_mem.
  eapply wp_mono; [eapply core_at_wp; [exact Hm|by apply (add_tx_ok _ _ _ _ Hc)]|]. cbn.
  intros _ mem' (p1 & -> & Hc1 & Hs1). eapply wp_mono; [by apply (clone_at_wp (k + 1) _ _ _ p _ _ _ Hm Hc1)|]. cbn.
  intros [] mem' (p2 & -> & Hc2 & Hs2). exists p2. split; [done|]. split; [done|lia].
Qed.

(** A handle is dropped: its part of the count, then its pipe. *)
Lemma drop_wp (m : M (Core E) unit) (t x : Z) :
  ref h = 1 -> wp (on_core m) (fun _ p' => core_ok k p' t x /\ strong_count p' = strong_count p) p ->
  t = sum tx + own st - tx h -> x = sum rx - rx h ->
  wp (at_ptr (ptr_of h) (on_core m);; vt_drop (vtable_of st) (ptr_of h)) (fun _ => after []) mem.
Proof.
  intros Hr Hw1 Ht Hx. destruct here_ok as [Hc Hs]. rewrite here_mem. apply wp_bind.
  eapply wp_mono; [eapply core_at_wp; [exact Hm|exact Hw1]|]. cbn. intros _ mem' (p1 & -> & Hc1 & Hs1).
  assert (Hpos : st = InArc -> 0 < strong_count p1) by (intros Ha; specialize (Hs Ha); lia).
  eapply wp_mono; [apply (drop_at_wp k _ _ _ p _ _ _ Hm Hc1 Hpos)|]. cbn. intros _ mem' Hd.
  case_bool_decide as Hlast.
  - destruct Hlast as [-> H1]. subst mem'. unfold after. rewrite app_nil_r. eapply minv_free; [exact Hi|exact Hn|exact Hm|done|congruence].
  - eapply (finish [] t x); [exact Hd|by constructor| |cbn; lia|cbn; lia]. intros p' [Hc' Hs']. split; [eapply core_ok_le; [exact Hc'|lia]|].
    intros ->. specialize (Hs eq_refl). cbn in *. assert (strong_count p1 <> 1) by naive_solver. lia.
Qed.

(** The drops. *)
Lemma drop_tx_wp : ref h = 1 -> tx h = 1 -> rx h = 0 ->
  wp (at_ptr (ptr_of h) (on_core drop_tx);; vt_drop (vtable_of st) (ptr_of h)) (fun _ => after []) mem.
Proof.
  intros Hr Ht Hx. destruct here_ok as [Hc _]. pose proof (sum_ge tx ltac:(by intros [])) as Hge.
  assert (0 <= own st) by (by destruct st).
  eapply drop_wp; [done|apply (drop_tx_ok _ _ _ _ Hc); lia|lia|lia].
Qed.
Lemma drop_rx_wp : ref h = 1 -> tx h = 0 -> rx h = 1 ->
  wp (at_ptr (ptr_of h) (on_core close_rx);; vt_drop (vtable_of st) (ptr_of h)) (fun _ => after []) mem.
Proof.
  intros Hr Ht Hx. destruct here_ok as [Hc _]. pose proof (sum_ge rx ltac:(by intros [])) as Hge.
  pose proof Hc as (_ & _ & _ & _ & _ & Hle & _).
  eapply drop_wp; [done|exact (close_rx_ok _ _ _ _ Hc)|lia|lia].
Qed.

(** A sender is made of a handle that counts as one, or of a static channel. *)
Lemma finish_add new mem' :
  added tt mem' ->
  ptr_of new = ptr_of h -> wf_handle st new -> ref new = 1 -> tx new = 1 -> rx new = 0 -> after [h; new] mem'.
Proof.
  intros Hc Hp Hwn Hr Ht Hx. destruct here_ok as [_ Hs].
  eapply (finish [h; new] (sum tx + own st + 1) (sum rx)); [exact Hc|by repeat constructor| |cbn; lia|cbn; lia].
  intros p' [Hc' Hs']. split; [done|]. intros ->. specialize (Hs eq_refl). cbn in *. lia.
Qed.

(** A receiver is claimed, and then its pipe made; or there is one already. *)
Definition claimed : memory -> Prop :=
  at_channel (ptr_of h) st mem (fun p' => core_ok k p' (sum tx + own st) 1 /\ strong_count p' = strong_count p + arc st).
Definition unclaimed : memory -> Prop :=
  at_channel (ptr_of h) st mem (fun p' => strong_count p' = strong_count p /\ core_ok k p' (sum tx + own st) (sum rx)).
Lemma claim_wp :
  wp (at_ptr (ptr_of h) (on_core try_claim_rx)) (fun r mem' =>
    match r with
    | Some _ => sum rx = 0 /\ wp (vt_clone (vtable_of st) (ptr_of h)) (fun _ => claimed) mem'
    | None => unclaimed mem'
    end) mem.
Proof.
  destruct here_ok as [Hc Hs]. rewrite here_mem.
  eapply wp_mono; [eapply core_at_wp; [exact Hm|by apply (claim_ok _ _ _ _ Hc)]|]. cbn.
  intros [r|] mem' (p1 & -> & Hs1 & H1); [|by exists p1]. destruct H1 as [H0 Hc1]. split; [done|].
  eapply wp_mono; [by apply (clone_at_wp k _ _ _ p _ _ _ Hm Hc1)|]. cbn. intros [] mem' (p2 & -> & Hc2 & Hs2).
  exists p2. split; [done|]. split; [done|lia].
Qed.
Lemma finish_claim new mem' :
  sum rx = 0 -> claimed mem' ->
  rx h = 0 -> ptr_of new = ptr_of h -> wf_handle st new -> ref new = 1 -> tx new = 0 -> rx new = 1 -> after [h; new] mem'.
Proof.
  intros H0 Hc Hxh Hp Hwn Hr Ht Hx. destruct here_ok as [_ Hs].
  eapply (finish [h; new] (sum tx + own st) 1); [exact Hc|by repeat constructor| |cbn; lia|cbn; lia].
  intros p' [Hc' Hs']. split; [eapply core_ok_le; [exact Hc'|lia]|]. intros ->. specialize (Hs eq_refl). cbn in *. lia.
Qed.
Lemma finish_noclaim mem' : unclaimed mem' -> after [h] mem'.
Proof.
  intros Hc. destruct here_ok as [_ Hs].
  eapply (finish [h] (sum tx + own st) (sum rx)); [exact Hc|by repeat constructor| |cbn; lia|cbn; lia].
  intros p' [Hs' Hc']. split; [eapply core_ok_le; [exact Hc'|lia]|]. intros ->. specialize (Hs eq_refl). cbn in *. lia.
Qed.
(** An operation on the messages. *)
Lemma use_wp {A} (m : M (Pipe T E) A) :
  wp m (fun _ p' => core_ok k p' (sum tx + own st) (sum rx) /\ strong_count p' = strong_count p) p ->
  wp (at_ptr (ptr_of h) m) (fun _ => after [h]) mem.
Proof.
  intros Hm1. eapply at_ptr_wp; [exact Hm|exact Hm1|]. intros a p' [Hc Hs]. apply finish_noclaim. by exists p'.
Qed.
End Action.

(** *** Programs *)

(** What a program does not do: create a channel the constructors reject, and the two things
    that lose count in the source: a failed downcast of a whole handle, and [deser_sender]
    of a static channel. *)
Definition sound (c : command (T := T)) : bool :=
  match c with
  | NewPipe cap => (0 <=? cap) && (cap <=? MAX_CAPACITY)
  | NewStatic cap => is_power_of_two 64 cap && (cap <=? MAX_CAPACITY)
  | Do _ (Downcast target) => target =? type_id_of T
  | Do _ GetStaticDeserSender => false
  | _ => true
  end.
Definition sound_action (a : action (T := T)) : Prop :=
  match a with Downcast target => target = type_id_of T | GetStaticDeserSender => False | _ => True end.

(** The core of a pipe whose vtable is right is at its address. *)
Lemma erased_core {A} st (pipe : ErasedPipe) (m : M (Core E) A) :
  ep_vtable pipe = vtable_of st -> ErasedPipe_core pipe m = at_ptr (ep_ptr pipe) (on_core m).
Proof. unfold ErasedPipe_core. intros ->. by destruct st. Qed.
Lemma wp_ret_inv {S A} (a : A) (Q : A -> S -> Prop) s : wp (mret a) Q s -> Q a s.
Proof. by intros (? & ? & [= <- <-] & HQ). Qed.

(** The pattern of an action: the count is changed, the pipe made, the new handle returned. *)
Ltac unfold_handle st :=
  unfold TrickyPipe_receiver, TrickyPipe_sender, TrickyPipe_ser_receiver, TrickyPipe_deser_sender, TrickyPipe_clone,
    TrickyPipe_drop, TrickyPipe_pipe, TrickyPipe_core, StaticTrickyPipe_receiver, StaticTrickyPipe_sender,
    StaticTrickyPipe_ser_receiver, StaticTrickyPipe_core, Sender_clone, DeserSender_clone, ErasedSender_clone,
    Sender_drop, DeserSender_drop, ErasedSender_drop, Receiver_drop, SerReceiver_drop, TypedPipe_clone, ErasedPipe_clone,
    ErasedPipe_drop, TypedPipe_core, arc_clone;
  rewrite ?(erased_core st) by naive_solver.

Section Cases.
Context (k : Z) (mem : memory) (hs : list (handle (T := T) (E := E))) (n : nat) (st : storage) (p : Pipe T E).
Hypotheses (Hi : minv k mem hs) (Hk : k + 1 < 2 ^ 61).

Ltac adds h st Hn Hm :=
  repeat apply wp_bind; (eapply wp_mono; [exact (add_wp k mem hs h st p Hi Hm Hk)|]); intros [] ? Hc;
  repeat apply wp_bind; (eapply wp_mono; [exact Hc|]); intros [] ? Had; repeat apply wp_ret;
  apply (finish_add k mem hs n h st p Hi Hn Hm); try done; by split.

(** A new sender of a channel, or a clone of one. *)
Lemma new_sender_wp h a :
  hs !! n = Some h -> mem !! ptr_of h = Some (mkShared st p) -> wf_handle st h ->
  match a, h with
  | (GetSender | GetDeserSender | Clone), HTricky _ | GetSender, HStatic _
  | Clone, (HSender _ | HDeserSender _ | HErasedSender _) => True
  | _, _ => False
  end -> wp (act a h) (after k hs n) mem.
Proof.
  intros Hn Hm Hw Ha. destruct h as [k0|k0|k0|k0|k0|k0|k0], a; try done; cbn [act wf_handle] in *; unfold_handle st.
  - subst st. adds (HTricky (T := T) (E := E) k0) InArc Hn Hm.
  - subst st. adds (HTricky (T := T) (E := E) k0) InArc Hn Hm.
  - subst st. adds (HTricky (T := T) (E := E) k0) InArc Hn Hm.
  - subst st. repeat apply wp_bind. eapply wp_mono; [exact (add_wp k mem hs (HStatic (T := T) (E := E) k0) InStatic p Hi Hm Hk)|].
    intros [] ? Had%wp_ret_inv. repeat apply wp_ret. apply (finish_add k mem hs n (HStatic (T := T) (E := E) k0) InStatic p Hi Hn Hm); done.
  - rewrite Hw. adds (HSender k0) st Hn Hm.
  - destruct Hw as [Hw Hv]. rewrite Hw. adds (HDeserSender k0) st Hn Hm.
  - rewrite Hw. adds (HErasedSender k0) st Hn Hm.
Qed.

(** A receiver of a channel, if there is none. *)
Ltac claims h st Hn Hm :=
  repeat apply wp_bind; (eapply wp_mono; [exact (claim_wp k mem hs h st p Hi Hm)|]);
  intros [[]|] ? Hc; cbn beta iota in Hc;
  [destruct Hc as [H0 Hc]
  |repeat apply wp_ret; by apply (finish_noclaim k mem hs n h st p Hi Hn Hm)].
Lemma new_receiver_wp h a :
  hs !! n = Some h -> mem !! ptr_of h = Some (mkShared st p) -> wf_handle st h ->
  match a, h with (GetReceiver | GetSerReceiver), (HTricky _ | HStatic _) => True | _, _ => False end ->
  wp (act a h) (after k hs n) mem.
Proof.
  intros Hn Hm Hw Ha. destruct h as [k0|k0|k0|k0|k0|k0|k0], a; try done; cbn [act wf_handle] in *; subst st; unfold_handle InArc.
  1,2: claims (HTricky (T := T) (E := E) k0) InArc Hn Hm; repeat apply wp_bind; (eapply wp_mono; [exact Hc|]); intros [] ? Hcl; repeat apply wp_ret;
    by apply (finish_claim k mem hs n (HTricky k0) InArc p Hi Hn Hm).
  all: claims (HStatic (T := T) (E := E) k0) InStatic Hn Hm; apply wp_ret_inv in Hc; repeat apply wp_ret;
    by apply (finish_claim k mem hs n (HStatic k0) InStatic p Hi Hn Hm).
Qed.

(** A handle is dropped. *)
Lemma drop_handle_wp h :
  hs !! n = Some h -> mem !! ptr_of h = Some (mkShared st p) -> wf_handle st h -> ref h = 1 ->
  wp (act Drop h) (after k hs n) mem.
Proof.
  intros Hn Hm Hw Hr.
  assert (Htx : tx h = 1 -> rx h = 0 -> wp (at_ptr (ptr_of h) (on_core drop_tx);; vt_drop (vtable_of st) (ptr_of h)) (fun _ => after k hs n []) mem)
    by (intros; by eapply drop_tx_wp).
  assert (Hrx : tx h = 0 -> rx h = 1 -> wp (at_ptr (ptr_of h) (on_core close_rx);; vt_drop (vtable_of st) (ptr_of h)) (fun _ => after k hs n []) mem)
    by (intros; by eapply drop_rx_wp).
  destruct h as [k0|k0|k0|k0|k0|k0|k0]; try done; cbn [act wf_handle ptr_of] in *; apply wp_bind; unfold_handle st.
  - subst st. eapply wp_mono; [exact (Htx eq_refl eq_refl)|]. intros [] m H. by apply wp_ret.
  - rewrite Hw. eapply wp_mono; [exact (Hrx eq_refl eq_refl)|]. intros [] m H. by apply wp_ret.
  - rewrite Hw. eapply wp_mono; [exact (Htx eq_refl eq_refl)|]. intros [] m H. by apply wp_ret.
  - destruct Hw as [Hw _]. rewrite Hw. eapply wp_mono; [exact (Hrx eq_refl eq_refl)|]. intros [] m H. by apply wp_ret.
  - destruct Hw as [Hw _]. rewrite Hw. eapply wp_mono; [exact (Htx eq_refl eq_refl)|]. intros [] m H. by apply wp_ret.
  - rewrite Hw. eapply wp_mono; [exact (Htx eq_refl eq_refl)|]. intros [] m H. by apply wp_ret.
Qed.

(** A message is sent or received. *)
Lemma use_handle_wp h a :
  hs !! n = Some h -> mem !! ptr_of h = Some (mkShared st p) -> wf_handle st h ->
  match a, h with TrySend _, HSender _ | TryRecv, HReceiver _ => True | _, _ => False end ->
  wp (act a h) (after k hs n) mem.
Proof.
  intros Hn Hm Hw Ha.
  assert (Hok : exists v vals, prep p v vals /\ forall p' v' vals', prep p' v' vals' -> keeps p p' ->
    v_senders v' = v_senders v -> v_claimed v' = v_claimed v -> core_ok k p' (total tx (ptr_of h) hs + own st) (total rx (ptr_of h) hs) /\ strong_count p' = strong_count p).
  { destruct (mi_pipes _ _ _ Hi _ _ _ Hm) as [(v & vals & Hp & Hs & Hle & [? ?] & Hc) _]. exists v, vals. split; [done|].
    intros p' v' vals' Hp' [Hst _] Hs' Hc'. split; [|done]. exists v', vals'. rewrite Hs', Hc'. by split_and!. }
  destruct Hok as (v & vals & Hp & Hok).
  destruct h as [k0|k0|k0|k0|k0|k0|k0], a; try done; cbn [act]; apply wp_bind.
  - unfold Receiver_try_recv. eapply wp_mono; [apply (use_wp k mem hs n (HReceiver k0) st p Hi Hn Hm Hw)|intros a m H; by apply wp_ret].
    eapply wp_mono; [by apply Receiver_try_recv_wp|]. cbn. intros r p' [Hkeep H].
    destruct vals as [|x vals]; [destruct H as [_ H]; by eapply Hok|]. destruct (v_delivered v <? LAST_POS); destruct H as [_ H]; by eapply Hok.
  - unfold Sender_try_send. eapply wp_mono; [apply (use_wp k mem hs n (HSender k0) st p Hi Hn Hm Hw)|intros a m H; by apply wp_ret].
    eapply wp_mono; [by apply Sender_try_send_wp|]. cbn.
    intros r p' [Hkeep [(_ & _ & H)|[(_ & _ & _ & H)|(_ & _ & i & _ & H)]]]; by eapply Hok.
Qed.
End Cases.

Lemma handle_act_wp k mem hs n h a :
  minv k mem hs -> hs !! n = Some h -> sound_action a -> k + 1 < 2 ^ 61 ->
  wp (act a h) (after k hs n) mem.
Proof.
  intros Hi Hn Ha Hk. destruct (mi_handles _ _ _ Hi h) as (st & p & Hm & Hw); [by eapply list_elem_of_lookup_2|].
  assert (Hsame : forall new, ptr_of new = ptr_of h -> wf_handle st new -> ref new = ref h -> tx new = tx h -> rx new = rx h ->
    wp (mret [new]) (after k hs n) mem).
  { intros new Hp Hwn Hr Ht Hx. apply wp_ret. apply (finish_same k mem hs n h st p Hi Hn Hm); cbn; try lia. by constructor. }
  destruct a; try done; destruct h as [k0|k0|k0|k0|k0|k0|k0]; try (by apply Hsame);
    try (by apply (new_receiver_wp k mem hs n st p Hi)); try (by apply (new_sender_wp k mem hs n st p Hi Hk));
    try (by apply (drop_handle_wp k mem hs n st p Hi)); try (by apply (use_handle_wp k mem hs n st p Hi)); cbn [act]; destruct Hw as [Hw Hv].
  all: cbn in Ha; subst; unfold SerReceiver_downcast, DeserSender_downcast, ErasedPipe_typed, ErasedPipe_clone_no_ref_inc; cbn [ep_vtable ep_ptr];
    rewrite Hw; replace (type_id_of T =? vt_type_id (vtable_of st) tt) with true by (destruct st; symmetry; apply Z.eqb_refl);
    repeat apply wp_bind; repeat apply wp_ret; by apply wp_ret_inv, Hsame.
Qed.

(** A new channel, with its handle. *)
Lemma minv_alloc k mem hs ptr st p h :
  minv k mem hs -> mem !! ptr = None -> ptr_of h = ptr -> wf_handle st h ->
  pipe_ok (k + 1) st p (ref h) (tx h) (rx h) -> minv (k + 1) (<[ptr := mkShared st p]> mem) (hs ++ [h]).
Proof.
  intros Hi Hf Hp Hw Hok.
  assert (Hne : forall h', h' ∈ hs -> ptr_of h' <> ptr) by (intros h' Hin He; destruct (mi_handles _ _ _ Hi _ Hin) as (? & ? & H & _); congruence).
  split.
  - intros ptr1 st1 p1 H1. rewrite !held_app. cbn [total]. rewrite Hp. destruct (decide (ptr1 = ptr)) as [->|Hn].
    + rewrite lookup_insert_eq in H1. injection H1 as <- <-. rewrite !(total_none _ ptr hs Hne), bool_decide_true by done.
      by rewrite !Z.add_0_l, !Z.add_0_r.
    + rewrite lookup_insert_ne in H1 by done. rewrite bool_decide_false, !Z.add_0_r by done.
      destruct (mi_pipes _ _ _ Hi _ _ _ H1) as [Hc Hs]. split; [eapply core_ok_le; [exact Hc|lia]|done].
  - intros h' Hin. rewrite elem_of_app, list_elem_of_singleton in Hin. destruct Hin as [Hin| ->].
    + destruct (mi_handles _ _ _ Hi _ Hin) as (st1 & p1 & H1 & Hw1). exists st1, p1. by rewrite lookup_insert_ne by (intros He; by apply (Hne _ Hin)).
    + exists st, p. by rewrite Hp, lookup_insert_eq.
Qed.

Lemma new_core_ok cap k n : 0 <= cap <= MAX_CAPACITY -> 1 <= k ->
  core_ok k (mkPipe (T := T) (new_core (E := E) cap) (replicate (Z.to_nat cap) None) n []) 1 0.
Proof.
  intros Hc Hk. exists (view_new cap), []. split_and!; try done.
  split; cbn; [by apply new_rep|by rewrite length_replicate|constructor].
Qed.

Lemma is_power_of_two_pos w z : is_power_of_two w z = true -> 0 <= z.
Proof.
  revert z. induction w as [|w IH]; intros z; [done|]. cbn. rewrite orb_true_iff, andb_true_iff, Z.eqb_eq.
  intros [->|[_ Hz%IH]]; [done|]. pose proof (Z.div_mod z 2 ltac:(lia)). pose proof (Z.mod_pos_bound z 2). lia.
Qed.

Definition winv (k : Z) (w : world) : Prop := minv k (w_memory w) (w_handles w).

Lemma alloc_wp k mem hs st p (f : nat -> handle) :
  minv k mem hs -> (forall ptr, ptr_of (f ptr) = ptr /\ wf_handle st (f ptr) /\ pipe_ok (k + 1) st p (ref (f ptr)) (tx (f ptr)) (rx (f ptr))) ->
  wp (alloc (mkShared st p)) (fun ptr mem' => minv (k + 1) mem' (hs ++ [f ptr])) mem.
Proof.
  intros Hi Hf. eexists _, _. split; [reflexivity|]. destruct (Hf (fresh (dom mem))) as (Hp & Hw & Hok).
  eapply minv_alloc; [exact Hi| |exact Hp|exact Hw|exact Hok]. apply not_elem_of_dom, is_fresh.
Qed.

Lemma do_command_wp k w c :
  winv k w -> sound c = true -> 0 <= k -> k + 1 < 2 ^ 61 -> wp (do_command c) (fun _ => winv (k + 1)) w.
Proof.
  intros Hi Hs H0 Hk. unfold do_command. apply wp_bind, wp_gets. destruct w as [mem hs]. unfold winv in Hi. cbn in Hi. destruct c as [cap|cap|n a]; cbn [sound] in Hs.
  - apply andb_prop in Hs as [H1%Z.leb_le H2%Z.leb_le]. unfold TrickyPipe_new, Pipe.TrickyPipe_new, new.
    destruct (Z.leb_spec cap MAX_CAPACITY); [|lia]. apply wp_bind, wp_zoom, wp_bind. cbn [w_memory w_handles].
    eapply wp_mono; [eapply (alloc_wp k mem hs InArc _ (fun ptr => HTricky (mkTrickyPipe ptr)) Hi)|].
    + intros ptr. split; [done|]. split; [done|]. split; [apply new_core_ok; [done|lia]|done].
    + intros ptr mem' Hw. apply wp_ret, wp_modify. exact Hw.
  - apply andb_prop in Hs as [H1 H2%Z.leb_le]. unfold StaticTrickyPipe_new, Pipe.StaticTrickyPipe_new. rewrite H1.
    destruct (Z.leb_spec cap MAX_CAPACITY); [|lia]. cbn [andb].
    assert (Hcap : 0 <= cap) by (eapply is_power_of_two_pos; exact H1).
    assert (Hwrap : u8_wrap cap = cap) by (unfold MAX_CAPACITY, u8_wrap, u8_mod in *; apply Z.mod_small; lia).
    unfold new. rewrite Hwrap. destruct (Z.leb_spec cap MAX_CAPACITY); [|lia]. apply wp_bind, wp_zoom, wp_bind. cbn [w_memory w_handles].
    eapply wp_mono; [eapply (alloc_wp k mem hs InStatic _ (fun ptr => HStatic (mkStaticTrickyPipe ptr)) Hi)|].
    + intros ptr. split; [done|]. split; [done|]. split; [apply new_core_ok; [done|lia]|done].
    + intros ptr mem' Hw. apply wp_ret, wp_modify. exact Hw.
  - cbn. destruct (hs !! n) as [h|] eqn:Hn.
    + apply wp_bind, wp_zoom. cbn [w_memory w_handles]. eapply wp_mono; [apply (handle_act_wp k mem hs n h a Hi Hn); [|done]|].
      * destruct a; try done. cbn. by apply Z.eqb_eq.
      * intros new mem' Hw. apply wp_modify. exact Hw.
    + apply wp_ret. destruct Hi as [Hp Hh]. split; cbn in *; [|done]. intros ptr st p H.
      destruct (Hp ptr st p H) as [Hc Hst]. split; [eapply core_ok_le; [exact Hc|lia]|done].
Qed.

Lemma run_commands_wp l : forall k w,
  winv k w -> forallb sound l = true -> 0 <= k -> k + Z.of_nat (length l) < 2 ^ 61 ->
  wp (run_commands l) (fun _ => winv (k + Z.of_nat (length l))) w.
Proof.
  induction l as [|c l IH]; intros k w Hi Hs H0 Hk; cbn [run_commands length] in *.
  - apply wp_ret. by rewrite Z.add_0_r.
  - apply andb_prop in Hs as [Hc Hs]. apply wp_bind. eapply wp_mono; [apply (do_command_wp k); [done..|lia]|].
    intros u w' Hi'. eapply wp_mono; [apply (IH (k + 1)); [done..|lia|lia]|]. intros u2 w2 H2.
    by replace (k + Z.of_nat (S (length l))) with (k + 1 + Z.of_nat (length l)) by lia.
Qed.

(** C31: Handles are counted.  A program makes any number of channels, in an [Arc] or static, of
    capacities the constructors take, and uses several handles aliasing each: it clones
    them, converts them to serializing and erased ones and back, drops them in any order and
    uses them in between, fewer than 2^60 commands in all.  Two calls are left out ([sound]),
    because they do lose count in the code: a downcast of a whole handle to another type,
    which fails and frees the channel too early (C39), and [deser_sender] of a static
    channel, which does not count the sender ([HandlesExamples]).  Then nothing panics: in
    particular no handle is used after its channel was freed.  An [Arc] lives exactly as
    long as a handle points to it and its strong count is the number of those handles; the
    sender count is the number of those that send; and at most one receives. *)
Theorem handles_counted l :
  forallb sound l = true -> Z.of_nat (length l) < 2 ^ 60 ->
  wp (run_commands l) (fun _ w => forall ptr,
    let count f := total f ptr (w_handles w) in
    match w_memory w !! ptr with
    | Some (mkShared st p) =>
        Z.shiftr (state (core p)) TX_SHIFT = count tx + own st /\ count rx <= 1 /\
        (st = InArc -> strong_count p = count ref /\ 0 < count ref)
    | None => forall h, h ∈ w_handles w -> ptr_of h <> ptr
    end) world_new.
Proof.
  intros Hs Hl. eapply wp_mono; [apply (run_commands_wp l 0); try done; try lia|].
  - split; cbn; [intros ptr st p H; by rewrite lookup_empty in H|]. intros h Hin. by apply not_elem_of_nil in Hin.
  - intros u [mem hs] [Hp Hh] ptr. cbn in *. destruct (mem !! ptr) as [[st p]|] eqn:Hm.
    + destruct (Hp _ _ _ Hm) as [(v & vals & Hv & Hsend & _ & [_ Hx] & _) Hc]. split_and!; try done.
      by rewrite (rep_state _ _ (prep_core _ _ _ Hv)), TX_SHIFT_eq, state_word_senders.
    + intros h Hin He. destruct (Hh _ Hin) as (st & p & H & _). congruence.
Qed.
End HandlesSpec.
