(* ===== verification/BiDiHandles.v ===== *)
(** Bidirectional channels as owners of two handles: the part of [tricky-pipe/src/bidi.rs]
    that moves handles around.

    [BiDi] has what such a channel does with messages, on the shared states of its two pipes.
    Here the pipes are in the memory of [Handles], where other handles alias them, and a
    bidirectional channel is a sender, a receiver and two flags. *)
From stdpp Require Import gmap.
From S2P Require Import Prelude Interfaces TypeInfo Errors Core CoreWord CoreQueue Pipe PipeSpec PipeSession Handles HandlesSpec.

Section BiDiHandles.
Context {PU : PackUsize} {PUL : PackUsizeLaws}.
Context {IA : IndexAlloc} {IAL : IndexAllocLaws}.
Context {WCA : WaitCellApi} {WCL : WaitCellLaws} {WQA : WaitQueueApi} {WQL : WaitQueueLaws}.
Context {T E : Type} {AN : Any T} {PC : Postcard T}.
Abbreviation memory := (gmap nat (shared (T := T) (E := E))).
Implicit Types (mem : memory) (hs : list (handle (T := T) (E := E))).

(** [struct BiDi], [struct SerBiDi] *)
Record BiDi := mkBiDi { bd_tx : Sender (T := T) (E := E); bd_rx : Receiver (T := T) (E := E); bd_seen_rx_error : bool; bd_seen_tx_error : bool }.
Record SerBiDi := mkSerBiDi {
  sbd_tx : DeserSender (T := T) (E := E);
  sbd_rx : SerReceiver (T := T) (E := E);
  sbd_seen_rx_error : bool;
  sbd_seen_tx_error : bool;
}.

(** [from_pair], [split], [tx], [rx]; the fields are dropped in their order. *)
Definition BiDi_from_pair (tx : Sender) (rx : Receiver) : BiDi := mkBiDi tx rx false false.
Definition BiDi_split (self : BiDi) : Sender * Receiver := (bd_tx self, bd_rx self).
Definition BiDi_tx (self : BiDi) : Sender := bd_tx self.
Definition BiDi_rx (self : BiDi) : Receiver := bd_rx self.
Definition BiDi_drop (self : BiDi) : M memory unit := Sender_drop (bd_tx self);; Receiver_drop (bd_rx self).

Definition SerBiDi_from_pair (tx : DeserSender) (rx : SerReceiver) : SerBiDi := mkSerBiDi tx rx false false.
Definition SerBiDi_split (self : SerBiDi) : DeserSender * SerReceiver := (sbd_tx self, sbd_rx self).
Definition SerBiDi_tx (self : SerBiDi) : DeserSender := sbd_tx self.
Definition SerBiDi_rx (self : SerBiDi) : SerReceiver := sbd_rx self.
Definition SerBiDi_drop (self : SerBiDi) : M memory unit := DeserSender_drop (sbd_tx self);; SerReceiver_drop (sbd_rx self).

(** [BiDi::into_serde] *)
Definition BiDi_into_serde (self : BiDi) : SerBiDi := {|
  sbd_tx := Sender_into_serde (bd_tx self);
  sbd_rx := Receiver_into_serde (bd_rx self);
  sbd_seen_rx_error := bd_seen_rx_error self;
  sbd_seen_tx_error := bd_seen_tx_error self;
|}.

(** ** The handles it owns *)

Definition parts (b : BiDi) : list handle := [HSender (bd_tx b); HReceiver (bd_rx b)].
Definition ser_parts (b : SerBiDi) : list handle := [HDeserSender (sbd_tx b); HSerReceiver (sbd_rx b)].

(** Dropping the first of the handles, without the list it leaves. *)
Lemma drop_first_wp k mem h hs (m : M memory unit) :
  act Drop h = (m;; mret []) -> minv k mem (h :: hs) -> k + 1 < 2 ^ 61 ->
  wp m (fun _ mem' => minv (k + 1) mem' hs) mem.
Proof.
  intros Ha Hi Hk. destruct (handle_act_wp k mem (h :: hs) 0 h Drop Hi eq_refl I Hk) as (mem' & new & Hrun & Hm).
  rewrite Ha in Hrun. revert Hrun. unfold mbind, M_bind. destruct (m mem) as [mem1 [[]| |]] eqn:Hd; [|discriminate..].
  intros [= <- <-]. exists mem1, tt. split; [exact Hd|]. change (minv (k + 1) mem1 (hs ++ [])) in Hm.
  by rewrite app_nil_r in Hm.
Qed.

(** A bidirectional channel counts as the two handles in it.  Converting it to a serializing
    one keeps the flags, and the counts of both pipes, whoever else holds handles on them;
    dropping either kind never panics, and leaves the other handles with a memory in which
    the counts are right: each half is freed when no handle is left, and not before. *)
Theorem bidi_counted k mem hs :
  k + 2 < 2 ^ 61 ->
  (forall b, minv k mem (parts b ++ hs) ->
     minv k mem (ser_parts (BiDi_into_serde b) ++ hs) /\
     wp (BiDi_drop b) (fun _ mem' => minv (k + 2) mem' hs) mem) /\
  (forall b, minv k mem (ser_parts b ++ hs) -> wp (SerBiDi_drop b) (fun _ mem' => minv (k + 2) mem' hs) mem).
Proof.
  intros Hk. replace (k + 2) with (k + 1 + 1) by lia. split.
  - intros b Hi. split.
    + destruct Hi as [Hp Hh]. split.
      * intros ptr st p Hm. exact (Hp ptr st p Hm).
      * intros h [->|[->|Hin]%elem_of_cons]%elem_of_cons.
        -- destruct (Hh (HSender (bd_tx b)) ltac:(left)) as (st & p & Hm & Hw). exists st, p. by split.
        -- destruct (Hh (HReceiver (bd_rx b)) ltac:(right; left)) as (st & p & Hm & Hw). exists st, p. by split.
        -- apply Hh. by do 2 right.
    + apply wp_bind. eapply wp_mono; [eapply drop_first_wp; [|exact Hi|lia]; reflexivity|].
      intros [] mem1 H1. eapply drop_first_wp; [|exact H1|lia]; reflexivity.
  - intros b Hi. apply wp_bind. eapply wp_mono; [eapply drop_first_wp; [|exact Hi|lia]; reflexivity|].
    intros [] mem1 H1. eapply drop_first_wp; [|exact H1|lia]; reflexivity.
Qed.
End BiDiHandles.
