(* ===== verification/CoreConc.v ===== *)
(** The channel core under concurrency: any number of senders, the receiver and the
    closers interleave, one atomic access at a time.

    A thread is a program counter with its local variables; [sender_step] and [rx_step]
    run one atomic access of [try_reserve], [Permit::send]/[commit_send], [uncommit],
    [try_dequeue] and [take_value] on the shared [Pipe].  A [compare_exchange_weak] may
    fail spuriously.  Accesses are sequentially consistent (the source's Acquire/Release
    orderings are taken to suffice).  [c_log] and [c_received] are history: the
    messages in the order in which senders claimed positions, and the messages read.

    The ten-bit positions tell laps apart only while they do not wrap: the invariant
    holds in runs of at most [SAFE_CLAIMS] claims, and [ConcPanic] exhibits a run with
    one more that reaches the [unreachable!] of [commit_send]. *)
From S2P Require Import Prelude Interfaces Errors Core CoreWord Pipe.

(** As long as no more positions than this were claimed, no sequence number wrapped. *)
Definition SAFE_CLAIMS : Z := 960.

Section Conc.
Context {PU : PackUsize} {IA : IndexAlloc} {WCA : WaitCellApi} {WQA : WaitQueueApi}.
Context {T E : Type}.

(** *** Threads *)

(** Where a sender is; each constructor names the access it performs next. *)
Inductive sender_pc : Type :=
| SIdle
| SReserve (x : T)                    (* try_reserve: load enqueue_pos *)
| SAlloc (x : T)                      (* try_reserve: allocate an index *)
| SHave (i : Z) (x : T)               (* Permit::send: write the element *)
| SWritten (i : Z) (x : T)            (* commit_send: load enqueue_pos *)
| SLoop (i : Z) (x : T) (tail : Z)    (* commit_send: load the slot *)
| SSeq (i : Z) (x : T) (tail v : Z)   (* commit_send: compare and swap *)
| SClaimed (i : Z) (x : T) (pos : Z)  (* commit_send: store the slot *)
| SNotify                             (* commit_send: wake the receiver *)
| SUncommit (i : Z)                   (* uncommit: free the index *)
| SWakeTx                             (* uncommit: wake a sender *)
| SPanic.

Inductive rx_pc : Type :=
| RIdle                               (* try_dequeue: load dequeue_pos *)
| RLoop (head : Z)                    (* try_dequeue: load the slot *)
| RSeq (head v : Z)                   (* try_dequeue: compare and swap *)
| RClaimed (slot v : Z)               (* try_dequeue: store the slot *)
| RGot (i : Z)                        (* take_value: read the element *)
| RFree (i : Z)                       (* uncommit: free the index *)
| RWake                               (* uncommit: wake a sender *)
| RPanic.

Definition slot_of (word : Z) : Z := Z.land (u16_shr word POS_SHIFT) MASK.

(** One access of a sender; the claim it makes, if it makes one. *)
Definition sender_step (spurious : bool) (pc : sender_pc) : M (Pipe T E) (sender_pc * option (Z * T)) :=
  match pc with
  | SIdle | SPanic => mret (pc, None)
  | SReserve x =>
      enq ← on_core enqueue_pos_load;
      mret (if Z.land enq CLOSED =? CLOSED then SIdle else SAlloc x, None)
  | SAlloc x =>
      r ← on_core indices_allocate;
      mret (match r with Some i => SHave i x | None => SIdle end, None)
  | SHave i x => elem_write i x;; mret (SWritten i x, None)
  | SWritten i x => tail ← on_core enqueue_pos_load; mret (SLoop i x tail, None)
  | SLoop i x tail =>
      if Z.land tail CLOSED =? CLOSED then mret (SIdle, None)
      else v ← on_core (slot_load (slot_of tail)); mret (SSeq i x tail v, None)
  | SSeq i x tail v =>
      let pos := u16_shr tail POS_SHIFT in
      let dif := i16_wrapping_sub (as_i16 (u16_shr v POS_SHIFT)) (as_i16 pos) in
      match dif ?= 0 with
      | Lt => mret (SPanic, None) (* unreachable! *)
      | Eq =>
          if (spurious : bool) then actual ← on_core enqueue_pos_load; mret (SLoop i x actual, None)
          else
            r ← on_core (enqueue_pos_cas tail (u16_wrapping_add tail POS_ONE));
            mret (match r with
                  | Ok _ => (SClaimed i x pos, Some (i, x))
                  | Err actual => (SLoop i x actual, None)
                  end)
      | Gt => mret (SWritten i x, None)
      end
  | SClaimed i x pos =>
      on_core (slot_store (Z.land pos MASK) (Z.lor i (u16_shl (u16_wrapping_add pos 1) POS_SHIFT)));;
      mret (SNotify, None)
  | SNotify => on_core cons_wait_wake;; mret (SIdle, None)
  | SUncommit i => on_core (indices_free i);; mret (SWakeTx, None)
  | SWakeTx => on_core prod_wait_wake;; mret (SIdle, None)
  end.

(** One access of the receiver; the message it reads, if it reads one. *)
Definition rx_step (spurious : bool) (pc : rx_pc) : M (Pipe T E) (rx_pc * option T) :=
  match pc with
  | RPanic => mret (RPanic, None)
  | RIdle => head ← on_core dequeue_pos_load; mret (RLoop head, None)
  | RLoop head => v ← on_core (slot_load (slot_of head)); mret (RSeq head v, None)
  | RSeq head v =>
      let pos := u16_shr head POS_SHIFT in
      let dif := i16_wrapping_sub (as_i16 (u16_shr v POS_SHIFT)) (as_i16 (u16_wrapping_add pos 1)) in
      match dif ?= 0 with
      | Lt => mret (RIdle, None) (* empty or closed *)
      | Eq =>
          if (spurious : bool) then actual ← on_core dequeue_pos_load; mret (RLoop actual, None)
          else
            r ← on_core (dequeue_pos_cas head (u16_wrapping_add head POS_ONE));
            mret (match r with
                  | Ok _ => (RClaimed (slot_of head) v, None)
                  | Err actual => (RLoop actual, None)
                  end)
      | Gt => mret (RIdle, None)
      end
  | RClaimed slot v =>
      on_core (slot_store slot (u16_wrapping_add v LAP_ONE));; mret (RGot (Z.land v MASK), None)
  | RGot i => x ← elem_read i; mret (RFree i, Some x)
  | RFree i => on_core (indices_free i);; mret (RWake, None)
  | RWake => on_core prod_wait_wake;; mret (RIdle, None)
  end.

(** *** The whole system *)

Record conc := mkConc {
  c_pipe : Pipe T E;
  c_senders : list sender_pc;
  c_rx : rx_pc;
  c_log : list (Z * T);
  c_received : list T;
}.

Inductive event : Type :=
| EvSend (n : nat) (x : T)            (* sender [n] starts sending [x] *)
| EvStep (n : nat) (spurious : bool)  (* sender [n] performs its next access *)
| EvDrop (n : nat)                    (* sender [n] drops the permit it holds *)
| EvRecv (spurious : bool)            (* the receiver performs its next access *)
| EvCloseRx | EvCloseTx.              (* somebody sets a CLOSED flag *)

Definition set_sender (n : nat) (pc : sender_pc) (s : conc) : conc :=
  mkConc (c_pipe s) (<[n := pc]> (c_senders s)) (c_rx s) (c_log s) (c_received s).

(** An event that does not apply changes nothing. *)
Definition do_event (ev : event) (s : conc) : conc :=
  match ev with
  | EvSend n x =>
      match c_senders s !! n with Some SIdle => set_sender n (SReserve x) s | _ => s end
  | EvStep n spurious =>
      match c_senders s !! n with
      | None => s
      | Some pc =>
          match sender_step spurious pc (c_pipe s) with
          | (p', Val (pc', claim)) =>
              mkConc p' (<[n := pc']> (c_senders s)) (c_rx s)
                (match claim with Some c => c_log s ++ [c] | None => c_log s end) (c_received s)
          | (p', _) => mkConc p' (<[n := SPanic]> (c_senders s)) (c_rx s) (c_log s) (c_received s)
          end
      end
  | EvDrop n =>
      match c_senders s !! n with Some (SHave i _) => set_sender n (SUncommit i) s | _ => s end
  | EvRecv spurious =>
      match rx_step spurious (c_rx s) (c_pipe s) with
      | (p', Val (pc', x)) =>
          mkConc p' (c_senders s) pc' (c_log s)
            (match x with Some x => c_received s ++ [x] | None => c_received s end)
      | (p', _) => mkConc p' (c_senders s) RPanic (c_log s) (c_received s)
      end
  | EvCloseRx => mkConc (fst (on_core close_rx (c_pipe s))) (c_senders s) (c_rx s) (c_log s) (c_received s)
  | EvCloseTx => mkConc (fst (on_core close_tx (c_pipe s))) (c_senders s) (c_rx s) (c_log s) (c_received s)
  end.

Definition run (evs : list event) (s : conc) : conc := foldl (fun s ev => do_event ev s) s evs.

(** A new channel, [n] idle senders and an idle receiver. *)
Definition conc_new (cap : Z) (n : nat) : conc :=
  mkConc (mkPipe (new_core cap) (replicate (Z.to_nat cap) None) 1 []) (replicate n SIdle) RIdle [] [].

End Conc.
#[global] Arguments sender_pc : clear implicits.
#[global] Arguments event : clear implicits.
#[global] Arguments conc {IA WCA WQA} T E.

(** ** Past the bound *)

Module ConcPanic.
Export Concrete.

(** One message, undisturbed: five steps of the receiver, nine of a sender. *)
Definition round (x : Z) : list (event Z) :=
  EvSend 0 x :: replicate 8 (EvStep 0 false) ++ replicate 7 (EvRecv false).
(** Sender 1 reads the tail; then a whole message passes; then it looks at the slot. *)
Definition race : list (event Z) :=
  EvSend 1 0 :: replicate 4 (EvStep 1 false) ++ round 0 ++ replicate 2 (EvStep 1 false).
Definition bad_run (n : nat) : list (event Z) := concat (replicate n (round 0)) ++ race.
End ConcPanic.
