(* ===== verification/ConcSafety.v ===== *)
(** Safety of the interleaved channel core: while no position wrapped, no thread panics,
    no index has two owners, no element is read before it was written, and the receiver
    reads the messages in the order in which the senders claimed their positions.

    [cinv] is the invariant, over the shared memory and every program counter; the
    lemmas [*_inv] show that each kind of access preserves it. *)
From S2P Require Import Prelude Interfaces Errors Core CoreWord Pipe CoreConc.

Section Safety.
Context {PU : PackUsize} {IA : IndexAlloc} {IAL : IndexAllocLaws}.
Context {WCA : WaitCellApi} {WQA : WaitQueueApi}.
Context {T E : Type}.
Implicit Types (s : conc T E) (p : Pipe T E) (pc : sender_pc T).

(** The index a sender holds and has not claimed a position for. *)
Definition owned pc : option Z :=
  match pc with
  | SHave i _ | SWritten i _ | SLoop i _ _ | SSeq i _ _ _ | SUncommit i => Some i
  | _ => None
  end.
(** The element such a sender has written. *)
Definition filled pc : option (Z * T) :=
  match pc with
  | SWritten i x | SLoop i x _ | SSeq i x _ _ => Some (i, x)
  | _ => None
  end.

(** Whether the receiver has still to release the slot, read the element, free the index
    of the last position it claimed. *)
Definition to_release (r : rx_pc) : Z := match r with RClaimed _ _ => 1 | _ => 0 end.
Definition to_read (r : rx_pc) : Z := match r with RClaimed _ _ | RGot _ => 1 | _ => 0 end.
Definition to_free (r : rx_pc) : Z := match r with RClaimed _ _ | RGot _ | RFree _ => 1 | _ => 0 end.

Lemma rx_phases r : 0 <= to_release r <= to_read r /\ to_read r <= to_free r <= 1.
Proof. destruct r; cbn; lia. Qed.

Definition entry (log : list (Z * T)) (j : Z) : option (Z * T) := log !! Z.to_nat j.
Definition claims s : Z := Z.of_nat (length (c_log s)).
#[global] Arguments claims : simpl never.
Definition pending (l : list (sender_pc T)) (j : Z) : Prop := exists n i x, l !! n = Some (SClaimed i x j).
(** The indices of the positions claimed and not yet freed. *)
Definition in_flight (log : list (Z * T)) (from : Z) : list Z := (drop (Z.to_nat from) log).*1.

(** The slot of position [j] of the current lap: published, or not yet. *)
Definition slot_state (qu : list Z) (l : list (sender_pc T)) (log : list (Z * T)) (j : Z) : Prop :=
  (exists i x, entry log j = Some (i, x) /\ ~ pending l j /\
     qu !! Z.to_nat (j mod 64) = Some (word (j + 1) i)) \/
  ((Z.of_nat (length log) <= j \/ pending l j) /\
     exists r, 0 <= r < 64 /\ qu !! Z.to_nat (j mod 64) = Some (word j r)).

Definition sender_local (t_max : Z) pc : Prop :=
  match pc with
  | SLoop _ _ tail => exists t b, 0 <= t <= t_max /\ tail = pos_word t b
  | SSeq _ _ tail v =>
      exists t q r, 0 <= t <= t_max /\ tail = pos_word t false /\ v = word q r /\ 0 <= r < 64 /\ t <= q < 1024
  | SPanic => False
  | _ => True
  end.

Definition rx_local (l : list (sender_pc T)) (log : list (Z * T)) (H : Z) (r : rx_pc) : Prop :=
  match r with
  | RLoop head => exists b, head = pos_word H b
  | RSeq head v =>
      (exists b, head = pos_word H b) /\
      ((exists r, 0 <= r < 64 /\ v = word H r) \/
       (exists i x, entry log H = Some (i, x) /\ ~ pending l H /\ v = word (H + 1) i))
  | RClaimed slot v =>
      exists i x, entry log (H - 1) = Some (i, x) /\ v = word H i /\ slot = Z.land (H - 1) MASK
  | RGot i | RFree i => exists x, entry log (H - 1) = Some (i, x)
  | RPanic => False
  | RIdle | RWake => True
  end.

(** [H] positions were claimed by the receiver; [ce] and [cd] are the closed flags. *)
Record cinv (cap H : Z) (ce cd : bool) s : Prop := {
  ci_cap : 0 <= cap <= 64;
  ci_bound : to_free (c_rx s) <= H <= claims s /\ claims s <= SAFE_CLAIMS;
  ci_enq : enqueue_pos (core (c_pipe s)) = pos_word (claims s) ce;
  ci_deq : dequeue_pos (core (c_pipe s)) = pos_word H cd;
  ci_qlen : length (queue (core (c_pipe s))) = 64%nat;
  ci_elen : length (elements (c_pipe s)) = Z.to_nat cap;
  ci_slots : forall j, H - to_release (c_rx s) <= j < H - to_release (c_rx s) + 64 ->
    slot_state (queue (core (c_pipe s))) (c_senders s) (c_log s) j;
  ci_pending : forall n i x j, c_senders s !! n = Some (SClaimed i x j) ->
    H <= j < claims s /\ entry (c_log s) j = Some (i, x);
  ci_unique : forall n m i x i' x' j,
    c_senders s !! n = Some (SClaimed i x j) -> c_senders s !! m = Some (SClaimed i' x' j) -> n = m;
  ci_iacap : ia_capacity (indices (core (c_pipe s))) = cap;
  ci_range : forall i, i ∈ ia_allocated (indices (core (c_pipe s))) -> 0 <= i < cap;
  ci_nodup : NoDup (in_flight (c_log s) (H - to_free (c_rx s)));
  ci_flight : forall i, i ∈ in_flight (c_log s) (H - to_free (c_rx s)) ->
    i ∈ ia_allocated (indices (core (c_pipe s)));
  ci_owned : forall n pc i, c_senders s !! n = Some pc -> owned pc = Some i ->
    i ∈ ia_allocated (indices (core (c_pipe s))) /\ (i ∉ in_flight (c_log s) (H - to_free (c_rx s)));
  ci_owned_unique : forall n m pc pc' i, c_senders s !! n = Some pc -> c_senders s !! m = Some pc' ->
    owned pc = Some i -> owned pc' = Some i -> n = m;
  ci_filled : forall n pc i x, c_senders s !! n = Some pc -> filled pc = Some (i, x) ->
    elements (c_pipe s) !! Z.to_nat i = Some (Some x);
  ci_elems : forall j i x, H - to_read (c_rx s) <= j -> entry (c_log s) j = Some (i, x) ->
    elements (c_pipe s) !! Z.to_nat i = Some (Some x);
  ci_received : c_received s = take (Z.to_nat (H - to_read (c_rx s))) (c_log s).*2;
  ci_sender : forall n pc, c_senders s !! n = Some pc -> sender_local (claims s) pc;
  ci_rx : rx_local (c_senders s) (c_log s) H (c_rx s);
}.

(** ** Consequences *)

Lemma entry_in_flight log from j i x :
  0 <= from <= j -> entry log j = Some (i, x) -> i ∈ in_flight log from.
Proof.
  intros Hj He. apply list_elem_of_fmap. exists (i, x). split; [done|].
  apply (list_elem_of_lookup_2 _ (Z.to_nat j - Z.to_nat from)). rewrite lookup_drop.
  unfold entry in He. by replace (Z.to_nat from + (Z.to_nat j - Z.to_nat from))%nat with (Z.to_nat j) by lia.
Qed.

Lemma entry_range log j a : entry log j = Some a -> 0 <= j -> j < Z.of_nat (length log).
Proof. intros H%lookup_lt_Some Hj. lia. Qed.

Lemma entry_some log j : 0 <= j < Z.of_nat (length log) -> exists i x, entry log j = Some (i, x).
Proof.
  intros Hj. destruct (lookup_lt_is_Some_2 log (Z.to_nat j)) as [[i x] Hx]; [lia|]. by exists i, x.
Qed.

Lemma length_in_flight log from :
  0 <= from <= Z.of_nat (length log) -> Z.of_nat (length (in_flight log from)) = Z.of_nat (length log) - from.
Proof. intros H. unfold in_flight. rewrite length_fmap, length_drop. lia. Qed.

Lemma nodup_bound (l : list Z) n :
  NoDup l -> (forall i, i ∈ l -> 0 <= i < n) -> Z.of_nat (length l) <= Z.max 0 n.
Proof.
  intros Hnd Hin. assert (Hsub : l ⊆+ seqZ 0 n).
  { apply NoDup_submseteq; [done|]. intros i Hi%Hin. apply elem_of_seqZ. lia. }
  apply submseteq_length in Hsub. rewrite length_seqZ in Hsub. lia.
Qed.

(** Positions in flight fit in the capacity; a sender that owns an index leaves room. *)
Lemma flight_bound cap H ce cd s : cinv cap H ce cd s -> claims s - (H - to_free (c_rx s)) <= cap.
Proof.
  intros Hi. pose proof (ci_bound _ _ _ _ _ Hi) as [Hb _]. pose proof (ci_cap _ _ _ _ _ Hi).
  pose proof (rx_phases (c_rx s)). unfold claims in *.
  rewrite <- length_in_flight by lia.
  etransitivity; [apply (nodup_bound _ cap)|lia]; [apply (ci_nodup _ _ _ _ _ Hi)|].
  intros i Hin. apply (ci_range _ _ _ _ _ Hi), (ci_flight _ _ _ _ _ Hi), Hin.
Qed.

Lemma owner_room cap H ce cd s n pc i :
  cinv cap H ce cd s -> c_senders s !! n = Some pc -> owned pc = Some i ->
  claims s - (H - to_free (c_rx s)) < cap.
Proof.
  intros Hi Hn Ho. pose proof (ci_bound _ _ _ _ _ Hi) as [Hb _]. pose proof (ci_cap _ _ _ _ _ Hi).
  pose proof (rx_phases (c_rx s)). destruct (ci_owned _ _ _ _ _ Hi _ _ _ Hn Ho) as [Ha Hf].
  unfold claims in *. rewrite <- length_in_flight by lia.
  assert (Hlen : Z.of_nat (length (i :: in_flight (c_log s) (H - to_free (c_rx s)))) <= Z.max 0 cap).
  { apply nodup_bound; [constructor; [done|apply (ci_nodup _ _ _ _ _ Hi)]|].
    intros k [->|Hk]%elem_of_cons; apply (ci_range _ _ _ _ _ Hi); [done|].
    by apply (ci_flight _ _ _ _ _ Hi). }
  cbn [length] in Hlen. lia.
Qed.

Lemma flight_range cap H ce cd s j i x :
  cinv cap H ce cd s -> H - to_free (c_rx s) <= j -> entry (c_log s) j = Some (i, x) -> 0 <= i < 64.
Proof.
  intros Hi Hj He. pose proof (ci_bound _ _ _ _ _ Hi) as [Hb _]. pose proof (ci_cap _ _ _ _ _ Hi).
  assert (0 <= i < cap); [|lia].
  apply (ci_range _ _ _ _ _ Hi), (ci_flight _ _ _ _ _ Hi).
  eapply entry_in_flight; [|exact He]. pose proof (rx_phases (c_rx s)). lia.
Qed.

(** The contents of the slot of a position at most 64 ahead, whatever its state. *)
Lemma slot_contents cap H ce cd s j :
  cinv cap H ce cd s -> H - to_release (c_rx s) <= j < H - to_release (c_rx s) + 64 ->
  exists q r, queue (core (c_pipe s)) !! Z.to_nat (j mod 64) = Some (word q r) /\
    0 <= r < 64 /\ j <= q < 1024.
Proof.
  intros Hi Hj. pose proof (ci_bound _ _ _ _ _ Hi) as [Hb Hs]. pose proof (rx_phases (c_rx s)).
  unfold SAFE_CLAIMS in *.
  destruct (ci_slots _ _ _ _ _ Hi j Hj) as [(i & x & He & _ & Hq)|(_ & r & Hr & Hq)].
  - assert (0 <= i < 64) by (eapply flight_range; [exact Hi| |exact He]; lia).
    apply entry_range in He; [|lia]. unfold claims in *.
    exists (j + 1), i. split_and!; try done; lia.
  - exists j, r. split_and!; try done; lia.
Qed.

(** ** Changing one sender *)

Definition claiming pc : bool := match pc with SClaimed _ _ _ => true | _ => false end.

Lemma insert_cases (l : list (sender_pc T)) n pc' m pc :
  <[n := pc']> l !! m = Some pc -> (m = n /\ pc = pc') \/ (m <> n /\ l !! m = Some pc).
Proof. rewrite list_lookup_insert_Some. naive_solver. Qed.

Lemma pending_insert (l : list (sender_pc T)) n pc pc' j :
  l !! n = Some pc -> claiming pc = false -> claiming pc' = false ->
  pending (<[n := pc']> l) j <-> pending l j.
Proof.
  intros Hn Hc Hc'. split; intros (m & i & x & Hm).
  - apply insert_cases in Hm as [[-> ?]|[_ Hm]]; [by subst|by exists m, i, x].
  - exists m, i, x. rewrite list_lookup_insert_ne; [done|]. intros ->. by simplify_eq.
Qed.

Lemma slot_state_ext qu l l' log j :
  (pending l' j <-> pending l j) -> slot_state qu l log j -> slot_state qu l' log j.
Proof.
  intros Hp [(i & x & ? & ? & ?)|[? ?]]; [left; exists i, x; tauto|right; tauto].
Qed.

Lemma rx_local_ext l l' log H r :
  (pending l' H <-> pending l H) -> rx_local l log H r -> rx_local l' log H r.
Proof.
  destruct r; cbn; try done. intros Hp [? [?|(i & x & ? & ? & ?)]]; [tauto|].
  split; [done|right]. exists i, x. tauto.
Qed.

(** The parts of the shared memory the invariant speaks of. *)
Definition same_mem p p' : Prop :=
  enqueue_pos (core p') = enqueue_pos (core p) /\ dequeue_pos (core p') = dequeue_pos (core p) /\
  queue (core p') = queue (core p) /\
  ia_allocated (indices (core p')) = ia_allocated (indices (core p)) /\
  ia_capacity (indices (core p')) = ia_capacity (indices (core p)) /\ elements p' = elements p.

Definition with_sender (n : nat) pc p s : conc T E :=
  mkConc p (<[n := pc]> (c_senders s)) (c_rx s) (c_log s) (c_received s).

(** An access that reads, and moves the sender on without claiming. *)
Lemma sender_local_inv cap H ce cd s n pc pc' p' :
  cinv cap H ce cd s -> c_senders s !! n = Some pc -> same_mem (c_pipe s) p' ->
  (owned pc' = None \/ owned pc' = owned pc) -> (filled pc' = None \/ filled pc' = filled pc) ->
  claiming pc = false -> claiming pc' = false -> sender_local (claims s) pc' ->
  cinv cap H ce cd (with_sender n pc' p' s).
Proof.
  intros Hi Hn (Me & Md & Mq & Mi & Mc & Ml) Ho Hf Hc Hc' Hl.
  assert (Hpe : forall j, pending (<[n := pc']> (c_senders s)) j <-> pending (c_senders s) j)
    by (intros j; by apply (pending_insert _ _ pc)).
  destruct Hi. split; cbn; rewrite ?Me, ?Md, ?Mq, ?Mi, ?Mc, ?Ml; try done.
  - intros j Hj. eapply slot_state_ext; [apply Hpe|by apply ci_slots0].
  - intros m i x j [[-> ?]|[_ Hm]]%insert_cases; [by subst|by apply (ci_pending0 m)].
  - intros m m' i x i' x' j [[-> ?]|[_ Hm]]%insert_cases [[-> ?]|[_ Hm']]%insert_cases; try by subst.
    by eapply ci_unique0.
  - intros m pc1 i [[-> ->]|[_ Hm]]%insert_cases Ho1; [|by eapply ci_owned0].
    destruct Ho as [Ho|Ho]; [congruence|]. apply (ci_owned0 n pc i); (done || congruence).
  - intros m m' pc1 pc2 i [[-> ->]|[? Hm]]%insert_cases [[-> ->]|[? Hm']]%insert_cases Ho1 Ho2; try done.
    + destruct Ho as [Ho|Ho]; [congruence|]. apply (ci_owned_unique0 n m' pc pc2 i); (done || congruence).
    + destruct Ho as [Ho|Ho]; [congruence|]. apply (ci_owned_unique0 m n pc1 pc i); (done || congruence).
    + by eapply ci_owned_unique0.
  - intros m pc1 i x [[-> ->]|[_ Hm]]%insert_cases Hf1; [|by eapply ci_filled0].
    destruct Hf as [Hf|Hf]; [congruence|]. apply (ci_filled0 n pc i x); (done || congruence).
  - intros m pc1 [[-> ->]|[_ Hm]]%insert_cases; [done|by eapply ci_sender0].
  - eapply rx_local_ext; [apply Hpe|done].
Qed.

(** ** Indices *)

(** A sender obtains a fresh index. *)
Lemma alloc_inv cap H ce cd s n x i a :
  cinv cap H ce cd s -> c_senders s !! n = Some (SAlloc x) ->
  ia_allocate (indices (core (c_pipe s))) = (a, Some i) ->
  cinv cap H ce cd (with_sender n (SHave i x) (set_core (set_indices a (core (c_pipe s))) (c_pipe s)) s).
Proof.
  intros Hi Hn Ha. apply ia_allocate_some in Ha as (Hr & Hni & Hal & Hac).
  assert (Hpe : forall j, pending (<[n := SHave i x]> (c_senders s)) j <-> pending (c_senders s) j)
    by (intros j; by apply (pending_insert _ _ (SAlloc x))).
  destruct Hi. split; cbn; rewrite ?Hac, ?Hal; try done.
  - intros j Hj. eapply slot_state_ext; [apply Hpe|by apply ci_slots0].
  - intros m i' x' j [[-> ?]|[_ Hm]]%insert_cases; [done|by apply (ci_pending0 m)].
  - intros m m' i1 x1 i2 x2 j [[-> ?]|[_ Hm]]%insert_cases [[-> ?]|[_ Hm']]%insert_cases; try done.
    by eapply ci_unique0.
  - intros j. rewrite elem_of_union, elem_of_singleton. rewrite ci_iacap0 in Hr. intros [->|Hj]; [lia|auto].
  - intros j Hj. apply elem_of_union_r. auto.
  - intros m pc1 j [[-> ->]|[_ Hm]]%insert_cases Ho1.
    + cbn in Ho1. simplify_eq. split; [set_solver|]. intros Hj%ci_flight0. done.
    + destruct (ci_owned0 _ _ _ Hm Ho1). split; [set_solver|done].
  - intros m m' pc1 pc2 j [[-> ->]|[? Hm]]%insert_cases [[-> ->]|[? Hm']]%insert_cases Ho1 Ho2; try done;
      cbn in *; simplify_eq; try by eapply ci_owned_unique0.
    + by destruct (ci_owned0 _ _ _ Hm' Ho2).
    + by destruct (ci_owned0 _ _ _ Hm Ho1).
  - intros m pc1 j y [[-> ->]|[_ Hm]]%insert_cases Hf1; [done|by eapply ci_filled0].
  - intros m pc1 [[-> ->]|[_ Hm]]%insert_cases; [done|by eapply ci_sender0].
  - eapply rx_local_ext; [apply Hpe|done].
Qed.

(** A sender gives its index back. *)
Lemma uncommit_inv cap H ce cd s n i :
  cinv cap H ce cd s -> c_senders s !! n = Some (SUncommit i) ->
  cinv cap H ce cd (with_sender n SWakeTx
    (set_core (set_indices (ia_free (indices (core (c_pipe s))) i) (core (c_pipe s))) (c_pipe s)) s).
Proof.
  intros Hi Hn. destruct (ci_owned _ _ _ _ _ Hi n _ i Hn eq_refl) as [Hal Hfl].
  assert (Hpe : forall j, pending (<[n := SWakeTx]> (c_senders s)) j <-> pending (c_senders s) j)
    by (intros j; by apply (pending_insert _ _ (SUncommit i))).
  destruct Hi. split; cbn; rewrite ?ia_free_capacity, ?ia_free_allocated by done; try done.
  - intros j Hj. eapply slot_state_ext; [apply Hpe|by apply ci_slots0].
  - intros m i' x' j [[-> ?]|[_ Hm]]%insert_cases; [done|by apply (ci_pending0 m)].
  - intros m m' i1 x1 i2 x2 j [[-> ?]|[_ Hm]]%insert_cases [[-> ?]|[_ Hm']]%insert_cases; try done.
    by eapply ci_unique0.
  - intros j. rewrite elem_of_difference. intros [? _]. auto.
  - intros j Hj. apply elem_of_difference. split; [auto|]. by intros ->%elem_of_singleton.
  - intros m pc1 j [[-> ->]|[? Hm]]%insert_cases Ho1; [done|].
    destruct (ci_owned0 _ _ _ Hm Ho1). split; [|done]. apply elem_of_difference. split; [done|].
    intros ->%elem_of_singleton. assert (m = n) by (by apply (ci_owned_unique0 m n pc1 (SUncommit i) i)). done.
  - intros m m' pc1 pc2 j [[-> ->]|[? Hm]]%insert_cases [[-> ->]|[? Hm']]%insert_cases Ho1 Ho2; try done.
    by eapply ci_owned_unique0.
  - intros m pc1 j y [[-> ->]|[_ Hm]]%insert_cases Hf1; [done|by eapply ci_filled0].
  - intros m pc1 [[-> ->]|[_ Hm]]%insert_cases; [done|by eapply ci_sender0].
  - eapply rx_local_ext; [apply Hpe|done].
Qed.

(** ** Elements *)

Lemma filled_owned pc i x : filled pc = Some (i, x) -> owned pc = Some i.
Proof. destruct pc; cbn; congruence. Qed.

Lemma elem_ne (l : list (option T)) i j y :
  0 <= i -> 0 <= j -> i <> j -> <[Z.to_nat i := y]> l !! Z.to_nat j = l !! Z.to_nat j.
Proof. intros. apply list_lookup_insert_ne. lia. Qed.

(** A sender writes the element of the index it owns. *)
Lemma fill_inv cap H ce cd s n i x :
  cinv cap H ce cd s -> c_senders s !! n = Some (SHave i x) ->
  cinv cap H ce cd (with_sender n (SWritten i x)
    (set_elements (<[Z.to_nat i := Some x]> (elements (c_pipe s))) (c_pipe s)) s).
Proof.
  intros Hi Hn. destruct (ci_owned _ _ _ _ _ Hi n _ i Hn eq_refl) as [Hal Hfl].
  assert (Hpe : forall j, pending (<[n := SWritten i x]> (c_senders s)) j <-> pending (c_senders s) j)
    by (intros j; by apply (pending_insert _ _ (SHave i x))).
  pose proof (rx_phases (c_rx s)). destruct Hi.
  pose proof (ci_range0 _ Hal) as Hri.
  split; cbn; try done.
  - by rewrite length_insert.
  - intros j Hj. eapply slot_state_ext; [apply Hpe|by apply ci_slots0].
  - intros m i' x' j [[-> ?]|[_ Hm]]%insert_cases; [done|by apply (ci_pending0 m)].
  - intros m m' i1 x1 i2 x2 j [[-> ?]|[_ Hm]]%insert_cases [[-> ?]|[_ Hm']]%insert_cases; try done.
    by eapply ci_unique0.
  - intros m pc1 j [[-> ->]|[? Hm]]%insert_cases Ho1; [|by eapply ci_owned0].
    cbn in Ho1. by simplify_eq.
  - intros m m' pc1 pc2 j [[-> ->]|[? Hm]]%insert_cases [[-> ->]|[? Hm']]%insert_cases Ho1 Ho2; try done.
    + by apply (ci_owned_unique0 n m' (SHave i x) pc2 j).
    + by apply (ci_owned_unique0 m n pc1 (SHave i x) j).
    + by eapply ci_owned_unique0.
  - intros m pc1 j y [[-> ->]|[Hmn Hm]]%insert_cases Hf1.
    + cbn in Hf1. simplify_eq. apply list_lookup_insert_eq. lia.
    + pose proof (filled_owned _ _ _ Hf1) as Ho1. destruct (ci_owned0 _ _ _ Hm Ho1) as [Haj _].
      rewrite elem_ne; [by eapply ci_filled0|lia|by apply ci_range0|].
      intros <-. apply Hmn. by apply (ci_owned_unique0 m n pc1 (SHave i x) i).
  - intros j k y Hj He. pose proof (entry_in_flight (c_log s) (H - to_free (c_rx s)) j k y) as Hk.
    rewrite elem_ne; [by eapply ci_elems0|lia| |].
    + apply ci_range0, ci_flight0, Hk; [lia|done].
    + intros <-. apply Hfl, Hk; [lia|done].
  - intros m pc1 [[-> ->]|[_ Hm]]%insert_cases; [done|by eapply ci_sender0].
  - eapply rx_local_ext; [apply Hpe|done].
Qed.

(** ** Claiming and publishing a position *)

Lemma entry_app_old log e j :
  0 <= j < Z.of_nat (length log) -> entry (log ++ [e]) j = entry log j.
Proof. intros Hj. apply lookup_app_l. lia. Qed.

Lemma entry_app_new log e : entry (log ++ [e]) (Z.of_nat (length log)) = Some e.
Proof. unfold entry. rewrite Nat2Z.id. by apply list_lookup_middle. Qed.

Lemma entry_app_inv log e j a :
  0 <= j -> entry (log ++ [e]) j = Some a ->
  (j < Z.of_nat (length log) /\ entry log j = Some a) \/ (j = Z.of_nat (length log) /\ a = e).
Proof.
  intros H0 He. destruct (Z.lt_total j (Z.of_nat (length log))) as [Hlt|[->|Hgt]].
  - left. by rewrite entry_app_old in He.
  - right. rewrite entry_app_new in He. by simplify_eq.
  - apply entry_range in He; [|done]. rewrite length_app in He. cbn in He. lia.
Qed.

Lemma in_flight_app log from i x :
  0 <= from <= Z.of_nat (length log) -> in_flight (log ++ [(i, x)]) from = in_flight log from ++ [i].
Proof. intros H. unfold in_flight. rewrite drop_app_le by lia. by rewrite fmap_app. Qed.

Lemma pending_claim (l : list (sender_pc T)) n pc i x t j :
  l !! n = Some pc -> claiming pc = false ->
  pending (<[n := SClaimed i x t]> l) j <-> pending l j \/ j = t.
Proof.
  intros Hn Hc. split.
  - intros (m & i' & x' & Hm). apply insert_cases in Hm as [[-> ?]|[_ Hm]];
      [right; congruence|left; by exists m, i', x'].
  - intros [(m & i' & x' & Hm)| ->].
    + exists m, i', x'. rewrite list_lookup_insert_ne; [done|]. intros ->. by simplify_eq.
    + exists n, i, x. apply list_lookup_insert_eq. by eapply lookup_lt_Some.
Qed.

(** The compare-and-swap on [enqueue_pos] succeeds. *)
Lemma claim_inv cap H cd s n i x v :
  cinv cap H false cd s -> c_senders s !! n = Some (SSeq i x (pos_word (claims s) false) v) ->
  claims s + 1 <= SAFE_CLAIMS ->
  cinv cap H false cd
    (mkConc (set_core (set_enqueue_pos (pos_word (claims s + 1) false) (core (c_pipe s))) (c_pipe s))
       (<[n := SClaimed i x (claims s)]> (c_senders s)) (c_rx s) (c_log s ++ [(i, x)]) (c_received s)).
Proof.
  intros Hi Hn Hsafe. destruct (ci_owned _ _ _ _ _ Hi n _ i Hn eq_refl) as [Hal Hfl].
  set (pc0 := SSeq i x (pos_word (claims s) false) v) in *.
  assert (Hpe : forall j, pending (<[n := SClaimed i x (claims s)]> (c_senders s)) j <->
                          pending (c_senders s) j \/ j = claims s)
    by (intros j; by apply (pending_claim _ _ pc0)).
  pose proof (rx_phases (c_rx s)). pose proof (ci_bound _ _ _ _ _ Hi) as [Hb _].
  pose proof (eq_refl : claims s = Z.of_nat (length (c_log s))) as Hlen.
  set (s' := mkConc _ _ _ _ _).
  assert (Hclaims : claims s' = claims s + 1).
  { unfold claims, s'. cbn. rewrite length_app. cbn. lia. }
  destruct Hi. split; rewrite ?Hclaims; unfold s'; cbn; rewrite ?in_flight_app by lia; try done; try lia.
  - intros j Hj. destruct (decide (j = claims s)) as [->|Hne].
    + right. split; [right; apply Hpe; tauto|].
      destruct (ci_slots0 _ Hj) as [(i' & x' & He & _)|(_ & ?)]; [apply entry_range in He; lia|done].
    + destruct (ci_slots0 _ Hj) as [(i' & x' & He & Hnp & Hq)|([Hlt|Hp] & r)].
      * left. exists i', x'. pose proof (entry_range _ _ _ He). rewrite entry_app_old by lia.
        split_and!; [done|rewrite Hpe; intros [?|?]; [done|lia]|done].
      * right. rewrite length_app. cbn. split; [left; lia|done].
      * right. rewrite Hpe. tauto.
  - intros m i' x' j [[-> ?]|[_ Hm]]%insert_cases.
    + simplify_eq. split; [lia|]. rewrite Hlen. apply entry_app_new.
    + destruct (ci_pending0 _ _ _ _ Hm) as [? ?]. rewrite entry_app_old by lia. split; [lia|done].
  - intros m m' i1 x1 i2 x2 j [[-> ?]|[_ Hm]]%insert_cases [[-> ?]|[_ Hm']]%insert_cases; simplify_eq; try done.
    + destruct (ci_pending0 _ _ _ _ Hm'). lia.
    + destruct (ci_pending0 _ _ _ _ Hm). lia.
    + by eapply ci_unique0.
  - apply NoDup_app. split_and!; [done| |apply NoDup_singleton]. by intros j Hj ->%list_elem_of_singleton.
  - intros j [Hj| ->%list_elem_of_singleton]%elem_of_app; [auto|done].
  - intros m pc1 j [[-> ->]|[Hmn Hm]]%insert_cases Ho1; [done|].
    destruct (ci_owned0 _ _ _ Hm Ho1). split; [done|]. rewrite elem_of_app, list_elem_of_singleton.
    intros [?| ->]; [done|]. apply Hmn. by apply (ci_owned_unique0 m n pc1 pc0 i).
  - intros m m' pc1 pc2 j [[-> ->]|[? Hm]]%insert_cases [[-> ->]|[? Hm']]%insert_cases Ho1 Ho2; try done.
    by eapply ci_owned_unique0.
  - intros m pc1 j y [[-> ->]|[Hmn Hm]]%insert_cases Hf1; [done|by eapply ci_filled0].
  - intros j k y Hj [[? He]|[-> ?]]%entry_app_inv; [by eapply ci_elems0| |lia].
    simplify_eq. by apply (ci_filled0 n pc0).
  - rewrite fmap_app, take_app_le; [done|]. rewrite length_fmap. lia.
  - intros m pc1 [[-> ->]|[_ Hm]]%insert_cases; [done|]. specialize (ci_sender0 _ _ Hm).
    destruct pc1; cbn in *; try done.
    + destruct ci_sender0 as (t & b & ? & ->). exists t, b. split; [lia|done].
    + destruct ci_sender0 as (t & q & r & ? & ?). exists t, q, r. split; [lia|done].
  - destruct (c_rx s) as [|h|h w|sl w|k|k| |]; cbn in *; try done.
    + destruct ci_rx0 as [? [?|(k & y & He & Hnp & ->)]]; split; try tauto. right. exists k, y.
      pose proof (entry_range _ _ _ He). rewrite entry_app_old, Hpe by lia. split_and!; [done|intros [?|?]; [done|lia]|done].
    + destruct ci_rx0 as (k & y & He & ?). exists k, y. by rewrite entry_app_old by lia.
    + destruct ci_rx0 as (y & He). exists y. by rewrite entry_app_old by lia.
    + destruct ci_rx0 as (y & He). exists y. by rewrite entry_app_old by lia.
Qed.

Lemma slot_ne (qu : list Z) j j' w :
  0 <= j -> 0 <= j' -> j <> j' -> Z.abs (j - j') < 64 ->
  <[Z.to_nat (j mod 64) := w]> qu !! Z.to_nat (j' mod 64) = qu !! Z.to_nat (j' mod 64).
Proof. intros. rewrite list_lookup_insert_ne; [done|]. mlia. Qed.

Lemma slot_eq (qu : list Z) j w :
  length qu = 64%nat -> <[Z.to_nat (j mod 64) := w]> qu !! Z.to_nat (j mod 64) = Some w.
Proof. intros Hl. apply list_lookup_insert_eq. rewrite Hl. mlia. Qed.

(** The sender stores the slot of the position it claimed. *)
Lemma publish_inv cap H ce cd s n i x t :
  cinv cap H ce cd s -> c_senders s !! n = Some (SClaimed i x t) ->
  cinv cap H ce cd (with_sender n SNotify
    (set_core (set_queue (<[Z.to_nat (t mod 64) := word (t + 1) i]> (queue (core (c_pipe s)))) (core (c_pipe s)))
      (c_pipe s)) s).
Proof.
  intros Hi Hn. destruct (ci_pending _ _ _ _ _ Hi _ _ _ _ Hn) as [Ht He].
  assert (Hpe : forall j, pending (<[n := SNotify]> (c_senders s)) j <-> pending (c_senders s) j /\ j <> t).
  { intros j. split.
    - intros (m & i' & x' & Hm). apply insert_cases in Hm as [[-> ?]|[Hmn Hm]]; [done|].
      split; [by exists m, i', x'|]. intros ->. apply Hmn. by apply (ci_unique _ _ _ _ _ Hi _ _ _ _ _ _ _ Hm Hn).
    - intros [(m & i' & x' & Hm) Hne]. exists m, i', x'. rewrite list_lookup_insert_ne; [done|].
      intros ->. by simplify_eq. }
  pose proof (rx_phases (c_rx s)). pose proof (flight_bound _ _ _ _ _ Hi) as Hfb.
  destruct Hi. split; cbn; try done.
  - by rewrite length_insert.
  - intros j Hj. destruct (decide (j = t)) as [->|Hne].
    + left. exists i, x. split_and!; [done|rewrite Hpe; tauto|by apply slot_eq].
    + assert (Hs : forall w, queue (core (c_pipe s)) !! Z.to_nat (j mod 64) = Some w ->
        <[Z.to_nat (t mod 64) := word (t + 1) i]> (queue (core (c_pipe s))) !! Z.to_nat (j mod 64) = Some w)
        by (intros w; rewrite slot_ne; [done|lia..]).
      destruct (ci_slots0 _ Hj) as [(i' & x' & He' & Hnp & Hq)|(Hor & r & Hr & Hq)].
      * left. exists i', x'. split_and!; [done|rewrite Hpe; tauto|by apply Hs].
      * right. split; [rewrite Hpe; tauto|]. exists r. split; [done|by apply Hs].
  - intros m i' x' j [[-> ?]|[_ Hm]]%insert_cases; [done|by apply (ci_pending0 m)].
  - intros m m' i1 x1 i2 x2 j [[-> ?]|[_ Hm]]%insert_cases [[-> ?]|[_ Hm']]%insert_cases; try done.
    by eapply ci_unique0.
  - intros m pc1 j [[-> ->]|[? Hm]]%insert_cases Ho1; [done|by eapply ci_owned0].
  - intros m m' pc1 pc2 j [[-> ->]|[? Hm]]%insert_cases [[-> ->]|[? Hm']]%insert_cases Ho1 Ho2; try done.
    by eapply ci_owned_unique0.
  - intros m pc1 j y [[-> ->]|[_ Hm]]%insert_cases Hf1; [done|by eapply ci_filled0].
  - intros m pc1 [[-> ->]|[_ Hm]]%insert_cases; [done|by eapply ci_sender0].
  - destruct (c_rx s); cbn in *; try done. destruct ci_rx0 as [? [?|(k & y & ? & ? & ?)]]; [tauto|].
    split; [done|right]. exists k, y. rewrite Hpe. tauto.
Qed.

(** ** The receiver *)

Definition with_rx (r : rx_pc) p (l : list T) s : conc T E :=
  mkConc p (c_senders s) r (c_log s) l.

(** An access that reads, and moves the receiver on. *)
Lemma rx_local_inv cap H ce cd s r p' :
  cinv cap H ce cd s -> same_mem (c_pipe s) p' ->
  to_free (c_rx s) = 0 -> to_free r = 0 -> rx_local (c_senders s) (c_log s) H r ->
  cinv cap H ce cd (with_rx r p' (c_received s) s).
Proof.
  intros Hi (Me & Md & Mq & Mi & Mc & Ml) H0 H0' Hl.
  pose proof (rx_phases (c_rx s)). pose proof (rx_phases r).
  assert (to_release (c_rx s) = 0 /\ to_read (c_rx s) = 0 /\ to_release r = 0 /\ to_read r = 0) as (E1 & E2 & E3 & E4) by lia.
  destruct Hi. split; cbn in *; rewrite ?Me, ?Md, ?Mq, ?Mi, ?Mc, ?Ml, ?H0', ?E3, ?E4; rewrite ?H0, ?E1, ?E2 in *; done.
Qed.

(** The receiver's compare-and-swap succeeds: the head position is its own. *)
Lemma rx_claim_inv cap H ce cd s v i x :
  cinv cap H ce cd s -> c_rx s = RSeq (pos_word H cd) v ->
  entry (c_log s) H = Some (i, x) -> ~ pending (c_senders s) H -> v = word (H + 1) i ->
  cinv cap (H + 1) ce cd
    (with_rx (RClaimed (Z.land H MASK) v)
      (set_core (set_dequeue_pos (pos_word (H + 1) cd) (core (c_pipe s))) (c_pipe s)) (c_received s) s).
Proof.
  intros Hi Hrx He Hnp Hv. destruct Hi. rewrite Hrx in *. cbn in *.
  pose proof (entry_range _ _ _ He). unfold claims in *.
  assert (Hs : H + 1 - 1 = H) by lia. rewrite ?Z.sub_0_r in *.
  split; cbn; rewrite ?Hs; try done; try (unfold claims; cbn; lia).
  - intros n k y j Hn. destruct (ci_pending0 _ _ _ _ Hn) as [Hj Hj']. split; [|done].
    unfold claims; cbn. assert (j <> H); [|lia]. intros ->. apply Hnp. by exists n, k, y.
  - by exists i, x.
Qed.

(** The receiver releases the slot for the next lap. *)
Lemma rx_release_inv cap H ce cd s slot v :
  cinv cap H ce cd s -> c_rx s = RClaimed slot v ->
  exists i, Z.land v MASK = i /\ slot_store slot (u16_wrapping_add v LAP_ONE) (core (c_pipe s)) =
    (set_queue (<[Z.to_nat ((H - 1) mod 64) := word (H + 63) i]> (queue (core (c_pipe s)))) (core (c_pipe s)), Val tt) /\
  cinv cap H ce cd
    (with_rx (RGot i) (set_core (set_queue (<[Z.to_nat ((H - 1) mod 64) := word (H + 63) i]>
       (queue (core (c_pipe s)))) (core (c_pipe s))) (c_pipe s)) (c_received s) s).
Proof.
  intros Hi Hrx. pose proof (ci_rx _ _ _ _ _ Hi) as Hl. rewrite Hrx in Hl. destruct Hl as (i & x & He & Hv & Hsl).
  assert (Hir : 0 <= i < 64) by (eapply flight_range; [exact Hi| |exact He]; rewrite Hrx; cbn; lia).
  pose proof (ci_bound _ _ _ _ _ Hi) as [Hb Hsafe]. rewrite Hrx in Hb. cbn in Hb. unfold SAFE_CLAIMS in Hsafe.
  pose proof (flight_bound _ _ _ _ _ Hi) as Hfb. rewrite Hrx in Hfb. cbn in Hfb.
  exists i. rewrite Hv, word_low by done. split; [done|].
  rewrite word_lap, Z.mod_small by lia.
  split.
  { unfold slot_store. rewrite Hsl, land_mask.
    destruct (lookup_lt_is_Some_2 (queue (core (c_pipe s))) (Z.to_nat ((H - 1) mod 64))) as [w ->]; [|done].
    rewrite (ci_qlen _ _ _ _ _ Hi). mlia. }
  destruct Hi. rewrite Hrx in *. cbn in *. split; cbn; try done.
  - by rewrite length_insert.
  - intros j Hj. rewrite Z.sub_0_r in Hj. destruct (decide (j = H + 63)) as [->|Hne].
    + right. split; [left; unfold claims in *; lia|]. exists i. split; [done|].
      replace ((H + 63) mod 64) with ((H - 1) mod 64) by mlia. by apply slot_eq.
    + assert (Hs : forall w, queue (core (c_pipe s)) !! Z.to_nat (j mod 64) = Some w ->
        <[Z.to_nat ((H - 1) mod 64) := word (H + 63) i]> (queue (core (c_pipe s))) !! Z.to_nat (j mod 64) = Some w)
        by (intros w; rewrite slot_ne; [done|lia..]).
      destruct (ci_slots0 j) as [(i' & x' & He' & Hnp & Hq)|(Hor & r & Hr & Hq)]; [lia|left|right].
      * exists i', x'. auto.
      * split; [done|]. exists r. auto.
  - by exists x.
Qed.

Lemma in_flight_cons log j i x :
  0 <= j -> entry log j = Some (i, x) -> in_flight log j = i :: in_flight log (j + 1).
Proof.
  intros Hj He. unfold in_flight. rewrite (drop_S _ (i, x) _ He). cbn.
  by replace (Z.to_nat (j + 1)) with (S (Z.to_nat j)) by lia.
Qed.

(** The receiver reads the element. *)
Lemma rx_read_inv cap H ce cd s i :
  cinv cap H ce cd s -> c_rx s = RGot i ->
  exists x, elements (c_pipe s) !! Z.to_nat i = Some (Some x) /\
  cinv cap H ce cd (with_rx (RFree i)
    (set_elements (<[Z.to_nat i := None]> (elements (c_pipe s))) (c_pipe s)) (c_received s ++ [x]) s).
Proof.
  intros Hi Hrx. pose proof (ci_rx _ _ _ _ _ Hi) as Hl. rewrite Hrx in Hl. destruct Hl as (x & He).
  exists x. split; [eapply (ci_elems _ _ _ _ _ Hi); [|exact He]; rewrite Hrx; cbn; lia|].
  destruct Hi. rewrite Hrx in *. cbn in *.
  pose proof (in_flight_cons (c_log s) (H - 1) i x ltac:(lia) He) as Hfl. replace (H - 1 + 1) with H in Hfl by lia.
  rewrite Hfl in *. apply NoDup_cons in ci_nodup0 as Hnd. destruct Hnd as [Hni Hnd].
  assert (Hri : 0 <= i) by (apply ci_range0, ci_flight0; set_solver).
  split; cbn; rewrite ?Hfl; try done.
  - by rewrite length_insert.
  - intros n pc k y Hn Hf. pose proof (filled_owned _ _ _ Hf) as Ho.
    destruct (ci_owned0 _ _ _ Hn Ho) as [Hal Hnot].
    rewrite elem_ne; [by eapply ci_filled0|done|by apply ci_range0|]. intros <-. set_solver.
  - intros j k y Hj Hk. rewrite Z.sub_0_r in Hj. pose proof (entry_in_flight (c_log s) H j k y ltac:(lia) Hk) as Hin.
    rewrite elem_ne; [apply (ci_elems0 j k y); [lia|done]|done|apply ci_range0, ci_flight0; set_solver|]. intros <-. done.
  - rewrite Z.sub_0_r, ci_received0. replace (Z.to_nat H) with (S (Z.to_nat (H - 1))) by lia.
    symmetry. apply take_S_r. unfold entry in He. by rewrite list_lookup_fmap, He.
Qed.

(** The receiver frees the index. *)
Lemma rx_free_inv cap H ce cd s i :
  cinv cap H ce cd s -> c_rx s = RFree i ->
  cinv cap H ce cd (with_rx RWake
    (set_core (set_indices (ia_free (indices (core (c_pipe s))) i) (core (c_pipe s))) (c_pipe s)) (c_received s) s).
Proof.
  intros Hi Hrx. pose proof (ci_rx _ _ _ _ _ Hi) as Hl. rewrite Hrx in Hl. destruct Hl as (x & He).
  destruct Hi. rewrite Hrx in *. cbn in *.
  pose proof (in_flight_cons (c_log s) (H - 1) i x ltac:(lia) He) as Hfl. replace (H - 1 + 1) with H in Hfl by lia.
  rewrite Hfl in *. apply NoDup_cons in ci_nodup0 as Hnd. destruct Hnd as [Hni Hnd].
  assert (Hal : i ∈ ia_allocated (indices (core (c_pipe s)))) by (apply ci_flight0; set_solver).
  rewrite ?Z.sub_0_r in *.
  split; cbn; rewrite ?Z.sub_0_r, ?ia_free_capacity, ?ia_free_allocated by done; try done.
  - split; [|apply ci_bound0]. unfold claims in *. cbn. lia.
  - intros j. rewrite elem_of_difference. intros [? _]. auto.
  - intros j Hj. apply elem_of_difference. split; [apply ci_flight0; set_solver|].
    by intros ->%elem_of_singleton.
  - intros n pc j Hn Ho. destruct (ci_owned0 _ _ _ Hn Ho) as [? Hnot]. split; [set_solver|set_solver].
Qed.

(** ** Closing *)

Lemma close_rx_inv cap H ce cd s p' :
  cinv cap H ce cd s -> enqueue_pos (core p') = Z.lor (enqueue_pos (core (c_pipe s))) CLOSED ->
  dequeue_pos (core p') = dequeue_pos (core (c_pipe s)) -> queue (core p') = queue (core (c_pipe s)) ->
  indices (core p') = indices (core (c_pipe s)) -> elements p' = elements (c_pipe s) ->
  cinv cap H true cd (mkConc p' (c_senders s) (c_rx s) (c_log s) (c_received s)).
Proof.
  intros [] Me Md Mq Mi Ml. split; cbn; rewrite ?Me, ?Md, ?Mq, ?Mi, ?Ml; try done.
  rewrite ci_enq0. apply pos_word_close.
Qed.

Lemma close_tx_inv cap H ce cd s p' :
  cinv cap H ce cd s -> dequeue_pos (core p') = Z.lor (dequeue_pos (core (c_pipe s))) CLOSED ->
  enqueue_pos (core p') = enqueue_pos (core (c_pipe s)) -> queue (core p') = queue (core (c_pipe s)) ->
  indices (core p') = indices (core (c_pipe s)) -> elements p' = elements (c_pipe s) ->
  cinv cap H ce true (mkConc p' (c_senders s) (c_rx s) (c_log s) (c_received s)).
Proof.
  intros [] Me Md Mq Mi Ml. split; cbn; rewrite ?Me, ?Md, ?Mq, ?Mi, ?Ml; try done.
  rewrite ci_deq0. apply pos_word_close.
Qed.

(** ** Initially *)

Lemma conc_new_inv cap n : 0 <= cap <= 64 -> cinv cap 0 false false (conc_new cap n).
Proof.
  intros Hcap.
  assert (Hidle : forall m pc, c_senders (conc_new (E := E) cap n) !! m = Some pc -> pc = SIdle)
    by (intros m pc Hm; cbn in Hm; by apply lookup_replicate in Hm as [-> _]).
  split; cbn -[seqZ]; try done.
  - by rewrite length_replicate.
  - intros j Hj. right. split; [left; cbn; lia|]. exists 0. split; [lia|].
    rewrite list_lookup_fmap, lookup_seqZ_lt by (unfold MAX_CAPACITY; mlia). cbn. f_equal.
    change POS_SHIFT with 6. unfold u16_shl, u16_wrap, u16_mod, word. rewrite Z.shiftl_mul_pow2 by lia. mlia.
  - intros m i x j Hm%Hidle. done.
  - intros m m' i x i' x' j Hm%Hidle. done.
  - apply ia_new_capacity.
  - rewrite ia_new_allocated. set_solver.
  - constructor.
  - intros i Hi. by apply not_elem_of_nil in Hi.
  - intros m pc i ->%Hidle. done.
  - intros m m' pc pc' i ->%Hidle. done.
  - intros m pc i x ->%Hidle. done.
  - intros m pc ->%Hidle. done.
Qed.

(** ** Every event *)

Lemma slot_of_pos_word t b : slot_of (pos_word t b) = Z.land t MASK.
Proof. unfold slot_of. by rewrite pos_word_pos. Qed.

Lemma slot_load_run (c : Core E) t w :
  queue c !! Z.to_nat (t mod 64) = Some w -> slot_load (Z.land t MASK) c = (c, Val w).
Proof. intros H. unfold slot_load. by rewrite land_mask, H. Qed.

(** A sender looks at the slot of a position it saw earlier: it is never behind. *)
Lemma sender_looks cap H ce cd s n i x t :
  cinv cap H ce cd s -> c_senders s !! n = Some (SLoop i x (pos_word t false)) -> 0 <= t <= claims s ->
  exists q r, slot_load (Z.land t MASK) (core (c_pipe s)) = (core (c_pipe s), Val (word q r)) /\
    0 <= r < 64 /\ t <= q < 1024.
Proof.
  intros Hi Hn Ht. pose proof (owner_room _ _ _ _ _ _ _ i Hi Hn eq_refl) as Hroom.
  pose proof (rx_phases (c_rx s)). pose proof (ci_cap _ _ _ _ _ Hi).
  set (S0 := H - to_release (c_rx s)).
  assert (HS0 : H - to_free (c_rx s) <= S0) by (unfold S0; lia).
  (* the position of this slot in the current window *)
  assert (exists j, S0 <= j < S0 + 64 /\ j mod 64 = t mod 64 /\ t <= j) as (j & Hj & Hmod & Hle).
  { exists (S0 + (t - S0) mod 64). pose proof (Z.mod_pos_bound (t - S0) 64 ltac:(lia)).
    split; [lia|]. split; [rewrite Zplus_mod_idemp_r; f_equal; lia|].
    destruct (Z.lt_ge_cases t S0); [lia|]. rewrite Z.mod_small; lia. }
  destruct (slot_contents _ _ _ _ _ _ Hi Hj) as (q & r & Hq & Hr & Hjq).
  exists q, r. split_and!; try lia. apply slot_load_run. by rewrite <- Hmod.
Qed.

Ltac local_step Hi Hn :=
  eapply (sender_local_inv _ _ _ _ _ _ _ _ _ Hi Hn); cbn; try done; auto.

Lemma sender_event_inv cap H ce cd s n sp :
  cinv cap H ce cd s -> claims (do_event (EvStep n sp) s) <= SAFE_CLAIMS ->
  cinv cap H ce cd (do_event (EvStep n sp) s).
Proof.
  intros Hi Hsafe. cbn [do_event] in *. destruct (c_senders s !! n) as [pc|] eqn:Hn; [|done].
  pose proof (ci_sender _ _ _ _ _ Hi _ _ Hn) as Hl. pose proof (ci_bound _ _ _ _ _ Hi) as [Hb Hs].
  pose proof (rx_phases (c_rx s)).
  destruct pc as [|x|x|i x|i x|i x tail|i x tail v|i x t| |i| |]; cbn [sender_step] in *; unfold on_core in *; run_M.
  - local_step Hi Hn.
  - destruct (_ =? _); local_step Hi Hn.
  - unfold indices_allocate in *. destruct (ia_allocate (indices (core (c_pipe s)))) as [a [i|]] eqn:Ha.
    + by apply alloc_inv.
    + apply ia_allocate_none in Ha as (_ & Hal & Hac). local_step Hi Hn.
  - unfold elem_write in *.
    pose proof (fill_inv _ _ _ _ _ _ _ _ Hi Hn) as Hfill.
    destruct (elements (c_pipe s) !! Z.to_nat i) eqn:He; [exact Hfill|].
    exfalso. apply lookup_ge_None in He. rewrite (ci_elen _ _ _ _ _ Hi) in He.
    destruct (ci_owned _ _ _ _ _ Hi n _ i Hn eq_refl) as [Hri%(ci_range _ _ _ _ _ Hi) _]. lia.
  - local_step Hi Hn. exists (claims s), ce. split; [lia|apply (ci_enq _ _ _ _ _ Hi)].
  - destruct Hl as (t & b & Ht & ->). rewrite pos_word_closed_eqb in *. destruct b; [local_step Hi Hn|].
    rewrite slot_of_pos_word in *.
    destruct (sender_looks _ _ _ _ _ _ _ _ _ Hi Hn Ht) as (q & r & Hload & Hr & Hq).
    cbn in *. rewrite Hload. local_step Hi Hn. by exists t, q, r.
  - destruct Hl as (t & q & r & Ht & -> & -> & Hr & Hq). unfold SAFE_CLAIMS in *.
    rewrite pos_word_pos, word_pos, dif_small in * by lia.
    destruct (Z.compare_spec (q - t) 0) as [Heq|Hlt|Hgt]; [|lia|local_step Hi Hn].
    assert (Hloop : sender_local (claims s) (SLoop i x (enqueue_pos (core (c_pipe s)))))
      by (exists (claims s), ce; split; [lia|apply (ci_enq _ _ _ _ _ Hi)]).
    destruct sp; [local_step Hi Hn|]. unfold enqueue_pos_cas in *.
    destruct (Z.eqb_spec (enqueue_pos (core (c_pipe s))) (pos_word t false)) as [Hcas|Hcas]; [|local_step Hi Hn].
    rewrite (ci_enq _ _ _ _ _ Hi) in Hcas. apply pos_word_inj in Hcas as [<- ->].
    assert (Hsafe' : claims s + 1 <= SAFE_CLAIMS).
    { unfold claims in *. cbn in Hsafe. rewrite length_app in Hsafe. cbn in Hsafe. unfold SAFE_CLAIMS. lia. }
    pose proof (claim_inv _ _ _ _ _ _ _ _ Hi Hn Hsafe') as Hclaim. unfold SAFE_CLAIMS in Hsafe'.
    cbn. rewrite pos_word_next, Z.mod_small by lia. exact Hclaim.
  - destruct (ci_pending _ _ _ _ _ Hi _ _ _ _ Hn) as [Ht He]. unfold SAFE_CLAIMS in *.
    assert (Hri : 0 <= i < 64) by (eapply flight_range; [exact Hi| |exact He]; lia).
    rewrite word_publish, Z.mod_small in * by lia.
    destruct (slot_contents _ _ _ _ _ t Hi) as (q & r & Hq & _).
    { pose proof (flight_bound _ _ _ _ _ Hi). pose proof (ci_cap _ _ _ _ _ Hi). lia. }
    unfold slot_store. rewrite land_mask, Hq. by apply (publish_inv _ _ _ _ _ _ _ x).
  - local_step Hi Hn.
  - by apply uncommit_inv.
  - local_step Hi Hn.
  - done.
Qed.

Ltac rx_step Hi Hrx :=
  eapply (rx_local_inv _ _ _ _ _ _ _ Hi); cbn; try done; rewrite ?Hrx; cbn; auto.

Lemma rx_event_inv cap H ce cd s sp :
  cinv cap H ce cd s -> exists H', cinv cap H' ce cd (do_event (EvRecv sp) s).
Proof.
  intros Hi. cbn [do_event]. destruct (c_rx s) as [|head|head v|slot v|i|i| |] eqn:Hrx.
  all: pose proof (ci_rx _ _ _ _ _ Hi) as Hl; rewrite Hrx in Hl; cbn in Hl.
  all: pose proof (ci_bound _ _ _ _ _ Hi) as [Hb Hs]; rewrite Hrx in Hb; cbn in Hb; unfold SAFE_CLAIMS in Hs.
  all: cbn [rx_step]; unfold on_core; run_M.
  - exists H. rx_step Hi Hrx. exists cd. apply (ci_deq _ _ _ _ _ Hi).
  - exists H. destruct Hl as (b & ->). rewrite slot_of_pos_word.
    destruct (ci_slots _ _ _ _ _ Hi H) as [(i & x & He & Hnp & Hq)|(_ & r & Hr & Hq)]; [rewrite Hrx; cbn; lia|..];
      rewrite (slot_load_run _ _ _ Hq); cbn; rx_step Hi Hrx; (split; [by exists b|]).
    + right. by exists i, x.
    + left. by exists r.
  - destruct Hl as ((b & ->) & [(r & Hr & ->)|(i & x & He & Hnp & ->)]).
    + exists H. rewrite pos_word_pos, word_pos, dif_dequeue by lia.
      destruct (Z.compare_spec (H - (H + 1)) 0); [lia| |lia]. rx_step Hi Hrx.
    + assert (Hri : 0 <= i < 64) by (eapply flight_range; [exact Hi| |exact He]; rewrite Hrx; cbn; lia).
      rewrite pos_word_pos, word_pos, dif_dequeue, Z.sub_diag by lia. cbn.
      assert (Hloop : rx_local (c_senders s) (c_log s) H (RLoop (dequeue_pos (core (c_pipe s)))))
        by (exists cd; apply (ci_deq _ _ _ _ _ Hi)).
      destruct sp; [exists H; rx_step Hi Hrx|]. unfold dequeue_pos_cas.
      destruct (Z.eqb_spec (dequeue_pos (core (c_pipe s))) (pos_word H b)) as [Hcas|Hcas];
        [|exists H; rx_step Hi Hrx].
      rewrite (ci_deq _ _ _ _ _ Hi) in Hcas. apply pos_word_inj in Hcas as [_ <-].
      exists (H + 1). cbn. rewrite pos_word_next, Z.mod_small, slot_of_pos_word by lia.
      by eapply rx_claim_inv.
  - destruct (rx_release_inv _ _ _ _ _ _ _ Hi Hrx) as (i & Hv & Hst & Hi'). exists H.
    cbn. rewrite Hst, Hv. exact Hi'.
  - destruct (rx_read_inv _ _ _ _ _ _ Hi Hrx) as (x & He & Hi'). exists H.
    unfold elem_read. rewrite He. exact Hi'.
  - exists H. by apply rx_free_inv.
  - exists H. rx_step Hi Hrx.
  - done.
Qed.

Lemma claims_mono s ev : claims s <= claims (do_event ev s).
Proof.
  unfold claims. destruct ev; cbn [do_event]; repeat case_match; cbn; rewrite ?length_app; lia.
Qed.

Lemma event_inv cap H ce cd s ev :
  cinv cap H ce cd s -> claims (do_event ev s) <= SAFE_CLAIMS ->
  exists H' ce' cd', cinv cap H' ce' cd' (do_event ev s).
Proof.
  intros Hi Hsafe. destruct ev as [n x|n sp|n|sp| |].
  - exists H, ce, cd. cbn [do_event]. destruct (c_senders s !! n) as [[]|] eqn:Hn; try done. local_step Hi Hn.
  - exists H, ce, cd. by apply sender_event_inv.
  - exists H, ce, cd. cbn [do_event]. destruct (c_senders s !! n) as [[]|] eqn:Hn; try done. local_step Hi Hn.
  - destruct (rx_event_inv _ _ _ _ _ sp Hi) as [H' ?]. by exists H', ce, cd.
  - exists H, true, cd. by eapply close_rx_inv.
  - exists H, ce, true. by eapply close_tx_inv.
Qed.

Lemma run_app evs evs' s : run (evs ++ evs') s = run evs' (run evs s).
Proof. apply foldl_app. Qed.

Lemma run_inv evs : forall cap n, 0 <= cap <= 64 ->
  claims (run evs (conc_new cap n)) <= SAFE_CLAIMS ->
  exists H ce cd, cinv cap H ce cd (run evs (conc_new cap n)).
Proof.
  induction evs as [|ev evs IH] using rev_ind; intros cap n Hcap Hsafe.
  - exists 0, false, false. by apply conc_new_inv.
  - rewrite run_app in *. cbn in *.
    destruct (IH cap n Hcap) as (H & ce & cd & Hi).
    { etransitivity; [apply claims_mono|exact Hsafe]. }
    by eapply event_inv.
Qed.

(** ** What the invariant means *)

(** The system after a schedule. *)
Definition reach (cap : Z) (n : nat) (evs : list (event T)) : conc T E := run evs (conc_new cap n).

(** C2: Any number of senders and one receiver run the channel core with their memory accesses
    interleaved in any order, spurious failures of the weak compare-exchange included.  As
    long as at most 960 positions were claimed, no thread panics: no [unreachable!] is
    reached, no slot or element index is out of bounds, and no element is read before
    it was written. *)
Theorem conc_no_panic cap n evs :
  0 <= cap <= 64 -> claims (reach cap n evs) <= SAFE_CLAIMS ->
  (forall m, c_senders (reach cap n evs) !! m <> Some SPanic) /\ c_rx (reach cap n evs) <> RPanic.
Proof.
  intros Hcap Hsafe. destruct (run_inv evs cap n Hcap Hsafe) as (H & ce & cd & Hi). split.
  - intros m Hm. by apply (ci_sender _ _ _ _ _ Hi) in Hm.
  - intros Hr. pose proof (ci_rx _ _ _ _ _ Hi) as Hl. unfold reach in Hr. by rewrite Hr in Hl.
Qed.

(** In every interleaving (up to 960 claims) the receiver has received a prefix of the
    messages in the order in which the senders claimed their positions: nothing is lost,
    duplicated, reordered or made up. *)
Theorem conc_fifo cap n evs :
  0 <= cap <= 64 -> claims (reach cap n evs) <= SAFE_CLAIMS ->
  c_received (reach cap n evs) `prefix_of` (c_log (reach cap n evs)).*2.
Proof.
  intros Hcap Hsafe. destruct (run_inv evs cap n Hcap Hsafe) as (H & ce & cd & Hi).
  unfold reach. rewrite (ci_received _ _ _ _ _ Hi). eexists. symmetry. apply take_drop.
Qed.

(** The element a thread may touch. *)
Definition sender_touches pc : option Z :=
  match pc with SClaimed i _ _ => Some i | _ => owned pc end.
Definition rx_touches (r : rx_pc) : option Z :=
  match r with RClaimed _ v => Some (Z.land v MASK) | RGot i | RFree i => Some i | _ => None end.

Lemma entry_unique log from j j' i x x' :
  NoDup (in_flight log from) -> 0 <= from <= j -> from <= j' ->
  entry log j = Some (i, x) -> entry log j' = Some (i, x') -> j = j'.
Proof.
  intros Hnd Hj Hj' He He'.
  assert (Hl : forall k y, from <= k -> entry log k = Some (i, y) ->
    in_flight log from !! (Z.to_nat k - Z.to_nat from)%nat = Some i).
  { intros k y Hk Hek. unfold in_flight. rewrite list_lookup_fmap, lookup_drop.
    replace (Z.to_nat from + (Z.to_nat k - Z.to_nat from))%nat with (Z.to_nat k) by lia.
    unfold entry in Hek. by rewrite Hek. }
  pose proof (NoDup_lookup _ _ _ _ Hnd (Hl j x ltac:(lia) He) (Hl j' x' ltac:(lia) He')). lia.
Qed.

(** A sender touches the element of the index it owns, or of a position it claimed. *)
Lemma sender_touches_inv cap H ce cd s n pc i :
  cinv cap H ce cd s -> c_senders s !! n = Some pc -> sender_touches pc = Some i ->
  (owned pc = Some i /\ i ∉ in_flight (c_log s) (H - to_free (c_rx s))) \/
  (exists x t, pc = SClaimed i x t /\ H <= t /\ entry (c_log s) t = Some (i, x) /\
     i ∈ in_flight (c_log s) (H - to_free (c_rx s))).
Proof.
  intros Hi Hn Ht. pose proof (ci_bound _ _ _ _ _ Hi) as [Hb _]. pose proof (rx_phases (c_rx s)).
  assert (Hcase : owned pc = Some i \/ exists x t, pc = SClaimed i x t).
  { destruct pc; cbn in Ht; try done; auto. simplify_eq. right. by eexists _, _. }
  destruct Hcase as [Ho|(x & t & ->)].
  - left. split; [done|]. by apply (ci_owned _ _ _ _ _ Hi n pc).
  - right. destruct (ci_pending _ _ _ _ _ Hi _ _ _ _ Hn) as [Hr He]. exists x, t.
    split_and!; [done|lia|done|]. eapply entry_in_flight; [|exact He]. lia.
Qed.

(** C4: In every interleaving (up to 960 claims) no two threads touch the same element: an index
    is owned by one sender, or by the receiver, or by nobody.  This is what makes the
    unsafe accesses to the shared [UnsafeCell]s sound. *)
Theorem conc_exclusive cap n evs :
  0 <= cap <= 64 -> claims (reach cap n evs) <= SAFE_CLAIMS ->
  let s := reach cap n evs in
  (forall m m' pc pc' i, c_senders s !! m = Some pc -> c_senders s !! m' = Some pc' -> m <> m' ->
     sender_touches pc = Some i -> sender_touches pc' <> Some i) /\
  (forall m pc i, c_senders s !! m = Some pc -> sender_touches pc = Some i -> rx_touches (c_rx s) <> Some i).
Proof.
  intros Hcap Hsafe s. destruct (run_inv evs cap n Hcap Hsafe) as (H & ce & cd & Hi).
  change (run evs (conc_new cap n)) with s in Hi. clearbody s.
  pose proof (ci_bound _ _ _ _ _ Hi) as [Hb _]. pose proof (rx_phases (c_rx s)).
  pose proof (ci_nodup _ _ _ _ _ Hi) as Hnd. split.
  - intros m m' pc pc' i Hm Hm' Hne Ht Ht'.
    destruct (sender_touches_inv _ _ _ _ _ _ _ _ Hi Hm Ht) as [[Ho Hn]|(x & t & -> & Htt & He & Hin)],
      (sender_touches_inv _ _ _ _ _ _ _ _ Hi Hm' Ht') as [[Ho' Hn']|(x' & t' & -> & Htt' & He' & Hin')]; try done.
    + apply Hne. by apply (ci_owned_unique _ _ _ _ _ Hi m m' pc pc' i).
    + assert (t = t') as -> by (eapply (entry_unique _ _ _ _ i x x' Hnd); try done; lia).
      apply Hne. by apply (ci_unique _ _ _ _ _ Hi m m' i x i x' t').
  - intros m pc i Hm Ht Hrx.
    assert (exists y, to_free (c_rx s) = 1 /\ entry (c_log s) (H - 1) = Some (i, y)) as (y & Hf & Hy).
    { pose proof (ci_rx _ _ _ _ _ Hi) as Hl.
      assert (Hr : forall j y, entry (c_log s) (H - 1) = Some (j, y) -> to_free (c_rx s) = 1 -> 0 <= j < 64).
      { intros j z Hj Hf. eapply flight_range; [exact Hi| |exact Hj]. lia. }
      destruct (c_rx s) as [| | |sl v|k|k| |]; cbn in *; try done; simplify_eq.
      - destruct Hl as (k & z & Hk & -> & _). rewrite word_low by (by eapply Hr). by exists z.
      - destruct Hl as (z & Hk). by exists z.
      - destruct Hl as (z & Hk). by exists z. }
    rewrite Hf in *.
    destruct (sender_touches_inv _ _ _ _ _ _ _ _ Hi Hm Ht) as [[Ho Hn]|(x & t & -> & Htt & He & Hin)]; rewrite Hf in *.
    + apply Hn. eapply entry_in_flight; [|exact Hy]. lia.
    + assert (t = H - 1); [|lia]. eapply (entry_unique _ _ _ _ i x y Hnd); try done; lia.
Qed.

End Safety.

(** ** The two models agree

    A thread that nobody disturbs does what the operation of [Core] it runs does, in memory
    and in result: the step machine and the sequential definitions are the same program. *)
Section Solo.
Context {PU : PackUsize} {IA : IndexAlloc} {WCA : WaitCellApi} {WQA : WaitQueueApi}.
Context {T E : Type}.
Implicit Types (p : Pipe T E) (x : T).

(** [n] accesses of a sender alone: the memory, where it stands, the claims it made; a step
    that panics leaves it in [SPanic], as in [do_event]. *)
Fixpoint sender_steps (n : nat) (pc : sender_pc T) p : Pipe T E * sender_pc T * list (Z * T) :=
  match n with
  | O => (p, pc, [])
  | S n =>
      match sender_step false pc p with
      | (p', Val (pc', c)) =>
          let '(q, r, l) := sender_steps n pc' p' in (q, r, match c with Some c => c :: l | None => l end)
      | (p', _) => (p', SPanic, [])
      end
  end.
(** The same for the receiver, with the messages it read. *)
Fixpoint rx_steps (n : nat) (pc : rx_pc) p : Pipe T E * rx_pc * list T :=
  match n with
  | O => (p, pc, [])
  | S n =>
      match rx_step false pc p with
      | (p', Val (pc', y)) =>
          let '(q, r, l) := rx_steps n pc' p' in (q, r, match y with Some y => y :: l | None => l end)
      | (p', _) => (p', RPanic, [])
      end
  end.

#[local] Arguments sender_steps : simpl never.
#[local] Arguments rx_steps : simpl never.

Lemma set_core_twice c c' p : set_core c (set_core c' p) = set_core c p.
Proof. done. Qed.

Lemma close_reason_cases (c : Core E) : (exists o, close_reason c = (c, Val o)) \/ close_reason c = (c, Panic).
Proof.
  unfold close_reason, state_load, error_read. run_M. destruct (contained_in_any _ _); [|left; by eexists].
  destruct (error c); [left; by eexists|by right].
Qed.

(** A channel that says it was closed with an error has one; [rep] and [cinv] include it. *)
Definition reason_known (c : Core E) : Prop := contained_in_any ERRORED (state c) = true -> is_Some (error c).
Lemma reason_known_val c : reason_known c -> exists o, close_reason c = (c, Val o).
Proof.
  unfold reason_known, close_reason, state_load, error_read. run_M. destruct (contained_in_any _ _); [|by eexists].
  intros H. destruct (H eq_refl) as [e ->]. by eexists.
Qed.

Lemma sender_silent n pc p p' pc' :
  sender_step false pc p = (p', Val (pc', None)) -> sender_steps (S n) pc p = sender_steps n pc' p'.
Proof. intros H. unfold sender_steps at 1; fold sender_steps. rewrite H. by destruct (sender_steps n pc' p') as [[??]?]. Qed.
Lemma sender_run n pc p p' pc' res :
  sender_step false pc p = (p', Val (pc', None)) -> sender_steps n pc' p' = res -> sender_steps (S n) pc p = res.
Proof. intros H <-. by apply sender_silent. Qed.
Lemma sender_claims n pc p p' pc' c q r l :
  sender_step false pc p = (p', Val (pc', Some c)) -> sender_steps n pc' p' = (q, r, l) ->
  sender_steps (S n) pc p = (q, r, c :: l).
Proof. intros H Hn. unfold sender_steps; fold sender_steps. by rewrite H, Hn. Qed.
Lemma sender_stopped n p : sender_steps n SIdle p = (p, SIdle, []) /\ sender_steps n SPanic p = (p, SPanic, []).
Proof. induction n as [|n [IH1 IH2]]; [done|]. by rewrite (sender_silent n SIdle p p SIdle eq_refl), (sender_silent n SPanic p p SPanic eq_refl). Qed.
Lemma rx_silent n pc p p' pc' : rx_step false pc p = (p', Val (pc', None)) -> rx_steps (S n) pc p = rx_steps n pc' p'.
Proof. intros H. unfold rx_steps at 1; fold rx_steps. rewrite H. by destruct (rx_steps n pc' p') as [[??]?]. Qed.

(** Running alone. *)
Ltac solo :=
  unfold on_core; cbv [mbind M_bind mret M_ret gets modify panic out_of_fuel expect zoom]; cbn;
  rewrite ?set_core_same.

(** The permit, if there is one. *)
Definition reserved x (r : result Reservation (TrySendError E unit)) : sender_pc T :=
  match r with Ok res => SHave (idx res) x | Err _ => SIdle end.

Lemma solo_try_reserve p x : reason_known (core p) ->
  exists p' r, on_core try_reserve p = (p', Val r) /\ sender_steps 2 (SReserve x) p = (p', reserved x r, []).
Proof.
  intros [o Ho]%reason_known_val. unfold try_reserve, enqueue_pos_load.
  destruct (Z.land (enqueue_pos (core p)) CLOSED =? CLOSED) eqn:Hc.
  - rewrite (sender_silent 1 _ p p SIdle) by (cbn [sender_step]; solo; by rewrite Hc). rewrite (proj1 (sender_stopped 1 p)).
    solo. rewrite Hc, Ho. cbn. rewrite set_core_same. eexists _, _. split; [done|]. by destruct o.
  - rewrite (sender_silent 1 _ p p (SAlloc x)) by (cbn [sender_step]; solo; by rewrite Hc).
    solo. rewrite Hc. unfold indices_allocate. destruct (ia_allocate (indices (core p))) as [a [i|]] eqn:Ha; cbn;
      eexists _, _; (split; [reflexivity|]); unfold sender_steps; cbn [sender_step]; unfold indices_allocate; solo; by rewrite Ha.
Qed.

Lemma solo_uncommit p i :
  on_core (uncommit i) p = (fst (on_core (uncommit i) p), Val tt) /\
  sender_steps 2 (SUncommit i) p = (fst (on_core (uncommit i) p), SIdle, []).
Proof. unfold uncommit, indices_free, prod_wait_wake. unfold sender_steps. cbn [sender_step]. solo. done. Qed.

Lemma slot_load_total p w :
  length (queue (core p)) = 64%nat -> exists v, slot_load (Z.land w MASK) (core p) = (core p, Val v) /\
    forall v' (c : Core E), queue c = queue (core p) -> exists q, slot_store (Z.land w MASK) v' c = (set_queue q c, Val tt).
Proof.
  intros Hl. unfold slot_load, slot_store. rewrite land_mask.
  destruct (lookup_lt_is_Some_2 (queue (core p)) (Z.to_nat (w mod 64))) as [v Hv]; [rewrite Hl; mlia|].
  rewrite Hv. exists v. split; [done|]. intros v' c Hc. rewrite Hc, Hv. by eexists.
Qed.

(** What a sender that has a permit does alone, by what the call does: it has claimed a
    position for its message, found the channel closed, panicked, or is back at the load of
    the tail when the call's loop goes round. *)
Definition commits (steps : nat -> Pipe T E * sender_pc T * list (Z * T)) (n : nat) i x
    (run : Pipe T E * outcome (result unit (SendError E unit))) : Prop :=
  match run with
  | (p', Val (Ok _)) => steps (n + 4)%nat = (p', SIdle, [(i, x)])
  | (p', Val (Err _)) => steps (n + 4)%nat = (p', SIdle, [])
  | (p', Panic) => steps (n + 4)%nat = (p', SPanic, [])
  | (p', OutOfFuel) => steps (n + 2)%nat = (p', SWritten i x, [])
  end.

Lemma solo_commit_send p i x :
  length (queue (core p)) = 64%nat -> i <= MASK -> reason_known (core p) ->
  commits (fun n => sender_steps n (SWritten i x) p) 1 i x (on_core (core_commit_send i) p).
Proof.
  intros Hl Hi [o Ho]%reason_known_val. set (tail := enqueue_pos (core p)).
  assert (Hload : forall n, sender_steps (S n) (SWritten i x) p = sender_steps n (SLoop i x tail) p)
    by (intros n; apply sender_silent; cbn; solo; done).
  unfold core_commit_send, enqueue_pos_load. replace (i <=? MASK) with true by (symmetry; by apply Z.leb_le).
  destruct (slot_load_total p (u16_shr tail POS_SHIFT) Hl) as (v & Hv & Hst).
  destruct (Z.land tail CLOSED =? CLOSED) eqn:Hc.
  { cbn [commit_send_loop]. solo. fold tail. rewrite Hc, Ho. unfold commits. cbn. rewrite set_core_same, Hload.
    rewrite (sender_silent 3 _ p p SIdle) by (cbn [sender_step]; by rewrite Hc). apply sender_stopped. }
  assert (Hslot : forall n, sender_steps (S n) (SLoop i x tail) p = sender_steps n (SSeq i x tail v) p)
    by (intros n; apply sender_silent; cbn [sender_step]; rewrite Hc; unfold slot_of; solo; rewrite Hv; cbn; by rewrite set_core_same).
  cbn [commit_send_loop]. solo. fold tail. rewrite Hc. cbn. rewrite Hv. cbn. unfold commits.
  destruct (_ ?= 0) eqn:Hd; cbn; rewrite ?set_core_same.
  - unfold enqueue_pos_cas. fold tail. rewrite Z.eqb_refl. cbn.
    destruct (Hst (Z.lor i (u16_shl (u16_wrapping_add (u16_shr tail POS_SHIFT) 1) POS_SHIFT))
      (set_enqueue_pos (u16_wrapping_add tail POS_ONE) (core p)) eq_refl) as [q Hq].
    rewrite Hq. cbn. rewrite Hload, Hslot. eapply sender_claims.
    { cbn [sender_step]. rewrite Hd. solo. unfold enqueue_pos_cas. fold tail. rewrite Z.eqb_refl. reflexivity. }
    eapply sender_run; [cbn [sender_step]; solo; rewrite Hq; reflexivity|].
    eapply sender_run; [reflexivity|done].
  - rewrite Hload, Hslot, (sender_silent 2 _ p p SPanic) by (cbn [sender_step]; by rewrite Hd). apply sender_stopped.
  - by rewrite Hload, Hslot, (sender_silent 0 _ p p (SWritten i x)) by (cbn [sender_step]; by rewrite Hd).
Qed.

(** Writing the message comes first. *)
Lemma solo_send p i x :
  length (queue (core p)) = 64%nat -> i <= MASK -> reason_known (core p) ->
  commits (fun n => sender_steps n (SHave i x) p) 2 i x ((elem_write i x;; on_core (core_commit_send i)) p).
Proof.
  intros Hl Hi Hr. unfold mbind, M_bind. destruct (elem_write i x p) as [p1 [[]| |]] eqn:Hw.
  - assert (Hq : core p1 = core p) by (unfold elem_write in Hw; case_match; by simplify_eq).
    assert (Hstep : forall n, sender_steps (S n) (SHave i x) p = sender_steps n (SWritten i x) p1)
      by (intros n; apply sender_silent; cbn [sender_step]; unfold mbind, M_bind; by rewrite Hw).
    assert (H := solo_commit_send p1 i x). rewrite Hq in H. specialize (H Hl Hi Hr). unfold commits in *.
    destruct (on_core (core_commit_send i) p1) as [p2 [[[]|e]| |]]; cbn in *; rewrite Hstep; exact H.
  - cbn. unfold sender_steps. cbn [sender_step]. unfold mbind, M_bind. by rewrite Hw.
  - unfold elem_write in Hw. by case_match.
Qed.

(** What the receiver does alone, by what [try_recv] does: it has read the message, panicked, or
    is back at the load of the head, with nothing read. *)
Definition receives (steps : nat -> Pipe T E * rx_pc * list T) (run : Pipe T E * outcome (result T (TryRecvError E))) : Prop :=
  match run with
  | (p', Val (Ok y)) => steps 7%nat = (p', RIdle, [y])
  | (p', Panic) => steps 7%nat = (p', RPanic, [])
  | (p', Val (Err _)) | (p', OutOfFuel) => steps 3%nat = (p', RIdle, [])
  end.

(** The index is read, then freed. *)
Lemma solo_take_value p i :
  match Receiver_take_value (mkReservation i) p with
  | (p', Val y) => rx_steps 3 (RGot i) p = (p', RIdle, [y])
  | (p', _) => rx_steps 3 (RGot i) p = (p', RPanic, [])
  end.
Proof.
  unfold Receiver_take_value, Reservation_drop, uncommit, indices_free, prod_wait_wake, elem_read.
  unfold rx_steps. cbn [rx_step]. unfold elem_read, indices_free, prod_wait_wake. solo.
  destruct (elements p !! Z.to_nat i) as [[y|]|]; done.
Qed.

Lemma solo_try_dequeue p :
  length (queue (core p)) = 64%nat -> reason_known (core p) ->
  match on_core try_dequeue p with
  | (p', Val (Ok res)) => forall n, rx_steps (4 + n) RIdle p = rx_steps n (RGot (idx res)) p'
  | (p', Val (Err _)) | (p', OutOfFuel) => rx_steps 3 RIdle p = (p', RIdle, [])
  | (p', Panic) => False
  end.
Proof.
  intros Hl [o Ho]%reason_known_val. set (head := dequeue_pos (core p)).
  assert (Hload : forall n, rx_steps (S n) RIdle p = rx_steps n (RLoop head) p) by (intros n; apply rx_silent; cbn; solo; done).
  destruct (slot_load_total p (u16_shr head POS_SHIFT) Hl) as (v & Hv & Hst).
  assert (Hslot : forall n, rx_steps (S n) (RLoop head) p = rx_steps n (RSeq head v) p)
    by (intros n; apply rx_silent; cbn [rx_step]; unfold slot_of; solo; rewrite Hv; cbn; by rewrite set_core_same).
  unfold try_dequeue, dequeue_pos_load. cbn [try_dequeue_loop]. solo. fold head. rewrite Hv. cbn.
  destruct (_ ?= 0) eqn:Hd; cbn.
  - unfold dequeue_pos_cas. fold head. rewrite Z.eqb_refl. cbn.
    destruct (Hst (u16_wrapping_add v LAP_ONE) (set_dequeue_pos (u16_wrapping_add head POS_ONE) (core p)) eq_refl)
      as [q Hq].
    rewrite Hq. cbn. intros n. rewrite Hload, Hslot.
    assert (Hseq : rx_step false (RSeq head v) p =
      (set_core (set_dequeue_pos (u16_wrapping_add head POS_ONE) (core p)) p, Val (RClaimed (slot_of head) v, None)))
      by (cbn [rx_step]; rewrite Hd; solo; unfold dequeue_pos_cas; fold head; by rewrite Z.eqb_refl).
    rewrite (rx_silent _ _ _ _ _ Hseq). apply rx_silent. cbn [rx_step]. solo. unfold slot_of. by rewrite Hq.
  - destruct (negb _); [rewrite Ho|]; cbn; rewrite set_core_same, Hload, Hslot;
      by rewrite (rx_silent 0 _ p p RIdle) by (cbn [rx_step]; by rewrite Hd).
  - rewrite set_core_same, Hload, Hslot. by rewrite (rx_silent 0 _ p p RIdle) by (cbn [rx_step]; by rewrite Hd).
Qed.

Lemma solo_try_recv p :
  length (queue (core p)) = 64%nat -> reason_known (core p) ->
  receives (fun n => rx_steps n RIdle p) (Receiver_try_recv p).
Proof.
  intros Hl Hr. pose proof (solo_try_dequeue p Hl Hr) as H. unfold Receiver_try_recv. cbv [mbind M_bind].
  destruct (on_core try_dequeue p) as [p1 [[[i]|e]| |]]; [|done..]. pose proof (solo_take_value p1 i) as Ht.
  specialize (H 3%nat). unfold receives. cbn [idx] in H. change (4 + 3)%nat with 7%nat in H.
  destruct (Receiver_take_value (mkReservation i) p1) as [p2 [y| |]] eqn:Hv; cbn; [by rewrite H|by rewrite H|].
  exfalso. revert Hv. unfold Receiver_take_value, Reservation_drop, elem_read. solo.
  by destruct (elements p1 !! Z.to_nat i) as [[y|]|].
Qed.

(** C35: The step machine of the interleaving model is the code: run alone and without spurious
    failures, on a channel whose closing error, if it says it has one, is there, a thread
    does what the calls do, in memory and in result.  A sender has the permit for the index
    that [try_reserve] reserved, or none if it failed; with a permit, it writes the message
    and ends as [commit_send] ends, having claimed a position for it, found the channel
    closed, or panicked ([unreachable!]), and is back at its load of the tail if the call's
    loop goes round; dropping the permit is [uncommit].  The receiver has read the message
    that [try_recv] returns, panicked as it does, or is back at its first access with
    nothing read if the call found nothing. *)
Theorem solo_is_sequential p i x :
  length (queue (core p)) = 64%nat -> i <= MASK -> reason_known (core p) ->
  (exists p' r, on_core try_reserve p = (p', Val r) /\ sender_steps 2 (SReserve x) p = (p', reserved x r, [])) /\
  commits (fun n => sender_steps n (SHave i x) p) 2 i x ((elem_write i x;; on_core (core_commit_send i)) p) /\
  (exists p', on_core (uncommit i) p = (p', Val tt) /\ sender_steps 2 (SUncommit i) p = (p', SIdle, [])) /\
  receives (fun n => rx_steps n RIdle p) (Receiver_try_recv p).
Proof.
  intros Hl Hi Hr. split_and!; [by apply solo_try_reserve|by apply solo_send| |by apply solo_try_recv].
  eexists. exact (solo_uncommit p i).
Qed.

End Solo.

(** ** Past the bound *)

(** After 960 messages the sequence number of a released slot wraps to zero: a sender
    that loads the tail, is overtaken by one whole message, and then looks at the slot,
    finds it behind and hits [unreachable!]. *)
Module Overtaken.
Import Concrete.

Definition overtaken : conc Z unit := reach 2 2 (ConcPanic.bad_run 960).

(** The bound of 960 is sharp.  With two senders and a ring of capacity two, the 961st claim
    can make a thread panic: the sequence number of a released slot wraps to zero, a
    sender that loaded the tail and was overtaken by one whole message finds the slot
    behind its tail and reaches [unreachable!]. *)
Theorem overtaken_sender_panics :
  claims overtaken = SAFE_CLAIMS + 1 /\ c_senders overtaken !! 1%nat = Some SPanic /\
  c_received overtaken = replicate 961 0.
Proof. split_and!; vm_compute; reflexivity. Qed.
End Overtaken.
