(* ===== verification/CoreWait.v ===== *)
(** The receiver asleep: no wakeup is lost.

    [poll_dequeue] looks for a message and, when there is none, registers the task with the
    wait cell of the channel and goes to sleep; [commit_send] wakes the cell after it has
    published a message, and the last sender closes it after it has set the CLOSED flag.
    The system of [CoreConc] is extended by the receiver's task ([task]) and by closers
    that have set the flag but not yet closed the cell; every access is one event. *)
From S2P Require Import Prelude Interfaces Errors Core CoreWord Pipe CoreConc ConcSafety.

Section Wait.
Context {PU : PackUsize} {IA : IndexAlloc} {IAL : IndexAllocLaws}.
Context {WCA : WaitCellApi} {WCL : WaitCellLaws} {WQA : WaitQueueApi}.
Context {T E : Type}.
Implicit Types (s : conc T E) (p : Pipe T E) (pc : sender_pc T).

(** *** Polls *)

(** The task that receives: in [try_dequeue], about to poll the cell, or suspended until it
    is polled again. *)
Inductive task : Type := TRun | TPark | TAsleep.

Record wconc := mkWconc { w_conc : conc T E; w_task : task; w_closing : nat }.

(** [try_dequeue] finds nothing and no CLOSED flag: the channel is empty. *)
Definition finds_empty (r : rx_pc) : bool :=
  match r with
  | RSeq head v =>
      let pos := u16_shr head POS_SHIFT in
      let dif := i16_wrapping_sub (as_i16 (u16_shr v POS_SHIFT)) (as_i16 (u16_wrapping_add pos 1)) in
      match dif ?= 0 with Lt => Z.land head CLOSED =? 0 | _ => false end
  | _ => false
  end.

Definition with_pipe p s : conc T E := mkConc p (c_senders s) (c_rx s) (c_log s) (c_received s).

(** One access of [poll_dequeue]: of [try_dequeue], or the poll of the cell; a task that is
    suspended starts again. *)
Definition recv_event (spurious : bool) (w : wconc) : wconc :=
  let s := w_conc w in
  match w_task w with
  | TRun => mkWconc (do_event (EvRecv spurious) s) (if finds_empty (c_rx s) then TPark else TRun) (w_closing w)
  | TPark =>
      match on_core cons_wait_poll (c_pipe s) with
      | (p', Val Pending) => mkWconc (with_pipe p' s) TAsleep (w_closing w)
      | (p', _) => mkWconc (with_pipe p' s) TRun (w_closing w)
      end
  | TAsleep => mkWconc s TRun (w_closing w)
  end.

Inductive wevent : Type :=
| WEv (ev : event T)  (* of a sender, of the receiver; [EvCloseTx] only sets the flag *)
| WCloseCell.         (* [close_tx] closes the cell *)

Definition do_wevent (ev : wevent) (w : wconc) : wconc :=
  let s := w_conc w in
  match ev with
  | WEv (EvRecv spurious) => recv_event spurious w
  | WEv EvCloseTx =>
      mkWconc (with_pipe (fst (on_core (dequeue_pos_fetch_or CLOSED) (c_pipe s))) s) (w_task w) (S (w_closing w))
  | WEv ev => mkWconc (do_event ev s) (w_task w) (w_closing w)
  | WCloseCell =>
      match w_closing w with
      | O => w
      | S n => mkWconc (with_pipe (fst (on_core cons_wait_close (c_pipe s))) s) (w_task w) n
      end
  end.

Definition wrun (evs : list wevent) (w : wconc) : wconc := foldl (fun w ev => do_wevent ev w) w evs.
Definition wreach (cap : Z) (n : nat) (evs : list wevent) : wconc := wrun evs (mkWconc (conc_new cap n) TRun 0).

Definition cell (w : wconc) : WaitCell := cons_wait (core (c_pipe (w_conc w))).
(** A poll of the cell would return: it was woken or closed since it was last polled. *)
Definition woken (c : WaitCell) : Prop := snd (wc_poll_wait c) <> Pending.

(** ** The invariant *)

(** The message at the head of the queue can be received. *)
Definition head_ready (H : Z) s : Prop := H < claims s /\ ~ pending (c_senders s) H.
(** The task sleeps, or is about to after it saw the head unpublished. *)
Definition waiting (H : Z) (w : wconc) : Prop :=
  w_task w <> TRun \/ exists head r, 0 <= r < 64 /\ c_rx (w_conc w) = RSeq head (word H r).
(** The task was woken or will be. *)
Definition alarmed (w : wconc) : Prop := woken (cell w) \/ exists n, c_senders (w_conc w) !! n = Some SNotify.

Record winv (cap H : Z) (ce cd : bool) (w : wconc) : Prop := {
  wi_conc : cinv cap H ce cd (w_conc w);
  wi_rx : w_task w <> TRun -> c_rx (w_conc w) = RIdle;
  wi_alarm : waiting H w -> head_ready H (w_conc w) -> alarmed w;
  wi_closed : cd = true -> wc_closed (cell w) = true \/ (0 < w_closing w)%nat;
}.

Lemma woken_closed c : wc_closed c = true -> woken c.
Proof. intros Hc. unfold woken. by rewrite wc_poll_closed. Qed.
Lemma woken_wake c : woken (wc_wake c).
Proof.
  destruct (wc_closed c) eqn:Hc; [apply woken_closed; by rewrite wc_wake_closed|]. unfold woken. by rewrite wc_wake_ready.
Qed.

(** What an access of a sender does to the cell, to the log and to its position. *)
Lemma sender_step_shape sp pc p p' pc' c :
  sender_step sp pc p = (p', Val (pc', c)) ->
  cons_wait (core p') = match pc with SNotify => wc_wake (cons_wait (core p)) | _ => cons_wait (core p) end /\
  match c with
  | None => True
  | Some (i, x) => enqueue_pos (core p) = match pc with SSeq _ _ tail _ => tail | _ => enqueue_pos (core p) end /\
      exists tail v, pc = SSeq i x tail v /\ pc' = SClaimed i x (u16_shr tail POS_SHIFT)
  end /\
  (forall i x j, pc = SClaimed i x j -> pc' = SNotify).
Proof.
  intros H. destruct pc as [|x|x|i x|i x|i x tail|i x tail v|i x t| |i| |]; cbn [sender_step] in H;
    unfold on_core, elem_write, indices_allocate, enqueue_pos_cas, slot_load, slot_store in H; run_M;
    repeat (case_match; cbn in *; simplify_eq); split_and!; try done; try (intros; congruence);
    try (by eexists _, _); by apply Z.eqb_eq.
Qed.
(** *** Senders *)

(** What a sender does to the system, and to the alarm: it stays on; and if the head of the
    queue becomes ready, it is on. *)
Lemma sender_alarm cap H ce cd s s' n sp task closing closing' :
  cinv cap H ce cd s -> s' = do_event (EvStep n sp) s -> cinv cap H ce cd s' ->
  (alarmed (mkWconc s task closing) -> alarmed (mkWconc s' task closing')) /\
  (head_ready H s' -> head_ready H s \/ alarmed (mkWconc s' task closing')) /\
  (wc_closed (cons_wait (core (c_pipe s))) = true -> wc_closed (cons_wait (core (c_pipe s'))) = true).
Proof.
  intros Hi -> Hi'. cbn [do_event] in *. unfold alarmed, cell, head_ready. cbn [w_conc].
  destruct (c_senders s !! n) as [pc|] eqn:Hn; [|split_and!; tauto].
  destruct (sender_step sp pc (c_pipe s)) as [p' [[pc' c]| |]] eqn:Hs.
  2,3: exfalso; apply (ci_sender _ _ _ _ _ Hi' n SPanic); cbn; apply list_lookup_insert_eq; by eapply lookup_lt_Some.
  apply sender_step_shape in Hs as (Hw & Hc & Hp). cbn [c_pipe c_senders c_log] in *.
  assert (Hat : <[n := pc']> (c_senders s) !! n = Some pc') by (apply list_lookup_insert_eq; by eapply lookup_lt_Some).
  split_and!.
  - intros [Hwk|[m Hm]].
    + left. rewrite Hw. destruct pc; try done. apply woken_wake.
    + destruct (decide (m = n)) as [->|Hne].
      * left. rewrite Hw. rewrite Hn in Hm. injection Hm as ->. apply woken_wake.
      * right. exists m. by rewrite list_lookup_insert_ne.
  - intros [Hlt Hnp]. assert (Hcase : (exists i x, pc = SClaimed i x H) \/ forall i x, pc <> SClaimed i x H).
    { destruct pc as [| | | | | | |i x t| | | |]; try (right; done). destruct (decide (t = H)) as [->|]; [left; by exists i, x|right; congruence]. }
    destruct Hcase as [(i & x & ->)|Hother]; [right; right; exists n; by rewrite Hat, (Hp i x H eq_refl)|].
    left. split.
    + unfold claims in *. cbn in Hlt. destruct c as [[i x]|]; [|done]. rewrite length_app in Hlt. cbn in Hlt.
      destruct (decide (H < Z.of_nat (length (c_log s)))) as [|Hge]; [done|]. exfalso. apply Hnp.
      destruct Hc as (Henq & tail & v & -> & ->). rewrite (ci_enq _ _ _ _ _ Hi) in Henq. exists n, i, x.
      rewrite Hat, <- Henq, pos_word_pos. do 3 f_equal. unfold claims in *. lia.
    + intros (m & i & x & Hm). destruct (decide (m = n)) as [->|Hne]; [rewrite Hn in Hm; injection Hm as ->; by apply (Hother i x)|].
      apply Hnp. exists m, i, x. by rewrite list_lookup_insert_ne.
  - intros Hcl. rewrite Hw. destruct pc; try done. by rewrite wc_wake_closed.
Qed.

(** *** The receiver *)

(** A receiver that reads the head of the queue and sees it unpublished. *)
Lemma rx_looks cap H ce cd s s' sp :
  cinv cap H ce cd s -> s' = do_event (EvRecv sp) s ->
  (exists head r, 0 <= r < 64 /\ c_rx s' = RSeq head (word H r)) -> ~ head_ready H s.
Proof.
  intros Hi -> (head & r & Hr & Hrx). pose proof (ci_rx _ _ _ _ _ Hi) as Hl.
  pose proof (ci_bound _ _ _ _ _ Hi) as [Hb Hs]. unfold SAFE_CLAIMS in Hs. cbn [do_event] in Hrx.
  destruct (c_rx s) as [|hd|hd v|slot v|i|i| |] eqn:Hold; cbn [rx_step] in Hrx; unfold on_core in Hrx; run_M;
    unfold dequeue_pos_cas, elem_read, slot_store in *; repeat (case_match; cbn in *; simplify_eq); try done.
  destruct Hl as (b & ->). rewrite slot_of_pos_word in *. intros [Hlt Hnp].
  destruct (ci_slots _ _ _ _ _ Hi H) as [(i & x & He & _ & Hq)|([Hge|Hp] & _)]; [rewrite Hold; cbn; lia| |unfold claims in *; lia|done].
  assert (0 <= i < 64) by (eapply flight_range; [exact Hi| |exact He]; rewrite Hold; cbn; lia).
  match goal with Hld : slot_load _ _ = _ |- _ => rewrite (slot_load_run _ _ _ Hq) in Hld; injection Hld as _ Hw end.
  apply (f_equal (fun w => u16_shr w POS_SHIFT)) in Hw. rewrite !word_pos in Hw by lia. lia.
Qed.

Lemma rx_step_shape sp r p p' o :
  rx_step sp r p = (p', o) ->
  cons_wait (core p') = cons_wait (core p) /\
  (dequeue_pos (core p') = dequeue_pos (core p) \/ exists slot v, o = Val (RClaimed slot v, None)) /\
  (finds_empty r = true -> p' = p /\ o = Val (RIdle, None)).
Proof.
  intros H. destruct r as [|hd|hd v|slot v|i|i| |]; cbn [rx_step finds_empty] in *;
    unfold on_core, dequeue_pos_cas, slot_load, slot_store, elem_read in H; run_M;
    simplify_eq/=; repeat (case_match; cbn in *; simplify_eq); split_and!; try done; try (by left); try (right; by eexists _, _);
    intros; split; try done; by rewrite ?set_core_same.
Qed.

(** What an access of the receiver does: it leaves the alarm alone, and if the task waits
    afterwards, it did before, or the head of the queue is not ready. *)
Lemma rx_alarm cap H ce cd s s' sp task closing :
  cinv cap H ce cd s -> s' = do_event (EvRecv sp) s ->
  exists H', cinv cap H' ce cd s' /\ cons_wait (core (c_pipe s')) = cons_wait (core (c_pipe s)) /\
    c_senders s' = c_senders s /\
    (finds_empty (c_rx s) = true -> c_rx s' = RIdle) /\
    (waiting H' (mkWconc s' (if finds_empty (c_rx s) then TPark else TRun) closing) -> head_ready H' s' ->
     waiting H (mkWconc s task closing) /\ head_ready H s).
Proof.
  intros Hi Heq. destruct (rx_event_inv _ _ _ _ _ sp Hi) as [H' Hi']. exists H'. rewrite Heq. split; [done|].
  pose proof (ci_deq _ _ _ _ _ Hi) as Hd. pose proof (ci_deq _ _ _ _ _ Hi') as Hd'.
  pose proof (rx_looks _ _ _ _ _ s' sp Hi Heq) as Hlook. rewrite Heq in Hlook. clear Heq s'. cbn [do_event] in *.
  destruct (rx_step sp (c_rx s) (c_pipe s)) as [p' o] eqn:Hs. apply rx_step_shape in Hs as (Hw & Hdeq & Hpark).
  assert (HH : dequeue_pos (core p') = dequeue_pos (core (c_pipe s)) -> H' = H).
  { intros He. destruct o as [[pc' x]| |]; cbn in Hd'; rewrite He, Hd in Hd'; by apply pos_word_inj in Hd' as [-> _]. }
  assert (Hsame : c_senders match o with
    | Val (pc', x) => mkConc p' (c_senders s) pc' (c_log s) (match x with Some x => c_received s ++ [x] | None => c_received s end)
    | _ => mkConc p' (c_senders s) RPanic (c_log s) (c_received s) end = c_senders s) by (by destruct o as [[]| |]).
  split; [by destruct o as [[]| |]|]. split; [exact Hsame|]. split.
  { intros Hf. destruct (Hpark Hf) as [_ ->]. done. }
  intros Hwait [Hlt Hnp]. rewrite Hsame in Hnp.
  assert (Hlt' : H' < claims s) by (by destruct o as [[]| |]). clear Hlt.
  destruct (finds_empty (c_rx s)) eqn:Hf.
  - destruct (Hpark eq_refl) as [-> _]. rewrite (HH eq_refl) in *. split; [|done].
    right. cbn. pose proof (ci_rx _ _ _ _ _ Hi) as Hl. pose proof (ci_bound _ _ _ _ _ Hi) as [Hb Hs]. unfold SAFE_CLAIMS in Hs.
    destruct (c_rx s) as [| |head v| | | | |] eqn:Hrx; try done. cbn in Hl, Hb. destruct Hl as ((b & ->) & [(r & Hr & ->)|(i & x & He & Hnp' & ->)]).
    + by exists (pos_word H b), r.
    + exfalso. assert (Hri : 0 <= i < 64) by (eapply flight_range; [exact Hi| |exact He]; rewrite Hrx; cbn; lia).
      cbn in Hf. by rewrite pos_word_pos, word_pos, dif_dequeue, Z.sub_diag in Hf by lia.
  - destruct Hwait as [Hw'|(head & r & Hr & Hrx)]; [done|]. exfalso. destruct Hdeq as [Hdeq|(slot & v & ->)]; [|done].
    rewrite (HH Hdeq) in *. apply Hlook; [by exists head, r|done].
Qed.
(** *** Every event *)

Definition wsafe (w : wconc) : Prop := claims (w_conc w) <= SAFE_CLAIMS.

(** The same memory, as far as [cinv] is concerned, with another cell. *)
Lemma cell_inv cap H ce cd s c :
  cinv cap H ce cd s -> cinv cap H ce cd (with_pipe (set_core (set_cons_wait c (core (c_pipe s))) (c_pipe s)) s).
Proof. intros []. by split. Qed.

Lemma recv_event_inv cap H ce cd w sp :
  winv cap H ce cd w -> exists H', winv cap H' ce cd (recv_event sp w).
Proof.
  intros [Hi Hrx Hal Hcl]. destruct w as [s tk closing]. unfold recv_event, cell in *. cbn [w_conc w_task w_closing] in *. destruct tk.
  - destruct (rx_alarm _ _ _ _ _ _ sp TRun closing Hi eq_refl) as (H' & Hi' & Hw & Hsame & Hidle & Hwait). exists H'.
    split; cbn [w_conc w_task w_closing].
    + done.
    + by destruct (finds_empty (c_rx s)); [intros _; apply Hidle|].
    + intros H1 H2. destruct (Hwait H1 H2) as [H3 H4]. unfold alarmed, cell in *. cbn [w_conc] in *.
      rewrite Hw, Hsame. by apply Hal.
    + unfold cell. cbn [w_conc]. by rewrite Hw.
  - exists H. unfold on_core, zoom, cons_wait_poll. destruct (wc_poll_wait (cons_wait (core (c_pipe s)))) as [c r] eqn:Hpoll.
    pose proof (cell_inv _ _ _ _ _ c Hi) as Hi'.
    assert (Hc : wc_closed c = wc_closed (cons_wait (core (c_pipe s))))
      by (rewrite <- (wc_poll_closed_same (cons_wait (core (c_pipe s)))); by rewrite Hpoll).
    destruct r as [|r]; cbn [fst snd]; (split; cbn [w_conc w_task w_closing]; [done|by auto| |by (unfold cell; cbn; rewrite Hc)]).
    + intros _ Hr. assert (Hwt : waiting H (mkWconc s TPark closing)) by (by left). destruct (Hal Hwt Hr) as [Hwk|Hn]; [|by right]. exfalso. apply Hwk. unfold cell. cbn. by rewrite Hpoll.
    + intros [Hw|(head & r' & _ & Hw)]; [done|]. cbn in Hw. by rewrite Hrx in Hw.
  - exists H. split; cbn [w_conc w_task w_closing]; try done.
    intros [Hw|(head & r' & _ & Hw)]; [done|]. cbn in Hw. by rewrite Hrx in Hw.
Qed.

(** An event that leaves the receiver, the log and the cell alone. *)
Lemma quiet_event cap H ce cd ce' s s' tk closing :
  winv cap H ce cd (mkWconc s tk closing) -> cinv cap H ce' cd s' -> c_rx s' = c_rx s -> c_log s' = c_log s ->
  cons_wait (core (c_pipe s')) = cons_wait (core (c_pipe s)) ->
  (pending (c_senders s') H <-> pending (c_senders s) H) ->
  (forall m, c_senders s !! m = Some SNotify -> c_senders s' !! m = Some SNotify) ->
  winv cap H ce' cd (mkWconc s' tk closing).
Proof.
  intros [Hi Hrx Hal Hcl] Hi' Er El Ec Hp Hn. unfold cell in *. cbn in *. split; cbn.
  - done.
  - by rewrite Er.
  - unfold waiting, head_ready, claims, alarmed, cell in *. cbn in *. rewrite Er, El, Ec, Hp. intros H1 H2.
    destruct (Hal H1 H2) as [|[m Hm]]; [by left|right]. exists m. auto.
  - unfold cell. cbn. by rewrite Ec.
Qed.

Lemma set_sender_notify s n pc pc' m :
  c_senders s !! n = Some pc -> pc <> SNotify -> c_senders s !! m = Some SNotify -> <[n := pc']> (c_senders s) !! m = Some SNotify.
Proof. intros Hn Hpc Hm. rewrite list_lookup_insert_ne; [done|]. intros ->. congruence. Qed.

Lemma wevent_inv cap H ce cd w ev :
  winv cap H ce cd w -> wsafe (do_wevent ev w) -> exists H' ce' cd', winv cap H' ce' cd' (do_wevent ev w).
Proof.
  intros Hw Hsafe. destruct w as [s tk closing]. destruct ev as [[n x|n sp|n|sp| |]|]; cbn [do_wevent w_conc w_task w_closing] in *; unfold wsafe in Hsafe; cbn [w_conc] in Hsafe.
  - exists H, ce, cd. cbn [do_event] in *. destruct (c_senders s !! n) as [[]|] eqn:Hn; try exact Hw.
    apply (quiet_event _ _ _ _ _ _ _ _ _ Hw); cbn; try done.
    + destruct Hw as [Hi _ _ _]. cbn in Hi. apply (sender_local_inv _ _ _ _ _ _ _ _ _ Hi Hn); cbn; auto. by split_and!.
    + by apply (pending_insert _ _ SIdle).
    + intros m. by apply (set_sender_notify _ _ SIdle).
  - exists H, ce, cd. destruct Hw as [Hi Hrx Hal Hcl]. cbn [w_conc w_task w_closing] in *. pose proof (sender_event_inv _ _ _ _ _ n sp Hi Hsafe) as Hi'.
    destruct (sender_alarm _ _ _ _ _ _ n sp tk closing closing Hi eq_refl Hi') as (Ha1 & Ha2 & Ha3).
    assert (Er : c_rx (do_event (EvStep n sp) s) = c_rx s)
      by (cbn [do_event]; destruct (c_senders s !! n); [|done]; by destruct (sender_step _ _ _) as [? [[]| |]]).
    split; cbn [w_conc w_task w_closing]; [done|by rewrite Er| |].
    + unfold waiting. cbn [w_conc w_task]. rewrite Er. intros H1 [H2|H2]%Ha2; [|done]. by apply Ha1, Hal.
    + unfold cell in *. cbn [w_conc w_closing] in *. intros Hcd. destruct (Hcl Hcd); [left; auto|by right].
  - exists H, ce, cd. cbn [do_event] in *. destruct (c_senders s !! n) as [[]|] eqn:Hn; try exact Hw.
    apply (quiet_event _ _ _ _ _ _ _ _ _ Hw); cbn; try done.
    + destruct Hw as [Hi _ _ _]. cbn in Hi. apply (sender_local_inv _ _ _ _ _ _ _ _ _ Hi Hn); cbn; auto. by split_and!.
    + by eapply pending_insert.
    + intros m. by eapply set_sender_notify.
  - destruct (recv_event_inv _ _ _ _ _ sp Hw) as [H' ?]. by exists H', ce, cd.
  - exists H, true, cd. apply (quiet_event _ _ _ _ _ _ _ _ _ Hw); cbn; try done. destruct Hw as [Hi _ _ _]. by eapply close_rx_inv.
  - exists H, ce, true. destruct Hw as [Hi Hrx Hal Hcl]. cbn in *. split; cbn; try done; [by eapply close_tx_inv|]. right. lia.
  - destruct closing as [|closing]; [by exists H, ce, cd|]. exists H, ce, cd. destruct Hw as [Hi Hrx Hal Hcl]. cbn in *.
    split; cbn; try done; [by apply (cell_inv _ _ _ _ _ (wc_close (cons_wait (core (c_pipe s)))))|..].
    + intros _ _. left. apply woken_closed. apply wc_close_closed.
    + left. apply wc_close_closed.
Qed.
Lemma wclaims_mono w ev : claims (w_conc w) <= claims (w_conc (do_wevent ev w)).
Proof.
  destruct ev as [[]|]; cbn [do_wevent w_conc]; try apply claims_mono; [|done|by destruct (w_closing w)].
  unfold recv_event. destruct (w_task w); [apply claims_mono| |done].
  by destruct (on_core cons_wait_poll (c_pipe (w_conc w))) as [? [[]| |]].
Qed.

Lemma wrun_inv evs cap n :
  0 <= cap <= 64 -> wsafe (wreach cap n evs) -> exists H ce cd, winv cap H ce cd (wreach cap n evs).
Proof.
  intros Hcap. unfold wreach, wrun. induction evs as [|ev evs IH] using rev_ind; intros Hsafe.
  - exists 0, false, false. split; cbn; [by apply conc_new_inv|done| |done].
    intros _ [Hlt _]. by unfold claims in Hlt.
  - rewrite foldl_app in *. cbn in *. destruct IH as (H & ce & cd & Hi).
    { unfold wsafe in *. etransitivity; [apply wclaims_mono|exact Hsafe]. }
    by eapply wevent_inv.
Qed.

Definition at_position (j : Z) pc : Prop := match pc with SClaimed _ _ t => t = j | _ => False end.
#[export] Instance at_position_dec j pc : Decision (at_position j pc).
Proof. destruct pc; cbn; apply _. Defined.
#[export] Instance pending_dec (l : list (sender_pc T)) j : Decision (pending l j).
Proof.
  destruct (decide (Exists (at_position j) l)) as [He|He]; [left|right].
  - apply Exists_exists in He as (pc & Hin & Hpc). destruct pc as [| | | | | | |i x t| | | |]; try done. cbn in Hpc. subst.
    apply list_elem_of_lookup in Hin as [m Hm]. by exists m, i, x.
  - intros (m & i & x & Hm). apply He, Exists_exists. eexists. split; [by eapply list_elem_of_lookup_2|done].
Defined.

(** C5: No wakeup is lost, over the first 960 messages.  Any number of senders, the receiver and
    the tasks that close the channel interleave their accesses in any order, and at most 960
    positions were claimed since the channel was made ([wsafe]; past position 1023 the ring
    is stuck, and the receiver may sleep with messages published).  Whenever the receiver's
    task sleeps, was not woken since, and nobody is about to wake it, it has not missed
    anything: the channel was not closed by the senders, and it has received every message
    for which a position was claimed, unless the sender of the next one has still to
    publish it. *)
Theorem no_lost_wakeup cap n evs :
  0 <= cap <= 64 -> wsafe (wreach cap n evs) ->
  w_task (wreach cap n evs) = TAsleep -> ~ woken (cell (wreach cap n evs)) ->
  (forall m, c_senders (w_conc (wreach cap n evs)) !! m <> Some SNotify) -> w_closing (wreach cap n evs) = 0%nat ->
  let s := w_conc (wreach cap n evs) in
  Z.land (dequeue_pos (core (c_pipe s))) CLOSED = 0 /\
  (c_received s = (c_log s).*2 \/ pending (c_senders s) (Z.of_nat (length (c_received s)))).
Proof.
  intros Hcap Hsafe Hasleep Hnw Hno Hcl. destruct (wrun_inv evs cap n Hcap Hsafe) as (H & ce & cd & [Hi Hrx Hal Hc]).
  set (w := wreach cap n evs) in *. clearbody w. cbn zeta.
  rewrite Hasleep in Hrx. specialize (Hrx ltac:(done)). pose proof (ci_bound _ _ _ _ _ Hi) as [Hb _].
  pose proof (ci_received _ _ _ _ _ Hi) as Hrec. rewrite Hrx in Hb, Hrec. cbn in Hb, Hrec. rewrite Z.sub_0_r in Hrec. split.
  - rewrite (ci_deq _ _ _ _ _ Hi), pos_word_closed. destruct cd; [|done]. exfalso.
    destruct (Hc eq_refl) as [Hwc|Hlt]; [by apply Hnw, woken_closed|lia].
  - unfold claims in Hb. destruct (decide (H < claims (w_conc w))) as [Hlt|Hge].
    + right. rewrite Hrec, length_take, length_fmap. replace (Z.of_nat _) with H by (unfold claims in Hlt; lia).
      destruct (decide (pending (c_senders (w_conc w)) H)) as [|Hnp]; [done|]. exfalso.
      destruct (Hal ltac:(left; by rewrite Hasleep) (conj Hlt Hnp)) as [|[m Hm]]; [done|by apply (Hno m)].
    + left. rewrite Hrec. apply firstn_all2. rewrite length_fmap. unfold claims in Hge. lia.
Qed.

(** ** The model is the code *)

(** The receiver alone. *)
Fixpoint polls (k : nat) (w : wconc) : wconc :=
  match k with O => w | S k => polls k (do_wevent (WEv (EvRecv false)) w) end.
Definition at_rx (r : rx_pc) p s : conc T E := mkConc p (c_senders s) r (c_log s) (c_received s).

Lemma polls_add j k w : polls (j + k) w = polls k (polls j w).
Proof. revert w. induction j as [|j IH]; intros w; [done|]. apply IH. Qed.

Lemma polls_rx k s p p' r r' closing :
  rx_step false r p = (p', Val (r', None)) ->
  polls (S k) (mkWconc (at_rx r p s) TRun closing) =
  polls k (mkWconc (at_rx r' p' s) (if finds_empty r then TPark else TRun) closing).
Proof. intros H. cbn [polls do_wevent]. unfold recv_event. cbn [w_conc w_task w_closing do_event c_pipe c_rx at_rx]. by rewrite H. Qed.

#[local] Arguments polls : simpl never.

Lemma solo_finds_empty s p p' closing :
  on_core try_dequeue p = (p', Val (Err TryRecvEmpty)) ->
  p' = p /\ polls 3 (mkWconc (at_rx RIdle p s) TRun closing) = mkWconc (at_rx RIdle p s) TPark closing.
Proof.
  intros H. unfold on_core, try_dequeue in H. run_M. destruct (slot_load _ (core p)) as [c [v| |]] eqn:Hv; try done.
  assert (Hc : c = core p) by (unfold slot_load in Hv; repeat case_match; run_M; by simplify_eq). subst c.
  set (head := dequeue_pos (core p)) in *.
  destruct (i16_wrapping_sub _ _ ?= 0) eqn:Hd; [|destruct (negb _) eqn:Hcl|done].
  - unfold dequeue_pos_cas, slot_store in H. run_M. repeat (case_match; run_M; simplify_eq).
  - destruct (close_reason_cases (core p)) as [[[e|] He]|He]; rewrite He in H; run_M; simplify_eq.
  - cbn in H. rewrite set_core_same in H. injection H as <-. split; [done|].
    rewrite (polls_rx 2 s p p RIdle (RLoop head)) by (cbn; unfold on_core; run_M; by rewrite set_core_same). cbn [finds_empty].
    rewrite (polls_rx 1 s p p (RLoop head) (RSeq head v)) by (cbn [rx_step]; unfold on_core, slot_of; run_M; rewrite Hv; cbn; by rewrite set_core_same).
    cbn [finds_empty]. rewrite (polls_rx 0 s p p (RSeq head v) RIdle) by (cbn [rx_step]; by rewrite Hd).
    cbn [finds_empty]. rewrite Hd. apply negb_false_iff in Hcl. by rewrite Hcl.
Qed.

(** Undisturbed, the events of a receiver that ends up asleep are one call of [poll_dequeue] that
    returns [Pending]. *)
Theorem solo_poll_sleeps s p p' closing :
  on_core poll_dequeue p = (p', Val Pending) ->
  exists k, polls k (mkWconc (at_rx RIdle p s) TRun closing) = mkWconc (at_rx RIdle p' s) TAsleep closing.
Proof.
  assert (Hpark : forall q q' r, on_core cons_wait_poll q = (q', Val r) ->
    polls 1 (mkWconc (at_rx RIdle q s) TPark closing) =
    mkWconc (at_rx RIdle q' s) (match r with Pending => TAsleep | _ => TRun end) closing).
  { intros q q' r Hq. unfold polls. cbn [do_wevent]. unfold recv_event. cbn [w_conc w_task w_closing c_pipe at_rx]. rewrite Hq. by destruct r. }
  assert (Hloop : forall fuel q q1 o, on_core (poll_dequeue_loop (S fuel)) q = (q1, Val o) -> o = Pending ->
    exists q2 r, on_core cons_wait_poll q = (q2, Val r) /\
      polls 4 (mkWconc (at_rx RIdle q s) TRun closing) = mkWconc (at_rx RIdle q2 s) (match r with Pending => TAsleep | _ => TRun end) closing /\
      match r with Pending => q1 = q2 | Ready _ => on_core (poll_dequeue_loop fuel) q2 = (q1, Val o) end).
  { intros fuel q q1 o Hq ->. unfold on_core, zoom in Hq. cbn [poll_dequeue_loop] in Hq. unfold mbind, M_bind in Hq.
    destruct (try_dequeue (core q)) as [c [r| |]] eqn:Hd; try done.
    assert (Hon : on_core try_dequeue q = (set_core c q, Val r)) by (unfold on_core, zoom; by rewrite Hd).
    destruct r as [res|[]]; try done. destruct (solo_finds_empty s q _ closing Hon) as [Hsame Hpoll].
    assert (Hc : c = core q) by (by apply (f_equal core) in Hsame). subst c.
    destruct (cons_wait_poll (core q)) as [c' [r'| |]] eqn:Hw; try done.
    exists (set_core c' q), r'. assert (Hon' : on_core cons_wait_poll q = (set_core c' q, Val r')) by (unfold on_core, zoom; by rewrite Hw).
    split; [done|]. split; [change 4%nat with (3 + 1)%nat; rewrite polls_add, Hpoll; by apply Hpark|].
    destruct r'; [by injection Hq|]. unfold on_core, zoom. cbn. destruct (poll_dequeue_loop fuel c') as [c2 o2]. by simplify_eq. }
  intros H. destruct (Hloop 1%nat p p' Pending H eq_refl) as (q & r & _ & Hp & Hr). destruct r as [|r]; [subst; by exists 4%nat|].
  destruct (Hloop 0%nat q p' Pending Hr eq_refl) as (q' & r' & _ & Hp' & Hr'). destruct r' as [|r']; [subst|by unfold on_core, zoom in Hr'].
  exists (4 + 4)%nat. by rewrite polls_add, Hp, Hp'.
Qed.
End Wait.
