(* ===== verification/ConcProgress.v ===== *)
(** Progress of the interleaved channel core: it is obstruction-free.

    From any state the system can reach, a sender that runs alone ends its call within eight
    accesses, and so does the receiver, wherever the other threads have stopped: nobody
    waits for a thread that was suspended in the middle of an operation.  (A spurious
    failure of a weak compare-exchange counts as disturbance.) *)
From S2P Require Import Prelude Interfaces Errors Core CoreWord Pipe CoreConc ConcSafety CoreWait.

Section Progress.
Context {PU : PackUsize} {IA : IndexAlloc} {IAL : IndexAllocLaws}.
Context {WCA : WaitCellApi} {WCL : WaitCellLaws} {WQA : WaitQueueApi}.
Context {T E : Type}.
Implicit Types (s : conc T E) (p : Pipe T E) (pc : sender_pc T).

Definition enq s : Z := enqueue_pos (core (c_pipe s)).
Definition deq s : Z := dequeue_pos (core (c_pipe s)).

(** ** A sender *)

(** Where an undisturbed access leads. *)
Definition next p pc pc' : Prop :=
  match pc with
  | SIdle => pc' = SIdle
  | SReserve x => pc' = SIdle \/ pc' = SAlloc x
  | SAlloc x => pc' = SIdle \/ exists i, pc' = SHave i x
  | SHave i x => pc' = SWritten i x
  | SWritten i x => pc' = SLoop i x (enqueue_pos (core p))
  | SLoop i x tail => pc' = SIdle \/ (Z.land tail CLOSED <> CLOSED /\
      exists v, pc' = SSeq i x tail v /\ queue (core p) !! Z.to_nat (slot_of tail) = Some v)
  | SSeq i x tail v =>
      (pc' = SWritten i x /\
         i16_wrapping_sub (as_i16 (u16_shr v POS_SHIFT)) (as_i16 (u16_shr tail POS_SHIFT)) ?= 0 = Gt) \/
      (pc' = SLoop i x (enqueue_pos (core p)) /\ tail <> enqueue_pos (core p)) \/ exists pos, pc' = SClaimed i x pos
  | SClaimed i x pos => pc' = SNotify
  | SNotify | SWakeTx => pc' = SIdle
  | SUncommit i => pc' = SWakeTx
  | SPanic => False
  end.

Lemma sender_step_next pc p p' pc' c :
  sender_step false pc p = (p', Val (pc', c)) -> pc' <> SPanic -> pc <> SPanic ->
  next p pc pc' /\ (enqueue_pos (core p') = enqueue_pos (core p) \/ exists i x pos, pc' = SClaimed i x pos) /\
  (queue (core p') = queue (core p) \/ pc' = SNotify).
Proof.
  intros H Hp Hp'. destruct pc as [|x|x|i x|i x|i x tail|i x tail v|i x t| |i| |]; cbn [sender_step next] in *;
    unfold on_core, elem_write, indices_allocate, enqueue_pos_cas, slot_load, slot_store in H; run_M;
    repeat (case_match; cbn in *; simplify_eq); simplify_eq/=; (split; [|split; by auto || (right; by eexists _, _, _)]); eauto 6;
    rewrite ?Z.eqb_neq in *; eauto 8.
Qed.

(** The state after an access of the sender [n], when it is [pc'] then. *)
Lemma alone_step cap H ce cd s n pc :
  cinv cap H ce cd s -> c_senders s !! n = Some pc ->
  claims s < SAFE_CLAIMS \/ ((forall i x tail v, pc <> SSeq i x tail v) /\ claims s <= SAFE_CLAIMS) ->
  exists pc', cinv cap H ce cd (do_event (EvStep n false) s) /\
    c_senders (do_event (EvStep n false) s) !! n = Some pc' /\ next (c_pipe s) pc pc' /\
    (queue (core (c_pipe (do_event (EvStep n false) s))) = queue (core (c_pipe s)) \/ pc' = SNotify) /\
    ((enq (do_event (EvStep n false) s) = enq s /\ claims (do_event (EvStep n false) s) = claims s) \/
     ((exists i x pos, pc' = SClaimed i x pos) /\ claims (do_event (EvStep n false) s) <= SAFE_CLAIMS)).
Proof.
  intros Hi Hn Hsafe. pose proof (ci_sender _ _ _ _ _ Hi _ _ Hn) as Hl.
  assert (Hcl : claims (do_event (EvStep n false) s) <= SAFE_CLAIMS /\
    ((forall i x tail v, pc <> SSeq i x tail v) -> claims (do_event (EvStep n false) s) = claims s)).
  { assert (Hle : claims s <= SAFE_CLAIMS) by (destruct Hsafe as [|[? ?]]; lia).
    cbn [do_event]. rewrite Hn. destruct (sender_step false pc (c_pipe s)) as [p' [[pc' c]| |]] eqn:Hs; [|by split..].
    apply sender_step_shape in Hs as (_ & Hc & _). destruct c as [[i x]|]; [|by split].
    destruct Hc as (_ & tail & v & -> & _). destruct Hsafe as [Hlt|[Hno _]]; [|by destruct (Hno i x tail v)].
    split; [|intros Hno; by destruct (Hno i x tail v)]. unfold claims in *. cbn. rewrite length_app. cbn. lia. }
  destruct Hcl as [Hcl Hsame]. pose proof (sender_event_inv _ _ _ _ _ n false Hi Hcl) as Hi'.
  cbn [do_event] in *. rewrite Hn in *. destruct (sender_step false pc (c_pipe s)) as [p' [[pc' c]| |]] eqn:Hs.
  2,3: exfalso; apply (ci_sender _ _ _ _ _ Hi' n SPanic); cbn; apply list_lookup_insert_eq; by eapply lookup_lt_Some.
  assert (Hat : <[n := pc']> (c_senders s) !! n = Some pc') by (apply list_lookup_insert_eq; by eapply lookup_lt_Some).
  exists pc'. split; [done|]. split; [done|].
  apply sender_step_next in Hs as (Hnext & Henq & Hqu); [|intros ->; by apply (ci_sender _ _ _ _ _ Hi' n SPanic)|by intros ->].
  split; [done|]. split; [done|].
  assert (Hcase : (exists i x pos, pc' = SClaimed i x pos) \/ enqueue_pos (core p') = enqueue_pos (core (c_pipe s))) by tauto.
  destruct Hcase as [Hc|He]; [by right|left]. split; [done|].
  pose proof (ci_enq _ _ _ _ _ Hi) as H1. pose proof (ci_enq _ _ _ _ _ Hi') as H2. cbn [c_pipe] in H2. rewrite He, H1 in H2.
  by apply pos_word_inj in H2 as [H2 _].
Qed.

(** The system after [k] accesses of the sender [n]; it is idle after at most [k] of them. *)
Fixpoint alone (k : nat) (n : nat) s : conc T E :=
  match k with O => s | S k => alone k n (do_event (EvStep n false) s) end.
Definition ends_in (k : nat) (n : nat) s : Prop := exists j, (j <= k)%nat /\ c_senders (alone j n s) !! n = Some SIdle.

Lemma ends_now k n s : c_senders s !! n = Some SIdle -> ends_in k n s.
Proof. intros H. exists 0%nat. split; [lia|done]. Qed.
Lemma ends_step k n s : ends_in k n (do_event (EvStep n false) s) -> ends_in (S k) n s.
Proof. intros (j & Hj & H). exists (S j). split; [lia|done]. Qed.
Lemma ends_more j k n s : (j <= k)%nat -> ends_in j n s -> ends_in k n s.
Proof. intros Hjk (i & Hi & H). exists i. split; [lia|done]. Qed.

(** The first access leads to [pc']. *)
Ltac first_step Hi Hn pc' Hi' Hn' Hnext :=
  let Hqu := fresh "Hqu" in let Hend := fresh "Hend" in
  destruct (alone_step _ _ _ _ _ _ _ Hi Hn) as (pc' & Hi' & Hn' & Hnext & Hqu & Hend); [first [by left|right; split; [done|lia]]|]; cbn in Hnext.

Lemma notify_ends cap H ce cd s n : cinv cap H ce cd s -> c_senders s !! n = Some SNotify -> ends_in 1 n s.
Proof.
  intros Hi Hn. pose proof (ci_bound _ _ _ _ _ Hi) as [_ Hs]. first_step Hi Hn pc' Hi' Hn' Hnext. subst pc'. by apply ends_step, ends_now.
Qed.
Lemma claimed_ends cap H ce cd s n i x t : cinv cap H ce cd s -> c_senders s !! n = Some (SClaimed i x t) -> ends_in 2 n s.
Proof.
  intros Hi Hn. pose proof (ci_bound _ _ _ _ _ Hi) as [_ Hs]. first_step Hi Hn pc' Hi' Hn' Hnext. subst pc'.
  by eapply ends_step, notify_ends.
Qed.

(** The slot of the next position to claim is free: nobody has published it. *)
Lemma tail_slot cap H ce cd s n pc i :
  cinv cap H ce cd s -> c_senders s !! n = Some pc -> owned pc = Some i ->
  exists r, 0 <= r < 64 /\ queue (core (c_pipe s)) !! Z.to_nat (claims s mod 64) = Some (word (claims s) r).
Proof.
  intros Hi Hn Ho. pose proof (owner_room _ _ _ _ _ _ _ _ Hi Hn Ho) as Hroom. pose proof (rx_phases (c_rx s)).
  pose proof (ci_cap _ _ _ _ _ Hi). pose proof (ci_bound _ _ _ _ _ Hi) as [Hb _].
  destruct (ci_slots _ _ _ _ _ Hi (claims s)) as [(j & x & He & _)|(_ & r & Hr & Hq)]; [lia| |by exists r].
  apply entry_range in He; [|lia]. unfold claims in He. lia.
Qed.

Section Room.
Variables (cap H : Z) (ce cd : bool) (n : nat).

Lemma fresh_seq_ends s i x v :
  cinv cap H ce cd s -> claims s < SAFE_CLAIMS -> c_senders s !! n = Some (SSeq i x (enq s) v) ->
  queue (core (c_pipe s)) !! Z.to_nat (slot_of (enq s)) = Some v -> ends_in 3 n s.
Proof.
  intros Hi Hs Hn Hv. first_step Hi Hn pc' Hi' Hn' Hnext. destruct Hnext as [[-> Hgt]|[[_ Hne]|(pos & ->)]]; [|done|].
  - exfalso. unfold enq in *. destruct (tail_slot _ _ _ _ _ _ _ i Hi Hn eq_refl) as (r & Hr & Hq).
    rewrite (ci_enq _ _ _ _ _ Hi), slot_of_pos_word, land_mask, Hq in Hv. injection Hv as <-.
    pose proof (ci_bound _ _ _ _ _ Hi) as [Hb _]. pose proof (rx_phases (c_rx s)). unfold SAFE_CLAIMS in *.
    rewrite (ci_enq _ _ _ _ _ Hi), pos_word_pos, word_pos, dif_small, Z.sub_diag in Hgt by lia. done.
  - by eapply ends_step, claimed_ends.
Qed.

Lemma fresh_loop_ends s i x :
  cinv cap H ce cd s -> claims s < SAFE_CLAIMS -> c_senders s !! n = Some (SLoop i x (enq s)) -> ends_in 4 n s.
Proof.
  intros Hi Hs Hn. first_step Hi Hn pc' Hi' Hn' Hnext. destruct Hnext as [->|(_ & v & -> & Hv)]; [by apply ends_step, ends_now|].
  destruct Hend as [[He Hc]|[(? & ? & ? & [=]) _]]. destruct Hqu as [Hq|[=]]. apply ends_step. rewrite <- He in Hn'.
  eapply fresh_seq_ends; [done|lia|done|]. by rewrite He, Hq.
Qed.

(** The next access neither claims nor publishes: the rest is as before. *)
Ltac go_on Hend := destruct Hend as [[? ?]|[(? & ? & ? & [=]) _]].

Lemma written_ends s i x :
  cinv cap H ce cd s -> claims s < SAFE_CLAIMS -> c_senders s !! n = Some (SWritten i x) -> ends_in 5 n s.
Proof.
  intros Hi Hs Hn. first_step Hi Hn pc' Hi' Hn' Hnext. subst pc'. go_on Hend. apply ends_step.
  apply (fresh_loop_ends _ i x); [done|lia|]. unfold enq in *. congruence.
Qed.

Lemma seq_ends s i x tail v :
  cinv cap H ce cd s -> claims s < SAFE_CLAIMS -> c_senders s !! n = Some (SSeq i x tail v) -> ends_in 6 n s.
Proof.
  intros Hi Hs Hn. first_step Hi Hn pc' Hi' Hn' Hnext. destruct Hnext as [[-> _]|[[-> _]|(pos & ->)]].
  - go_on Hend. apply ends_step. apply (written_ends _ i x); [done|lia|done].
  - go_on Hend. apply ends_step, (ends_more 4); [lia|]. apply (fresh_loop_ends _ i x); [done|lia|]. unfold enq in *. congruence.
  - apply ends_step, (ends_more 2); [lia|]. by eapply claimed_ends.
Qed.

Lemma loop_ends s i x tail :
  cinv cap H ce cd s -> claims s < SAFE_CLAIMS -> c_senders s !! n = Some (SLoop i x tail) -> ends_in 7 n s.
Proof.
  intros Hi Hs Hn. first_step Hi Hn pc' Hi' Hn' Hnext. destruct Hnext as [->|(_ & v & -> & _)]; [by apply ends_step, ends_now|].
  go_on Hend. apply ends_step. apply (seq_ends _ i x tail v); [done|lia|done].
Qed.

Lemma have_ends s i x :
  cinv cap H ce cd s -> claims s < SAFE_CLAIMS -> c_senders s !! n = Some (SHave i x) -> ends_in 6 n s.
Proof.
  intros Hi Hs Hn. first_step Hi Hn pc' Hi' Hn' Hnext. subst pc'. go_on Hend. apply ends_step.
  apply (written_ends _ i x); [done|lia|done].
Qed.

Lemma alloc_ends s x :
  cinv cap H ce cd s -> claims s < SAFE_CLAIMS -> c_senders s !! n = Some (SAlloc x) -> ends_in 7 n s.
Proof.
  intros Hi Hs Hn. first_step Hi Hn pc' Hi' Hn' Hnext. destruct Hnext as [->|(i & ->)]; [by apply ends_step, ends_now|].
  go_on Hend. apply ends_step. apply (have_ends _ i x); [done|lia|done].
Qed.

Lemma sender_ends s pc : cinv cap H ce cd s -> claims s < SAFE_CLAIMS -> c_senders s !! n = Some pc -> ends_in 8 n s.
Proof.
  intros Hi Hs Hn. destruct pc as [|x|x|i x|i x|i x tail|i x tail v|i x t| |i| |].
  - by apply ends_now.
  - first_step Hi Hn pc' Hi' Hn' Hnext. destruct Hnext as [->| ->]; [by apply ends_step, ends_now|].
    go_on Hend. apply ends_step. apply (alloc_ends _ x); [done|lia|done].
  - apply (ends_more 7); [lia|]. by eapply alloc_ends.
  - apply (ends_more 6); [lia|]. by eapply have_ends.
  - apply (ends_more 5); [lia|]. by eapply written_ends.
  - apply (ends_more 7); [lia|]. by eapply loop_ends.
  - apply (ends_more 6); [lia|]. by eapply seq_ends.
  - apply (ends_more 2); [lia|]. by eapply claimed_ends.
  - apply (ends_more 1); [lia|]. by eapply notify_ends.
  - first_step Hi Hn pc' Hi' Hn' Hnext. subst pc'. go_on Hend. apply ends_step.
    clear Hi Hn. first_step Hi' Hn' pc'' Hi'' Hn'' Hnext'. subst. by apply ends_step, ends_now.
  - first_step Hi Hn pc' Hi' Hn' Hnext. subst pc'. by apply ends_step, ends_now.
  - by apply (ci_sender _ _ _ _ _ Hi) in Hn.
Qed.
End Room.

(** ** The receiver *)

Definition rx_next p (r r' : rx_pc) : Prop :=
  match r with
  | RIdle => r' = RLoop (dequeue_pos (core p))
  | RLoop head => exists v, r' = RSeq head v
  | RSeq head v => r' = RIdle \/ (exists slot w, r' = RClaimed slot w) \/ (r' = RLoop (dequeue_pos (core p)) /\ head <> dequeue_pos (core p))
  | RClaimed _ _ => exists i, r' = RGot i
  | RGot i => r' = RFree i
  | RFree _ => r' = RWake
  | RWake => r' = RIdle
  | RPanic => False
  end.

Lemma rx_step_next r p p' r' c :
  rx_step false r p = (p', Val (r', c)) -> r' <> RPanic -> r <> RPanic ->
  rx_next p r r' /\ (dequeue_pos (core p') = dequeue_pos (core p) \/ exists slot w, r' = RClaimed slot w).
Proof.
  intros H Hp Hp'. destruct r as [|hd|hd v|slot v|i|i| |]; cbn [rx_step rx_next] in *;
    unfold on_core, dequeue_pos_cas, slot_load, slot_store, elem_read in H; run_M;
    repeat (case_match; cbn in *; simplify_eq); simplify_eq/=; (split; [|by auto || (right; by eexists _, _)]); eauto;
    rewrite ?Z.eqb_neq in *; eauto 6.
Qed.

Lemma rx_alone_step cap H ce cd s :
  cinv cap H ce cd s -> exists r' H', cinv cap H' ce cd (do_event (EvRecv false) s) /\ c_rx (do_event (EvRecv false) s) = r' /\
    rx_next (c_pipe s) (c_rx s) r' /\ (deq (do_event (EvRecv false) s) = deq s \/ exists slot w, r' = RClaimed slot w).
Proof.
  intros Hi. destruct (rx_event_inv _ _ _ _ _ false Hi) as [H' Hi']. exists (c_rx (do_event (EvRecv false) s)), H'.
  split; [done|]. split; [done|]. pose proof (ci_rx _ _ _ _ _ Hi) as Hl. pose proof (ci_rx _ _ _ _ _ Hi') as Hl'.
  cbn [do_event] in *. destruct (rx_step false (c_rx s) (c_pipe s)) as [p' [[r' c]| |]] eqn:Hs; [|done..].
  apply rx_step_next in Hs; [done|..]; cbn in *; [by intros -> | by intros Hr; rewrite Hr in Hl].
Qed.

Fixpoint rx_alone (k : nat) s : conc T E := match k with O => s | S k => rx_alone k (do_event (EvRecv false) s) end.
Definition rx_ends_in (k : nat) s : Prop := exists j, (j <= k)%nat /\ c_rx (rx_alone j s) = RIdle.

Lemma rx_ends_step k s : rx_ends_in k (do_event (EvRecv false) s) -> rx_ends_in (S k) s.
Proof. intros (j & Hj & H). exists (S j). split; [lia|done]. Qed.
Lemma rx_ends_more j k s : (j <= k)%nat -> rx_ends_in j s -> rx_ends_in k s.
Proof. intros Hjk (i & Hi & H). exists i. split; [lia|done]. Qed.

(** Once the receiver has claimed a position. *)
Lemma rx_claimed_ends cap H ce cd s :
  cinv cap H ce cd s ->
  match c_rx s with RWake => rx_ends_in 1 s | RFree _ => rx_ends_in 2 s | RGot _ => rx_ends_in 3 s | RClaimed _ _ => rx_ends_in 4 s | _ => True end.
Proof.
  assert (Hnow : forall k s, c_rx s = RIdle -> rx_ends_in k s) by (intros k s0 H0; exists 0%nat; split; [lia|done]).
  assert (H1 : forall H s, cinv cap H ce cd s -> c_rx s = RWake -> rx_ends_in 1 s).
  { intros G s0 Hi Hr. destruct (rx_alone_step _ _ _ _ _ Hi) as (r' & G' & Hi' & Hr' & Hn & _). rewrite Hr in Hn. cbn in Hn. subst. by apply rx_ends_step, Hnow. }
  assert (H2 : forall H s i, cinv cap H ce cd s -> c_rx s = RFree i -> rx_ends_in 2 s).
  { intros G s0 i Hi Hr. destruct (rx_alone_step _ _ _ _ _ Hi) as (r' & G' & Hi' & Hr' & Hn & _). rewrite Hr in Hn. cbn in Hn. subst. by eapply rx_ends_step, H1. }
  assert (H3 : forall H s i, cinv cap H ce cd s -> c_rx s = RGot i -> rx_ends_in 3 s).
  { intros G s0 i Hi Hr. destruct (rx_alone_step _ _ _ _ _ Hi) as (r' & G' & Hi' & Hr' & Hn & _). rewrite Hr in Hn. cbn in Hn. subst. by eapply rx_ends_step, H2. }
  intros Hi. destruct (c_rx s) eqn:Hr; eauto.
  destruct (rx_alone_step _ _ _ _ _ Hi) as (r' & G' & Hi' & Hr' & Hn & _). rewrite Hr in Hn. destruct Hn as [i Hn].
  eapply rx_ends_step, H3; [exact Hi'|by rewrite Hr'].
Qed.

Lemma rx_fresh_ends cap H ce cd s :
  cinv cap H ce cd s ->
  (forall v, c_rx s = RSeq (deq s) v -> rx_ends_in 5 s) /\ (c_rx s = RLoop (deq s) -> rx_ends_in 6 s).
Proof.
  assert (Hseq : forall H s v, cinv cap H ce cd s -> c_rx s = RSeq (deq s) v -> rx_ends_in 5 s).
  { intros G s0 v Hi Hr. destruct (rx_alone_step _ _ _ _ _ Hi) as (r' & G' & Hi' & Hr' & Hn & _). rewrite Hr in Hn.
    apply rx_ends_step. destruct Hn as [->|[(slot & w & ->)|[_ Hne]]]; [exists 0%nat; split; [lia|done]| |done].
    pose proof (rx_claimed_ends _ _ _ _ _ Hi') as Hc. by rewrite Hr' in Hc. }
  intros Hi. split; [intros v; by eapply Hseq|]. intros Hr.
  destruct (rx_alone_step _ _ _ _ _ Hi) as (r' & G' & Hi' & Hr' & Hn & Hd). rewrite Hr in Hn. destruct Hn as [v ->].
  destruct Hd as [Hd|(? & ? & [=])]. eapply rx_ends_step, Hseq; [exact Hi'|]. rewrite Hd. exact Hr'.
Qed.

Lemma rx_ends cap H ce cd s : cinv cap H ce cd s -> rx_ends_in 8 s.
Proof.
  assert (Hseq : forall H s head v, cinv cap H ce cd s -> c_rx s = RSeq head v -> rx_ends_in 7 s).
  { intros G s0 head v Hi Hr. destruct (rx_alone_step _ _ _ _ _ Hi) as (r' & G' & Hi' & Hr' & Hn & Hd). rewrite Hr in Hn.
    apply rx_ends_step. destruct Hn as [->|[(slot & w & ->)|[-> _]]]; [exists 0%nat; split; [lia|done]|..].
    - pose proof (rx_claimed_ends _ _ _ _ _ Hi') as Hc. rewrite Hr' in Hc. apply (rx_ends_more 4); [lia|done].
    - destruct Hd as [Hd|(? & ? & [=])]. apply (rx_fresh_ends _ _ _ _ _ Hi'). rewrite Hd. exact Hr'. }
  intros Hi. pose proof (rx_claimed_ends _ _ _ _ _ Hi) as Hc. destruct (c_rx s) as [|head|head v|slot v|i|i| |] eqn:Hr.
  - exists 0%nat. split; [lia|done].
  - destruct (rx_alone_step _ _ _ _ _ Hi) as (r' & G' & Hi' & Hr' & Hn & _). rewrite Hr in Hn. destruct Hn as [v ->].
    by eapply rx_ends_step, Hseq.
  - apply (rx_ends_more 7); [lia|]. by eapply Hseq.
  - apply (rx_ends_more 4); [lia|done].
  - apply (rx_ends_more 3); [lia|done].
  - apply (rx_ends_more 2); [lia|done].
  - apply (rx_ends_more 1); [lia|done].
  - pose proof (ci_rx _ _ _ _ _ Hi) as Hl. by rewrite Hr in Hl.
Qed.

Abbreviation reach := (ConcSafety.reach (E := E)).

(** C8: Nobody waits for a thread that has stopped: the channel is obstruction-free.  From any state
    the system can reach with fewer than 960 claims, in whatever place the other threads are
    suspended, a sender that runs alone is done with its call within eight accesses, and so
    is the receiver. *)
Theorem obstruction_free cap n evs :
  0 <= cap <= 64 -> claims (reach cap n evs) < SAFE_CLAIMS ->
  (forall m pc, c_senders (reach cap n evs) !! m = Some pc ->
     exists k, (k <= 8)%nat /\ c_senders (reach cap n (evs ++ replicate k (EvStep m false))) !! m = Some SIdle) /\
  (exists k, (k <= 8)%nat /\ c_rx (reach cap n (evs ++ replicate k (EvRecv false))) = RIdle).
Proof.
  intros Hcap Hs. unfold ConcSafety.reach in *.
  destruct (run_inv (E := E) evs cap n Hcap) as (H & ce & cd & Hi); [by apply Z.lt_le_incl|]. split.
  - intros m pc Hm. destruct (sender_ends cap H ce cd m _ pc Hi Hs Hm) as (k & Hk & He). exists k. split; [done|].
    rewrite run_app. clear -He. revert He. generalize (run evs (conc_new cap n) : conc T E).
    induction k as [|k IH]; intros s He; [done|]. by apply IH.
  - destruct (rx_ends _ _ _ _ _ Hi) as (k & Hk & He). exists k. split; [done|].
    rewrite run_app. clear -He. revert He. generalize (run evs (conc_new cap n) : conc T E).
    induction k as [|k IH]; intros s He; [done|]. by apply IH.
Qed.
End Progress.
