(* ===== verification/ConcRefine.v ===== *)
(** The interleaved channel core implements a bounded channel with permits.

    The specification ([spec_step]) is a state of a few numbers and a list: permits taken,
    messages in order, each published or not, whether the receiver still holds the
    place of the message it read, and places lost for good.  Every access of the
    threads of [CoreConc] is one step of the specification, or none: the channel is
    linearizable, except that the receiver may find nothing while the message at the
    head is claimed and not published ([Nothing]). *)
From S2P Require Import Prelude Interfaces Errors Core CoreWord Pipe CoreConc ConcSafety CoreWait.

(** ** The specification *)

Section Spec.
Context {T : Type}.

Record channel := mkChannel {
  ch_permits : nat;               (* indices held by senders *)
  ch_messages : list (T * bool);  (* claimed, in order; published or not *)
  ch_held : bool;                 (* the receiver has read a message, not yet freed its index *)
  ch_lost : nat;                  (* indices of permits that met a closed channel *)
}.
Definition used (c : channel) : nat :=
  ch_permits c + length (ch_messages c) + (if ch_held c then 1 else 0) + ch_lost c.

Inductive label : Type :=
| Reserve | Full | Release | Forget
| Send (x : T) | Publish (k : nat)
| Recv (x : T) | Nothing | Free.

Inductive spec_step (cap : Z) : channel -> label -> channel -> Prop :=
| spec_reserve n q h l :
    Z.of_nat (used (mkChannel n q h l)) < cap ->
    spec_step cap (mkChannel n q h l) Reserve (mkChannel (S n) q h l)
| spec_full c : Z.of_nat (used c) = cap -> spec_step cap c Full c
| spec_release n q h l : spec_step cap (mkChannel (S n) q h l) Release (mkChannel n q h l)
| spec_forget n q h l : spec_step cap (mkChannel (S n) q h l) Forget (mkChannel n q h (S l))
| spec_send n q h l x : spec_step cap (mkChannel (S n) q h l) (Send x) (mkChannel n (q ++ [(x, false)]) h l)
| spec_publish n q h l k x :
    q !! k = Some (x, false) ->
    spec_step cap (mkChannel n q h l) (Publish k) (mkChannel n (<[k := (x, true)]> q) h l)
| spec_recv n q l x : spec_step cap (mkChannel n ((x, true) :: q) false l) (Recv x) (mkChannel n q true l)
| spec_nothing c :
    match ch_messages c with (_, true) :: _ => False | _ => True end -> spec_step cap c Nothing c
| spec_free n q l : spec_step cap (mkChannel n q true l) Free (mkChannel n q false l).

Inductive spec_run (cap : Z) : channel -> list label -> channel -> Prop :=
| spec_nil c : spec_run cap c [] c
| spec_cons c l c' ls c'' : spec_step cap c l c' -> spec_run cap c' ls c'' -> spec_run cap c (l :: ls) c''.

Definition channel_new : channel := mkChannel 0 [] false 0.

Lemma spec_run_app cap c ls c' ls' c'' :
  spec_run cap c ls c' -> spec_run cap c' ls' c'' -> spec_run cap c (ls ++ ls') c''.
Proof. induction 1; [done|]. intros. econstructor; eauto. Qed.
Lemma spec_run_one cap c l c' : spec_step cap c l c' -> spec_run cap c [l] c'.
Proof. intros. repeat econstructor; eauto. Qed.

(** What a run of the specification sends, receives, and loses. *)
Definition sent (ls : list label) : list T := omap (fun l => match l with Send x => Some x | _ => None end) ls.
Definition got (ls : list label) : list T := omap (fun l => match l with Recv x => Some x | _ => None end) ls.
Definition is_forget (l : label) : bool := match l with Forget => true | _ => false end.
Definition forgotten (ls : list label) : nat := length (filter is_forget ls).
Lemma forgotten_app ls ls' : forgotten (ls ++ ls') = (forgotten ls + forgotten ls')%nat.
Proof. unfold forgotten. by rewrite filter_app, length_app. Qed.

(** The specification is first in, first out, and never holds more than its capacity. *)
Lemma spec_fifo cap c ls c' :
  spec_run cap c ls c' -> (ch_messages c).*1 ++ sent ls = got ls ++ (ch_messages c').*1.
Proof.
  induction 1 as [c|c a c' ls c'' Hs _ IH]; cbn; [by rewrite app_nil_r|].
  destruct Hs; cbn in *; try exact IH; fold (sent ls) (got ls).
  - rewrite <- IH, fmap_app, <- app_assoc. done.
  - rewrite <- IH. f_equal. apply list_eq. intros j. rewrite !list_lookup_fmap. destruct (decide (j = k)) as [->|].
    + rewrite list_lookup_insert_eq by (by eapply lookup_lt_Some). by rewrite H.
    + by rewrite list_lookup_insert_ne.
  - by rewrite <- IH.
Qed.
Lemma spec_bounded cap c ls c' :
  spec_run cap c ls c' -> Z.of_nat (used c) <= cap -> Z.of_nat (used c') <= cap.
Proof.
  induction 1 as [|c a c' ls c'' Hs _ IH]; [done|]. intros Hc. apply IH. clear IH.
  destruct Hs; unfold used in *; cbn in *; rewrite ?length_app, ?length_insert in *; cbn; lia.
Qed.
End Spec.
#[global] Arguments channel : clear implicits.
#[global] Arguments label : clear implicits.

(** ** The implementation *)

Section Refine.
Context {PU : PackUsize} {IA : IndexAlloc} {IAL : IndexAllocLaws}.
Context {WCA : WaitCellApi} {WQA : WaitQueueApi}.
Context {T E : Type}.
Implicit Types (s : conc T E) (p : Pipe T E) (pc : sender_pc T) (l : list (sender_pc T)).

(** *** Abstraction *)

Definition claims_at (j : nat) pc : bool := match pc with SClaimed _ _ t => t =? Z.of_nat j | _ => false end.
Definition published l (j : nat) : bool := negb (existsb (claims_at j) l).
(** The messages from position [from] on. *)
Definition messages l (log : list (Z * T)) (from : nat) : list (T * bool) :=
  imap (fun k e => (e.2, published l (from + k))) (drop from log).
Definition held (r : rx_pc) : bool := match r with RFree _ => true | _ => false end.
Definition permits l : nat := length (omap owned l).
#[local] Arguments messages : simpl never.
#[local] Arguments permits : simpl never.
Definition abs s (lost : nat) : channel T :=
  mkChannel (permits (c_senders s)) (messages (c_senders s) (c_log s) (length (c_received s)))
    (held (c_rx s)) lost.

(** *** The step an access is *)

Definition sender_label (received : nat) pc pc' : list (label T) :=
  match pc, pc' with
  | SAlloc _, SHave _ _ => [Reserve]
  | SAlloc _, _ => [Full]
  | SLoop _ _ _, SIdle => [Forget]
  | SSeq _ x _ _, SClaimed _ _ _ => [Send x]
  | SClaimed _ _ t, _ => [Publish (Z.to_nat t - received)]
  | SUncommit _, _ => [Release]
  | _, _ => []
  end.
Definition finds_nothing (r : rx_pc) : bool :=
  match r with
  | RSeq head v => i16_wrapping_sub (as_i16 (u16_shr v POS_SHIFT)) (as_i16 (u16_wrapping_add (u16_shr head POS_SHIFT) 1)) <? 0
  | _ => false
  end.
Definition is_RLoop (r : rx_pc) : bool := match r with RLoop _ => true | _ => false end.
Definition rx_label (r r' : rx_pc) (o : option T) : list (label T) :=
  match r, o with
  | RLoop _, _ => if finds_nothing r' then [Nothing] else []
  | RGot _, Some x => [Recv x]
  | RFree _, _ => [Free]
  | _, _ => []
  end.
Definition event_label (ev : event T) s : list (label T) :=
  match ev with
  | EvStep n spurious =>
      match c_senders s !! n with
      | None => []
      | Some pc =>
          match sender_step spurious pc (c_pipe s) with
          | (_, Val (pc', _)) => sender_label (length (c_received s)) pc pc'
          | _ => []
          end
      end
  | EvRecv spurious =>
      match rx_step spurious (c_rx s) (c_pipe s) with
      | (_, Val (r', o)) => rx_label (c_rx s) r' o
      | _ => []
      end
  | _ => []
  end.
Fixpoint history (evs : list (event T)) s : list (label T) :=
  match evs with [] => [] | ev :: evs => event_label ev s ++ history evs (do_event ev s) end.

(** *** Counting *)

Lemma count_insert l n pc pc' :
  l !! n = Some pc ->
  (permits (<[n := pc']> l) + (if owned pc then 1 else 0) =
   permits l + (if owned pc' then 1 else 0))%nat.
Proof.
  intros Hn. pose proof (lookup_lt_Some _ _ _ Hn). unfold permits. rewrite insert_take_drop by done.
  rewrite <- (take_drop_middle l n pc Hn) at 3. rewrite !omap_app, !length_app. cbn.
  destruct (owned pc), (owned pc'); cbn; lia.
Qed.

Lemma messages_lookup l log from k :
  messages l log from !! k = (fun e => (e.2, published l (from + k))) <$> log !! (from + k)%nat.
Proof. unfold messages. by rewrite list_lookup_imap, lookup_drop. Qed.
Lemma length_messages l log from : length (messages l log from) = (length log - from)%nat.
Proof. unfold messages. by rewrite length_imap, length_drop. Qed.

Lemma published_insert l n pc pc' j :
  l !! n = Some pc -> claims_at j pc = claims_at j pc' -> published (<[n := pc']> l) j = published l j.
Proof.
  intros Hn He. pose proof (lookup_lt_Some _ _ _ Hn). unfold published. rewrite insert_take_drop by done.
  rewrite <- (take_drop_middle l n pc Hn) at 3. rewrite !existsb_app. cbn. by rewrite He.
Qed.
Lemma published_spec l j : published l j = false <-> pending l (Z.of_nat j).
Proof.
  unfold published, pending. rewrite negb_false_iff, existsb_exists. split.
  - intros (pc & Hin & Hc). apply list_elem_of_In, list_elem_of_lookup in Hin as [n Hn].
    destruct pc; try done. cbn in Hc. apply Z.eqb_eq in Hc as ->. by eexists _, _, _.
  - intros (n & i & x & Hn). eexists. split; [by eapply list_elem_of_In, list_elem_of_lookup_2|]. cbn. lia.
Qed.

(** The messages do not change when the same positions are pending. *)
Lemma messages_ext l l' log from :
  (forall j, (from <= j)%nat -> published l' j = published l j) -> messages l' log from = messages l log from.
Proof.
  intros H. apply list_eq. intros k. rewrite !messages_lookup. destruct (log !! (from + k)%nat); cbn; [|done].
  by rewrite H by lia.
Qed.

Lemma received_length cap H ce cd s :
  cinv cap H ce cd s -> length (c_received s) = Z.to_nat (H - to_read (c_rx s)).
Proof.
  intros Hi. pose proof (ci_bound _ _ _ _ _ Hi) as [Hb _]. pose proof (rx_phases (c_rx s)). unfold claims in *.
  rewrite (ci_received _ _ _ _ _ Hi), length_take, length_fmap. lia.
Qed.

(** Every index that is allocated is accounted for. *)
Definition counted s (lost : nat) : Prop := used (abs s lost) = size (ia_allocated (indices (core (c_pipe s)))).

Lemma allocated_bound cap H ce cd s :
  cinv cap H ce cd s -> Z.of_nat (size (ia_allocated (indices (core (c_pipe s))))) <= cap.
Proof.
  intros Hi. pose proof (ci_cap _ _ _ _ _ Hi). unfold size, set_size. cbn.
  etransitivity; [apply (nodup_bound _ cap)|lia]; [apply NoDup_elements|].
  intros i Hin%elem_of_elements. by apply (ci_range _ _ _ _ _ Hi).
Qed.

(** *** Every access is a step *)

Definition refines (cap : Z) (s s' : conc T E) (ls : list (label T)) (lost : nat) : Prop :=
  spec_run cap (abs s lost) ls (abs s' (lost + forgotten ls)) /\ counted s' (lost + forgotten ls).

(** An access that changes neither the number of permits nor the messages. *)
Lemma quiet_refines cap s s' lost :
  abs s' lost = abs s lost -> ia_allocated (indices (core (c_pipe s'))) = ia_allocated (indices (core (c_pipe s))) ->
  counted s lost -> refines cap s s' [] lost.
Proof.
  intros Ha Hia Hc. unfold refines, counted in *. cbn -[used]. rewrite Nat.add_0_r, Ha, Hia. split; [apply spec_nil|done].
Qed.

Lemma sender_quiet s n pc pc' p' lost :
  c_senders s !! n = Some pc -> (if owned pc then 1 else 0)%nat = (if owned pc' then 1 else 0)%nat ->
  claiming pc = false -> claiming pc' = false ->
  abs (with_sender n pc' p' s) lost = abs s lost.
Proof.
  intros Hn Ho Hc Hc'. unfold abs. cbn. pose proof (count_insert _ _ _ pc' Hn). f_equal; [lia|].
  apply messages_ext. intros j _. apply (published_insert _ _ pc); [done|].
  by destruct pc, pc'.
Qed.

(** What an access of a sender does, by the label it has. *)
Lemma sender_step_label sp pc p p' pc' c k :
  sender_step sp pc p = (p', Val (pc', c)) -> pc' <> SPanic ->
  c = match pc, pc' with SSeq i x _ _, SClaimed _ _ _ => Some (i, x) | _, _ => None end /\
  match sender_label k pc pc' with
  | [] => (if owned pc then 1 else 0)%nat = (if owned pc' then 1 else 0)%nat /\ claiming pc = false /\ claiming pc' = false
  | [Reserve] => exists i x, pc = SAlloc x /\ pc' = SHave i x /\
      ia_allocate (indices (core p)) = (indices (core p'), Some i)
  | [Full] => exists x, pc = SAlloc x /\ pc' = SIdle /\ ia_allocate (indices (core p)) = (indices (core p'), None)
  | [Forget] => exists i x tail, pc = SLoop i x tail /\ pc' = SIdle
  | [Release] => exists i, pc = SUncommit i /\ pc' = SWakeTx /\ indices (core p') = ia_free (indices (core p)) i
  | [Send x] => exists i tail v t, pc = SSeq i x tail v /\ pc' = SClaimed i x t
  | [Publish _] => exists i x t, pc = SClaimed i x t /\ pc' = SNotify
  | _ => True
  end /\
  match pc with
  | SAlloc _ | SUncommit _ => True
  | _ => ia_allocated (indices (core p')) = ia_allocated (indices (core p))
  end.
Proof.
  intros H Hp. destruct pc as [|x|x|i x|i x|i x tail|i x tail v|i x t| |i| |]; cbn [sender_step] in H;
    unfold on_core, elem_write, indices_allocate, indices_free, enqueue_pos_cas, slot_load, slot_store in H; run_M;
    repeat (case_match; cbn in *; simplify_eq); simplify_eq/=; split_and!; eauto 8.
Qed.

(** A step of the specification, and the indices that go with it. *)
Lemma step_refines cap s s' (a : label T) lost lost' :
  (lost + if is_forget a then 1 else 0)%nat = lost' ->
  spec_step cap (abs s lost) a (abs s' lost') -> counted s' lost' -> refines cap s s' [a] lost.
Proof.
  intros <- Hs Hc. assert (Hf : forgotten [a] = if is_forget a then 1%nat else 0%nat) by (by destruct a).
  unfold refines. rewrite Hf. by split; [apply spec_run_one|].
Qed.

Section Sender.
Context (cap H : Z) (ce cd : bool) (s : conc T E) (n lost : nat).
Hypotheses (Hi : cinv cap H ce cd s) (Hc : counted s lost).

(** The messages when a sender moves from [pc] to [pc'], neither claiming. *)
Lemma messages_quiet pc pc' :
  c_senders s !! n = Some pc -> claiming pc = false -> claiming pc' = false ->
  messages (<[n := pc']> (c_senders s)) (c_log s) (length (c_received s)) =
  messages (c_senders s) (c_log s) (length (c_received s)).
Proof. intros Hn Hcl Hcl'. apply messages_ext. intros j _. apply (published_insert _ _ pc); [done|]. by destruct pc, pc'. Qed.

Lemma reserve_refines p' i x :
  c_senders s !! n = Some (SAlloc x) -> ia_allocate (indices (core (c_pipe s))) = (indices (core p'), Some i) ->
  cinv cap H ce cd (with_sender n (SHave i x) p' s) -> refines cap s (with_sender n (SHave i x) p' s) [Reserve] lost.
Proof.
  intros Hn Ha Hi'. apply ia_allocate_some in Ha as (_ & Hni & Hal & _).
  pose proof (count_insert _ _ _ (SHave i x) Hn) as Hk. cbn in Hk.
  assert (Hc' : counted (with_sender n (SHave i x) p' s) lost).
  { unfold counted, used, abs in *. cbn in *. rewrite (messages_quiet (SAlloc x)), Hal by done.
    rewrite size_union, size_singleton by set_solver. lia. }
  apply (step_refines _ _ _ _ _ lost); [cbn; lia| |exact Hc'].
  pose proof (allocated_bound _ _ _ _ _ Hi') as Hb. rewrite <- Hc' in Hb.
  unfold abs, used in *. cbn in *. rewrite (messages_quiet (SAlloc x)) in * by done.
  replace (permits (<[n:=SHave i x]> (c_senders s))) with (S (permits (c_senders s))) in * by lia.
  apply spec_reserve. unfold used. cbn. lia.
Qed.

Lemma full_refines p' x :
  c_senders s !! n = Some (SAlloc x) -> ia_allocate (indices (core (c_pipe s))) = (indices (core p'), None) ->
  refines cap s (with_sender n SIdle p' s) [Full] lost.
Proof.
  intros Hn Ha. apply ia_allocate_none in Ha as (Hall & Hal & _).
  assert (Habs : abs (with_sender n SIdle p' s) lost = abs s lost) by (by apply (sender_quiet _ _ (SAlloc x))).
  apply (step_refines _ _ _ _ _ lost); [cbn; lia| |unfold counted; by rewrite Habs, Hc, <- Hal].
  rewrite Habs. apply spec_full. unfold counted in Hc. rewrite Hc. pose proof (allocated_bound _ _ _ _ _ Hi).
  pose proof (ci_cap _ _ _ _ _ Hi). rewrite (ci_iacap _ _ _ _ _ Hi) in Hall.
  assert (Hsub : list_to_set (seqZ 0 cap) ⊆ ia_allocated (indices (core (c_pipe s)))).
  { intros i Hin%elem_of_list_to_set%elem_of_seqZ. apply Hall. lia. }
  apply subseteq_size in Hsub. rewrite size_list_to_set, length_seqZ in Hsub by apply NoDup_seqZ. lia.
Qed.

Lemma release_refines p' i :
  c_senders s !! n = Some (SUncommit i) -> indices (core p') = ia_free (indices (core (c_pipe s))) i ->
  refines cap s (with_sender n SWakeTx p' s) [Release] lost.
Proof.
  intros Hn Hf. pose proof (count_insert _ _ _ SWakeTx Hn) as Hk. cbn in Hk.
  destruct (ci_owned _ _ _ _ _ Hi n _ i Hn eq_refl) as [Hal _].
  apply (step_refines _ _ _ _ _ lost); [cbn; lia|..].
  - unfold abs. cbn. rewrite (messages_quiet (SUncommit i)) by done.
    replace (permits (c_senders s)) with (S (permits (<[n:=SWakeTx]> (c_senders s)))) by lia. apply spec_release.
  - unfold counted, used, abs in *. cbn in *. rewrite (messages_quiet (SUncommit i)), Hf, ia_free_allocated by done.
    rewrite size_difference, size_singleton by set_solver. lia.
Qed.

Lemma forget_refines p' i x tail :
  c_senders s !! n = Some (SLoop i x tail) ->
  ia_allocated (indices (core p')) = ia_allocated (indices (core (c_pipe s))) ->
  refines cap s (with_sender n SIdle p' s) [Forget] lost.
Proof.
  intros Hn Hal. pose proof (count_insert _ _ _ SIdle Hn) as Hk. cbn in Hk.
  apply (step_refines _ _ _ _ _ (S lost)); [cbn; lia|..].
  - unfold abs. cbn. rewrite (messages_quiet (SLoop i x tail)) by done.
    replace (permits (c_senders s)) with (S (permits (<[n:=SIdle]> (c_senders s)))) by lia. apply spec_forget.
  - unfold counted, used, abs in *. cbn in *. rewrite (messages_quiet (SLoop i x tail)), Hal by done. lia.
Qed.

Lemma received_claims : (length (c_received s) <= length (c_log s))%nat.
Proof.
  pose proof (ci_bound _ _ _ _ _ Hi) as [Hb _]. pose proof (rx_phases (c_rx s)). unfold claims in *.
  rewrite (received_length _ _ _ _ _ Hi). lia.
Qed.

(** The position a sender has just claimed is the last one. *)
Lemma claimed_last p' i x tail v t :
  c_senders s !! n = Some (SSeq i x tail v) ->
  cinv cap H ce cd (mkConc p' (<[n := SClaimed i x t]> (c_senders s)) (c_rx s) (c_log s ++ [(i, x)]) (c_received s)) ->
  t = claims s.
Proof.
  intros Hn Hi'. pose proof (lookup_lt_Some _ _ _ Hn).
  destruct (ci_pending _ _ _ _ _ Hi' n i x t) as [Ht He]; [by apply list_lookup_insert_eq|].
  pose proof (ci_bound _ _ _ _ _ Hi) as [Hb _]. pose proof (rx_phases (c_rx s)).
  unfold claims, entry in *. cbn in *. rewrite length_app in Ht. cbn in Ht.
  destruct (decide (t = Z.of_nat (length (c_log s)))) as [|Hne]; [done|exfalso].
  rewrite lookup_app_l in He by lia. destruct (ci_owned _ _ _ _ _ Hi n _ i Hn eq_refl) as [_ Hni].
  apply Hni. eapply entry_in_flight; [|exact He]. lia.
Qed.

Lemma send_refines p' i x tail v t :
  c_senders s !! n = Some (SSeq i x tail v) ->
  ia_allocated (indices (core p')) = ia_allocated (indices (core (c_pipe s))) ->
  let s' := mkConc p' (<[n := SClaimed i x t]> (c_senders s)) (c_rx s) (c_log s ++ [(i, x)]) (c_received s) in
  cinv cap H ce cd s' -> refines cap s s' [Send x] lost.
Proof.
  intros Hn Hal s' Hi'. pose proof (claimed_last _ _ _ _ _ _ Hn Hi') as Ht. unfold claims in Ht.
  pose proof (count_insert _ _ _ (SClaimed i x t) Hn) as Hk. cbn in Hk. pose proof received_claims.
  assert (Hm : messages (c_senders s') (c_log s') (length (c_received s)) =
    messages (c_senders s) (c_log s) (length (c_received s)) ++ [(x, false)]).
  { apply list_eq. intros k. rewrite lookup_app, !messages_lookup, length_messages. cbn. rewrite lookup_app.
    destruct (c_log s !! (length (c_received s) + k)%nat) as [e|] eqn:He; cbn.
    - rewrite (published_insert _ _ _ _ _ Hn); [done|]. apply lookup_lt_Some in He. symmetry. apply Z.eqb_neq. lia.
    - apply lookup_ge_None in He. destruct (decide (length (c_received s) + k = length (c_log s)))%nat as [Heq|].
      + rewrite Heq, Nat.sub_diag. cbn. replace (k - _)%nat with 0%nat by lia. cbn. do 2 f_equal. apply published_spec.
        exists n, i, x. rewrite <- Ht. apply list_lookup_insert_eq. by eapply lookup_lt_Some.
      + rewrite !(proj2 (lookup_ge_None _ _)) by (cbn; lia). done. }
  apply (step_refines _ _ _ _ _ lost); [cbn; lia|..].
  - unfold abs. cbn in *. rewrite Hm.
    replace (permits (c_senders s)) with (S (permits (<[n:=SClaimed i x t]> (c_senders s)))) by lia. apply spec_send.
  - unfold counted, used, abs in *. cbn in *. rewrite Hm, Hal, length_app. cbn. lia.
Qed.

Lemma publish_refines p' i x t :
  c_senders s !! n = Some (SClaimed i x t) ->
  ia_allocated (indices (core p')) = ia_allocated (indices (core (c_pipe s))) ->
  refines cap s (with_sender n SNotify p' s) [Publish (Z.to_nat t - length (c_received s))] lost.
Proof.
  intros Hn Hal. pose proof (ci_bound _ _ _ _ _ Hi) as [Hb _]. pose proof (rx_phases (c_rx s)).
  destruct (ci_pending _ _ _ _ _ Hi _ _ _ _ Hn) as [Ht He]. pose proof (received_length _ _ _ _ _ Hi) as Hlen.
  pose proof (count_insert _ _ _ SNotify Hn) as Hk. cbn in Hk. set (r := length (c_received s)) in *.
  assert (Hp : messages (c_senders s) (c_log s) r !! (Z.to_nat t - r)%nat = Some (x, false)).
  { rewrite messages_lookup. replace (r + _)%nat with (Z.to_nat t) by lia. unfold entry in He. rewrite He. cbn. do 2 f_equal.
    apply published_spec. exists n, i, x. by rewrite Z2Nat.id by lia. }
  assert (Hm : messages (<[n:=SNotify]> (c_senders s)) (c_log s) r =
    <[(Z.to_nat t - r)%nat := (x, true)]> (messages (c_senders s) (c_log s) r)).
  { apply list_eq. intros k. destruct (decide (k = Z.to_nat t - r)%nat) as [->|Hne].
    - rewrite list_lookup_insert_eq by (by eapply lookup_lt_Some). rewrite messages_lookup. replace (r + _)%nat with (Z.to_nat t) by lia.
      unfold entry in He. rewrite He. cbn. do 2 f_equal. apply not_false_iff_true. rewrite published_spec, Z2Nat.id by lia.
      intros (m & i' & x' & Hm). apply insert_cases in Hm as [[_ ?]|[Hmn Hm]]; [done|].
      apply Hmn. by apply (ci_unique _ _ _ _ _ Hi m n i' x' i x t).
    - rewrite list_lookup_insert_ne, !messages_lookup by done. rewrite (published_insert _ _ _ _ _ Hn); [done|]. apply Z.eqb_neq. lia. }
  apply (step_refines _ _ _ _ _ lost); [cbn; lia|..].
  - unfold abs. cbn. fold r. rewrite Hm. replace (permits (<[n:=SNotify]> (c_senders s))) with (permits (c_senders s)) by lia. by apply spec_publish.
  - unfold counted, used, abs in *. cbn in *. fold r in Hc |- *. rewrite Hm, Hal, length_insert. lia.
Qed.
End Sender.

Lemma sender_refines cap H ce cd s n sp lost :
  cinv cap H ce cd s -> claims (do_event (EvStep n sp) s) <= SAFE_CLAIMS -> counted s lost ->
  refines cap s (do_event (EvStep n sp) s) (event_label (EvStep n sp) s) lost.
Proof.
  intros Hi Hsafe Hc. pose proof (sender_event_inv _ _ _ _ _ _ sp Hi Hsafe) as Hi'. clear Hsafe. cbn [do_event event_label] in *.
  destruct (c_senders s !! n) as [pc|] eqn:Hn; [|by apply quiet_refines]. pose proof (lookup_lt_Some _ _ _ Hn) as Hlt.
  destruct (sender_step sp pc (c_pipe s)) as [p' [[pc' c]| |]] eqn:Hs;
    [|exfalso; apply (ci_sender _ _ _ _ _ Hi' n SPanic); by apply list_lookup_insert_eq..].
  assert (Hp : pc' <> SPanic).
  { intros ->. apply (ci_sender _ _ _ _ _ Hi' n SPanic). by apply list_lookup_insert_eq. }
  apply (sender_step_label _ _ _ _ _ _ (length (c_received s))) in Hs as (-> & Hl & Hal); [|done].
  destruct (sender_label (length (c_received s)) pc pc') as [|a [|]] eqn:Hsl.
  - destruct Hl as (Ho & Hcl & Hcl'). replace (match pc, pc' with SSeq _ _ _ _, SClaimed _ _ _ => _ | _, _ => _ end) with (@None (Z * T)) by (by destruct pc, pc').
    apply quiet_refines; [by apply (sender_quiet _ _ pc)| |done]. cbn. destruct pc, pc'; cbn in Hsl; done.
  - destruct a; try (exfalso; by destruct pc, pc').
    + destruct Hl as (i & x & -> & -> & Ha). by eapply reserve_refines.
    + destruct Hl as (x & -> & -> & Ha). by eapply full_refines.
    + destruct Hl as (i & -> & -> & Ha). by eapply release_refines.
    + destruct Hl as (i & x & tail & -> & ->). by eapply forget_refines.
    + destruct Hl as (i & tail & v & t & -> & ->). by eapply send_refines.
    + destruct Hl as (i & x & t & -> & ->). cbn in Hsl. injection Hsl as <-. by eapply publish_refines.
  - by destruct pc, pc'.
Qed.

(** *** The receiver *)

Lemma rx_step_label sp r p p' r' o :
  rx_step sp r p = (p', Val (r', o)) ->
  match r with
  | RGot i => r' = RFree i /\ (exists x, o = Some x) /\ indices (core p') = indices (core p)
  | RFree i => r' = RWake /\ o = None /\ indices (core p') = ia_free (indices (core p)) i
  | _ => held r' = false /\ o = None /\ indices (core p') = indices (core p)
  end.
Proof.
  intros H. destruct r as [|hd|hd v|slot v|i|i| |]; cbn [rx_step] in H;
    unfold on_core, dequeue_pos_cas, slot_load, slot_store, elem_read in H; run_M;
    simplify_eq/=; repeat (case_match; cbn in *; simplify_eq); split_and!; eauto.
Qed.

(** When the receiver finds nothing, the message at the head is not published. *)
Lemma nothing_at_head cap H ce cd s sp p' r' o :
  cinv cap H ce cd s -> is_RLoop (c_rx s) = true -> rx_step sp (c_rx s) (c_pipe s) = (p', Val (r', o)) ->
  finds_nothing r' = true ->
  match messages (c_senders s) (c_log s) (length (c_received s)) with (_, true) :: _ => False | _ => True end.
Proof.
  intros Hi Hrx Hs Hf. destruct (c_rx s) as [|head| | | | | |] eqn:Hr; try done.
  pose proof (received_length _ _ _ _ _ Hi) as Hlen. pose proof (ci_rx _ _ _ _ _ Hi) as Hl. pose proof (ci_bound _ _ _ _ _ Hi) as [Hb Hsafe].
  rewrite Hr in Hlen, Hl, Hb. cbn in Hlen, Hl, Hb. unfold SAFE_CLAIMS in Hsafe. destruct Hl as [b ->].
  destruct (ci_slots _ _ _ _ _ Hi H) as [(i & x & He & Hnp & Hq)|(Hp & _)]; [rewrite Hr; cbn; lia|..].
  - exfalso. assert (Hri : 0 <= i < 64) by (eapply flight_range; [exact Hi| |exact He]; rewrite Hr; cbn; lia).
    cbn [rx_step] in Hs. unfold on_core in Hs. rewrite slot_of_pos_word in Hs. run_M. rewrite (slot_load_run _ _ _ Hq) in Hs. cbn in Hs. simplify_eq.
    cbn in Hf. rewrite pos_word_pos, word_pos, dif_dequeue, Z.sub_diag in Hf by lia. done.
  - assert (Hhd : messages (c_senders s) (c_log s) (length (c_received s)) !! 0%nat =
      (fun e => (e.2, published (c_senders s) (Z.to_nat H))) <$> c_log s !! Z.to_nat H).
    { rewrite messages_lookup, Nat.add_0_r, Hlen. by rewrite Z.sub_0_r. }
    destruct (messages _ _ _) as [|[x pub] rest]; [done|]. cbn in Hhd. destruct (c_log s !! Z.to_nat H) as [e|] eqn:He; [|done].
    apply lookup_lt_Some in He. cbn in Hhd. injection Hhd as _ ->. destruct Hp as [|Hp]; [unfold claims in *; lia|].
    rewrite <- (Z2Nat.id H) in Hp by lia. by apply published_spec in Hp as ->.
Qed.

(** The message the receiver reads is the one at the head, and it is published. *)
Lemma read_refines cap H ce cd s i x p' lost :
  cinv cap H ce cd s -> c_rx s = RGot i -> elements (c_pipe s) !! Z.to_nat i = Some (Some x) ->
  indices (core p') = indices (core (c_pipe s)) -> counted s lost ->
  refines cap s (with_rx (RFree i) p' (c_received s ++ [x]) s) [Recv x] lost.
Proof.
  intros Hi Hr Hx Hal Hc. pose proof (received_length _ _ _ _ _ Hi) as Hlen. pose proof (ci_rx _ _ _ _ _ Hi) as Hl.
  pose proof (ci_bound _ _ _ _ _ Hi) as [Hb _]. rewrite Hr in Hlen, Hl, Hb. cbn in Hlen, Hl, Hb. destruct Hl as [y He].
  pose proof (ci_elems _ _ _ _ _ Hi (H - 1) i y) as Hy. rewrite Hr in Hy. cbn in Hy. specialize (Hy ltac:(lia) He). assert (y = x) as -> by congruence.
  assert (Hm : messages (c_senders s) (c_log s) (length (c_received s)) =
    (x, true) :: messages (c_senders s) (c_log s) (length (c_received s ++ [x]))).
  { unfold entry in He. apply list_eq. intros [|k]; rewrite !messages_lookup; cbn; [|rewrite messages_lookup, length_app; cbn; by rewrite <- Nat.add_assoc].
    rewrite Nat.add_0_r, Hlen, He. cbn. do 2 f_equal. apply not_false_iff_true. rewrite published_spec, Z2Nat.id by lia.
    intros (m & i' & x' & [Hp _]%(ci_pending _ _ _ _ _ Hi)). lia. }
  apply (step_refines _ _ _ _ _ lost); [cbn; lia|..].
  - unfold abs. cbn. rewrite Hr, Hm. apply spec_recv.
  - unfold counted, used, abs in *. cbn in *. rewrite Hr, Hm in Hc. rewrite Hal. cbn in Hc. lia.
Qed.

Lemma free_refines cap H ce cd s i p' lost :
  cinv cap H ce cd s -> c_rx s = RFree i -> indices (core p') = ia_free (indices (core (c_pipe s))) i -> counted s lost ->
  refines cap s (with_rx RWake p' (c_received s) s) [Free] lost.
Proof.
  intros Hi Hr Hal Hc. pose proof (ci_rx _ _ _ _ _ Hi) as Hl. pose proof (ci_bound _ _ _ _ _ Hi) as [Hb _].
  pose proof (ci_flight _ _ _ _ _ Hi i) as Hfl. rewrite Hr in Hl, Hb, Hfl. cbn in Hl, Hb, Hfl. destruct Hl as [y He].
  specialize (Hfl (entry_in_flight _ (H - 1) (H - 1) i y ltac:(lia) He)).
  apply (step_refines _ _ _ _ _ lost); [cbn; lia|..].
  - unfold abs. cbn. rewrite Hr. apply spec_free.
  - unfold counted, used, abs in *. cbn in *. rewrite Hr in Hc. rewrite Hal, ia_free_allocated by done.
    rewrite size_difference, size_singleton by set_solver. cbn in Hc. lia.
Qed.

Lemma rx_refines cap H ce cd s sp lost :
  cinv cap H ce cd s -> counted s lost -> refines cap s (do_event (EvRecv sp) s) (event_label (EvRecv sp) s) lost.
Proof.
  intros Hi Hc. destruct (rx_event_inv _ _ _ _ _ sp Hi) as [H' Hi']. cbn [do_event event_label] in *.
  destruct (rx_step sp (c_rx s) (c_pipe s)) as [p' [[r' o]| |]] eqn:Hs; [|by apply ci_rx in Hi'..].
  pose proof (rx_step_label _ _ _ _ _ _ Hs) as Hsh.
  assert (Hquiet : o = None -> held r' = held (c_rx s) -> indices (core p') = indices (core (c_pipe s)) ->
    refines cap s (mkConc p' (c_senders s) r' (c_log s) (c_received s)) [] lost).
  { intros -> Hh Hix. apply quiet_refines; [unfold abs; cbn; by rewrite Hh|cbn; by rewrite Hix|done]. }
  destruct (c_rx s) as [|head|head v|slot v|i|i| |] eqn:Hr; cbn [rx_label].
  all: try (destruct Hsh as (Hh & -> & Hix); by apply Hquiet).
  - destruct Hsh as (Hh & -> & Hix). destruct (finds_nothing r') eqn:Hf; [|by apply Hquiet].
    assert (Habs : abs (mkConc p' (c_senders s) r' (c_log s) (c_received s)) lost = abs s lost) by (unfold abs; cbn; by rewrite Hh, Hr).
    apply (step_refines _ _ _ _ _ lost); [cbn; lia| |unfold counted; rewrite Habs; cbn; by rewrite Hix].
    rewrite Habs. apply spec_nothing. rewrite <- Hr in Hs. eapply (nothing_at_head _ _ _ _ _ _ _ _ _ Hi); [by rewrite Hr|exact Hs|done].
  - destruct Hsh as (-> & (x & ->) & Hix). cbn [rx_step] in Hs. unfold elem_read in Hs. run_M.
    destruct (elements (c_pipe s) !! Z.to_nat i) as [[y|]|] eqn:Hy; simplify_eq/=. by eapply read_refines.
  - destruct Hsh as (-> & -> & Hix). by eapply free_refines.
Qed.

Lemma event_refines cap H ce cd s ev lost :
  cinv cap H ce cd s -> claims (do_event ev s) <= SAFE_CLAIMS -> counted s lost ->
  refines cap s (do_event ev s) (event_label ev s) lost.
Proof.
  intros Hi Hsafe Hc. destruct ev as [n x|n sp|n|sp| |].
  - cbn. destruct (c_senders s !! n) as [[]|] eqn:Hn; try by apply quiet_refines.
    apply quiet_refines; [by eapply (sender_quiet s n SIdle)|done..].
  - by eapply sender_refines.
  - cbn. destruct (c_senders s !! n) as [[]|] eqn:Hn; try by apply quiet_refines.
    apply quiet_refines; [by eapply (sender_quiet s n)|done..].
  - by eapply rx_refines.
  - by apply quiet_refines.
  - by apply quiet_refines.
Qed.

(** The labels record what is sent and what is received. *)
Lemma event_observes cap H ce cd s ev :
  cinv cap H ce cd s -> claims (do_event ev s) <= SAFE_CLAIMS ->
  (c_log (do_event ev s)).*2 = (c_log s).*2 ++ sent (event_label ev s) /\
  c_received (do_event ev s) = c_received s ++ got (event_label ev s).
Proof.
  intros Hi Hsafe. destruct ev as [n x|n sp|n|sp| |].
  2: { pose proof (sender_event_inv _ _ _ _ _ _ sp Hi Hsafe) as Hi'. clear Hsafe. cbn [do_event event_label] in *.
    destruct (c_senders s !! n) as [pc|] eqn:Hn; [|by rewrite !app_nil_r]. pose proof (lookup_lt_Some _ _ _ Hn) as Hlt.
    destruct (sender_step sp pc (c_pipe s)) as [p' [[pc' c]| |]] eqn:Hs; [|cbn; by rewrite !app_nil_r..].
    assert (Hp : pc' <> SPanic) by (intros ->; apply (ci_sender _ _ _ _ _ Hi' n SPanic); by apply list_lookup_insert_eq).
    apply (sender_step_label _ _ _ _ _ _ (length (c_received s))) in Hs as (-> & _); [|done].
    destruct pc, pc'; cbn; rewrite ?app_nil_r; try done; by rewrite fmap_app. }
  3: { destruct (rx_event_inv _ _ _ _ _ sp Hi) as [H' Hi']. cbn [do_event event_label] in *.
    destruct (rx_step sp (c_rx s) (c_pipe s)) as [p' [[r' o]| |]] eqn:Hs; [|by apply ci_rx in Hi'..].
    pose proof (rx_step_label _ _ _ _ _ _ Hs) as Hsh.
    destruct (c_rx s); cbn; try (destruct Hsh as (_ & -> & _); by rewrite !app_nil_r).
    - destruct Hsh as (_ & -> & _). by destruct (finds_nothing r'); cbn; rewrite !app_nil_r.
    - destruct Hsh as (_ & (x & ->) & _). cbn. by rewrite app_nil_r. }
  all: cbn; repeat case_match; by rewrite ?app_nil_r.
Qed.

Lemma history_refines cap evs : forall H ce cd s lost,
  cinv cap H ce cd s -> claims (run evs s) <= SAFE_CLAIMS -> counted s lost ->
  refines cap s (run evs s) (history evs s) lost /\
  (c_log (run evs s)).*2 = (c_log s).*2 ++ sent (history evs s) /\
  c_received (run evs s) = c_received s ++ got (history evs s).
Proof.
  induction evs as [|ev evs IH]; intros H ce cd s lost Hi Hsafe Hc; cbn [history].
  - split; [by apply quiet_refines|]. by rewrite !app_nil_r.
  - cbn [run foldl] in *. fold (run evs (do_event ev s)) in *.
    assert (Hle : claims (do_event ev s) <= SAFE_CLAIMS).
    { etransitivity; [|exact Hsafe]. generalize (do_event ev s). clear. induction evs as [|ev evs IH]; intros s; [done|].
      cbn. etransitivity; [apply claims_mono|apply IH]. }
    destruct (event_observes _ _ _ _ _ _ Hi Hle) as [Hlog Hrec].
    destruct (event_refines _ _ _ _ _ _ _ Hi Hle Hc) as [Hr Hc'].
    destruct (event_inv _ _ _ _ _ _ Hi Hle) as (H' & ce' & cd' & Hi').
    destruct (IH _ _ _ _ _ Hi' Hsafe Hc') as ((Hr2 & Hc2) & Hlog2 & Hrec2). split_and!.
    + unfold refines. rewrite forgotten_app, Nat.add_assoc. split; [|done]. by eapply spec_run_app.
    + by rewrite Hlog2, Hlog, <- app_assoc; unfold sent; rewrite omap_app.
    + by rewrite Hrec2, Hrec, <- app_assoc; unfold got; rewrite omap_app.
Qed.

(** C3: The interleaved channel implements the bounded channel of the specification.  Whatever
    the schedule (up to 960 claims), its accesses, each one step or none, are a run of
    [spec_step]: an index is reserved only while permits, messages and lost places leave
    room, and [Full] is answered only when they leave none; a message is sent only with a
    permit; the receiver gets the message at the head, published, and finds nothing only
    when there is none there.  The run sends and receives the messages the channel does. *)
Theorem conc_refines_channel cap n evs :
  0 <= cap <= 64 -> claims (reach (E := E) cap n evs) <= SAFE_CLAIMS ->
  let s := reach (E := E) cap n evs in let ls := history evs (conc_new cap n) in
  spec_run cap channel_new ls (abs s (forgotten ls)) /\
  (c_log s).*2 = sent ls /\ c_received s = got ls.
Proof.
  intros Hcap Hsafe s ls. pose proof (conc_new_inv (T := T) (E := E) cap n Hcap) as Hi.
  assert (Habs : abs (conc_new (T := T) (E := E) cap n) 0 = channel_new).
  { unfold abs, channel_new. cbn. f_equal. clear. unfold permits. induction n as [|n IH]; [done|exact IH]. }
  assert (Hc : counted (conc_new (T := T) (E := E) cap n) 0).
  { unfold counted. rewrite Habs. cbn. by rewrite ia_new_allocated, size_empty. }
  destruct (history_refines _ evs _ _ _ _ _ Hi Hsafe Hc) as ((Hr & _) & Hlog & Hrec). split; [|done].
  by rewrite Habs in Hr.
Qed.
End Refine.
