(* ===== verification/CoreReserve.v ===== *)
(** Senders that wait for room: nobody is stranded.

    [Core::reserve] tries to reserve an index; when none is free it waits in the queue of
    the channel, and tries again when it is woken.  Whoever frees an index wakes one
    waiting sender ([uncommit]), and [close_rx] closes the queue after it has set the
    CLOSED flag.  The system of [CoreConc] is extended by the tasks that send ([reserver])
    and by closers that have set the flag but not yet closed the queue; every access is one
    event.  Tasks that wait are not cancelled: what [maitake-sync] does with the wakeup of
    a future that is dropped after it was woken is not documented. *)
From S2P Require Import Prelude Interfaces Errors Core CoreWord Pipe CoreConc ConcSafety CoreWait ConcProgress.

Section Reserve.
Context {PU : PackUsize} {IA : IndexAlloc} {IAL : IndexAllocLaws}.
Context {WCA : WaitCellApi} {WQA : WaitQueueApi} {WQL : WaitQueueLaws} {WQF : WaitQueueFifo}.
Context {T E : Type}.
Implicit Types (s : conc T E) (p : Pipe T E) (pc : sender_pc T).

(** *** Tasks *)

(** What a sender's task does: it runs (in [send] if [waits], else in [try_send]), it is
    about to poll the future that waits, or it is suspended until it is polled again. *)
Inductive reserver : Type :=
| KRun (waits : bool)
| KPark (x : T) (f : WaitFut)
| KAsleep (x : T) (f : WaitFut).

Record rconc := mkRconc { r_conc : conc T E; r_tasks : list reserver; r_closing : nat }.

Definition set_task (n : nat) (k : reserver) (w : rconc) : rconc :=
  mkRconc (r_conc w) (<[n := k]> (r_tasks w)) (r_closing w).
Definition set_conc s (w : rconc) : rconc := mkRconc s (r_tasks w) (r_closing w).

(** [try_reserve] allocates no index: the channel is full. *)
Definition finds_full (before after : option (sender_pc T)) : option T :=
  match before, after with Some (SAlloc x), Some SIdle => Some x | _, _ => None end.

(** One access of [send]: of [try_reserve] or [Permit::send], or the poll of the future. *)
Definition reserver_event (n : nat) (spurious : bool) (w : rconc) : rconc :=
  let s := r_conc w in
  match r_tasks w !! n with
  | None => w
  | Some (KRun waits) =>
      let s' := do_event (EvStep n spurious) s in
      match waits, finds_full (c_senders s !! n) (c_senders s' !! n) with
      | true, Some x => set_task n (KPark x wq_wait) (set_conc s' w)
      | _, _ => set_conc s' w
      end
  | Some (KPark x f) =>
      match on_core (prod_wait_poll f) (c_pipe s) with
      | (p', Val (f', Pending)) => set_task n (KAsleep x f') (set_conc (with_pipe p' s) w)
      | (p', Val (_, Ready (Ok _))) =>
          set_task n (KRun true) (set_conc (set_sender n (SReserve x) (with_pipe p' s)) w)
      | (p', _) => set_task n (KRun true) (set_conc (with_pipe p' s) w) (* the error is returned *)
      end
  | Some (KAsleep x f) => set_task n (KPark x f) w
  end.

Inductive revent : Type :=
| REv (ev : event T)       (* [EvSend] is a [try_send]; [EvCloseRx] only sets the flag *)
| RSend (n : nat) (x : T)  (* sender [n] starts to [send] [x] *)
| RCloseQueue.             (* [close_rx] closes the queue *)

Definition start (n : nat) (waits : bool) (x : T) (w : rconc) : rconc :=
  match r_tasks w !! n with
  | Some (KRun _) =>
      match c_senders (r_conc w) !! n with
      | Some SIdle => set_task n (KRun waits) (set_conc (do_event (EvSend n x) (r_conc w)) w)
      | _ => w
      end
  | _ => w
  end.

Definition do_revent (ev : revent) (w : rconc) : rconc :=
  let s := r_conc w in
  match ev with
  | REv (EvSend n x) => start n false x w
  | RSend n x => start n true x w
  | REv (EvStep n spurious) => reserver_event n spurious w
  | REv EvCloseRx =>
      mkRconc (with_pipe (fst (on_core (enqueue_pos_fetch_or CLOSED) (c_pipe s))) s) (r_tasks w) (S (r_closing w))
  | REv ev => set_conc (do_event ev s) w
  | RCloseQueue =>
      match r_closing w with
      | O => w
      | S n => mkRconc (with_pipe (fst (on_core prod_wait_close (c_pipe s))) s) (r_tasks w) n
      end
  end.

Definition rrun (evs : list revent) (w : rconc) : rconc := foldl (fun w ev => do_revent ev w) w evs.
Definition rreach (cap : Z) (n : nat) (evs : list revent) : rconc :=
  rrun evs (mkRconc (conc_new cap n) (replicate n (KRun true)) 0).

Definition waitq s : WaitQueue := prod_wait (core (c_pipe s)).
Definition allocated s : gset Z := ia_allocated (indices (core (c_pipe s))).

Definition blocked (k : reserver) : bool := match k with KRun _ => false | _ => true end.
(** The task sleeps, and a poll of its future would not return. *)
Definition stranded (w : rconc) (k : reserver) : Prop :=
  match k with KAsleep _ f => snd (wq_poll (waitq (r_conc w)) f) = Pending | _ => False end.

(** ** The invariant *)

Definition ticket (k : reserver) : option nat :=
  match k with KRun _ => None | KPark _ f | KAsleep _ f => wf_ticket f end.
(** A task that sleeps has polled its future. *)
Definition registered (k : reserver) : Prop := match k with KAsleep _ f => wf_ticket f <> None | _ => True end.
Definition view s : FifoView := wq_view (waitq s).

(** The queue and the tasks agree: a ticket that waits is that of a task. *)
Record fifo_inv (v : FifoView) (tasks : list reserver) : Prop := {
  fi_stored : fq_stored v = true -> fq_waiters v = [];
  fi_nodup : NoDup (fq_waiters v);
  fi_waiters : forall t, t ∈ fq_waiters v -> exists n k, tasks !! n = Some k /\ ticket k = Some t;
  fi_tickets : forall n k t, tasks !! n = Some k -> ticket k = Some t -> (t < fq_next v)%nat;
  fi_asleep : forall n k, tasks !! n = Some k -> registered k;
}.
(** A task was woken and does not know it yet. *)
Definition woken_task (v : FifoView) (tasks : list reserver) : Prop :=
  exists n k t, tasks !! n = Some k /\ ticket k = Some t /\ (t ∉ fq_waiters v).

(** A sender that is about to take an index, or to wake another sender. *)
Definition trying pc : bool := match pc with SReserve _ | SAlloc _ | SWakeTx => true | _ => false end.

(** Something will still happen that makes room or wakes a waiting sender: a wakeup is
    stored, an index is held, the receiver or a sender is about to wake one or to try, or
    one was woken. *)
Definition token s (tasks : list reserver) : Prop :=
  fq_stored (view s) = true \/
  (exists i, i ∈ allocated s) \/
  c_rx s = RWake \/
  (exists n pc, c_senders s !! n = Some pc /\ trying pc = true) \/
  woken_task (view s) tasks.

(** The messages of the log whose index the receiver has freed. *)
Definition freed s : Z :=
  Z.of_nat (length (c_received s)) - match c_rx s with RFree _ => 1 | _ => 0 end.
Definition owner (i : Z) s : Prop := exists n pc, c_senders s !! n = Some pc /\ owned pc = Some i.
(** Every index that is held belongs to a message in the queue or to a sender. *)
Definition accounted s : Prop :=
  forall i, i ∈ allocated s -> i ∈ in_flight (c_log s) (freed s) \/ owner i s.

(** A sender in [commit_send] has not seen the CLOSED flag. *)
Definition sees_open pc : Prop := match pc with SLoop _ _ tail => Z.land tail CLOSED =? CLOSED = false | _ => True end.

Definition any_blocked (tasks : list reserver) : Prop := exists n k, tasks !! n = Some k /\ blocked k = true.

(** While the channel is open. *)
Record open_inv s (tasks : list reserver) : Prop := {
  oi_open : wq_closed (waitq s) = false;
  oi_sees : forall n pc, c_senders s !! n = Some pc -> sees_open pc;
  oi_accounted : accounted s;
  oi_fifo : fifo_inv (view s) tasks;
  oi_token : any_blocked tasks -> token s tasks;
}.

Record rinv cap H (ce cd : bool) (w : rconc) : Prop := {
  ri_conc : cinv cap H ce cd (r_conc w);
  ri_len : length (r_tasks w) = length (c_senders (r_conc w));
  ri_idle : forall n k, r_tasks w !! n = Some k -> blocked k = true -> c_senders (r_conc w) !! n = Some SIdle;
  ri_closed : ce = true -> wq_closed (waitq (r_conc w)) = true \/ (0 < r_closing w)%nat;
  ri_closing : (0 < r_closing w)%nat -> ce = true;
  ri_open : ce = false -> open_inv (r_conc w) (r_tasks w);
}.

(** ** The queue *)

Lemma ticket_registered k t : ticket k = Some t -> registered k.
Proof. destruct k; cbn; intros; [done|done|congruence]. Qed.

Lemma fifo_wake_inv v tasks :
  fifo_inv v tasks -> fifo_inv (fifo_wake v) tasks /\
  (fq_stored (fifo_wake v) = true \/ woken_task (fifo_wake v) tasks) /\
  (fq_stored v = true -> fq_stored (fifo_wake v) = true) /\
  (woken_task v tasks -> woken_task (fifo_wake v) tasks).
Proof.
  intros [Hs Hd Hw Ht Hr]. destruct v as [st nx [|t rest]]; unfold fifo_wake; cbn in *.
  - split_and!; [|by left|done|done]. by split.
  - apply NoDup_cons in Hd as [Hni Hd]. split_and!.
    + split; cbn; try done; [by intros ?%Hs|]. intros t' Ht'. apply Hw. by right.
    + right. destruct (Hw t) as (n & k & Hn & Hk); [by left|]. by exists n, k, t.
    + by intros ?%Hs.
    + intros (n & k & t' & Hn & Hk & Hni'). exists n, k, t'. split_and!; try done. cbn in *. set_solver.
Qed.

(** A task that changes to one with the same ticket, or whose ticket does not wait. *)
Lemma fifo_task_inv v tasks n k k' :
  fifo_inv v tasks -> tasks !! n = Some k -> registered k' ->
  (ticket k' = ticket k \/ ticket k' = None /\ forall t, ticket k = Some t -> t ∉ fq_waiters v) ->
  fifo_inv v (<[n := k']> tasks).
Proof.
  intros [Hs Hd Hw Ht Hr] Hn Hreg Hk'. pose proof (lookup_lt_Some _ _ _ Hn) as Hlt. split; try done.
  - intros t Hin. destruct (Hw t Hin) as (m & km & Hm & Hkm). destruct (decide (m = n)) as [->|Hne].
    + exists n, k'. rewrite list_lookup_insert_eq by done. split; [done|]. simplify_eq.
      destruct Hk' as [->|[_ Hno]]; [done|]. by destruct (Hno t Hkm).
    + exists m, km. by rewrite list_lookup_insert_ne.
  - intros m km t Hm Hkm. apply list_lookup_insert_Some in Hm as [(-> & <- & _)|[_ Hm]]; [|by eapply Ht].
    destruct Hk' as [He|[He _]]; [|congruence]. eapply Ht; [exact Hn|congruence].
  - intros m km [(-> & <- & _)|[_ Hm]]%list_lookup_insert_Some; [done|by eapply Hr].
Qed.

(** The first poll of a future, without a stored wakeup: it gets the next ticket. *)
Lemma fifo_register_inv v tasks n k k' :
  fifo_inv v tasks -> tasks !! n = Some k -> ticket k = None -> fq_stored v = false -> ticket k' = Some (fq_next v) ->
  let v' := mkFifo false (S (fq_next v)) (fq_waiters v ++ [fq_next v]) in
  fifo_inv v' (<[n := k']> tasks) /\ (woken_task v tasks -> woken_task v' (<[n := k']> tasks)).
Proof.
  intros [Hs Hd Hw Ht Hr] Hn Hk Hst Hk'. pose proof (lookup_lt_Some _ _ _ Hn) as Hlt.
  assert (Hfresh : fq_next v ∉ fq_waiters v) by (intros (m & km & Hm & Hkm)%Hw; specialize (Ht _ _ _ Hm Hkm); lia).
  assert (Hother : forall m km t, tasks !! m = Some km -> ticket km = Some t -> <[n := k']> tasks !! m = Some km)
    by (intros m km t Hm Hkm; rewrite list_lookup_insert_ne; [done|]; intros ->; congruence).
  cbn. split; [split; cbn|].
  - done.
  - apply NoDup_app. split_and!; [done|set_solver|apply NoDup_singleton].
  - intros t [Hin|Hin]%elem_of_app; [|apply list_elem_of_singleton in Hin as ->].
    + destruct (Hw t Hin) as (m & km & Hm & Hkm). exists m, km. eauto.
    + exists n, k'. by rewrite list_lookup_insert_eq.
  - intros m km t Hm Hkm. apply list_lookup_insert_Some in Hm as [(-> & <- & _)|[_ Hm]]; [|specialize (Ht _ _ _ Hm Hkm); lia].
    simplify_eq/=. lia.
  - intros m km [(-> & <- & _)|[_ Hm]]%list_lookup_insert_Some; [by eapply ticket_registered|by eapply Hr].
  - intros (m & km & t & Hm & Hkm & Hni). exists m, km, t. split_and!; [eauto|done|]. cbn.
    specialize (Ht _ _ _ Hm Hkm). rewrite elem_of_app, list_elem_of_singleton. intros [?| ->]; [done|lia].
Qed.

(** ** One access of a sender *)

(** What a step of a sender, from [pc] to [pc'] with the claim [c], does to the allocator. *)
Definition moves_index pc pc' (c : option (Z * T)) (a a' : IndexAllocWord) : Prop :=
  a' = match pc with SAlloc _ => fst (ia_allocate a) | SUncommit i => ia_free a i | _ => a end /\
  c = match c with None => None | Some _ => match pc with SSeq i x _ _ => Some (i, x) | _ => None end end /\
  match pc with
  | SReserve x => pc' = SAlloc x
  | SAlloc x => pc' = match snd (ia_allocate a) with Some i => SHave i x | None => SIdle end
  | SUncommit i => pc' = SWakeTx
  | SSeq i _ _ _ => pc' = SPanic \/ owned pc' = match c with None => Some i | Some _ => None end
  | _ => owned pc' = owned pc
  end.

Lemma sender_step_room sp pc p p' pc' c :
  sender_step sp pc p = (p', Val (pc', c)) ->
  Z.land (enqueue_pos (core p)) CLOSED =? CLOSED = false -> sees_open pc ->
  prod_wait (core p') = match pc with SWakeTx => wq_wake (prod_wait (core p)) | _ => prod_wait (core p) end /\
  sees_open pc' /\ moves_index pc pc' c (indices (core p)) (indices (core p')).
Proof.
  unfold moves_index. intros H Ho Hs. destruct pc as [|x|x|i x|i x|i x tail|i x tail v|i x t| |i| |]; cbn [sender_step] in H;
    unfold on_core, elem_write, indices_allocate, enqueue_pos_cas, slot_load, slot_store in H; run_M;
    repeat (case_match; cbn in *; simplify_eq); split_and!; try done; try (by right); try (by left); cbn in *; congruence.
Qed.

Lemma freed_eq cap H ce cd s : cinv cap H ce cd s -> freed s = H - to_free (c_rx s).
Proof.
  intros Hi. pose proof (ci_bound _ _ _ _ _ Hi) as [Hb _]. pose proof (rx_phases (c_rx s)). unfold freed, claims in *.
  rewrite (ci_received _ _ _ _ _ Hi), length_take, length_fmap. destruct (c_rx s); cbn in *; lia.
Qed.

Lemma token_mono s s' tasks tasks' :
  (fq_stored (view s) = true -> fq_stored (view s') = true) ->
  ((exists i, i ∈ allocated s) -> token s' tasks') ->
  (c_rx s = RWake -> token s' tasks') ->
  (forall n pc, c_senders s !! n = Some pc -> trying pc = true -> token s' tasks') ->
  (woken_task (view s) tasks -> woken_task (view s') tasks') ->
  token s tasks -> token s' tasks'.
Proof.
  intros H1 H2 H3 H4 H5 [?|[?|[?|[(n & pc & Hn & Hp)|?]]]]; eauto; [by left; auto|by do 4 right; auto].
Qed.

(** The indices held, once sender [n] has moved on. *)
Lemma accounted_move s s' n pc pc' (c : option (Z * T)) :
  c_senders s !! n = Some pc -> c_senders s' = <[n := pc']> (c_senders s) ->
  c_log s' = (match c with Some c => c_log s ++ [c] | None => c_log s end) -> freed s' = freed s ->
  0 <= freed s <= claims s ->
  accounted s ->
  (forall j, owned pc = Some j -> j ∈ allocated s' -> owned pc' = Some j \/ exists x, c = Some (j, x)) ->
  (forall j, j ∈ allocated s' -> j ∈ allocated s \/ owned pc' = Some j) ->
  accounted s'.
Proof.
  intros Hn Hs Hl Hf Hb Hacc Hown Hal j Hj. pose proof (lookup_lt_Some _ _ _ Hn) as Hlt. unfold claims in Hb.
  assert (Hme : owned pc' = Some j -> owner j s') by (exists n, pc'; by rewrite Hs, list_lookup_insert_eq).
  assert (Hfl : in_flight (c_log s') (freed s') = in_flight (c_log s) (freed s) ++ match c with Some c => [c.1] | None => [] end).
  { rewrite Hl, Hf. destruct c as [[i x]|]; [by apply in_flight_app|by rewrite app_nil_r]. }
  destruct (Hal j Hj) as [Hj'|]; [|by right; auto].
  destruct (Hacc j Hj') as [Hin|(m & pcm & Hm & Ho)]; [left; rewrite Hfl; apply elem_of_app; by left|].
  destruct (decide (m = n)) as [->|Hne].
  - simplify_eq. destruct (Hown j Ho Hj) as [?|[x ->]]; [by right; auto|]. left. rewrite Hfl. cbn. set_solver.
  - right. exists m, pcm. by rewrite Hs, list_lookup_insert_ne.
Qed.

(** After an allocation, whether it found an index or not, some index is in use. *)
Lemma allocate_full cap H ce cd s :
  1 <= cap -> cinv cap H ce cd s -> exists i, i ∈ ia_allocated (fst (ia_allocate (indices (core (c_pipe s))))).
Proof.
  intros Hcap Hi. pose proof (ci_iacap _ _ _ _ _ Hi) as Hcapa.
  destruct (ia_allocate (indices (core (c_pipe s)))) as [a [i|]] eqn:Ha; cbn.
  - apply ia_allocate_some in Ha as (_ & _ & -> & _). exists i. set_solver.
  - apply ia_allocate_none in Ha as (Hall & -> & _). exists 0. apply Hall. lia.
Qed.

(** A step of a sender keeps the indices accounted for. *)
Lemma accounted_step cap H cd s s' n pc pc' (c : option (Z * T)) :
  cinv cap H false cd s -> c_senders s !! n = Some pc -> c_senders s' = <[n := pc']> (c_senders s) ->
  c_log s' = (match c with Some c => c_log s ++ [c] | None => c_log s end) -> freed s' = freed s -> pc' <> SPanic ->
  moves_index pc pc' c (indices (core (c_pipe s))) (indices (core (c_pipe s'))) -> accounted s -> accounted s'.
Proof.
  intros Hi Hn Hs Hl Hf Hnp (Hix & Hc & Hpc) Hacc. apply (accounted_move s s' n pc pc' c); try done.
  - rewrite (freed_eq _ _ _ _ _ Hi). pose proof (ci_bound _ _ _ _ _ Hi) as [Hb _]. pose proof (rx_phases (c_rx s)). lia.
  - intros j Hj Hal. destruct pc as [|x|x|i x|i x|i x tail|i x tail v|i x t| |i| |]; cbn in Hj; simplify_eq; try (left; by rewrite Hpc).
    + destruct Hpc as [->|Hpc]; [done|]. destruct c as [p|]; [right|by left]. simplify_eq. by exists x.
    + exfalso. unfold allocated in Hal. rewrite Hix, ia_free_allocated in Hal; [set_solver|].
      by apply (ci_owned _ _ _ _ _ Hi n (SUncommit j) j).
  - intros j Hal. unfold allocated in *. rewrite Hix in Hal. destruct pc; try (by left).
    + destruct (ia_allocate (indices (core (c_pipe s)))) as [a [i|]] eqn:Ha; cbn in *; subst.
      * apply ia_allocate_some in Ha as (_ & _ & Heq & _). rewrite Heq in Hal.
        apply elem_of_union in Hal as [Hal%elem_of_singleton|]; [right; by subst|by left].
      * apply ia_allocate_none in Ha as (_ & Heq & _). left. by rewrite <- Heq.
    + left. rewrite ia_free_allocated in Hal; [set_solver|]. by apply (ci_owned _ _ _ _ _ Hi n (SUncommit i) i).
Qed.

Lemma sender_open cap H cd s s' n sp tasks :
  1 <= cap -> cinv cap H false cd s -> s' = do_event (EvStep n sp) s -> cinv cap H false cd s' -> open_inv s tasks ->
  open_inv s' tasks /\
  (forall x, finds_full (c_senders s !! n) (c_senders s' !! n) = Some x -> exists i, i ∈ allocated s').
Proof.
  intros Hcap Hi -> Hi' Ho. cbn [do_event] in *.
  destruct (c_senders s !! n) as [pc|] eqn:Hn; [|split; [done|by rewrite Hn]].
  destruct (sender_step sp pc (c_pipe s)) as [p' [[pc' c]| |]] eqn:Hs.
  2,3: exfalso; apply (ci_sender _ _ _ _ _ Hi' n SPanic); cbn; apply list_lookup_insert_eq; by eapply lookup_lt_Some.
  pose proof (lookup_lt_Some _ _ _ Hn) as Hlt.
  assert (Hlook : <[n := pc']> (c_senders s) !! n = Some pc') by (by apply list_lookup_insert_eq).
  destruct Ho as [Hop Hsees Hacc Hfifo Htok].
  apply sender_step_room in Hs as (Hw & Hsee & Hmv);
    [|by rewrite (ci_enq _ _ _ _ _ Hi), pos_word_closed_eqb|by eapply Hsees].
  set (s' := mkConc p' _ _ _ _) in *. pose proof Hmv as (Hix & Hc & Hpc).
  assert (Hv : view s' = match pc with SWakeTx => fifo_wake (view s) | _ => view s end).
  { unfold view, waitq in *. cbn. rewrite Hw. destruct pc; try done. by apply wq_wake_view. }
  assert (Hcl : wq_closed (waitq s') = false).
  { unfold waitq in *. cbn. rewrite Hw. destruct pc; try done. by rewrite wq_wake_closed. }
  assert (Hfull : (exists x, pc = SAlloc x) -> exists i, i ∈ allocated s').
  { intros [x ->]. unfold allocated. cbn. rewrite Hix. by apply (allocate_full _ _ _ _ _ Hcap Hi). }
  split; [split|].
  - done.
  - intros m pcm Hm. cbn in Hm. apply insert_cases in Hm as [[_ ->]|[_ Hm]]; [done|by eapply Hsees].
  - apply (accounted_step cap H cd s s' n pc pc' c); try done. intros ->. by apply (ci_sender _ _ _ _ _ Hi' n) in Hlook.
  - rewrite Hv. destruct pc; try done. by apply fifo_wake_inv.
  - intros Hb. specialize (Htok Hb). destruct (fifo_wake_inv _ _ Hfifo) as (_ & Hwt & Hkeep & Hwk).
    assert (Hme : trying pc' = true -> token s' tasks) by (intros; do 3 right; left; by exists n, pc').
    apply (token_mono s _ tasks); rewrite ?Hv; try done.
    + destruct pc; auto.
    + intros [i Hal]. destruct pc; try (right; left; exists i; unfold allocated; cbn; by rewrite Hix).
      * right; left. apply Hfull. by eexists.
      * apply Hme. by rewrite Hpc.
    + intros ?. by do 2 right; left.
    + intros m pcm Hm Htr. destruct (decide (m = n)) as [->|Hne].
      * simplify_eq. destruct pc; try done; [apply Hme; by rewrite Hpc|right; left; apply Hfull; by eexists|].
        unfold token. rewrite Hv. destruct Hwt as [?|?]; [by left|by do 4 right].
      * do 3 right; left. exists m, pcm. split; [|done]. cbn. by rewrite list_lookup_insert_ne.
    + destruct pc; auto.
  - cbn. rewrite Hlook. intros x Hx. apply Hfull. destruct pc; try done. by eexists.
Qed.

(** ** One access of the receiver *)

Lemma rx_step_room sp r p p' r' o :
  rx_step sp r p = (p', Val (r', o)) ->
  prod_wait (core p') = match r with RWake => wq_wake (prod_wait (core p)) | _ => prod_wait (core p) end /\
  indices (core p') = match r with RFree i => ia_free (indices (core p)) i | _ => indices (core p) end /\
  match r with
  | RGot i => r' = RFree i /\ o <> None
  | RFree _ => r' = RWake /\ o = None
  | _ => (forall i, r' <> RFree i) /\ o = None
  end.
Proof.
  intros H. destruct r as [|hd|hd v|slot v|i|i| |]; cbn [rx_step] in H;
    unfold on_core, dequeue_pos_cas, slot_load, slot_store, elem_read in H; run_M;
    simplify_eq/=; repeat (case_match; cbn in *; simplify_eq); split_and!; done.
Qed.

Lemma rx_open cap H cd s s' sp tasks :
  cinv cap H false cd s -> s' = do_event (EvRecv sp) s -> open_inv s tasks -> open_inv s' tasks.
Proof.
  intros Hi -> Ho. destruct (rx_event_inv _ _ _ _ _ sp Hi) as [H' Hi']. cbn [do_event] in *.
  destruct (rx_step sp (c_rx s) (c_pipe s)) as [p' [[r' o]| |]] eqn:Hs; [|by apply ci_rx in Hi'..].
  apply rx_step_room in Hs as (Hw & Hix & Hr). destruct Ho as [Hop Hsees Hacc Hfifo Htok].
  set (s' := mkConc p' _ _ _ _) in *.
  assert (Hv : view s' = match c_rx s with RWake => fifo_wake (view s) | _ => view s end).
  { unfold view, waitq in *. cbn. rewrite Hw. destruct (c_rx s); try done. by apply wq_wake_view. }
  assert (Hfree : forall i, c_rx s = RFree i -> i ∈ allocated s /\ in_flight (c_log s) (freed s) = i :: in_flight (c_log s) (freed s')).
  { intros i Hrx. pose proof (freed_eq _ _ _ _ _ Hi) as Hf. pose proof (ci_bound _ _ _ _ _ Hi) as [Hb _].
    pose proof (ci_rx _ _ _ _ _ Hi) as Hl. pose proof (ci_flight _ _ _ _ _ Hi i) as Hal. rewrite Hrx in *. cbn in *. destruct Hl as [x He].
    assert (Hfl : in_flight (c_log s) (H - 1) = i :: in_flight (c_log s) (H - 1 + 1)) by (apply (in_flight_cons _ _ _ x); [lia|done]).
    split; [apply Hal; rewrite Hfl; by left|]. rewrite Hf, Hfl. do 2 f_equal. destruct Hr as [-> ->]. unfold freed in *. rewrite Hrx in Hf. cbn in *. lia. }
  split.
  - unfold waitq in *. cbn. rewrite Hw. destruct (c_rx s); try done. by rewrite wq_wake_closed.
  - done.
  - assert (Hsame : (forall i, c_rx s <> RFree i) -> freed s' = freed s).
    { intros Hno. unfold freed. cbn. destruct (c_rx s); try (by destruct (Hno i)); destruct Hr as [Hr Ho];
        try (subst o; destruct r'; try done; by destruct (Hr i)).
      subst r'. destruct o; [|done]. rewrite length_app. cbn. lia. }
    intros j Hj. unfold allocated in *. cbn in Hj. rewrite Hix in Hj. cbn [c_log s'].
    destruct (c_rx s) as [| | | | |i| |] eqn:Hrx; try (rewrite Hsame by done; by apply Hacc).
    destruct (Hfree i eq_refl) as [Hi0 Hfl]. rewrite ia_free_allocated in Hj by done.
    destruct (Hacc j) as [Hin|]; [set_solver| |by right]. left. cbn. rewrite Hfl in Hin. set_solver.
  - rewrite Hv. destruct (c_rx s); try done. by apply fifo_wake_inv.
  - intros Hb. specialize (Htok Hb). destruct (fifo_wake_inv _ _ Hfifo) as (_ & Hwt & Hkeep & Hwk).
    apply (token_mono s _ tasks); rewrite ?Hv; try done.
    + destruct (c_rx s); auto.
    + intros [j Hj]. destruct (c_rx s) as [| | | | |i| |] eqn:Hrx; try (right; left; exists j; unfold allocated; cbn; by rewrite Hix).
      do 2 right; left. apply Hr.
    + intros Hrx. unfold token. rewrite Hv, Hrx. destruct Hwt as [?|?]; [by left|by do 4 right].
    + intros m pc Hm Htr. do 3 right; left. by exists m, pc.
    + destruct (c_rx s); auto.
Qed.

(** ** Tasks *)

(** The system with another queue of waiting senders. *)
Definition with_queue (q : WaitQueue) s : conc T E :=
  with_pipe (set_core (set_prod_wait q (core (c_pipe s))) (c_pipe s)) s.

Lemma queue_inv cap H ce cd q s : cinv cap H ce cd s -> cinv cap H ce cd (with_queue q s).
Proof. intros []. by split. Qed.

Lemma with_queue_same s : with_queue (waitq s) s = s.
Proof. by destruct s as [[[] ? ? ?] ? ? ? ?]. Qed.
Lemma set_sender_same n pc s : c_senders s !! n = Some pc -> set_sender n pc s = s.
Proof. intros Hn. destruct s. unfold set_sender. cbn in *. by rewrite list_insert_id. Qed.

(** A sender that has nothing in hand, or starts. *)
Definition at_start pc : bool := match pc with SIdle | SReserve _ => true | _ => false end.

(** The task of an idle sender does something with the queue. *)
Lemma task_step cap H ce cd w n k k' q pc :
  rinv cap H ce cd w -> r_tasks w !! n = Some k -> c_senders (r_conc w) !! n = Some SIdle ->
  at_start pc = true -> (blocked k' = true -> pc = SIdle) -> wq_closed q = wq_closed (waitq (r_conc w)) ->
  (ce = false -> fifo_inv (wq_view q) (<[n := k']> (r_tasks w)) /\
     (trying pc = true \/ (any_blocked (r_tasks w) -> token (with_queue q (r_conc w)) (<[n := k']> (r_tasks w))) /\
        blocked k = blocked k')) ->
  rinv cap H ce cd (set_task n k' (set_conc (set_sender n pc (with_queue q (r_conc w))) w)).
Proof.
  intros [Hi Hlen Hidle Hclosed Hclosing Hopen] Hk Hn Hst Hb Hq Hfifo. destruct w as [s tasks closing]. cbn in *.
  pose proof (lookup_lt_Some _ _ _ Hn) as Hlt. pose proof (lookup_lt_Some _ _ _ Hk) as Hlt'.
  assert (Hlook : <[n := pc]> (c_senders s) !! n = Some pc) by (by apply list_lookup_insert_eq).
  assert (Hown : owned pc = None) by (by destruct pc). split; cbn.
  - eapply (sender_local_inv _ _ _ _ _ _ _ _ (c_pipe (with_queue q s)) (queue_inv _ _ _ _ q _ Hi)); cbn;
      [exact Hn|by split_and!|by left|left; by destruct pc|done|by destruct pc|by destruct pc].
  - by rewrite !length_insert.
  - intros m km [(-> & <- & _)|[Hne Hm]]%list_lookup_insert_Some Hbm; [by rewrite Hlook, Hb|].
    rewrite list_lookup_insert_ne by done. by eapply Hidle.
  - intros Hce. unfold waitq in *. cbn. rewrite Hq. by apply Hclosed.
  - done.
  - intros Hce. destruct (Hopen Hce) as [Hop Hsees Hacc _ Htok]. destruct (Hfifo Hce) as [Hf Ht]. split.
    + unfold waitq in *. cbn. by rewrite Hq.
    + intros m pcm [[_ ->]|[_ Hm]]%insert_cases; [by destruct pc|by eapply Hsees].
    + apply (accounted_move s _ n SIdle pc None); try done.
      * rewrite (freed_eq _ _ _ _ _ Hi). pose proof (ci_bound _ _ _ _ _ Hi) as [? _]. pose proof (rx_phases (c_rx s)). lia.
      * intros j Hj. by left.
    + done.
    + intros (m & km & Hm & Hbm). destruct Ht as [Htr|[Ht Hbk]]; [do 3 right; left; by exists n, pc|].
      assert (Hab : any_blocked tasks).
      { apply list_lookup_insert_Some in Hm as [(-> & <- & _)|[_ Hm]]; [exists m, k; by rewrite Hbk|by exists m, km]. }
      apply (token_mono (with_queue q s) _ (<[n := k']> tasks)); [done|..|by apply Ht]; cbn.
      * intros Hal. by right; left.
      * intros Hrx. by do 2 right; left.
      * intros m' pcm' Hm' Htr. do 3 right; left. exists m', pcm'. split; [|done]. cbn.
        rewrite list_lookup_insert_ne; [done|]. intros ->. simplify_eq.
      * done.
Qed.

Lemma sender_others s n sp m : m <> n -> c_senders (do_event (EvStep n sp) s) !! m = c_senders s !! m.
Proof.
  intros Hne. cbn [do_event]. destruct (c_senders s !! n); [|done].
  by destruct (sender_step _ _ _) as [? [[]| |]]; cbn; rewrite list_lookup_insert_ne.
Qed.

Lemma event_senders ev s : length (c_senders (do_event ev s)) = length (c_senders s).
Proof. destruct ev; cbn [do_event]; repeat case_match; cbn; by rewrite ?length_insert. Qed.

(** A task that runs performs an access. *)
Lemma run_inv_step cap H ce cd w n sp waits :
  1 <= cap -> rinv cap H ce cd w -> r_tasks w !! n = Some (KRun waits) ->
  claims (do_event (EvStep n sp) (r_conc w)) <= SAFE_CLAIMS ->
  rinv cap H ce cd (reserver_event n sp w).
Proof.
  intros Hcap [Hi Hlen Hidle Hclosed Hclosing Hopen] Hk Hsafe. unfold reserver_event. rewrite Hk.
  destruct w as [s tasks closing]. cbn [r_conc r_tasks r_closing] in *.
  pose proof (sender_event_inv _ _ _ _ _ n sp Hi Hsafe) as Hi'. set (s' := do_event (EvStep n sp) s) in *.
  assert (Hcl : wq_closed (waitq s) = true -> wq_closed (waitq s') = true).
  { unfold waitq, s'. cbn [do_event]. destruct (c_senders s !! n) as [pc|]; [|done].
    assert (Hw : prod_wait (core (fst (sender_step sp pc (c_pipe s)))) = wq_wake (prod_wait (core (c_pipe s))) \/
      prod_wait (core (fst (sender_step sp pc (c_pipe s)))) = prod_wait (core (c_pipe s))).
    { destruct pc; cbn [sender_step]; unfold on_core, elem_write, indices_allocate, enqueue_pos_cas, slot_load, slot_store; run_M;
        repeat (case_match; cbn in *; simplify_eq); auto. }
    destruct (sender_step sp pc (c_pipe s)) as [p' [[]| |]]; cbn in *; destruct Hw as [-> | ->]; by rewrite ?wq_wake_closed. }
  assert (Hoth : forall m, m <> n -> c_senders s' !! m = c_senders s !! m) by (intros m; apply sender_others).
  assert (Hlen' : length (c_senders s') = length (c_senders s)) by apply event_senders.
  assert (Hopen' : ce = false -> open_inv s' tasks /\
    forall x, finds_full (c_senders s !! n) (c_senders s' !! n) = Some x -> exists i, i ∈ allocated s').
  { intros ->. by apply (sender_open cap H cd s s' n sp tasks); auto. }
  clearbody s'. assert (Hs' : rinv cap H ce cd (mkRconc s' tasks closing)).
  { split; cbn; try done; [by rewrite Hlen'|..].
    - intros m k Hm Hb. assert (m <> n) by (intros ->; by simplify_eq). rewrite Hoth by done. by eapply Hidle.
    - intros Hce. destruct (Hclosed Hce); [left; auto|by right].
    - intros Hce. by apply Hopen'. }
  destruct waits; [|exact Hs']. destruct (finds_full (c_senders s !! n) (c_senders s' !! n)) as [x|] eqn:Hfull; [|exact Hs'].
  pose proof (lookup_lt_Some _ _ _ Hk) as Hlt. destruct Hs' as [Hi1 Hlen1 Hidle1 Hclosed1 Hclosing1 _].
  assert (Hidle' : c_senders s' !! n = Some SIdle).
  { unfold finds_full in Hfull. destruct (c_senders s !! n) as [[]|]; try done. by destruct (c_senders s' !! n) as [[]|]. }
  split; cbn in *; try done.
  - by rewrite length_insert.
  - intros m k [(-> & <- & _)|[Hne Hm]]%list_lookup_insert_Some Hb; [done|by eapply Hidle1].
  - intros Hce. destruct (Hopen' Hce) as [[] Hal]. split; try done.
    + eapply fifo_task_inv; [done|exact Hk|done|]. left. cbn. apply wq_wait_ticket.
    + intros _. right; left. by eapply Hal.
Qed.

(** The poll of a future that is ready leaves the other tickets alone. *)
Lemma fifo_ready_inv v v' t t' r tasks n k k' :
  fifo_inv v tasks -> tasks !! n = Some k -> ticket k = t -> ticket k' = None -> registered k' ->
  fifo_poll v t = (v', t', r) -> r <> Pending -> fifo_inv v' (<[n := k']> tasks).
Proof.
  intros Hf Hk Ht Hk' Hreg Hp Hr. destruct t as [t|]; cbn in Hp.
  - injection Hp as <- _ Hp. case_decide; [congruence|]. eapply fifo_task_inv; [done|exact Hk|done|].
    right. split; [done|]. congruence.
  - destruct (fq_stored v) eqn:Hst; [|congruence]. injection Hp as <- _ _.
    assert (Hf' : fifo_inv (mkFifo false (fq_next v) (fq_waiters v)) tasks) by (destruct Hf; by split).
    eapply fifo_task_inv; [done|exact Hk|done|]. left. congruence.
Qed.

(** The poll of a future that is pending. *)
Lemma fifo_pending_inv v v' t t' tasks n k k' :
  fifo_inv v tasks -> tasks !! n = Some k -> ticket k = t -> ticket k' = t' ->
  fifo_poll v t = (v', t', Pending) ->
  fifo_inv v' (<[n := k']> tasks) /\ (fq_stored v = true -> fq_stored v' = true) /\
  (woken_task v tasks -> woken_task v' (<[n := k']> tasks)).
Proof.
  intros Hf Hk Ht Hk' Hp. destruct t as [t|]; cbn in Hp.
  - injection Hp as <- <- Hp. case_decide as Hin; [|done]. split_and!; [|done|].
    + eapply fifo_task_inv; [done|exact Hk|by eapply ticket_registered|]. left. congruence.
    + intros (m & km & tm & Hm & Htm & Hni). exists m, km, tm. split; [|done].
      rewrite list_lookup_insert_ne; [done|]. intros <-. congruence.
  - destruct (fq_stored v) eqn:Hst; [done|]. injection Hp as <- <-.
    destruct (fifo_register_inv _ _ _ _ k' Hf Hk) as [Hf' Hwk]; done.
Qed.

(** A task polls its future, or is polled again. *)
Lemma park_inv cap H ce cd w n k sp :
  rinv cap H ce cd w -> r_tasks w !! n = Some k -> blocked k = true -> rinv cap H ce cd (reserver_event n sp w).
Proof.
  intros Hw Hk Hb. pose proof (ri_idle _ _ _ _ _ Hw _ _ Hk Hb) as Hidle.
  pose proof (ri_open _ _ _ _ _ Hw) as Hopen. unfold reserver_event. rewrite Hk.
  set (s := r_conc w) in *. destruct k as [|x f|x f]; [done| |].
  - unfold on_core, zoom, prod_wait_poll. change (prod_wait (core (c_pipe s))) with (waitq s).
    pose proof (wq_poll_closed_same (waitq s) f) as Hc. pose proof (wq_poll_view (waitq s) f) as Hv.
    destruct (wq_poll (waitq s) f) as [[q f'] r]. cbn [fst snd] in *.
    change (with_pipe _ s) with (with_queue q s). fold (view s) in Hv.
    assert (Hrun : r <> Pending -> forall pc, at_start pc = true ->
      (ce = false -> trying pc = true) ->
      rinv cap H ce cd (set_task n (KRun true) (set_conc (set_sender n pc (with_queue q s)) w))).
    { intros Hr pc Hpc Htr. apply (task_step _ _ _ _ _ _ (KPark x f) _ q pc); try done.
      intros Hce. destruct (Hopen Hce) as [Hop _ _ Hfo _]. split; [|left; auto].
      by apply (fifo_ready_inv _ _ _ _ _ _ _ _ (KRun true) Hfo Hk eq_refl eq_refl I (eq_sym (Hv Hop))). }
    assert (Herr : forall e, r = Ready (Err e) -> ce = false -> False).
    { intros [] -> Hce. pose proof (oi_open _ _ (Hopen Hce)) as Hop. specialize (Hv Hop). unfold fifo_poll in Hv.
      destruct (wf_ticket f); [case_decide; congruence|]. destruct (fq_stored _); congruence. }
    destruct r as [|[[]|e]].
    + rewrite <- (set_sender_same n SIdle (with_queue q s)) by done. apply (task_step _ _ _ _ _ _ (KPark x f) _ q SIdle); try done.
      intros Hce. destruct (Hopen Hce) as [Hop _ _ Hfo Htok].
      destruct (fifo_pending_inv _ _ _ _ _ _ _ (KAsleep x f') Hfo Hk eq_refl eq_refl (eq_sym (Hv Hop))) as (Hf & Hst & Hwk).
      split; [done|]. right. split; [|done]. intros Hab%Htok.
      apply (token_mono s _ (r_tasks w)); [done|by right; left|by do 2 right; left| |done|done].
      intros m pc Hm Htr. do 3 right; left. by exists m, pc.
    + apply Hrun; done.
    + rewrite <- (set_sender_same n SIdle (with_queue q s)) by done. apply Hrun; try done. intros Hce. by destruct (Herr e eq_refl Hce).
  - assert (Heq : set_task n (KPark x f) w = set_task n (KPark x f) (set_conc (set_sender n SIdle (with_queue (waitq s) s)) w)).
    { rewrite with_queue_same, set_sender_same by done. by destruct w. }
    rewrite Heq. apply (task_step _ _ _ _ _ _ (KAsleep x f) _ (waitq s) SIdle); try done.
    intros Hce. destruct (Hopen Hce) as [Hop _ _ Hfo Htok]. split; [by eapply fifo_task_inv; [|exact Hk| |left]|].
    right. split; [|done]. intros Hab%Htok. rewrite with_queue_same.
    apply (token_mono s _ (r_tasks w)); [done|by right; left|by do 2 right; left| | |done].
    + intros m pc Hm Htr. do 3 right; left. by exists m, pc.
    + intros (m & km & t & Hm & Hkm & Hni). destruct (decide (m = n)) as [->|Hne].
      * exists n, (KPark x f), t. rewrite list_lookup_insert_eq by (by eapply lookup_lt_Some). by simplify_eq.
      * exists m, km, t. by rewrite list_lookup_insert_ne.
Qed.

Lemma r_start_inv cap H ce cd w n b x : rinv cap H ce cd w -> rinv cap H ce cd (start n b x w).
Proof.
  intros Hw. unfold start. destruct (r_tasks w !! n) as [[b'|? ?|? ?]|] eqn:Hk; try done.
  destruct (c_senders (r_conc w) !! n) as [[]|] eqn:Hn; try done. cbn [do_event]. rewrite Hn.
  set (s := r_conc w) in *. rewrite <- (with_queue_same s).
  apply (task_step _ _ _ _ _ _ (KRun b') _ (waitq s) (SReserve x)); try done.
  intros Hce. destruct (ri_open _ _ _ _ _ Hw Hce) as [_ _ _ Hfo _]. split; [by eapply fifo_task_inv; [|exact Hk| |left]|by left].
Qed.

(** A sender that drops its permit. *)
Lemma drop_inv cap H ce cd w n : rinv cap H ce cd w -> claims (r_conc w) <= SAFE_CLAIMS ->
  rinv cap H ce cd (set_conc (do_event (EvDrop n) (r_conc w)) w).
Proof.
  intros [Hi Hlen Hidle Hclosed Hclosing Hopen] Hsafe. destruct w as [s tasks closing]. cbn [r_conc r_tasks r_closing do_event] in *.
  destruct (c_senders s !! n) as [[| | |i x| | | | | | | |]|] eqn:Hn; try (by split).
  pose proof (lookup_lt_Some _ _ _ Hn) as Hlt. split; cbn; try done.
  - eapply (sender_local_inv _ _ _ _ _ _ _ _ (c_pipe s) Hi Hn); cbn; auto. by split_and!.
  - by rewrite length_insert.
  - intros m k Hm Hb. pose proof (Hidle _ _ Hm Hb) as Hid. rewrite list_lookup_insert_ne; [done|]. intros <-. congruence.
  - intros Hce. destruct (Hopen Hce) as [Hop Hsees Hacc Hfo Htok]. split; try done.
    + intros m pcm [[_ ->]|[_ Hm]]%insert_cases; [done|by eapply Hsees].
    + apply (accounted_move s _ n (SHave i x) (SUncommit i) None); try done.
      * rewrite (freed_eq _ _ _ _ _ Hi). pose proof (ci_bound _ _ _ _ _ Hi) as [? _]. pose proof (rx_phases (c_rx s)). lia.
      * intros j Hj. by left.
      * intros j Hj. by left.
    + intros Hab%Htok. apply (token_mono s _ tasks); [done|by right; left|by do 2 right; left| |done|done].
      intros m pcm Hm Htr. do 3 right; left. exists m, pcm. split; [|done]. cbn. rewrite list_lookup_insert_ne; [done|].
      intros <-. by simplify_eq.
Qed.

Lemma r_recv_inv cap H ce cd w sp : rinv cap H ce cd w ->
  exists H', rinv cap H' ce cd (set_conc (do_event (EvRecv sp) (r_conc w)) w).
Proof.
  intros [Hi Hlen Hidle Hclosed Hclosing Hopen]. destruct w as [s tasks closing]. cbn [r_conc r_tasks r_closing] in *.
  destruct (rx_event_inv _ _ _ _ _ sp Hi) as [H' Hi']. exists H'. set (s' := do_event (EvRecv sp) s) in *.
  assert (Hs : c_senders s' = c_senders s) by (unfold s'; cbn [do_event]; by destruct (rx_step _ _ _) as [? [[]| |]]).
  assert (Hw : wq_closed (waitq s') = wq_closed (waitq s)).
  { unfold s', waitq. cbn [do_event]. destruct (rx_step sp (c_rx s) (c_pipe s)) as [p' [[r' o]| |]] eqn:Hr; [|by apply ci_rx in Hi'; unfold s' in Hi'; cbn [do_event] in Hi'; rewrite Hr in Hi'..].
    apply rx_step_room in Hr as (Hr & _). cbn. rewrite Hr. by destruct (c_rx s); rewrite ?wq_wake_closed. }
  assert (Ho : ce = false -> open_inv s' tasks) by (intros ->; by eapply rx_open; [exact Hi| |auto]).
  clearbody s'. split; cbn; rewrite ?Hs, ?Hw; done.
Qed.

Definition rsafe (w : rconc) : Prop := claims (r_conc w) <= SAFE_CLAIMS.

Lemma rclaims_mono w ev : claims (r_conc w) <= claims (r_conc (do_revent ev w)).
Proof.
  assert (Hst : forall n b x, claims (r_conc w) <= claims (r_conc (start n b x w))).
  { intros n b x. unfold start. destruct (r_tasks w !! n) as [[]|]; try done. destruct (c_senders (r_conc w) !! n) as [[]|]; try done. apply (claims_mono _ (EvSend n x)). }
  destruct ev as [[n x|n sp|n|sp| |]|n x|]; cbn [do_revent]; try apply Hst; try (by apply claims_mono); try done; [|by destruct (r_closing w)].
  unfold reserver_event. destruct (r_tasks w !! n) as [[b|x f|x f]|]; try done.
  - destruct b; try case_match; apply (claims_mono _ (EvStep n sp)).
  - by destruct (on_core (prod_wait_poll f) (c_pipe (r_conc w))) as [? [[? [|[]]]| |]].
Qed.

Lemma revent_inv cap H ce cd w ev :
  1 <= cap -> rinv cap H ce cd w -> rsafe (do_revent ev w) -> exists H' ce' cd', rinv cap H' ce' cd' (do_revent ev w).
Proof.
  intros Hcap Hw Hsafe. pose proof (rclaims_mono w ev) as Hmono. unfold rsafe in Hsafe.
  destruct ev as [[n x|n sp|n|sp| |]|n x|]; cbn [do_revent] in *.
  - exists H, ce, cd. by apply r_start_inv.
  - exists H, ce, cd. destruct (r_tasks w !! n) as [[b|x f|x f]|] eqn:Hk.
    + apply (run_inv_step _ _ _ _ _ _ _ b); try done. unfold reserver_event in Hsafe. rewrite Hk in Hsafe.
      destruct b; [|exact Hsafe]. by case_match.
    + by eapply park_inv.
    + by eapply park_inv.
    + unfold reserver_event. by rewrite Hk.
  - exists H, ce, cd. apply drop_inv; [done|]. etransitivity; [exact Hmono|done].
  - destruct (r_recv_inv _ _ _ _ _ sp Hw) as [H' ?]. by exists H', ce, cd.
  - exists H, true, cd. destruct Hw as [Hi Hlen Hidle Hclosed Hclosing Hopen]. split; cbn; try done; [by eapply close_rx_inv|]. right. lia.
  - exists H, ce, true. destruct Hw as [Hi Hlen Hidle Hclosed Hclosing Hopen]. split; cbn; try done; [by eapply close_tx_inv|].
    intros Hce. destruct (Hopen Hce). by split.
  - exists H, ce, cd. by apply r_start_inv.
  - exists H, ce, cd. destruct (r_closing w) as [|m] eqn:Hm; [done|]. destruct Hw as [Hi Hlen Hidle Hclosed Hclosing Hopen].
    rewrite Hm in *. assert (ce = true) as -> by (apply Hclosing; lia).
    split; cbn; try done; [by apply (queue_inv _ _ _ _ (wq_close (waitq (r_conc w))))|]. left. apply wq_close_closed.
Qed.

Lemma rrun_inv evs cap n :
  1 <= cap <= 64 -> rsafe (rreach cap n evs) -> exists H ce cd, rinv cap H ce cd (rreach cap n evs).
Proof.
  intros Hcap. unfold rreach, rrun. induction evs as [|ev evs IH] using rev_ind; intros Hsafe.
  - exists 0, false, false. assert (Hno : forall m k, replicate n (KRun true) !! m = Some k -> k = KRun true)
      by (intros m k Hm; by apply lookup_replicate in Hm as [-> _]).
    split; cbn [foldl r_conc r_tasks r_closing]; try done; [apply conc_new_inv; lia|cbn; by rewrite !length_replicate|by intros m k ->%Hno|lia|].
    intros _. split.
    + apply wq_new_closed.
    + intros m pc Hm. cbn in Hm. by apply lookup_replicate in Hm as [-> _].
    + intros j Hj. unfold allocated in Hj. cbn in Hj. rewrite ia_new_allocated in Hj. set_solver.
    + unfold view, waitq. cbn. rewrite wq_new_view. split; cbn; [done|by apply NoDup_nil|set_solver|by intros m k t ->%Hno|by intros m k ->%Hno].
    + intros (m & k & ->%Hno & Hb). done.
  - rewrite foldl_app in *. cbn in *. destruct IH as (H & ce & cd & Hi).
    { unfold rsafe in *. etransitivity; [apply rclaims_mono|exact Hsafe]. }
    eapply revent_inv; [lia|exact Hi|done].
Qed.

(** ** What it means *)

(** Nobody runs: the receiver is idle, no sender is in a call, and every task that waits
    sleeps and was not woken. *)
Definition at_rest (w : rconc) : Prop :=
  c_rx (r_conc w) = RIdle /\ r_closing w = 0%nat /\
  (forall n pc, c_senders (r_conc w) !! n = Some pc -> pc = SIdle) /\
  forall n k, r_tasks w !! n = Some k -> blocked k = true -> stranded w k.

(** A task that sleeps unwoken has its ticket in the queue. *)
Lemma stranded_ticket s tasks n k :
  open_inv s tasks -> tasks !! n = Some k -> blocked k = true ->
  (forall closing, stranded (mkRconc s tasks closing) k <-> exists t, ticket k = Some t /\ t ∈ fq_waiters (view s) /\ exists x f, k = KAsleep x f).
Proof.
  intros [Hop _ _ Hfo _] Hk Hb closing. destruct k as [|x f|x f]; [done| |]; cbn [stranded r_conc].
  - split; [done|]. by intros (t & _ & _ & x' & f' & ?).
  - pose proof (wq_poll_view (waitq s) f Hop) as Hv. pose proof (fi_asleep _ _ Hfo _ _ Hk) as Hreg. cbn in Hreg.
    cbn [ticket]. destruct (wf_ticket f) as [t|] eqn:Ht; [|done]. unfold fifo_poll in Hv. injection Hv as _ _ Hr. rewrite Hr.
    case_decide as Hin; fold (view s) in Hin; split.
    + intros _. exists t. split_and!; [done|done|by exists x, f].
    + done.
    + done.
    + by intros (t' & [= <-] & ? & _).
Qed.

Lemma at_rest_open cap H ce cd w n k :
  rinv cap H ce cd w -> at_rest w -> r_tasks w !! n = Some k -> stranded w k -> ce = false.
Proof.
  intros Hw (_ & Hc & _) Hk Hs. destruct ce; [|done]. exfalso. destruct (ri_closed _ _ _ _ _ Hw eq_refl) as [Hcl|]; [|lia].
  destruct k as [|x f|x f]; try done. cbn in Hs. by rewrite wq_poll_closed in Hs.
Qed.

Lemma rest_message cap H cd w n k :
  rinv cap H false cd w -> at_rest w -> r_tasks w !! n = Some k -> stranded w k -> H < claims (r_conc w).
Proof.
  intros Hw (Hrx & _ & Hidle & Hrest) Hk Hs. destruct w as [s tasks closing]. cbn in *.
  pose proof Hw as [Hi _ _ _ _ Ho]. cbn in *. specialize (Ho eq_refl). pose proof Ho as [_ _ Hacc Hfo Htok].
  assert (Hb : blocked k = true) by (by destruct k).
  pose proof (freed_eq _ _ _ _ _ Hi) as Hf. pose proof (ci_bound _ _ _ _ _ Hi) as [Hbd _]. rewrite Hrx in Hf, Hbd. cbn in Hf, Hbd.
  apply (stranded_ticket _ _ _ _ Ho Hk Hb) in Hs as (t & _ & Hin & _).
  destruct Htok as [Hst|[[i Hal]|[?|[(m & pc & Hm & Htr)|(m & km & t' & Hm & Hkm & Hni)]]]].
  - by exists n, k.
  - rewrite (fi_stored _ _ Hfo Hst) in Hin. by apply not_elem_of_nil in Hin.
  - destruct (Hacc i Hal) as [Hfl|(m & pc & Hm & Ho')]; [|by rewrite (Hidle _ _ Hm) in Ho'].
    destruct (decide (H < claims s)) as [|Hge]; [done|]. exfalso. unfold in_flight, claims in *.
    rewrite drop_ge in Hfl by lia. by apply not_elem_of_nil in Hfl.
  - congruence.
  - by rewrite (Hidle _ _ Hm) in Htr.
  - assert (Hbm : blocked km = true) by (by destruct km).
    pose proof (Hrest _ _ Hm Hbm) as Hsm. apply (stranded_ticket _ _ _ _ Ho Hm Hbm) in Hsm as (? & ? & ? & _). congruence.
Qed.

(** C6: Nobody waits for room without a reason, over the first 960 messages.  Any number of tasks
    that send (with [send], which waits while the channel is full, or with [try_send]), the
    receiver and the tasks that close the channel interleave their accesses in any order, on
    a channel with a capacity of at least one, and at most 960 positions were claimed since
    it was made ([rsafe]; past position 1023 the ring is stuck).  When everybody has stopped
    and a task still waits for room, unwoken, then the channel is open and there is a
    message in it that the receiver has not received. *)
Theorem no_stranded_sender cap n evs m k :
  1 <= cap <= 64 -> rsafe (rreach cap n evs) -> at_rest (rreach cap n evs) ->
  r_tasks (rreach cap n evs) !! m = Some k -> stranded (rreach cap n evs) k ->
  let s := r_conc (rreach cap n evs) in
  Z.land (enqueue_pos (core (c_pipe s))) CLOSED = 0 /\ (length (c_received s) < length (c_log s))%nat.
Proof.
  intros Hcap Hsafe Hrest Hk Hs. destruct (rrun_inv evs cap n Hcap Hsafe) as (H & ce & cd & Hw).
  pose proof (at_rest_open _ _ _ _ _ _ _ Hw Hrest Hk Hs). subst ce.
  pose proof (rest_message _ _ _ _ _ _ Hw Hrest Hk Hs) as Hlt. pose proof (ri_conc _ _ _ _ _ Hw) as Hi. destruct Hrest as [Hrx _].
  cbn zeta. split; [by rewrite (ci_enq _ _ _ _ _ Hi), pos_word_closed|].
  pose proof (freed_eq _ _ _ _ _ Hi) as Hf. unfold freed, claims in *. rewrite Hrx in Hf. cbn in Hf. lia.
Qed.

(** *** The receiver unblocks *)

Lemma recv_step cap H ce cd s :
  cinv cap H ce cd s ->
  let s' := do_event (EvRecv false) s in
  (exists H', cinv cap H' ce cd s') /\ c_senders s' = c_senders s /\
  waitq s' = match c_rx s with RWake => wq_wake (waitq s) | _ => waitq s end /\
  match c_rx s with
  | RClaimed _ _ => exists i, c_rx s' = RGot i /\ c_received s' = c_received s
  | RGot i => c_rx s' = RFree i /\ exists x, c_received s' = c_received s ++ [x]
  | RFree _ => c_rx s' = RWake /\ c_received s' = c_received s
  | RWake => c_rx s' = RIdle /\ c_received s' = c_received s
  | _ => True
  end.
Proof.
  intros Hi. destruct (rx_event_inv _ _ _ _ _ false Hi) as [H' Hi'].
  destruct (rx_alone_step _ _ _ _ _ Hi) as (r & G & _ & Hr & Hn & _). cbn [do_event] in *.
  destruct (rx_step false (c_rx s) (c_pipe s)) as [p' [[r' o]| |]] eqn:Hs; [|by apply ci_rx in Hi'..].
  apply rx_step_room in Hs as (Hw & _ & Hro). cbn in *. subst r'. split; [by exists H'|]. split; [done|].
  split; [unfold waitq; by destruct (c_rx s)|].
  destruct (c_rx s); cbn in Hn; try done; destruct Hro as [? Ho]; subst; try done.
  - destruct Hn as [i ->]. by exists i.
  - split; [done|]. destruct o as [x|]; [by exists x|done].
Qed.

(** Once it has claimed a position, four accesses. *)
Lemma claimed_wakes cap H ce cd s slot v :
  cinv cap H ce cd s -> c_rx s = RClaimed slot v ->
  let s' := rx_alone 4 s in
  c_senders s' = c_senders s /\ waitq s' = wq_wake (waitq s) /\ exists x, c_received s' = c_received s ++ [x].
Proof.
  intros Hi Hr. cbn [rx_alone].
  destruct (recv_step _ _ _ _ _ Hi) as ([H1 Hi1] & S1 & W1 & R1). rewrite Hr in W1, R1. destruct R1 as (i & R1 & C1).
  destruct (recv_step _ _ _ _ _ Hi1) as ([H2 Hi2] & S2 & W2 & R2). rewrite R1 in W2, R2. destruct R2 as (R2 & x & C2).
  destruct (recv_step _ _ _ _ _ Hi2) as ([H3 Hi3] & S3 & W3 & R3). rewrite R2 in W3, R3. destruct R3 as (R3 & C3).
  destruct (recv_step _ _ _ _ _ Hi3) as ([H4 Hi4] & S4 & W4 & R4). rewrite R3 in W4, R4. destruct R4 as (R4 & C4).
  split; [congruence|]. split; [congruence|]. exists x. congruence.
Qed.

Lemma rx_run r p p' r' s :
  rx_step false r p = (p', Val (r', None)) -> do_event (EvRecv false) (at_rx r p s) = at_rx r' p' s.
Proof. intros H. cbn [do_event at_rx c_rx c_pipe]. by rewrite H. Qed.

(** An idle receiver claims the message at the head. *)
Lemma idle_claims cap H ce cd s :
  cinv cap H ce cd s -> c_rx s = RIdle -> head_ready H s ->
  let s' := rx_alone 3 s in
  (exists H', cinv cap H' ce cd s') /\ (exists slot v, c_rx s' = RClaimed slot v) /\
  c_senders s' = c_senders s /\ waitq s' = waitq s /\ c_received s' = c_received s.
Proof.
  intros Hi Hrx [Hlt Hnp]. pose proof (ci_bound _ _ _ _ _ Hi) as [Hb Hsafe]. rewrite Hrx in Hb. cbn in Hb. unfold SAFE_CLAIMS in Hsafe.
  assert (Hinv : exists H', cinv cap H' ce cd (rx_alone 3 s)).
  { cbn [rx_alone]. destruct (rx_event_inv _ _ _ _ _ false Hi) as [H1 Hi1]. destruct (rx_event_inv _ _ _ _ _ false Hi1) as [H2 Hi2].
    by apply (rx_event_inv _ _ _ _ _ false Hi2). }
  split; [exact Hinv|]. clear Hinv. cbn zeta.
  destruct (ci_slots _ _ _ _ _ Hi H) as [(i & x & He & _ & Hq)|([Hge|Hp] & _)]; [rewrite Hrx; cbn; lia| |unfold claims in *; lia|done].
  assert (Hri : 0 <= i < 64) by (eapply flight_range; [exact Hi| |exact He]; rewrite Hrx; cbn; lia).
  pose proof (ci_deq _ _ _ _ _ Hi) as Hd. set (p := c_pipe s) in *.
  assert (Hs : s = at_rx RIdle p s) by (unfold at_rx; destruct s; cbn in *; congruence).
  replace (rx_alone 3 s) with (rx_alone 3 (at_rx RIdle p s)) by (by rewrite <- Hs). cbn [rx_alone].
  erewrite (rx_run RIdle p p (RLoop (pos_word H cd))) by (cbn; unfold on_core; run_M; by rewrite set_core_same, Hd).
  erewrite (rx_run (RLoop _) p p (RSeq (pos_word H cd) (word (H + 1) i))).
  2: { cbn [rx_step]. unfold on_core. rewrite slot_of_pos_word. run_M. rewrite (slot_load_run _ _ _ Hq). cbn. by rewrite set_core_same. }
  erewrite (rx_run (RSeq _ _) p).
  2: { cbn [rx_step]. rewrite pos_word_pos, word_pos, dif_dequeue, Z.sub_diag by lia. cbn. unfold on_core, dequeue_pos_cas. run_M.
       rewrite Hd, Z.eqb_refl. reflexivity. }
  cbn. split; [by eexists _, _|]. done.
Qed.

Lemma rx_alone_add j k s : rx_alone (j + k) s = rx_alone k (rx_alone j s).
Proof. revert s. induction j as [|j IH]; intros s; [done|]. apply IH. Qed.

Lemma recvs_alone k w : rrun (replicate k (REv (EvRecv false))) w = set_conc (rx_alone k (r_conc w)) w.
Proof. revert w. induction k as [|k IH]; intros w; [by destruct w|]. cbn. unfold rrun in IH. rewrite IH. done. Qed.

(** C7: Nobody waits for room for ever, as long as the receiver receives, over the first 960
    messages.  On a channel with a capacity of at least one on which at most 960 positions
    were claimed since it was made ([rsafe]; past position 1023 the receiver finds nothing
    any more, and who waits then waits for ever): where everybody has stopped and a task
    waits for room, the next seven accesses of the receiver's task, run alone, receive a
    message and wake a task that waits. *)
Theorem receiver_unblocks cap n evs m k :
  1 <= cap <= 64 -> rsafe (rreach cap n evs) -> at_rest (rreach cap n evs) ->
  r_tasks (rreach cap n evs) !! m = Some k -> stranded (rreach cap n evs) k ->
  let w := rreach cap n evs in let w' := rrun (replicate 7 (REv (EvRecv false))) w in
  (exists x, c_received (r_conc w') = c_received (r_conc w) ++ [x]) /\
  exists m' k', r_tasks w' !! m' = Some k' /\ stranded w k' /\ ~ stranded w' k'.
Proof.
  intros Hcap Hsafe Hrest Hk Hs. destruct (rrun_inv evs cap n Hcap Hsafe) as (H & ce & cd & Hw).
  pose proof (at_rest_open _ _ _ _ _ _ _ Hw Hrest Hk Hs). subst ce.
  pose proof (rest_message _ _ _ _ _ _ Hw Hrest Hk Hs) as Hlt. cbn zeta. rewrite recvs_alone.
  destruct (rreach cap n evs) as [s tasks closing]. destruct Hrest as (Hrx & _ & Hidle & Hrest).
  unfold set_conc. cbn [r_conc r_tasks r_closing] in *.
  destruct Hw as [Hi _ _ _ _ Ho]. cbn in Hi, Ho. specialize (Ho eq_refl).
  assert (Hready : head_ready H s) by (split; [done|]; intros (j & i & x & Hj); by apply Hidle in Hj).
  destruct (idle_claims _ _ _ _ _ Hi Hrx Hready) as ((H1 & Hi1) & (slot & v & Hcl) & S1 & W1 & C1).
  destruct (claimed_wakes _ _ _ _ _ _ _ Hi1 Hcl) as (S2 & W2 & x & C2).
  rewrite <- rx_alone_add in S2, W2, C2. change (3 + 4)%nat with 7%nat in *. rewrite C1 in C2. rewrite W1 in W2.
  split; [by exists x|]. pose proof Ho as [Hop _ _ Hfo _].
  assert (Hb : blocked k = true) by (by destruct k).
  pose proof Hs as Hs'. apply (stranded_ticket _ _ _ _ Ho Hk Hb) in Hs' as (t0 & _ & Hin & _).
  destruct (fq_waiters (view s)) as [|t rest] eqn:Hq; [by apply not_elem_of_nil in Hin|].
  destruct (fi_waiters _ _ Hfo t) as (m' & k' & Hm' & Hk'); [rewrite Hq; by left|]. exists m', k'. split; [done|].
  assert (Hb' : blocked k' = true) by (by destruct k'). pose proof (Hrest _ _ Hm' Hb') as Hs2. split; [done|].
  destruct k' as [|y f|y f]; [discriminate Hb'|destruct Hs2|]. cbn [stranded r_conc]. rewrite W2.
  assert (Hop' : wq_closed (wq_wake (waitq s)) = false) by (by rewrite wq_wake_closed).
  pose proof (wq_poll_view _ f Hop') as Hv. cbn in Hk'. rewrite wq_wake_view, Hk' in Hv by done. unfold fifo_poll, fifo_wake in Hv.
  fold (view s) in Hv. rewrite Hq in Hv. injection Hv as _ _ ->. cbn. case_decide as Hin'; [|done].
  pose proof (fi_nodup _ _ Hfo) as Hnd. rewrite Hq in Hnd. by apply NoDup_cons in Hnd as [? _].
Qed.

(** ** The model is the code *)

(** Task [n] of a system, alone. *)
Section Solo.
Variables (s : conc T E) (tasks : list reserver) (closing n : nat) (x : T).
Hypotheses (Hs : (n < length (c_senders s))%nat) (Ht : (n < length tasks)%nat).

Definition at_task p pc (k : reserver) : rconc :=
  mkRconc (mkConc p (<[n := pc]> (c_senders s)) (c_rx s) (c_log s) (c_received s)) (<[n := k]> tasks) closing.
(** Where the task is before a poll of [reserve], and after it. *)
Definition before_poll p (f : ReserveFuture) : rconc :=
  match f with
  | ReserveStart => at_task p (SReserve x) (KRun true)
  | ReserveWaiting w => at_task p SIdle (KPark x w)
  end.
Definition after_poll p (f : ReserveFuture) (r : poll (result Reservation (SendError E unit))) : rconc :=
  match r, f with
  | Ready (Ok res), _ => at_task p (SHave (idx res) x) (KRun true)
  | Ready (Err _), _ => at_task p SIdle (KRun true)
  | Pending, ReserveWaiting w => at_task p SIdle (KAsleep x w)
  | Pending, ReserveStart => at_task p (SReserve x) (KRun true)
  end.

Fixpoint steps (j : nat) (w : rconc) : rconc :=
  match j with O => w | S j => steps j (reserver_event n false w) end.

Lemma steps_add i j w : steps (i + j) w = steps j (steps i w).
Proof. revert w. induction i as [|i IH]; intros w; [done|]. apply IH. Qed.

Lemma run_access p p' pc pc' :
  sender_step false pc p = (p', Val (pc', None)) ->
  reserver_event n false (at_task p pc (KRun true)) =
  at_task p' pc' (match finds_full (Some pc) (Some pc') with Some x => KPark x wq_wait | None => KRun true end).
Proof.
  intros H. unfold reserver_event, at_task. cbn [r_tasks r_conc r_closing do_event c_senders c_pipe].
  rewrite !list_lookup_insert_eq, H by done. cbn [c_senders c_pipe c_rx c_log c_received]. rewrite !list_lookup_insert_eq by (by rewrite length_insert).
  rewrite list_insert_insert_eq. destruct (finds_full _ _); [|done]. unfold set_task, set_conc. cbn. by rewrite list_insert_insert_eq.
Qed.

Lemma poll_access p p' w w' r :
  on_core (prod_wait_poll w) p = (p', Val (w', r)) ->
  reserver_event n false (at_task p SIdle (KPark x w)) =
  match r with
  | Pending => at_task p' SIdle (KAsleep x w')
  | Ready (Ok _) => at_task p' (SReserve x) (KRun true)
  | Ready (Err _) => at_task p' SIdle (KRun true)
  end.
Proof.
  intros H. unfold reserver_event, at_task. cbn [r_tasks r_conc r_closing c_pipe].
  rewrite list_lookup_insert_eq, H by done. unfold set_task, set_conc, set_sender, with_pipe.
  destruct r as [|[[]|]]; cbn; by rewrite ?list_insert_insert_eq.
Qed.

(** Undisturbed, the events of a task are the polls of [Core::reserve]: they end with the task
    asleep on the same future, with the index reserved, or with the error returned, and
    leave the channel as the poll does. *)
Theorem solo_reserve fuel f p p' f' r :
  on_core (reserve_poll fuel f) p = (p', Val (f', r)) ->
  exists j, steps j (before_poll p f) = after_poll p' f' r.
Proof.
  revert f p. induction fuel as [|fuel IH]; intros f p H; [done|].
  unfold on_core, zoom in H. destruct (reserve_poll (S fuel) f (core p)) as [c0 o0] eqn:Hp. injection H as <- ->.
  assert (Hrec : forall c1 f1 j, reserve_poll fuel f1 c1 = (c0, Val (f', r)) ->
    steps j (before_poll p f) = before_poll (set_core c1 p) f1 ->
    exists j, steps j (before_poll p f) = after_poll (set_core c0 p) f' r).
  { intros c1 f1 j Hf Hj. destruct (IH f1 (set_core c1 p)) as [j' Hj'].
    { unfold on_core, zoom. cbn [core set_core]. by rewrite Hf, set_core_twice. }
    exists (j + j')%nat. by rewrite steps_add, Hj. }
  destruct f as [|w]; cbn [reserve_poll] in Hp; run_M.
  - unfold try_reserve in Hp. run_M. destruct (Z.land (enqueue_pos (core p)) CLOSED =? CLOSED) eqn:Hcl.
    + exists 1%nat. cbn [steps before_poll]. erewrite (run_access p p (SReserve x) SIdle).
      2: { cbn. unfold on_core. run_M. by rewrite set_core_same, Hcl. }
      destruct (close_reason_cases (core p)) as [[[e|] He]|He]; rewrite He in Hp; run_M; simplify_eq; by rewrite set_core_same.
    + assert (H1 : reserver_event n false (at_task p (SReserve x) (KRun true)) = at_task p (SAlloc x) (KRun true)).
      { erewrite (run_access p p (SReserve x) (SAlloc x)); [done|]. cbn. unfold on_core. run_M. by rewrite set_core_same, Hcl. }
      unfold indices_allocate in Hp. destruct (ia_allocate (indices (core p))) as [a [i|]] eqn:Ha; run_M.
      * simplify_eq. exists 2%nat. cbn [steps before_poll]. rewrite H1.
        erewrite (run_access p _ (SAlloc x) (SHave i x)); [done|]. cbn. unfold on_core, indices_allocate. run_M. by rewrite Ha.
      * apply (Hrec (set_indices a (core p)) (ReserveWaiting wq_wait) 2%nat Hp). cbn [steps before_poll]. rewrite H1.
        erewrite (run_access p _ (SAlloc x) SIdle); [done|]. cbn. unfold on_core, indices_allocate. run_M. by rewrite Ha.
  - destruct (prod_wait_poll w (core p)) as [c1 [[w' r1]| |]] eqn:Hw; [|done..]. run_M.
    assert (H1 : on_core (prod_wait_poll w) p = (set_core c1 p, Val (w', r1))) by (unfold on_core, zoom; by rewrite Hw).
    pose proof (poll_access _ _ _ _ _ H1) as Hstep. destruct r1 as [|[[]|e]]; run_M.
    + simplify_eq. exists 1%nat. done.
    + apply (Hrec c1 ReserveStart 1%nat Hp). done.
    + exists 1%nat. destruct (close_reason_cases c1) as [[[e'|] He]|He]; rewrite He in Hp; run_M; by simplify_eq.
Qed.
End Solo.
End Reserve.
