(* ===== verification/BiDi.v ===== *)
(** Bidirectional channels: [tricky-pipe/src/bidi.rs].

    A [BiDi] is the sender of one pipe, the receiver of another, and two flags that say
    whether the closing error of each was already reported by [wait].  The pipes are
    shared with the peer, which acts on them between two operations of this end.

    [SerChannel] is the interface through which the connection table uses the
    serialized end; the instance of [SerBiDi] implements it, and [SerChannelLaws] what
    the table relies on. *)
From S2P Require Import Prelude Interfaces Errors Core CoreWord CoreQueue Pipe PipeSpec PipeSession.

(** [enum Event<In, Out>] and [enum WaitError<E>] *)
Inductive Event (In Out : Type) : Type :=
| Recv (m : In)
| SendReady (p : Out).
Arguments Recv {In Out} m.
Arguments SendReady {In Out} p.
Inductive WaitError (E : Type) : Type :=
| WaitRecv (e : E)
| WaitSend (e : E)
| WaitDisconnected.
Arguments WaitRecv {E} e.
Arguments WaitSend {E} e.
Arguments WaitDisconnected {E}.

Section BiDi.
Context {PU : PackUsize} {IA : IndexAlloc} {WCA : WaitCellApi} {WQA : WaitQueueApi}.
Context {In Out E : Type}.

(** [struct BiDi<In, Out, E>], which is also [struct SerBiDi<E>]: the serialized end has
    the same pipes and flags, with serializing handles on them. *)
Record BiDi := mkBiDi {
  bd_tx : Pipe Out E;
  bd_rx : Pipe In E;
  seen_rx_error : bool;
  seen_tx_error : bool;
}.
Definition set_bd_tx (p : Pipe Out E) (b : BiDi) : BiDi := mkBiDi p (bd_rx b) (seen_rx_error b) (seen_tx_error b).
Definition set_bd_rx (p : Pipe In E) (b : BiDi) : BiDi := mkBiDi (bd_tx b) p (seen_rx_error b) (seen_tx_error b).
Definition set_seen_rx (b : BiDi) : BiDi := mkBiDi (bd_tx b) (bd_rx b) true (seen_tx_error b).
Definition set_seen_tx (b : BiDi) : BiDi := mkBiDi (bd_tx b) (bd_rx b) (seen_rx_error b) true.

Definition on_tx {A} (m : M (Pipe Out E) A) : M BiDi A := zoom bd_tx set_bd_tx m.
Definition on_rx {A} (m : M (Pipe In E) A) : M BiDi A := zoom bd_rx set_bd_rx m.

(** [from_pair] *)
Definition from_pair (tx : Pipe Out E) (rx : Pipe In E) : BiDi := mkBiDi tx rx false false.
Definition split (b : BiDi) : Pipe Out E * Pipe In E := (bd_tx b, bd_rx b).

(** [close_with_error]: both directions, whatever the first says. *)
Definition BiDi_close_with_error (error : E) : M BiDi bool :=
  tx_closed ← on_tx (Sender_close_with_error error);
  rx_closed ← on_rx (Receiver_close_with_error error);
  mret (rx_closed || tx_closed).
Definition BiDi_is_empty : M BiDi bool :=
  t ← on_tx Sender_is_empty;
  if t : bool then on_rx Receiver_is_empty else mret false.
Definition BiDi_is_full : M BiDi bool :=
  t ← on_tx Sender_is_full;
  if t : bool then on_rx Receiver_is_full else mret false.

(** The future of [wait]: still selecting, or waiting for one side only. *)
Inductive WaitState : Type :=
| WSelect (f : ReserveFuture)
| WRecv
| WSend (f : ReserveFuture).

(** The [recv] of the first branch, once the send side failed. *)
Definition wait_recv : M BiDi (WaitState * poll (result (Event In Permit) (WaitError E))) :=
  p ← on_rx Receiver_poll_recv;
  match p with
  | Pending => mret (WRecv, Pending)
  | Ready (Ok msg) => mret (WRecv, Ready (Ok (Recv msg)))
  | Ready (Err RecvDisconnected) => mret (WRecv, Ready (Err WaitDisconnected))
  | Ready (Err (RecvErrorWith e)) => modify set_seen_rx;; mret (WRecv, Ready (Err (WaitRecv e)))
  end.

(** The [reserve] of the second branch, once the receive side failed. *)
Definition wait_send (fuel : nat) (f : ReserveFuture)
    : M BiDi (WaitState * poll (result (Event In Permit) (WaitError E))) :=
  fp ← on_tx (Sender_reserve_poll fuel f);
  match fp with
  | (f', Pending) => mret (WSend f', Pending)
  | (f', Ready (Ok permit)) => mret (WSend f', Ready (Ok (SendReady permit)))
  | (f', Ready (Err (SendDisconnected _))) => mret (WSend f', Ready (Err WaitDisconnected))
  | (f', Ready (Err (SendErrorWith _ e))) => modify set_seen_tx;; mret (WSend f', Ready (Err (WaitSend e)))
  end.

(** One poll of [BiDi::wait]: the send side is polled first. *)
Definition wait_poll (fuel : nat) (st : WaitState)
    : M BiDi (WaitState * poll (result (Event In Permit) (WaitError E))) :=
  match st with
  | WRecv => wait_recv
  | WSend f => wait_send fuel f
  | WSelect f =>
      fp ← on_tx (Sender_reserve_poll fuel f);
      match fp with
      | (f', Ready (Ok permit)) => mret (WSelect f', Ready (Ok (SendReady permit)))
      | (f', Ready (Err err)) =>
          seen ← gets seen_tx_error;
          match err, seen with
          | SendErrorWith _ e, false =>
              modify set_seen_tx;; mret (WSelect f', Ready (Err (WaitSend e)))
          | _, _ => wait_recv
          end
      | (f', Pending) =>
          p ← on_rx Receiver_poll_recv;
          match p with
          | Ready (Ok msg) => mret (WSelect f', Ready (Ok (Recv msg)))
          | Ready (Err err) =>
              seen ← gets seen_rx_error;
              match err, seen with
              | RecvErrorWith e, false =>
                  modify set_seen_rx;; mret (WSelect f', Ready (Err (WaitRecv e)))
              | _, _ => wait_send fuel ReserveStart
              end
          | Pending => mret (WSelect f', Pending)
          end
      end
  end.
End BiDi.
Arguments BiDi {IA WCA WQA} In Out E.

(** ** The interface of a serialized channel *)

(** What the connection table does with a [SerBiDi<Reset>]: poll for an outbound message,
    which comes serialized; poll the future that offers an inbound body ([SendFut] is its
    state, [sc_send_start] the first); close.  Each may panic. *)
Class SerChannel (R : Type) := {
  Chan : Type;
  sc_poll_recv : M Chan (poll (result (result bytes PostcardError) (RecvError R)));
  SendFut : Type;
  sc_send_start : SendFut;
  sc_send : bytes -> SendFut -> M Chan (SendFut * poll (result unit (SerSendError R)));
  sc_close_with_error : R -> M Chan bool;
}.

(** The operations of a channel in a good state do not panic and keep it good. *)
Class SerChannelLaws (R : Type) {SC : SerChannel R} := {
  sc_inv : Chan -> Prop;
  sc_poll_recv_ok c : sc_inv c -> wp sc_poll_recv (fun _ c' => sc_inv c') c;
  sc_send_ok c bs f : sc_inv c -> wp (sc_send bs f) (fun _ c' => sc_inv c') c;
  sc_close_ok c r : sc_inv c -> wp (sc_close_with_error r) (fun _ c' => sc_inv c') c;
}.

Section SerBiDi.
Context {PU : PackUsize} {IA : IndexAlloc} {WCA : WaitCellApi} {WQA : WaitQueueApi}.
Context {In Out E : Type} {PIn : Postcard In} {POut : Postcard Out}.
Variables (tid_in tid_out : TypeId).

Definition SerBiDi_close_with_error (error : E) : M (BiDi In Out E) bool :=
  tx_closed ← on_tx (DeserSender_close_with_error error);
  rx_closed ← on_rx (SerReceiver_close_with_error error);
  mret (rx_closed || tx_closed).
Definition SerBiDi_is_empty : M (BiDi In Out E) bool :=
  t ← on_tx DeserSender_is_empty;
  if t : bool then on_rx SerReceiver_is_empty else mret false.
Definition SerBiDi_is_full : M (BiDi In Out E) bool :=
  t ← on_tx DeserSender_is_full;
  if t : bool then on_rx SerReceiver_is_full else mret false.

(** Receiving a message to put it on the wire: serialize it, then drop the reference. *)
Definition ser_poll_recv : M (Pipe In E) (poll (result (result bytes PostcardError) (RecvError E))) :=
  p ← SerReceiver_poll_recv tid_in;
  match p with
  | Pending => mret Pending
  | Ready (Ok r) => b ← SerRecvRef_to_vec r; SerRecvRef_drop r;; mret (Ready (Ok b))
  | Ready (Err e) => mret (Ready (Err e))
  end.

(** [SerBiDi::wait], poll by poll: as [BiDi::wait], over the serializing handles. *)
Definition ser_wait_recv : M (BiDi In Out E) (WaitState * poll (result (Event SerRecvRef SerPermit) (WaitError E))) :=
  p ← on_rx (SerReceiver_poll_recv tid_in);
  match p with
  | Pending => mret (WRecv, Pending)
  | Ready (Ok msg) => mret (WRecv, Ready (Ok (Recv msg)))
  | Ready (Err RecvDisconnected) => mret (WRecv, Ready (Err WaitDisconnected))
  | Ready (Err (RecvErrorWith e)) => modify set_seen_rx;; mret (WRecv, Ready (Err (WaitRecv e)))
  end.
Definition ser_wait_send (fuel : nat) (f : ReserveFuture)
    : M (BiDi In Out E) (WaitState * poll (result (Event SerRecvRef SerPermit) (WaitError E))) :=
  fp ← on_tx (DeserSender_reserve_poll tid_out fuel f);
  match fp with
  | (f', Pending) => mret (WSend f', Pending)
  | (f', Ready (Ok permit)) => mret (WSend f', Ready (Ok (SendReady permit)))
  | (f', Ready (Err (SendDisconnected _))) => mret (WSend f', Ready (Err WaitDisconnected))
  | (f', Ready (Err (SendErrorWith _ e))) => modify set_seen_tx;; mret (WSend f', Ready (Err (WaitSend e)))
  end.
Definition SerBiDi_wait_poll (fuel : nat) (st : WaitState)
    : M (BiDi In Out E) (WaitState * poll (result (Event SerRecvRef SerPermit) (WaitError E))) :=
  match st with
  | WRecv => ser_wait_recv
  | WSend f => ser_wait_send fuel f
  | WSelect f =>
      fp ← on_tx (DeserSender_reserve_poll tid_out fuel f);
      match fp with
      | (f', Ready (Ok permit)) => mret (WSelect f', Ready (Ok (SendReady permit)))
      | (f', Ready (Err err)) =>
          seen ← gets seen_tx_error;
          match err, seen with
          | SendErrorWith _ e, false =>
              modify set_seen_tx;; mret (WSelect f', Ready (Err (WaitSend e)))
          | _, _ => ser_wait_recv
          end
      | (f', Pending) =>
          p ← on_rx (SerReceiver_poll_recv tid_in);
          match p with
          | Ready (Ok msg) => mret (WSelect f', Ready (Ok (Recv msg)))
          | Ready (Err err) =>
              seen ← gets seen_rx_error;
              match err, seen with
              | RecvErrorWith e, false =>
                  modify set_seen_rx;; mret (WSelect f', Ready (Err (WaitRecv e)))
              | _, _ => ser_wait_send fuel ReserveStart
              end
          | Pending => mret (WSelect f', Pending)
          end
      end
  end.

#[export] Instance SerBiDi_channel : SerChannel E := {
  Chan := BiDi In Out E;
  sc_poll_recv := on_rx ser_poll_recv;
  SendFut := ReserveFuture;
  sc_send_start := ReserveStart;
  sc_send bs f := on_tx (DeserSender_send_poll tid_out 5 bs f);
  sc_close_with_error := SerBiDi_close_with_error;
}.
End SerBiDi.

(** ** Specifications *)

Section BiDiSpec.
Context {PU : PackUsize} {PUL : PackUsizeLaws}.
Context {IA : IndexAlloc} {IAL : IndexAllocLaws}.
Context {WCA : WaitCellApi} {WCL : WaitCellLaws} {WQA : WaitQueueApi} {WQL : WaitQueueLaws}.
Context {In Out E : Type}.

(** Both pipes at rest, with their views and messages. *)
Record brep (b : BiDi In Out E) (vt : view E) (vr : view E) (outs : list Out) (ins : list In) : Prop := {
  br_tx : prep (bd_tx b) vt outs;
  br_rx : prep (bd_rx b) vr ins;
}.

Lemma on_tx_wp {A} (m : M (Pipe Out E) A) (Q : A -> BiDi In Out E -> Prop) b :
  wp m (fun a p => Q a (set_bd_tx p b)) (bd_tx b) -> wp (on_tx m) Q b.
Proof. apply wp_zoom. Qed.
Lemma on_rx_wp {A} (m : M (Pipe In E) A) (Q : A -> BiDi In Out E -> Prop) b :
  wp m (fun a p => Q a (set_bd_rx p b)) (bd_rx b) -> wp (on_rx m) Q b.
Proof. apply wp_zoom. Qed.

Lemma BiDi_close_with_error_wp (e : E) b vt vr outs ins :
  brep b vt vr outs ins ->
  wp (BiDi_close_with_error e) (fun r b' =>
    brep b' (fail_view e vt) (fail_view e vr) outs ins /\
    r = bool_decide (v_failed vt = None) || bool_decide (v_failed vr = None)) b.
Proof.
  intros [Ht Hr]. apply wp_bind, on_tx_wp. apply (close_pipe_wp _ _ _ _ _ Ht). intros p Hp.
  apply wp_bind, on_rx_wp. apply (close_pipe_wp _ _ _ _ _ Hr). intros p' Hp'.
  apply wp_ret. split; [by split|]. by rewrite orb_comm.
Qed.

(** Closing fails both directions, each with the first error it was given, and says
    whether either was still open. *)
Theorem BiDi_close_with_error_spec (e : E) b vt vr outs ins :
  brep b vt vr outs ins ->
  wp (BiDi_close_with_error e) (fun r b' =>
    brep b' (fail_view e vt) (fail_view e vr) outs ins /\
    r = bool_decide (v_failed vt = None) || bool_decide (v_failed vr = None)) b.
Proof. apply BiDi_close_with_error_wp. Qed.

Lemma Sender_reserve_poll_wp {T} f (p : Pipe T E) v vals
    (Q : ReserveFuture * poll (result Permit (SendError E unit)) -> Pipe T E -> Prop) :
  prep p v vals ->
  (forall p' fp,
    match snd fp with
    | Pending => v_rx_closed v = false /\ prep p' v vals
    | Ready (Ok (mkPermit (mkReservation i))) =>
        v_rx_closed v = false /\ (i ∉ v_queued v) /\ (i ∉ v_held v) /\
        prep p' (upd_held ({[i]} ∪ v_held v) v) vals
    | Ready (Err e) => v_rx_closed v = true /\ e = send_reason (v_failed v) /\ prep p' v vals
    end -> Q fp p') ->
  wp (Sender_reserve_poll 5 f) Q p.
Proof.
  intros Hp HQ. apply wp_bind. eapply on_core_wp; [apply (reserve_poll_spec f)|apply Hp|done|].
  intros c' [f' [|[[i]|e]]] v' Hr' Hpost; unfold reserve_post in Hpost; cbn [fst snd] in Hpost;
    destruct Hp as [Hr Hl He].
  - destruct Hpost as (-> & Hcl & _). apply wp_ret, HQ. cbn. split; [done|]. by split.
  - destruct Hpost as (Hcl & Hi & Hq & Hh & ->). apply wp_bind, elem_check_wp; [cbn; lia|].
    apply wp_ret, HQ. cbn. by split_and!.
  - destruct Hpost as (Hcl & -> & ->). apply wp_ret, HQ. cbn. by split_and!.
Qed.

(** What receiving finds: the oldest message, the end, or nothing yet. *)
Definition recv_found (ins : list In) (vr : view E) : poll (result (Event In Permit) (WaitError E)) :=
  match ins with
  | x :: _ => if v_delivered vr <? LAST_POS then Ready (Ok (Recv x)) else
      poll_map (fun r => match r with
                         | Ok x => Ok (Recv x)
                         | Err RecvDisconnected => Err WaitDisconnected
                         | Err (RecvErrorWith e) => Err (WaitRecv e)
                         end) (nothing_async vr)
  | [] =>
      poll_map (fun r => match r with
                         | Ok x => Ok (Recv x)
                         | Err RecvDisconnected => Err WaitDisconnected
                         | Err (RecvErrorWith e) => Err (WaitRecv e)
                         end) (nothing_async vr)
  end.

Lemma wait_recv_wp b vt vr outs ins :
  brep b vt vr outs ins ->
  wp wait_recv (fun sr b' => snd sr = recv_found ins vr /\ seen_tx_error b' = seen_tx_error b) b.
Proof.
  intros [Ht Hr]. apply wp_bind, on_rx_wp.
  eapply wp_mono; [by apply Receiver_poll_recv_wp|]. cbn. intros r p [_ H]. unfold recv_found.
  destruct ins as [|x ins]; [|destruct (v_delivered vr <? LAST_POS)]; destruct H as [-> _];
    unfold nothing_async; try destruct (v_tx_closed vr); try destruct (v_failed vr);
    (apply wp_ret || apply wp_bind, wp_modify, wp_ret); done.
Qed.

(** The sending side failed with an error: [wait] reports it, but only once; from then
    on it tells what the receiving side has. *)
Theorem wait_send_error_once f (e : E) b vt vr outs ins :
  brep b vt vr outs ins -> v_rx_closed vt = true -> v_failed vt = Some e ->
  wp (wait_poll 5 (WSelect f)) (fun sr b' =>
    seen_tx_error b' = true /\
    snd sr = if seen_tx_error b then recv_found ins vr else Ready (Err (WaitSend e))) b.
Proof.
  intros Hb Hcl Hf. apply wp_bind, on_tx_wp. apply (Sender_reserve_poll_wp _ _ _ _ _ (br_tx _ _ _ _ _ Hb)).
  intros p [f' [|[[[i]]|e']]] H; cbn [fst snd] in H; [destruct H; congruence..|].
  destruct H as (_ & -> & Hp). rewrite Hf. cbn. apply wp_bind, wp_gets. cbn.
  destruct (seen_tx_error b) eqn:Hseen.
  - eapply wp_mono; [apply (wait_recv_wp _ vt vr outs ins); split; [done|apply Hb]|].
    cbn. intros sr b' [Hs Hb']. by rewrite Hb'.
  - apply wp_bind, wp_modify, wp_ret. done.
Qed.

(** The sending side is over without an error: [wait] tells what the receiving side has. *)
Theorem wait_send_disconnected f b vt vr outs ins :
  brep b vt vr outs ins -> v_rx_closed vt = true -> v_failed vt = None ->
  wp (wait_poll 5 (WSelect f)) (fun sr b' => snd sr = recv_found ins vr) b.
Proof.
  intros Hb Hcl Hf. apply wp_bind, on_tx_wp. apply (Sender_reserve_poll_wp _ _ _ _ _ (br_tx _ _ _ _ _ Hb)).
  intros p [f' [|[[[i]]|e']]] H; cbn [fst snd] in H; [destruct H; congruence..|].
  destruct H as (_ & -> & Hp). rewrite Hf. cbn. apply wp_bind, wp_gets.
  eapply wp_mono; [apply (wait_recv_wp _ vt vr outs ins); split; [done|apply Hb]|]. by intros sr b' [Hs _].
Qed.

(** With room in the channel, [reserve] does not wait. *)
Lemma Sender_reserve_free_wp {T} n (p : Pipe T E) v vals (Q : ReserveFuture * poll (result Permit (SendError E unit)) -> Pipe T E -> Prop) :
  prep p v vals -> v_rx_closed v = false -> ~ all_used v ->
  (forall i p', (i ∉ v_queued v) -> (i ∉ v_held v) -> prep p' (upd_held ({[i]} ∪ v_held v) v) vals ->
     Q (ReserveStart, Ready (Ok (mkPermit (mkReservation i)))) p') ->
  wp (Sender_reserve_poll (S n) ReserveStart) Q p.
Proof.
  intros [Hrt Hl He] Hcl Hfree HQ. unfold Sender_reserve_poll. cbn [reserve_poll].
  apply wp_bind, wp_zoom, wp_bind.
  destruct (try_reserve_spec _ _ Hrt I) as (c' & r & v' & Hrun & Hr' & Hpost).
  exists c', r. split; [exact Hrun|]. unfold try_reserve_post in Hpost. rewrite Hcl in Hpost.
  destruct Hpost as [(i & -> & Hi & Hq & Hh & ->)|(_ & _ & Hall)]; [|done].
  apply wp_ret, wp_bind, elem_check_wp; [cbn; lia|]. apply wp_ret, HQ; [done..|]. by split.
Qed.

(** Sending has priority: while the channel has room, [wait] never receives. *)
Theorem wait_prefers_sending b vt vr outs ins :
  brep b vt vr outs ins -> v_rx_closed vt = false -> ~ all_used vt ->
  wp (wait_poll 5 (WSelect ReserveStart)) (fun sr b' =>
    exists permit, snd sr = Ready (Ok (SendReady permit)) /\
    exists i, permit = mkPermit (mkReservation i) /\ brep b' (upd_held ({[i]} ∪ v_held vt) vt) vr outs ins) b.
Proof.
  intros [Ht Hr] Hcl Hfree. apply wp_bind, on_tx_wp. eapply Sender_reserve_free_wp; [done..|]. intros i p' _ _ Hp.
  cbn. apply wp_ret. eexists. split; [done|]. exists i. split; [done|]. by split.
Qed.

End BiDiSpec.

(** ** The serialized end implements the interface *)

Section SerBiDiSpec.
Context {PU : PackUsize} {PUL : PackUsizeLaws}.
Context {IA : IndexAlloc} {IAL : IndexAllocLaws}.
Context {WCA : WaitCellApi} {WCL : WaitCellLaws} {WQA : WaitQueueApi} {WQL : WaitQueueLaws}.
Context {In Out E : Type} {PIn : Postcard In} {POut : Postcard Out}.
Variables (tid_in tid_out : TypeId).

Lemma ser_poll_recv_wp (p : Pipe In E) v vals :
  prep p v vals ->
  wp (ser_poll_recv tid_in) (fun r p' => exists v' vals', prep p' v' vals' /\
    match vals with
    | x :: rest =>
        if v_delivered v <? LAST_POS then r = Ready (Ok (pc_to_allocvec x)) /\ vals' = rest
        else r = poll_map (result_map (fun _ : In => Ok [])) (nothing_async v) /\ vals' = vals
    | [] => r = poll_map (result_map (fun _ : In => Ok [])) (nothing_async v) /\ vals' = vals
    end) p.
Proof.
  intros Hp. apply wp_bind, wp_bind. eapply on_core_wp; [apply poll_dequeue_spec|apply Hp|done|].
  intros c' a v' Hr' (r & Hpost & ->). unfold try_dequeue_post in Hpost.
  pose proof (Forall2_length _ _ _ (prep_elems _ _ _ Hp)) as Hlen. unfold nothing_async, recv_reason in *.
  assert (Hsame : v' = v -> prep (set_core c' p) v vals).
  { intros ->. destruct Hp. by split. }
  destruct (v_queued v) as [|i q] eqn:Hq, vals as [|x vals']; try done.
  - destruct Hpost as [-> ->].
    destruct (v_tx_closed v), (v_failed v); apply wp_ret, wp_ret; exists v, []; (split; [by apply Hsame|done]).
  - destruct (v_delivered v <? LAST_POS); destruct Hpost as [-> ->];
      [|destruct (v_tx_closed v), (v_failed v); apply wp_ret, wp_ret; exists v, (x :: vals');
        (split; [by apply Hsame|done])].
    destruct (prep_dequeue _ _ _ _ _ _ _ _ Hp Hq eq_refl Hr') as (Hp1 & Hx & Hiq & Hih & H0).
    apply wp_bind, erase_wp, wp_ret, wp_bind.
    eapply (SerRecvRef_to_vec_wp tid_in _ _ _ _ _ x _ _ Hp1); [done..|].
    apply wp_bind. eapply (SerRecvRef_drop_wp tid_in _ _ _ _ _ x _ _ Hp1); [done..|].
    intros p' Hp' _. apply wp_ret. by eexists _, _.
Qed.

(** Offering bytes: wait for capacity, decode, queue. *)
Lemma DeserSender_send_poll_wp (p : Pipe Out E) v vals bs f :
  prep p v vals ->
  wp (DeserSender_send_poll tid_out 5 bs f) (fun fr p' =>
    match snd fr with
    | Pending => v_rx_closed v = false /\ prep p' v vals
    | Ready (Ok tt) => v_rx_closed v = false /\ exists x v', pc_from_bytes bs = Ok x /\ prep p' v' (vals ++ [x])
    | Ready (Err (SerSendDeserialize e)) => v_rx_closed v = false /\ pc_from_bytes bs = Err e /\ prep p' v vals
    | Ready (Err e) => v_rx_closed v = true /\ e = from_send_error (send_reason (v_failed v)) /\ prep p' v vals
    end) p.
Proof.
  intros Hp. apply wp_bind, wp_bind. eapply on_core_wp; [apply (reserve_poll_spec f)|apply Hp|done|].
  intros c' [f' [|[[i]|e]]] v' Hr' Hpost; unfold reserve_post in Hpost; cbn [fst snd] in Hpost.
  - destruct Hpost as (-> & Hcl & _). apply wp_ret, wp_ret. cbn. split; [done|]. destruct Hp. by split.
  - destruct Hpost as (Hcl & Hi & Hq & Hh & ->).
    assert (Hp1 : prep (set_core c' p) (upd_held ({[i]} ∪ v_held v) v) vals) by (by destruct Hp; split).
    apply wp_bind, erase_wp, wp_ret, wp_bind. apply (SerPermit_send_wp tid_out _ _ _ _ _ _ _ Hp1); [done..|].
    intros p'. destruct (pc_from_bytes bs) as [x|e]; intros Hp'; apply wp_ret; cbn; split; try done.
    by eexists _, _.
  - destruct Hpost as (Hcl & -> & ->). apply wp_ret, wp_ret. cbn.
    unfold send_reason, from_send_error. destruct (v_failed v); (split_and!; [done..|]); destruct Hp; by split.
Qed.

(** With room, bytes that decode are queued at once. *)
Lemma DeserSender_send_poll_free (p : Pipe Out E) v vals bs x :
  prep p v vals -> v_rx_closed v = false -> ~ all_used v -> pc_from_bytes bs = Ok x ->
  wp (DeserSender_send_poll tid_out 5 bs ReserveStart) (fun fr p' =>
    snd fr = Ready (Ok tt) /\ exists v', prep p' v' (vals ++ [x])) p.
Proof.
  intros Hp Hcl Hfree Hx. apply wp_bind. unfold DeserSender_reserve_poll. cbn [reserve_poll].
  apply wp_bind, wp_zoom, wp_bind.
  destruct (try_reserve_spec _ _ (prep_core _ _ _ Hp) I) as (c' & r & v' & Hrun & Hr' & Hpost).
  exists c', r. split; [exact Hrun|]. unfold try_reserve_post in Hpost. rewrite Hcl in Hpost.
  destruct Hpost as [(i & -> & Hi & Hq & Hh & ->)|(_ & _ & Hall)]; [|done]. apply wp_ret.
  assert (Hp1 : prep (set_core c' p) (upd_held ({[i]} ∪ v_held v) v) vals) by (by destruct Hp; split).
  apply wp_bind, erase_wp, wp_ret, wp_bind. apply (SerPermit_send_wp tid_out _ _ _ _ _ _ _ Hp1); [done..|].
  intros p'. rewrite Hx. intros Hp'. apply wp_ret. split; [done|]. by eexists.
Qed.

#[export] Instance SerBiDi_channel_laws : SerChannelLaws E (SC := SerBiDi_channel (In := In) (Out := Out) tid_in tid_out).
Proof.
  unshelve econstructor.
  - exact (fun b => exists vt vr outs ins, brep (b : BiDi In Out E) vt vr outs ins).
  - intros b (vt & vr & outs & ins & [Ht Hr]). apply on_rx_wp.
    eapply wp_mono; [by apply ser_poll_recv_wp|]. cbn. intros r p (v' & vals' & Hp & _).
    exists vt, v', outs, vals'. by split.
  - intros b bs f0 (vt & vr & outs & ins & [Ht Hr]). apply on_tx_wp.
    eapply wp_mono; [by apply DeserSender_send_poll_wp|]. cbn. intros [f r] p H. cbn in *.
    assert (exists v' vals', prep p v' vals') as (v' & vals' & Hp).
    { destruct r as [|[[]|[]]]; destruct H as (_ & H);
        [by eexists _, _|destruct H as (x & v' & _ & H)|destruct H as (_ & H)..]; by eexists _, _. }
    exists v', vr, vals', ins. by split.
  - intros b e (vt & vr & outs & ins & Hb).
    eapply wp_mono; [apply (BiDi_close_with_error_wp e b vt vr outs ins Hb)|]. cbn. intros r b' [Hb' _].
    by eexists _, _, _, _.
Defined.

End SerBiDiSpec.
