(* ===== verification/Message.v ===== *)
(** Frames: [calliope/src/message.rs], the identities of [calliope/src/service.rs] and
    the link identifiers of [calliope/src/conn_table.rs].

    A header is encoded and decoded by [postcard], which is the interface [Postcard];
    the body of an outbound frame is whatever can serialize itself ([Body]): a message
    reference of a channel or a shared box. *)
From S2P Require Import Prelude Interfaces.

(** ** Identifiers *)

(** [struct Id(NonZeroU16)] *)
Abbreviation Id := Z.
Definition is_id (i : Id) : Prop := 0 < i < u16_mod.

(** [struct LinkId] *)
Record LinkId := mkLinkId { link_local : option Id; link_remote : option Id }.
#[export] Instance LinkId_eq_dec : EqDecision LinkId.
Proof. solve_decision. Defined.

(** [LinkId::INTERFACE] *)
Definition INTERFACE : LinkId := mkLinkId None None.

(** [enum IdentityKind]: a [heapless::String<32>], as its bytes. *)
Inductive IdentityKind : Type := Name (name : bytes).
#[export] Instance IdentityKind_eq_dec : EqDecision IdentityKind.
Proof. solve_decision. Defined.

(** [struct Identity]; a [Uuid] is its 128-bit value. *)
Record Identity := mkIdentity { identity_id : Z; identity_kind : IdentityKind }.
#[export] Instance Identity_eq_dec : EqDecision Identity.
Proof. solve_decision. Defined.

(** [Identity::new::<S>], where [uuid] is [S::UUID]. *)
Definition Identity_new (uuid : Z) (kind : IdentityKind) : Identity := mkIdentity uuid kind.
(** [Identity::from_name::<S>] *)
Definition Identity_from_name (uuid : Z) (name : bytes) : Identity := Identity_new uuid (Name name).
Definition Identity_uuid (i : Identity) : Z := identity_id i.
(** [From<&str> for IdentityKind]: the conversion into the fixed-size string panics on
    a name that does not fit. *)
Definition IdentityKind_from_str (s : bytes) : outcome IdentityKind :=
  if (length s <=? 32)%nat then Val (Name s) else Panic.

(** ** Headers *)

(** [enum DecodeErrorKind] *)
Inductive DecodeErrorKind : Type :=
| UnexpectedEnd | BadVarint | BadBool | BadChar | BadUtf8 | BadOption | BadEnum
| BadEncoding | BadCrc | SerdeCustom | UnknownKind.
#[export] Instance DecodeErrorKind_eq_dec : EqDecision DecodeErrorKind.
Proof. solve_decision. Defined.

(** [enum DecodeError] *)
Inductive DecodeError : Type :=
| DecodeHeader (kind : DecodeErrorKind)
| DecodeBody (kind : DecodeErrorKind)
| UnexpectedTrailingData.
#[export] Instance DecodeError_eq_dec : EqDecision DecodeError.
Proof. solve_decision. Defined.

(** [enum Rejection] *)
Inductive Rejection : Type :=
| ConnTableFull (capacity : Z)
| NotFound
| ServiceRejected
| RejectDecodeError (error : DecodeError).
#[export] Instance Rejection_eq_dec : EqDecision Rejection.
Proof. solve_decision. Defined.

(** [enum Reset] *)
Inductive Reset : Type :=
| BecauseISaidSo
| YouDoneGoofed (error : DecodeError)
| NoSuchConn
| YesSuchConn
| GoAway.
#[export] Instance Reset_eq_dec : EqDecision Reset.
Proof. solve_decision. Defined.

(** [enum Header] *)
Inductive Header : Type :=
| Connect (local_id : Id) (identity : Identity)
| Data (local_id remote_id : Id)
| Ack (local_id remote_id : Id)
| Reject (remote_id : Id) (reason : Rejection)
| HReset (remote_id : Id) (reason : Reset).
#[export] Instance Header_eq_dec : EqDecision Header.
Proof. solve_decision. Defined.

(** [struct Frame<T>] *)
Record Frame (T : Type) := mkFrame { header : Header; body : T }.
Arguments mkFrame {T} header body.
Arguments header {T} f : rename.
Arguments body {T} f : rename.

Definition InboundFrame : Type := Frame bytes.

(** [Header::link_id] *)
Definition link_id (h : Header) : LinkId :=
  match h with
  | Ack local_id remote_id => mkLinkId (Some local_id) (Some remote_id)
  | Reject remote_id _ => mkLinkId None (Some remote_id)
  | Connect local_id _ => mkLinkId (Some local_id) None
  | HReset remote_id _ => mkLinkId None (Some remote_id)
  | Data local_id remote_id => mkLinkId (Some local_id) (Some remote_id)
  end.

(** [Header::has_body] *)
Definition has_body (h : Header) : bool :=
  match h with
  | Reject _ ServiceRejected | Connect _ _ | Data _ _ => true
  | _ => false
  end.

(** [DecodeErrorKind::from_postcard] *)
Definition from_postcard (error : PostcardError) : DecodeErrorKind :=
  match error with
  | DeserializeUnexpectedEnd => UnexpectedEnd
  | DeserializeBadVarint => BadVarint
  | DeserializeBadBool => BadBool
  | DeserializeBadChar => BadChar
  | DeserializeBadUtf8 => BadUtf8
  | DeserializeBadOption => BadOption
  | DeserializeBadEnum => BadEnum
  | DeserializeBadEncoding => BadEncoding
  | DeserializeBadCrc => BadCrc
  | SerdeDeCustom => SerdeCustom
  | OtherPostcardError _ => UnknownKind
  end.

(** [DecodeError::body], [DecodeError::header], [Reset::bad_frame] *)
Definition decode_body (error : PostcardError) : DecodeError := DecodeBody (from_postcard error).
Definition decode_header (error : PostcardError) : DecodeError := DecodeHeader (from_postcard error).
Definition bad_frame (error : PostcardError) : Reset := YouDoneGoofed (decode_body error).

(** ** Decoding *)

Section Decode.
Context {PH : Postcard Header}.

(** [Frame::from_bytes] *)
Definition from_bytes (frame : bytes) : result InboundFrame DecodeError :=
  match pc_take_from_bytes frame with
  | Err e => Err (decode_header e)
  | Ok (hdr, rem) =>
      if negb (has_body hdr) then
        if negb (bool_decide (rem = [])) then Err UnexpectedTrailingData
        else Ok (mkFrame hdr [])
      else
        let off := (length frame - length rem)%nat in
        Ok (mkFrame hdr (drop off frame))
  end.

(** [Frame::deserialize_from_bytes] *)
Definition deserialize_from_bytes {T} {PT : Postcard T} (buf : bytes) : result (Frame T) DecodeError :=
  match from_bytes buf with
  | Err e => Err e
  | Ok f =>
      match pc_from_bytes (body f) with
      | Err e => Err (decode_body e)
      | Ok b => Ok (mkFrame (header f) b)
      end
  end.
End Decode.

(** ** Outbound frames *)

(** What an outbound body can do: [SerRecvRef] and [serbox::Consumer]. *)
Class Body (B : Type) := {
  body_to_vec : B -> result bytes PostcardError;
  body_to_slice : B -> bytes -> bytes * result nat PostcardError;
}.

(** [enum OutboundData]; [D] is a [SerRecvRef], [C] a [serbox::Consumer]. *)
Inductive OutboundData (D C : Type) : Type :=
| Empty
| OData (data : D)
| Rejected (consumer : C)
| Hello (consumer : C).
Arguments Empty {D C}.
Arguments OData {D C} data.
Arguments Rejected {D C} consumer.
Arguments Hello {D C} consumer.

Section Outbound.
Context {D C : Type}.
Definition OutboundFrame : Type := Frame (OutboundData D C).

Definition frame_data (remote_id local_id : Id) (data : D) : OutboundFrame :=
  mkFrame (Data local_id remote_id) (OData data).
Definition frame_ack (local_id remote_id : Id) : OutboundFrame :=
  mkFrame (Ack local_id remote_id) Empty.
Definition frame_reject (remote_id : Id) (reason : Rejection) : OutboundFrame :=
  mkFrame (Reject remote_id reason) Empty.
Definition frame_reset (remote_id : Id) (reason : Reset) : OutboundFrame :=
  mkFrame (HReset remote_id reason) Empty.
Definition frame_connect (local_id : Id) (identity : Identity) (hello : C) : OutboundFrame :=
  mkFrame (Connect local_id identity) (Hello hello).

Context {PH : Postcard Header} {BD : Body D} {BC : Body C}.

(** [OutboundData::to_slice]: the empty body is an empty slice of no buffer. *)
Definition data_to_slice (b : OutboundData D C) (buf : bytes) : bytes * result nat PostcardError :=
  match b with
  | Empty => (buf, Ok 0%nat)
  | OData data => body_to_slice data buf
  | Rejected consumer => body_to_slice consumer buf
  | Hello consumer => body_to_slice consumer buf
  end.

(** [OutboundData::to_vec] *)
Definition data_to_vec (b : OutboundData D C) : result bytes PostcardError :=
  match b with
  | Empty => Ok []
  | OData data => body_to_vec data
  | Rejected consumer => body_to_vec consumer
  | Hello consumer => body_to_vec consumer
  end.

(** [Frame::to_slice]: the buffer as written, and the slice returned.  The second [buf]
    shadows the first, so the slice is cut from what follows the header. *)
Definition frame_to_slice (f : OutboundFrame) (buf0 : bytes)
    : bytes * outcome (result bytes PostcardError) :=
  match pc_to_slice (header f) buf0 with
  | (buf1, Err e) => (buf1, Val (Err e))
  | (buf1, Ok used) =>
      let buf := drop used buf1 in
      match data_to_slice (body f) buf with
      | (buf', Err e) => (take used buf1 ++ buf', Val (Err e))
      | (buf', Ok n) =>
          let used' := (used + n)%nat in
          (take used buf1 ++ buf',
           if (used' <=? length buf')%nat then Val (Ok (take used' buf')) else Panic)
      end
  end.

(** [Frame::to_vec] *)
Definition frame_to_vec (f : OutboundFrame) : result bytes PostcardError :=
  match pc_to_allocvec (header f) with
  | Err e => Err e
  | Ok buf =>
      match data_to_vec (body f) with
      | Err e => Err e
      | Ok b => Ok (buf ++ b)
      end
  end.
End Outbound.
Arguments OutboundFrame : clear implicits.

(** ** Properties *)

Section MessageProps.
Context {PH : Postcard Header} {PHL : PostcardLaws Header}.
Context {D C : Type} {BD : Body D} {BC : Body C}.

(** Every header names a connection: the interface link is never addressed. *)
Theorem link_id_not_interface (h : Header) : link_id h <> INTERFACE.
Proof. by destruct h. Qed.

(** C37: A frame encoded by one peer is decoded by the other to the same header and the
    bytes of its body; a header without a body must not come with one. *)
Theorem frame_round_trip (f : OutboundFrame D C) bs b :
  frame_to_vec f = Ok bs -> data_to_vec (body f) = Ok b ->
  from_bytes bs =
    if has_body (header f) || bool_decide (b = []) then Ok (mkFrame (header f) b)
    else Err UnexpectedTrailingData.
Proof.
  unfold frame_to_vec, from_bytes. destruct (pc_to_allocvec (header f)) as [h|e] eqn:Hh; [|done].
  intros Hf Hb. rewrite Hb in Hf. simplify_eq.
  rewrite (pc_take_round_trip _ _ _ Hh). destruct (has_body (header f)); cbn.
  - rewrite length_app, Nat.add_sub, drop_app_length. done.
  - case_bool_decide; cbn; by subst.
Qed.

(** The body of a decoded frame is borrowed from the end of the received bytes, whatever they
    are. *)
Theorem from_bytes_body_is_suffix frame f :
  from_bytes frame = Ok f -> exists pre, frame = pre ++ body f.
Proof.
  unfold from_bytes. destruct (pc_take_from_bytes frame) as [[hdr rem]|e] eqn:Ht; [|done].
  destruct (pc_take_suffix _ _ _ Ht) as [pre Hpre].
  destruct (has_body hdr); cbn; [|case_bool_decide; cbn; [|done]]; intros [= <-]; cbn.
  - exists (take (length frame - length rem) frame). by rewrite take_drop.
  - exists frame. by rewrite app_nil_r.
Qed.

(** [Frame::to_slice] returns the slice that starts after the header and is one header
    too long: it holds the body and stale bytes of the buffer, or indexing panics. *)
Theorem frame_to_slice_misses_header (f : OutboundFrame D C) h b buf :
  pc_to_allocvec (header f) = Ok h -> (length h <= length buf)%nat ->
  data_to_slice (body f) (drop (length h) buf) = (b ++ drop (length h + length b) buf, Ok (length b)) ->
  (length h + length b <= length buf)%nat ->
  frame_to_slice f buf =
    (h ++ b ++ drop (length h + length b) buf,
     if (length h + (length h + length b) <=? length buf)%nat
     then Val (Ok (b ++ take (length h) (drop (length h + length b) buf))) else Panic).
Proof.
  intros Hh Hfit Hd Hlen. unfold frame_to_slice. rewrite (pc_to_slice_fits _ _ _ Hh Hfit).
  rewrite drop_app_length, Hd, take_app_length. f_equal.
  rewrite length_app, length_drop.
  replace (length b + (length buf - (length h + length b)))%nat with (length buf - length h)%nat by lia.
  destruct (Nat.leb_spec (length h + length b) (length buf - length h)),
    (Nat.leb_spec (length h + (length h + length b)) (length buf)); try lia; [|done].
  do 2 f_equal. rewrite take_app_ge by lia. by replace (length h + length b - length b)%nat with (length h) by lia.
Qed.
End MessageProps.
