(* ===== verification/ReqRsp.v ===== *)
(** The request/response client of [calliope/src/req_rsp.rs], in a debug build.

    Each future is a state and a poll function: [request_poll] runs a request to its next
    suspension or its end; [dispatch_poll] does so for the dispatcher, in the two steps
    [dispatch_select] and [dispatch_wake] between which another thread may act.  The map of
    waiting requests is an interface ([WaitMap]). *)
From S2P Require Import Prelude Interfaces Errors Core Pipe BiDi Message WaitMap.

Section ReqRsp.
Context {PU : PackUsize} {IA : IndexAlloc} {WCA : WaitCellApi} {WQA : WaitQueueApi}.
(** [S::Request] and [S::Response] *)
Context {Req Rsp : Type} {WMA : WaitMapApi Rsp}.

(** [struct Seq], [struct Request<T>], [struct Response<T>] *)
Record Seq := mkSeq { seq_of : Z }.
Record Request (T : Type) := mkRequest { rq_seq : Z; rq_body : T }.
Arguments mkRequest {T} rq_seq rq_body.
Arguments rq_seq {T} r.
Arguments rq_body {T} r.
Record Response (T : Type) := mkResponse { rs_seq : Z; rs_body : T }.
Arguments mkResponse {T} rs_seq rs_body.
Arguments rs_seq {T} r.
Arguments rs_body {T} r.

(** [Seq::respond], [Request::body], [into_parts], [respond] *)
Definition Seq_respond {T} (self : Seq) (body : T) : Response T := mkResponse (seq_of self) body.
Definition Request_body {T} (self : Request T) : T := rq_body self.
Definition into_parts {T} (self : Request T) : Seq * T := (mkSeq (rq_seq self), rq_body self).
Definition Request_respond {T U} (self : Request T) (body : U) : Response U := mkResponse (rq_seq self) body.

(** [client::Connection<S>] *)
Definition Connection : Type := BiDi (Response Rsp) (Request Req) Reset.

(** [struct Client<S>] *)
Record Client := mkClient {
  seq : Z;
  channel : Connection;
  shutdown_cell : WaitCell;
  dispatcher : WaitMap;
  has_dispatcher : bool;
}.
Definition set_seq (n : Z) (c : Client) : Client := mkClient n (channel c) (shutdown_cell c) (dispatcher c) (has_dispatcher c).
Definition set_channel (b : Connection) (c : Client) : Client := mkClient (seq c) b (shutdown_cell c) (dispatcher c) (has_dispatcher c).
Definition set_shutdown (w : WaitCell) (c : Client) : Client := mkClient (seq c) (channel c) w (dispatcher c) (has_dispatcher c).
Definition set_dispatcher (m : WaitMap) (c : Client) : Client := mkClient (seq c) (channel c) (shutdown_cell c) m (has_dispatcher c).
Definition set_has (b : bool) (c : Client) : Client := mkClient (seq c) (channel c) (shutdown_cell c) (dispatcher c) b.

(** [enum DispatchError], [enum RequestError] *)
Inductive DispatchError : Type := AlreadyRunning | ConnectionReset (reset : Reset).
Inductive RequestError : Type := ReqReset (reset : Reset) | SeqInUse.

(** [Client::new] *)
Definition Client_new (client : Connection) : Client := mkClient 0 client wc_new wm_new false.

Definition on_chan {A} (m : M Connection A) : M Client A := zoom channel set_channel m.
Definition on_map {A} (f : WaitMap -> WaitMap * A) : M Client A :=
  zoom dispatcher set_dispatcher (fun m => match f m with (m', a) => (m', Val a) end).
Definition map_wait_op {A} (op : WaitMap -> MapWait -> WaitMap * MapWait * A) (w : MapWait) : M Client (MapWait * A) :=
  on_map (fun m => match op m w with (m', w', a) => (m', (w', a)) end).
Definition on_shutdown {A} (f : WaitCell -> WaitCell * A) : M Client A :=
  zoom shutdown_cell set_shutdown (fun w => match f w with (w', a) => (w', Val a) end).

(** *** [Client::request] *)

(** [self.seq.fetch_add(1)] *)
Definition seq_fetch_add : M Client Z := n ← gets seq; modify (set_seq (usize_wrapping_add n 1));; mret n.

(** The closure [handle_wait_error]. *)
Definition handle_wait_error (err : MapWaitError) : M Client RequestError :=
  match err with
  | MapClosed =>
      r ← on_chan (on_tx Sender_try_reserve);
      match r with
      | Ok _ => panic (* expect_err *)
      | Err (TrySendErrorWith _ error) => mret (ReqReset error)
      | Err _ => panic (* unreachable! *)
      end
  | Duplicate => mret SeqInUse
  | AlreadyConsumed | NeverAdded => panic (* unreachable! *)
  | OtherWaitError _ => panic (* todo! *)
  end.

(** The future of [request]: reserving, at the head of the loop with its permit, adding its
    waiter, or waiting for the response to the request it sent. *)
Inductive ReqState : Type :=
| ReqReserve (f : ReserveFuture)
| ReqLoop (permit : Permit)
| ReqEnqueue (permit : Permit) (seq : Z) (wait : MapWait)
| ReqWait (seq : Z) (wait : MapWait)
| ReqEnd (seq : option Z).

(** The end of the future: its waiter and permit, if it has them, are dropped. *)
Definition request_drop (st : ReqState) : M Client unit :=
  match st with
  | ReqReserve _ | ReqEnd _ => mret tt
  | ReqLoop permit => on_chan (on_tx (Permit_drop permit))
  | ReqEnqueue permit _ w => on_map (fun m => (wm_drop m w, tt));; on_chan (on_tx (Permit_drop permit))
  | ReqWait _ w => on_map (fun m => (wm_drop m w, tt))
  end.

(** One poll of the future of [request body], started with [ReqReserve ReserveStart]. *)
Fixpoint request_poll (fuel : nat) (body : Req) (st : ReqState) : M Client (ReqState * poll (result Rsp Reset)) :=
  match fuel with
  | O => out_of_fuel
  | S fuel =>
      match st with
      | ReqReserve f =>
          fp ← on_chan (on_tx (Sender_reserve_poll 5 f));
          match snd fp with
          | Pending => mret (ReqReserve (fst fp), Pending)
          | Ready (Err (SendDisconnected _)) => mret (ReqEnd None, Ready (Err BecauseISaidSo))
          | Ready (Err (SendErrorWith _ error)) => mret (ReqEnd None, Ready (Err error))
          | Ready (Ok permit) => request_poll fuel body (ReqLoop permit)
          end
      | ReqLoop permit =>
          seq ← seq_fetch_add;
          request_poll fuel body (ReqEnqueue permit seq (wm_wait seq))
      | ReqEnqueue permit seq w =>
          wp ← map_wait_op wm_enqueue w;
          match snd wp with
          | Pending => mret (ReqEnqueue permit seq (fst wp), Pending)
          | Ready (Ok _) =>
              on_chan (on_tx (Permit_send permit (mkRequest seq body)));;
              request_poll fuel body (ReqWait seq (fst wp))
          | Ready (Err err) =>
              e ← handle_wait_error err;
              on_map (fun m => (wm_drop m (fst wp), tt));;
              match e with
              | ReqReset reset => on_chan (on_tx (Permit_drop permit));; mret (ReqEnd None, Ready (Err reset))
              | SeqInUse => request_poll fuel body (ReqLoop permit)
              end
          end
      | ReqWait seq w =>
          wp ← map_wait_op wm_poll w;
          match snd wp with
          | Pending => mret (ReqWait seq (fst wp), Pending)
          | Ready (Ok rsp) => on_map (fun m => (wm_drop m (fst wp), tt));; mret (ReqEnd (Some seq), Ready (Ok rsp))
          | Ready (Err err) =>
              e ← handle_wait_error err;
              on_map (fun m => (wm_drop m (fst wp), tt));;
              match e with
              | ReqReset reset => mret (ReqEnd (Some seq), Ready (Err reset))
              | SeqInUse => panic (* unreachable! *)
              end
          end
      | ReqEnd _ => panic (* polled after completion *)
      end
  end.

(** *** [Client::shutdown] *)

Definition shutdown : M Client unit :=
  on_shutdown (fun w => (wc_close w, tt));;
  on_chan (BiDi_close_with_error BecauseISaidSo);;
  on_map (fun m => (wm_close m, tt)).

(** *** [Client::dispatch] *)

(** The future of [dispatch]: not polled yet, or in its loop. *)
Inductive DispatchState : Type := DispStart | DispLoop.

(** What the select of the loop comes to: nothing yet, a response to dispatch, or the end. *)
Inductive Selected : Type :=
| SelPending
| SelMsg (msg : Response Rsp)
| SelReturn (r : result unit DispatchError).

(** The head of the loop: the biased select, and the arm of a failed receive. *)
Definition dispatch_select : M Client Selected :=
  s ← on_shutdown wc_poll_wait;
  match s with
  | Ready _ => mret (SelReturn (Ok tt))
  | Pending =>
      msg ← on_chan (on_rx Receiver_poll_recv);
      match msg with
      | Pending => mret SelPending
      | Ready (Ok msg) => mret (SelMsg msg)
      | Ready (Err reset) =>
          let reset := match reset with RecvErrorWith e => e | _ => BecauseISaidSo end in
          on_chan (BiDi_close_with_error reset);;
          on_map (fun m => (wm_close m, tt));;
          mret (SelReturn (Err (ConnectionReset reset)))
      end
  end.

(** The rest of the loop body: the response goes to the request that waits for it. *)
Definition dispatch_wake (msg : Response Rsp) : M Client unit :=
  r ← on_map (fun m => wm_wake m (rs_seq msg) (rs_body msg));
  match r with
  | Woke => mret tt
  | WakeClosed _ => panic (* unreachable! *)
  | NoMatch _ => mret tt
  end.

(** One poll of the future of [dispatch]. *)
Fixpoint dispatch_poll (fuel : nat) (st : DispatchState) : M Client (DispatchState * poll (result unit DispatchError)) :=
  match fuel with
  | O => out_of_fuel
  | S fuel =>
      match st with
      | DispStart =>
          running ← gets has_dispatcher;
          modify (set_has true);;
          if running : bool then panic (* debug_assertions *) else dispatch_poll fuel DispLoop
      | DispLoop =>
          s ← dispatch_select;
          match s with
          | SelPending => mret (DispLoop, Pending)
          | SelReturn r => mret (DispLoop, Ready r)
          | SelMsg msg => dispatch_wake msg;; dispatch_poll fuel DispLoop
          end
      end
  end.
End ReqRsp.
#[global] Arguments mkRequest {T} rq_seq rq_body.
#[global] Arguments rq_seq {T} r.
#[global] Arguments rq_body {T} r.
#[global] Arguments mkResponse {T} rs_seq rs_body.
#[global] Arguments rs_seq {T} r.
#[global] Arguments rs_body {T} r.
