(* ===== verification/ReqRspSpec.v ===== *)
(** The request/response client: what a poll of a request and a turn of the dispatcher do,
    and the client with any number of concurrent requests.

    [client_rep] relates a client to the views of its channel; the second half is a
    transition system whose tasks are the requests in flight, with the responses the
    dispatcher took as its history. *)
From S2P Require Import Prelude Interfaces Errors Core CoreWord CoreQueue Pipe PipeSpec PipeSession BiDi Message WaitMap ReqRsp.

Section ReqRspSpec.
Context {PU : PackUsize} {PUL : PackUsizeLaws}.
Context {IA : IndexAlloc} {IAL : IndexAllocLaws}.
Context {WCA : WaitCellApi} {WCL : WaitCellLaws} {WQA : WaitQueueApi} {WQL : WaitQueueLaws}.
Context {Req Rsp : Type} {WMA : WaitMapApi Rsp} {WML : WaitMapLaws Rsp}.
Notation Client := (Client (Req := Req) (Rsp := Rsp)).
Notation Connection := (Connection (Req := Req) (Rsp := Rsp)).
Implicit Types (c : Client) (b : Req) (v : Rsp) (vt vr : view Reset).
Implicit Types (outs : list (Request Req)) (ins : list (Response Rsp)) (m : WaitMap) (w : MapWait).

(** ** A client at rest *)

(** A channel that failed is closed, and a closed map means a failed channel. *)
Record client_rep c vt vr outs ins : Prop := {
  cr_chan : brep (channel c) vt vr outs ins;
  cr_failed : v_failed vt <> None -> v_rx_closed vt = true;
  cr_map : wm_closed (dispatcher c) = true -> v_failed vt <> None;
}.

Lemma on_chan_wp {A} (f : M Connection A) (Q : A -> Client -> Prop) c :
  wp f (fun a ch => Q a (set_channel ch c)) (channel c) -> wp (on_chan f) Q c.
Proof. apply wp_zoom. Qed.
Lemma on_map_wp {A} (f : WaitMap -> WaitMap * A) (Q : A -> Client -> Prop) c m a :
  f (dispatcher c) = (m, a) -> Q a (set_dispatcher m c) -> wp (on_map f) Q c.
Proof. intros Hf HQ. apply wp_zoom. exists m, a. by rewrite Hf. Qed.
Lemma map_wait_op_wp {A} (op : WaitMap -> MapWait -> WaitMap * MapWait * A) w (Q : MapWait * A -> Client -> Prop) c m w' a :
  op (dispatcher c) w = (m, w', a) -> Q (w', a) (set_dispatcher m c) -> wp (map_wait_op op w) Q c.
Proof. intros Hf HQ. eapply on_map_wp; [|exact HQ]. by rewrite Hf. Qed.

(** Everything but the channel. *)
Definition same_rest c c' : Prop :=
  seq c' = seq c /\ shutdown_cell c' = shutdown_cell c /\ dispatcher c' = dispatcher c /\ has_dispatcher c' = has_dispatcher c.

Lemma set_channel_rest ch c : same_rest c (set_channel ch c).
Proof. done. Qed.

(** A waiter of a closed map learns the error the channel failed with. *)
Lemma handle_closed_wp c vt vr outs ins e :
  client_rep c vt vr outs ins -> v_failed vt = Some e ->
  wp (handle_wait_error MapClosed) (fun r c' => r = ReqReset e /\ same_rest c c' /\ client_rep c' vt vr outs ins) c.
Proof.
  intros [[Ht Hr] Hcl Hm] He. assert (Hrx : v_rx_closed vt = true) by (apply Hcl; congruence).
  apply wp_bind, on_chan_wp, on_tx_wp. eapply Sender_try_reserve_wp; [exact Ht|].
  intros p r _ _ H. rewrite Hrx, He in H. destruct H as [-> Hp]. apply wp_ret.
  split; [done|]. split; [done|]. split; [by split|done|done].
Qed.

(** ** One poll of a request *)

(** The sequence numbers in use. *)
Definition in_use c (n : Z) : Prop := n ∈ wm_keys (dispatcher c).
#[local] Instance in_use_dec c n : Decision (in_use c n).
Proof. unfold in_use. apply _. Defined.

(** The outcome of adding the waiter: the first free number from [s] on is used, and the
    request is sent with it. *)
Definition sent_post c s b vt vr outs ins (r : ReqState * poll (result Rsp Reset)) c' : Prop :=
  exists (k : nat) w vt', let q := usize_wrap (s + Z.of_nat k) in
    r = (ReqWait q w, Pending) /\ ~ in_use c q /\ (forall j : nat, (j < k)%nat -> in_use c (usize_wrap (s + Z.of_nat j))) /\
    seq c' = usize_wrap (s + Z.of_nat k + 1) /\
    shutdown_cell c' = shutdown_cell c /\ has_dispatcher c' = has_dispatcher c /\
    wm_status (dispatcher c) w = None /\ wm_status (dispatcher c') w = Some (Waiting q) /\
    (forall g, g <> w -> wm_status (dispatcher c') g = wm_status (dispatcher c) g) /\
    wm_closed (dispatcher c') = false /\ v_failed vt' = v_failed vt /\
    client_rep c' vt' vr (outs ++ [mkRequest q b]) ins.

Lemma client_rep_ext c c' vt vr outs ins :
  client_rep c vt vr outs ins -> channel c' = channel c -> wm_closed (dispatcher c') = wm_closed (dispatcher c) ->
  client_rep c' vt vr outs ins.
Proof. intros [Hb Hf Hm] Hc Hd. split; [by rewrite Hc|done|by rewrite Hd]. Qed.

(** The waiter of a free number is added, then the request is sent. *)
Lemma enqueue_free_wp f c q i b vt vr outs ins :
  client_rep c vt vr outs ins -> i ∈ v_held vt -> v_rx_closed vt = false -> wm_closed (dispatcher c) = false ->
  ~ in_use c q ->
  wp (request_poll (S (S f)) b (ReqEnqueue (mkPermit (mkReservation i)) q (wm_wait q))) (fun r c' => exists w vt',
    r = (ReqWait q w, Pending) /\ seq c' = seq c /\
    shutdown_cell c' = shutdown_cell c /\ has_dispatcher c' = has_dispatcher c /\
    wm_status (dispatcher c) w = None /\ wm_status (dispatcher c') w = Some (Waiting q) /\
    (forall g, g <> w -> wm_status (dispatcher c') g = wm_status (dispatcher c) g) /\
    wm_closed (dispatcher c') = false /\ v_failed vt' = v_failed vt /\
    client_rep c' vt' vr (outs ++ [mkRequest q b]) ins) c.
Proof.
  intros [[Ht Hr] Hf Hm] Hi Hcl Hopen Hq.
  destruct (wm_enqueue_ok (dispatcher c) q Hopen Hq) as (m & w & Hrun & Hnone & Hw & Hother & Hopen').
  cbn [request_poll]. apply wp_bind. eapply map_wait_op_wp; [exact Hrun|]. cbn [fst snd].
  apply wp_bind, on_chan_wp, on_tx_wp. apply (Permit_send_wp i _ _ vt outs); [exact Ht|done|].
  intros p _ _ Hp. rewrite Hcl in Hp. cbn [dispatcher set_channel set_dispatcher].
  apply wp_bind. eapply map_wait_op_wp; [by apply (wm_poll_waiting m w q)|]. apply wp_ret.
  exists w, (upd_queue (v_delivered vt) (v_queued vt ++ [i]) (v_held vt ∖ {[i]}) vt). split_and!; try done.
  split; [split; [exact Hp|done]|cbn; by intros ?%Hf|cbn; congruence].
Qed.

(** A number in use is skipped. *)
Lemma enqueue_used_wp f c q i b Q :
  wm_closed (dispatcher c) = false -> in_use c q ->
  wp (request_poll f b (ReqLoop (mkPermit (mkReservation i)))) Q c ->
  wp (request_poll (S f) b (ReqEnqueue (mkPermit (mkReservation i)) q (wm_wait q))) Q c.
Proof.
  intros Hopen Hq HQ. cbn [request_poll]. apply wp_bind.
  eapply map_wait_op_wp; [by apply wm_enqueue_duplicate|]. cbn [fst snd].
  apply wp_bind. cbn. apply wp_ret, wp_bind. eapply on_map_wp; [done|]. cbn. rewrite wm_drop_new.
  by destruct c.
Qed.

Lemma wrap_add s n : usize_wrapping_add (usize_wrap s) n = usize_wrap (s + n).
Proof. unfold usize_wrapping_add, usize_wrap. apply Zplus_mod_idemp_l. Qed.

Lemma request_first_wp f c s i b vt vr outs ins :
  client_rep c vt vr outs ins -> i ∈ v_held vt -> v_rx_closed vt = false -> wm_closed (dispatcher c) = false ->
  seq c = usize_wrap s -> ~ in_use c (usize_wrap s) ->
  wp (request_poll (f + 3) b (ReqLoop (mkPermit (mkReservation i)))) (fun r c' => sent_post c s b vt vr outs ins r c') c.
Proof.
  intros Hc Hi Hcl Hopen Hs Hfree. replace (f + 3)%nat with (S (S (S f))) by lia.
  change (wp (seq_fetch_add ≫= fun q => request_poll (S (S f)) b (ReqEnqueue (mkPermit (mkReservation i)) q (wm_wait q)))
    (fun r c' => sent_post c s b vt vr outs ins r c') c).
  apply wp_bind, wp_bind, wp_gets, wp_bind, wp_modify, wp_ret. rewrite Hs.
  eapply wp_mono; [eapply enqueue_free_wp; [by eapply client_rep_ext|done..]|].
  intros r c' (w & vt' & -> & Hseq & H). exists 0%nat, w, vt'. cbn. rewrite Z.add_0_r.
  split; [done|]. split; [done|]. split; [intros j Hj; lia|]. split; [by rewrite Hseq; apply wrap_add|exact H].
Qed.

(** With a permit in hand and a number that is not in use among the next [n + 1], the loop
    ends with the request sent. *)
Lemma request_loop_wp n : forall c s i b vt vr outs ins,
  client_rep c vt vr outs ins -> i ∈ v_held vt -> v_rx_closed vt = false -> wm_closed (dispatcher c) = false ->
  seq c = usize_wrap s -> (exists j : nat, (j <= n)%nat /\ ~ in_use c (usize_wrap (s + Z.of_nat j))) ->
  wp (request_poll (2 * n + 3) b (ReqLoop (mkPermit (mkReservation i)))) (fun r c' => sent_post c s b vt vr outs ins r c') c.
Proof.
  induction n as [|n IH]; intros c s i b vt vr outs ins Hc Hi Hcl Hopen Hs (j & Hj & Hfree);
    (destruct (decide (in_use c (usize_wrap s))) as [Hused|Hnew];
     [|apply (request_first_wp (2 * _) c s i b vt vr outs ins); done]).
  - assert (j = 0%nat) as -> by lia. by rewrite Z.add_0_r in Hfree.
  - replace (2 * S n + 3)%nat with (S (S (2 * n + 3))) by lia. cbn [request_poll].
    apply wp_bind, wp_bind, wp_gets, wp_bind, wp_modify, wp_ret. rewrite Hs.
    apply enqueue_used_wp; [done|done|].
    assert (Hnext : usize_wrapping_add (usize_wrap s) 1 = usize_wrap (s + 1)) by apply wrap_add.
    rewrite Hnext. set (c1 := set_seq _ c).
    eapply wp_mono; [apply (IH c1 (s + 1) i b vt vr outs ins)|]; try done.
    + by eapply client_rep_ext.
    + exists (j - 1)%nat. destruct j as [|j]; [by rewrite Z.add_0_r in Hfree|]. split; [lia|].
      by replace (s + 1 + Z.of_nat (S j - 1)) with (s + Z.of_nat (S j)) by lia.
    + intros r c' (k & w & vt' & Hr & Hnot & Hbefore & Hseq & Hrest). exists (S k), w, vt'. cbn in Hr, Hnot |- *.
      replace (s + Z.of_nat (S k)) with (s + 1 + Z.of_nat k) by lia. split; [done|]. split; [done|].
      split; [|split; [by rewrite Hseq|done]].
      intros [|j'] Hj'; [by rewrite Z.add_0_r|].
      replace (s + Z.of_nat (S j')) with (s + 1 + Z.of_nat j') by lia. apply Hbefore. lia.
Qed.

(** Fewer numbers in use than there are numbers: one of the next ones is free. *)
Lemma free_number c s :
  Z.of_nat (size (wm_keys (dispatcher c))) < usize_mod ->
  exists j : nat, (j <= size (wm_keys (dispatcher c)))%nat /\ ~ in_use c (usize_wrap (s + Z.of_nat j)).
Proof.
  intros Hsize. set (keys := wm_keys (dispatcher c)) in *. set (at_ := fun j : nat => usize_wrap (s + Z.of_nat j)).
  destruct (decide (Exists (fun j => at_ j ∉ keys) (List.seq 0 (S (size keys))))) as [He|He].
  - apply Exists_exists in He as (j & Hj & Hfree). apply elem_of_seq in Hj. exists j. split; [lia|done].
  - exfalso. apply not_Exists_Forall in He; [|intros j; apply _]. rewrite Forall_forall in He.
    assert (Hnd : NoDup (at_ <$> List.seq 0 (S (size keys)))).
    { apply NoDup_fmap_2_strong; [|apply NoDup_seq]. intros i j Hi%elem_of_seq Hj%elem_of_seq Heq.
      unfold at_, usize_wrap, usize_mod in *. Z.div_mod_to_equations. lia. }
    assert (Hsub : list_to_set (at_ <$> List.seq 0 (S (size keys))) ⊆ keys).
    { intros q Hq%elem_of_list_to_set. apply list_elem_of_fmap in Hq as (j & -> & Hj).
      destruct (decide (at_ j ∈ keys)) as [|Hn]; [done|]. by destruct (He j Hj). }
    apply subseteq_size in Hsub. rewrite size_list_to_set in Hsub by done.
    rewrite length_fmap, length_seq in Hsub. lia.
Qed.

(** Enough fuel for a poll of a request. *)
Definition request_fuel c : nat := 2 * size (wm_keys (dispatcher c)) + 4.

(** Why a request fails on a closed channel. *)
Definition reset_of (e : option Reset) : Reset := default BecauseISaidSo e.

(** A poll before the request was sent. *)
Definition reserve_post c s b vt vr outs ins (r : ReqState * poll (result Rsp Reset)) c' : Prop :=
  (exists f', r = (ReqReserve f', Pending) /\ v_rx_closed vt = false /\ same_rest c c' /\ client_rep c' vt vr outs ins) \/
  (r = (ReqEnd None, Ready (Err (reset_of (v_failed vt)))) /\ v_rx_closed vt = true /\ same_rest c c' /\
     client_rep c' vt vr outs ins) \/
  (v_rx_closed vt = false /\ sent_post c s b vt vr outs ins r c').

Lemma request_reserve_wp c s f b vt vr outs ins :
  client_rep c vt vr outs ins -> seq c = usize_wrap s -> Z.of_nat (size (wm_keys (dispatcher c))) < usize_mod ->
  wp (request_poll (request_fuel c) b (ReqReserve f)) (fun r c' => reserve_post c s b vt vr outs ins r c') c.
Proof.
  intros [[Ht Hr] Hf Hm] Hs Hsize. unfold request_fuel.
  set (n := size _) in *. replace (2 * n + 4)%nat with (S (2 * n + 3)) by lia.
  apply wp_bind, on_chan_wp, on_tx_wp. apply (Sender_reserve_poll_wp f _ _ _ _ Ht).
  intros p [f' [|[[[i]]|e]]]; cbn [fst snd].
  - intros [Hcl Hp]. apply wp_ret. left. exists f'. by split_and!.
  - intros (Hcl & Hq & Hh & Hp).
    set (c1 := set_channel _ c).
    assert (Hc1 : client_rep c1 (upd_held ({[i]} ∪ v_held vt) vt) vr outs ins) by (split; [by split|done|done]).
    assert (Hopen : wm_closed (dispatcher c1) = false).
    { destruct (wm_closed (dispatcher c1)) eqn:E; [|done]. apply Hm in E. apply Hf in E. congruence. }
    destruct (free_number c1 s Hsize) as (j & Hj & Hfree).
    eapply wp_mono; [eapply (request_loop_wp n c1 s i b); try done; [cbn; set_solver|by exists j]|].
    intros r c' Hsent. right. right. split; [done|]. destruct Hsent as (k & w & vt' & H). by exists k, w, vt'.
  - intros (Hcl & -> & Hp). set (c1 := set_channel _ c).
    assert (Hc1 : client_rep c1 vt vr outs ins) by (split; [by split|done|done]). unfold send_reason.
    destruct (v_failed vt) as [e|] eqn:He; apply wp_ret; right; left; by rewrite He.
Qed.

(** The end of a waiter: only its own status is gone. *)
Definition only_gone w m m' : Prop :=
  wm_status m' w = None /\ (forall g, g <> w -> wm_status m' g = wm_status m g) /\ wm_closed m' = wm_closed m.

Lemma poll_drop m w s :
  wm_status m w = Some s -> (forall k, s <> Waiting k) ->
  exists m', wm_poll m w = (m', w, Ready (match s with Woken v => Ok v | _ => Err MapClosed end)) /\
    only_gone w m (wm_drop m' w) /\ wm_closed m' = wm_closed m.
Proof.
  intros Hs Hne. destruct (wm_poll_ready m w s Hs Hne) as (m' & Hrun & Hnone & Hother & Hclosed).
  exists m'. split; [done|]. split; [|done]. split; [apply wm_drop_none|]. split; [|by rewrite wm_drop_closed].
  intros g Hg. rewrite wm_drop_other by done. by apply Hother.
Qed.

(** A poll of a request that waits for its response. *)
Definition wait_post c q w (r : ReqState * poll (result Rsp Reset)) c' vt : Prop :=
  match wm_status (dispatcher c) w with
  | Some (Waiting k) => r = (ReqWait q w, Pending) /\ same_rest c c'
  | Some s =>
      r = (ReqEnd (Some q), Ready (match s with Woken v => Ok v | _ => Err (reset_of (v_failed vt)) end)) /\
      only_gone w (dispatcher c) (dispatcher c') /\ seq c' = seq c /\
      shutdown_cell c' = shutdown_cell c /\ has_dispatcher c' = has_dispatcher c
  | None => True
  end.

Lemma request_wait_wp fuel c q w b vt vr outs ins :
  client_rep c vt vr outs ins -> wm_status (dispatcher c) w <> None ->
  wp (request_poll (S fuel) b (ReqWait q w)) (fun r c' => client_rep c' vt vr outs ins /\ wait_post c q w r c' vt) c.
Proof.
  intros Hc Hw. cbn [request_poll]. unfold wait_post.
  destruct (wm_status (dispatcher c) w) as [s|] eqn:Hst; [|done]. destruct s as [k|v|].
  - apply wp_bind. eapply map_wait_op_wp; [by eapply wm_poll_waiting|]. apply wp_ret. by destruct c.
  - destruct (poll_drop _ _ _ Hst) as (m & Hrun & Hgone & Hcl); [done|].
    apply wp_bind. eapply map_wait_op_wp; [exact Hrun|]. cbn [fst snd].
    apply wp_bind. eapply on_map_wp; [done|]. apply wp_ret. split; [|done].
    eapply client_rep_ext; [exact Hc|done|]. apply Hgone.
  - destruct (poll_drop _ _ _ Hst) as (m & Hrun & Hgone & Hcl); [done|].
    destruct (v_failed vt) as [e|] eqn:He; [|by destruct (cr_map _ _ _ _ _ Hc (wm_shut_closed _ _ Hst))].
    apply wp_bind. eapply map_wait_op_wp; [exact Hrun|]. cbn [fst snd]. set (c1 := set_dispatcher m c).
    apply wp_bind. eapply wp_mono.
    { eapply (handle_closed_wp c1); [|exact He]. by eapply client_rep_ext. }
    intros r c2 (-> & (Hs2 & Hd2 & Hm2 & Hh2) & Hc2). apply wp_bind. eapply on_map_wp; [done|]. apply wp_ret.
    split; [|by rewrite Hm2].
    eapply client_rep_ext; [exact Hc2|done|]. cbn. by rewrite wm_drop_closed.
Qed.

(** ** Shutting down and dispatching *)

Lemma fail_view_failed (e : Reset) vt : v_failed (fail_view e vt) = Some (default e (v_failed vt)).
Proof. unfold fail_view. by destruct (v_failed vt) eqn:He. Qed.
Lemma fail_view_closed (e : Reset) vt :
  (v_failed vt <> None -> v_rx_closed vt = true) -> v_rx_closed (fail_view e vt) = true.
Proof. unfold fail_view. destruct (v_failed vt); [auto|done]. Qed.

Lemma close_channel_wp (e : Reset) c vt vr outs ins :
  client_rep c vt vr outs ins ->
  wp (on_chan (BiDi_close_with_error e);; on_map (fun m => (wm_close m, tt))) (fun _ c' =>
    client_rep c' (fail_view e vt) (fail_view e vr) outs ins /\ dispatcher c' = wm_close (dispatcher c) /\
    seq c' = seq c /\ shutdown_cell c' = shutdown_cell c /\ has_dispatcher c' = has_dispatcher c) c.
Proof.
  intros [Hb Hf Hm]. apply wp_bind, on_chan_wp. eapply wp_mono; [by apply (BiDi_close_with_error_wp e)|].
  intros r ch [Hch _]. eapply on_map_wp; [done|]. split_and!; try done.
  split; [exact Hch|intros _; by apply fail_view_closed|intros _; by rewrite fail_view_failed].
Qed.

Lemma shutdown_wp c vt vr outs ins :
  client_rep c vt vr outs ins ->
  wp shutdown (fun _ c' => client_rep c' (fail_view BecauseISaidSo vt) (fail_view BecauseISaidSo vr) outs ins /\
    dispatcher c' = wm_close (dispatcher c) /\ seq c' = seq c /\ wc_closed (shutdown_cell c') = true /\
    has_dispatcher c' = has_dispatcher c) c.
Proof.
  intros Hc. apply wp_bind. apply wp_zoom. eexists _, tt. split; [done|].
  eapply wp_mono; [apply (close_channel_wp BecauseISaidSo _ vt vr outs ins); by eapply client_rep_ext|].
  intros [] c' (Hc' & Hd & Hs & Hw & Hh). split_and!; try done. rewrite Hw. apply wc_close_closed.
Qed.

(** What the select comes to. *)
Definition select_post c vt vr outs ins (r : Selected) c' : Prop :=
  seq c' = seq c /\ has_dispatcher c' = has_dispatcher c /\
  wc_closed (shutdown_cell c') = wc_closed (shutdown_cell c) /\
  match r with
  | SelPending => client_rep c' vt vr outs ins /\ dispatcher c' = dispatcher c /\ wc_closed (shutdown_cell c) = false
  | SelMsg msg => exists vr' ins', ins = msg :: ins' /\ client_rep c' vt vr' outs ins' /\
      dispatcher c' = dispatcher c /\ wc_closed (shutdown_cell c) = false
  | SelReturn (Ok tt) => client_rep c' vt vr outs ins /\ dispatcher c' = dispatcher c
  | SelReturn (Err AlreadyRunning) => False
  | SelReturn (Err (ConnectionReset e)) =>
      v_tx_closed vr = true /\ e = reset_of (v_failed vr) /\
      client_rep c' (fail_view e vt) (fail_view e vr) outs ins /\ dispatcher c' = wm_close (dispatcher c)
  end.

Lemma dispatch_select_wp c vt vr outs ins :
  client_rep c vt vr outs ins -> wp dispatch_select (fun r c' => select_post c vt vr outs ins r c') c.
Proof.
  intros Hc. pose proof (wc_poll_closed_same (shutdown_cell c)) as Hsame.
  pose proof (wc_poll_closed (shutdown_cell c)) as Hclosed.
  destruct (wc_poll_wait (shutdown_cell c)) as [cell [|r]] eqn:Hp; cbn in Hsame, Hclosed;
    (apply wp_bind, wp_zoom; eexists cell, _; split; [by rewrite Hp|]); set (c1 := set_shutdown cell c);
    assert (Hc1 : client_rep c1 vt vr outs ins) by (by eapply client_rep_ext); [|by apply wp_ret].
  assert (Hcell : wc_closed (shutdown_cell c) = false) by (destruct (wc_closed (shutdown_cell c)); [by specialize (Hclosed eq_refl)|done]).
  destruct (cr_chan _ _ _ _ _ Hc1) as [Ht Hr].
  apply wp_bind, on_chan_wp, on_rx_wp. eapply wp_mono; [by apply Receiver_poll_recv_wp|]. cbn.
  intros r p (_ & H).
  assert (Hother : r = nothing_async vr /\ prep p vr ins -> wp (match r with
      | Pending => mret SelPending
      | Ready (Ok msg) => mret (SelMsg msg)
      | Ready (Err reset) =>
          on_chan (BiDi_close_with_error match reset with RecvErrorWith e => e | _ => BecauseISaidSo end);;
          on_map (fun m => (wm_close m, tt));;
          mret (SelReturn (Err (ConnectionReset match reset with RecvErrorWith e => e | _ => BecauseISaidSo end)))
      end) (fun r c' => select_post c vt vr outs ins r c') (set_channel (set_bd_rx p (channel c1)) c1)).
  { intros [-> Hpr]. set (c2 := set_channel _ c1).
    assert (Hc2 : client_rep c2 vt vr outs ins) by (destruct Hc1; split; [by split|done|done]).
    unfold nothing_async. destruct (v_tx_closed vr) eqn:Htx; [|by apply wp_ret].
    set (e := reset_of (v_failed vr)).
    assert (Hclose : wp (on_chan (BiDi_close_with_error e);; on_map (fun m => (wm_close m, tt));;
      mret (SelReturn (Err (ConnectionReset e)))) (fun r c' => select_post c vt vr outs ins r c') c2).
    { destruct (close_channel_wp e c2 _ _ _ _ Hc2) as (c3 & [] & Hrun & Hc3 & Hd & Hs & Hw & Hh).
      apply bind_inv in Hrun as (c4 & u & Hrun1 & Hrun2). apply wp_bind. exists c4, u. split; [done|].
      apply wp_bind. exists c3, tt. split; [done|]. apply wp_ret. split_and!; try done. by rewrite Hw. }
    unfold e, reset_of in Hclose. by destruct (v_failed vr). }
  destruct ins as [|msg ins]; [by apply Hother|]. destruct (v_delivered vr <? LAST_POS); [|by apply Hother].
  destruct H as [-> Hpr]. apply wp_ret. split_and!; try done. eexists _, ins. split_and!; try done.
  destruct Hc1; split; [by split|done|done].
Qed.

(** Waking: the one request with the number of the response, if there is one. *)
Definition wake_post c (msg : Response Rsp) c' : Prop :=
  (exists g, wm_status (dispatcher c) g = Some (Waiting (rs_seq msg)) /\
     wm_status (dispatcher c') g = Some (Woken (rs_body msg)) /\
     (forall h, h <> g -> wm_status (dispatcher c') h = wm_status (dispatcher c) h)) \/
  (~ in_use c (rs_seq msg) /\ dispatcher c' = dispatcher c).

Lemma dispatch_wake_wp c msg vt vr outs ins :
  client_rep c vt vr outs ins -> wm_closed (dispatcher c) = false ->
  wp (dispatch_wake msg) (fun _ c' => client_rep c' vt vr outs ins /\ wake_post c msg c' /\
    wm_closed (dispatcher c') = false /\ seq c' = seq c /\ shutdown_cell c' = shutdown_cell c /\
    has_dispatcher c' = has_dispatcher c) c.
Proof.
  intros Hc Hopen. apply wp_bind. destruct (decide (in_use c (rs_seq msg))) as [Hu|Hu].
  - apply wm_keys_spec in Hu as [g Hg]. destruct (wm_wake_some _ _ (rs_body msg) _ Hg) as (m & Hrun & Hw & Hother & Hcl).
    eapply on_map_wp; [exact Hrun|]. apply wp_ret. split; [eapply client_rep_ext; [exact Hc|done|by rewrite Hopen]|].
    split; [left; by exists g|done].
  - eapply on_map_wp; [by apply wm_wake_none|]. apply wp_ret. split; [by destruct c|]. split; [by right|done].
Qed.

(** C27: One poll of a new request ends, and has one of three outcomes: it waits for room in
    the channel; the channel is closed and the request fails with its error; or the request
    is sent once, last, with the first sequence number from the counter on (which wraps) that
    no request in flight has, its waiter is in the map before that, and it waits for the
    response.  The fuel is two steps per number in use: the search never goes on longer. *)
Theorem request_poll_spec c s f b vt vr outs ins :
  client_rep c vt vr outs ins -> seq c = usize_wrap s -> Z.of_nat (size (wm_keys (dispatcher c))) < usize_mod ->
  wp (request_poll (request_fuel c) b (ReqReserve f)) (fun r c' => reserve_post c s b vt vr outs ins r c') c.
Proof. apply request_reserve_wp. Qed.

(** A response wakes the request with its sequence number, whose next poll returns its
    body, and no other request. *)
Theorem response_answers c q w b v fuel vt vr outs ins :
  client_rep c vt vr outs ins -> wm_status (dispatcher c) w = Some (Waiting q) ->
  wp (dispatch_wake (mkResponse q v);; request_poll (S fuel) b (ReqWait q w)) (fun r c' =>
    r = (ReqEnd (Some q), Ready (Ok v)) /\
    forall g, g <> w -> wm_status (dispatcher c') g = wm_status (dispatcher c) g) c.
Proof.
  intros Hc Hw. apply wp_bind. eapply wp_mono.
  { eapply (dispatch_wake_wp c (mkResponse q v)); [exact Hc|by eapply wm_waiting_open]. }
  intros [] c1 (Hc1 & Hwake & _). destruct Hwake as [(g & Hg & Hg' & Hother)|[Hno _]].
  - assert (g = w) as -> by (by eapply wm_waiting_unique). cbn in Hg'.
    eapply wp_mono; [eapply (request_wait_wp fuel c1 q w b); [exact Hc1|by rewrite Hg']|].
    intros r c2 [_ Hpost]. unfold wait_post in Hpost. rewrite Hg' in Hpost.
    destruct Hpost as (-> & (_ & Hrest & _) & _). split; [done|]. intros g Hne. by rewrite Hrest, Hother.
  - destruct Hno. apply wm_keys_spec. by exists w.
Qed.
End ReqRspSpec.
