(* ===== verification/ReqRspSystem.v ===== *)
(** A request/response client with any number of concurrent requests, its dispatcher and
    its peer, as a transition system.

    A task is one [request] future.  Between two of its polls anything may happen: other
    requests, the dispatcher's turns, [shutdown], cancellation, and any use of the channel
    by the interface and the peer at its other end.  [sys_log] is the history of the
    responses the dispatcher took from the channel. *)
From S2P Require Import Prelude Interfaces Errors Core CoreWord CoreQueue Pipe PipeSpec PipeSession BiDi Message WaitMap ReqRsp ReqRspSpec.

Section ReqRspSystem.
Context {PU : PackUsize} {PUL : PackUsizeLaws}.
Context {IA : IndexAlloc} {IAL : IndexAllocLaws}.
Context {WCA : WaitCellApi} {WCL : WaitCellLaws} {WQA : WaitQueueApi} {WQL : WaitQueueLaws}.
Context {Req Rsp : Type} {WMA : WaitMapApi Rsp} {WML : WaitMapLaws Rsp}.
Notation Client := (Client (Req := Req) (Rsp := Rsp)).
Notation Connection := (Connection (Req := Req) (Rsp := Rsp)).
Notation statuses := (MapWait -> option (wait_status Rsp)).
Implicit Types (c : Client) (v : Rsp) (log : list (Z * Rsp)) (err : option Reset) (w g : MapWait) (st : statuses).

#[local] Arguments request_fuel : simpl never.

(** ** Tasks *)

Inductive task : Type :=
| Running (body : Req) (state : ReqState)
| Finished (seq : option Z) (r : result Rsp Reset)
| Cancelled.
Implicit Types (t : task) (ts : list task).

Definition handle t : option MapWait := match t with Running _ (ReqWait _ w) => Some w | _ => None end.
Definition is_running t : bool := match t with Running _ _ => true | _ => false end.
Definition live ts : nat := length (filter (fun t => is_running t = true) ts).
#[local] Arguments live : simpl never.

(** What holds of a task, given the status of the waiters, the error of the channel and the
    responses received so far. *)
Definition task_ok st err log t : Prop :=
  match t with
  | Running _ (ReqReserve _) => True
  | Running _ (ReqWait q w) =>
      match st w with
      | Some (Waiting k) => k = q
      | Some (Woken v) => (q, v) ∈ log
      | Some ShutOut => True
      | None => False
      end
  | Running _ _ => False
  | Finished q (Ok v) => exists n, q = Some n /\ (n, v) ∈ log
  | Finished q (Err e) => e = BecauseISaidSo \/ err = Some e
  | Cancelled => True
  end.

Record tasks_ok st err log ts : Prop := {
  to_each i t : ts !! i = Some t -> task_ok st err log t;
  to_handles i j t t' w : ts !! i = Some t -> ts !! j = Some t' -> handle t = Some w -> handle t' = Some w -> i = j;
  to_waiting g k : st g = Some (Waiting k) -> exists i b, ts !! i = Some (Running b (ReqWait k g));
}.

(** The error of the channel is final, and the history grows. *)
Definition err_le err err' : Prop := err <> None -> err' = err.

Lemma task_ok_mono st st' err err' log log' t :
  task_ok st err log t -> err_le err err' -> log ⊆ log' ->
  (forall w, handle t = Some w -> st' w = st w \/ exists k, st w = Some (Waiting k) /\
     (st' w = Some ShutOut \/ exists v, st' w = Some (Woken v) /\ (k, v) ∈ log')) ->
  task_ok st' err' log' t.
Proof.
  intros Ht He Hl Hs. destruct t as [b [f|p|p q w|q w|q]|q [v|e]|]; cbn in *; try done.
  - destruct (Hs w eq_refl) as [->|(k & Hk & Hs')].
    + destruct (st w) as [[k|v|]|]; [done|by apply Hl|done..].
    + rewrite Hk in Ht. subst k. by destruct Hs' as [->|(v & -> & Hv)].
  - destruct Ht as (n & -> & Hn). exists n. split; [done|]. by apply Hl.
  - destruct Ht as [?|Ht]; [by left|]. right. rewrite He; [done|by rewrite Ht].
Qed.

(** The waiters of the tasks are woken or shut out. *)
Lemma tasks_status st st' err err' log log' ts :
  tasks_ok st err log ts -> err_le err err' -> log ⊆ log' ->
  (forall w, st' w = st w \/ exists k, st w = Some (Waiting k) /\
     (st' w = Some ShutOut \/ exists v, st' w = Some (Woken v) /\ (k, v) ∈ log')) ->
  tasks_ok st' err' log' ts.
Proof.
  intros [H1 H2 H3] He Hl Hs. split; [|done|].
  - intros i t Ht. eapply task_ok_mono; [by eapply H1|done|done|]. intros w _. apply Hs.
  - intros g k Hg. apply H3. destruct (Hs g) as [<-|(k' & _ & [Hs'|(v & Hs' & _)])]; [done|congruence..].
Qed.

(** One task moves on; only the status of its own waiter changes. *)
Lemma tasks_replace st st' err err' log ts i t0 t :
  tasks_ok st err log ts -> ts !! i = Some t0 -> err_le err err' ->
  (forall g, handle t0 <> Some g -> handle t <> Some g -> st' g = st g) ->
  task_ok st' err' log t ->
  (forall w, handle t = Some w -> handle t0 = Some w \/ st w = None) ->
  (forall w k, handle t0 = Some w -> st' w = Some (Waiting k) -> handle t = Some w) ->
  tasks_ok st' err' log (<[i := t]> ts).
Proof.
  intros [H1 H2 H3] Hi He Hs Ht Hnew Hold.
  assert (Hlt : (i < length ts)%nat) by (by eapply lookup_lt_Some).
  (** another task's waiter is neither the old nor the new one of [i] *)
  assert (Hforeign : forall j tj w, j <> i -> ts !! j = Some tj -> handle tj = Some w ->
    handle t0 <> Some w /\ handle t <> Some w).
  { intros j tj w Hne Hj Hw. split; [by intros Hw0; destruct Hne; eapply H2|].
    intros Hw'. destruct (Hnew w Hw') as [Hw0|Hnone]; [by destruct Hne; eapply H2|].
    specialize (H1 j tj Hj). destruct tj as [b [f|p|p q w1|q w1|q]| |]; cbn in Hw; simplify_eq.
    cbn in H1. by rewrite Hnone in H1. }
  split.
  - intros j tj. destruct (decide (j = i)) as [->|Hne]; [rewrite list_lookup_insert_eq by done; by intros [= <-]|].
    rewrite list_lookup_insert_ne by done. intros Hj. eapply task_ok_mono; [by eapply H1|done|done|].
    intros w Hw. left. destruct (Hforeign j tj w Hne Hj Hw). by apply Hs.
  - intros j k tj tk w Hj Hk Hwj Hwk. destruct (decide (j = i)) as [->|Hnj], (decide (k = i)) as [->|Hnk]; [done| | |].
    + rewrite list_lookup_insert_eq in Hj by done. injection Hj as <-. rewrite list_lookup_insert_ne in Hk by done.
      by destruct (Hforeign k tk w Hnk Hk Hwk).
    + rewrite list_lookup_insert_eq in Hk by done. injection Hk as <-. rewrite list_lookup_insert_ne in Hj by done.
      by destruct (Hforeign j tj w Hnj Hj Hwj).
    + rewrite list_lookup_insert_ne in Hj, Hk by done. by eapply H2.
  - intros g k Hg.
    assert (Hmine : handle t = Some g -> exists j b, <[i := t]> ts !! j = Some (Running b (ReqWait k g))).
    { intros Hw. destruct t as [b [f|p|p q w1|q w1|q]| |]; cbn in Hw; simplify_eq. cbn in Ht. rewrite Hg in Ht. subst q.
      exists i, b. by rewrite list_lookup_insert_eq. }
    destruct (decide (handle t = Some g)) as [|Hng]; [by apply Hmine|].
    destruct (decide (handle t0 = Some g)) as [H0|Hn0]; [by eapply Hmine, Hold|].
    rewrite Hs in Hg by done. destruct (H3 g k Hg) as (j & b & Hj). exists j, b.
    rewrite list_lookup_insert_ne; [done|]. intros ->. rewrite Hi in Hj. injection Hj as ->. done.
Qed.

(** ** The system *)

Record sys := mkSys {
  sys_client : Client;
  sys_tasks : list task;
  sys_dispatching : bool;   (* a [dispatch] future is in its loop *)
  sys_log : list (Z * Rsp);
}.

(** The error of the channel. *)
Definition chan_error (ch : Connection) : option Reset := error (core (bd_tx ch)).

(** What the other end may do to the channel: whatever the handles of the pipes allow, but
    it cannot take back an error. *)
Definition chan_next (ch ch' : Connection) : Prop :=
  err_le (chan_error ch) (chan_error ch') /\
  exists vt vr outs ins, brep ch' vt vr outs ins /\ (v_failed vt <> None -> v_rx_closed vt = true).

Inductive sys_step : sys -> sys -> Prop :=
| SysRequest c ts d log b :
    Z.of_nat (live ts) + 1 < usize_mod ->
    sys_step (mkSys c ts d log) (mkSys c (ts ++ [Running b (ReqReserve ReserveStart)]) d log)
| SysPending c ts d log i b state c' state' :
    ts !! i = Some (Running b state) -> request_poll (request_fuel c) b state c = (c', Val (state', Pending)) ->
    sys_step (mkSys c ts d log) (mkSys c' (<[i := Running b state']> ts) d log)
| SysReady c ts d log i b state c' q r :
    ts !! i = Some (Running b state) -> request_poll (request_fuel c) b state c = (c', Val (ReqEnd q, Ready r)) ->
    sys_step (mkSys c ts d log) (mkSys c' (<[i := Finished q r]> ts) d log)
| SysCancel c ts d log i b state c' :
    ts !! i = Some (Running b state) -> request_drop state c = (c', Val tt) ->
    sys_step (mkSys c ts d log) (mkSys c' (<[i := Cancelled]> ts) d log)
| SysDispatch c ts d log :
    has_dispatcher c = false -> sys_step (mkSys c ts d log) (mkSys (set_has true c) ts true log)
| SysMsg c ts log msg c1 c' :
    dispatch_select c = (c1, Val (SelMsg msg)) -> dispatch_wake msg c1 = (c', Val tt) ->
    sys_step (mkSys c ts true log) (mkSys c' ts true (log ++ [(rs_seq msg, rs_body msg)]))
| SysIdle c ts log c' :
    dispatch_select c = (c', Val SelPending) -> sys_step (mkSys c ts true log) (mkSys c' ts true log)
| SysReturn c ts log c' r :
    dispatch_select c = (c', Val (SelReturn r)) -> sys_step (mkSys c ts true log) (mkSys c' ts false log)
| SysAbandon c ts log :
    sys_step (mkSys c ts true log) (mkSys c ts false log)
| SysShutdown c ts d log c' :
    shutdown c = (c', Val tt) -> sys_step (mkSys c ts d log) (mkSys c' ts d log)
| SysPeer c ts d log ch :
    chan_next (channel c) ch -> sys_step (mkSys c ts d log) (mkSys (set_channel ch c) ts d log).

(** The invariant.  While the dispatcher runs, only [shutdown] closes the map, and it tells
    the dispatcher first. *)
Record sys_ok (s : sys) : Prop := {
  so_rep : exists vt vr outs ins, client_rep (sys_client s) vt vr outs ins;
  so_seq : exists n, seq (sys_client s) = usize_wrap n;
  so_tasks : tasks_ok (wm_status (dispatcher (sys_client s))) (chan_error (channel (sys_client s))) (sys_log s) (sys_tasks s);
  so_live : Z.of_nat (live (sys_tasks s)) < usize_mod;
  so_dispatch : sys_dispatching s = true \/ has_dispatcher (sys_client s) = false ->
    wm_closed (dispatcher (sys_client s)) = true -> wc_closed (shutdown_cell (sys_client s)) = true;
  so_has : sys_dispatching s = true -> has_dispatcher (sys_client s) = true;
}.

Lemma rep_chan_error c vt vr outs ins : client_rep c vt vr outs ins -> chan_error (channel c) = v_failed vt.
Proof. intros [[[Hr _ _] _] _ _]. apply (rep_error _ _ Hr). Qed.

Lemma live_insert ts i t0 t :
  ts !! i = Some t0 -> (is_running t = true -> is_running t0 = true) -> (live (<[i := t]> ts) <= live ts)%nat.
Proof.
  unfold live. revert i. induction ts as [|t1 ts IH]; intros [|i] Hi Ht; cbn in Hi; [done..| |].
  - injection Hi as ->. change (<[0%nat := t]> (t0 :: ts)) with (t :: ts).
    rewrite !filter_cons. case_decide as H1; [rewrite decide_True by auto; done|]. case_decide; cbn; lia.
  - change (<[S i := t]> (t1 :: ts)) with (t1 :: <[i := t]> ts).
    rewrite !filter_cons. specialize (IH i Hi Ht). case_decide; cbn; lia.
Qed.

Definition number t : option Z := match t with Running _ (ReqWait q _) => Some q | _ => None end.

(** Every number in use belongs to a live request. *)
Lemma keys_live st err log ts (keys : gset Z) :
  tasks_ok st err log ts -> (forall k, k ∈ keys <-> exists g, st g = Some (Waiting k)) -> (size keys <= live ts)%nat.
Proof.
  intros Hok Hkeys.
  assert (Hsub : keys ⊆ list_to_set (omap number ts)).
  { intros k Hk. apply Hkeys in Hk as [g Hg]. destruct (to_waiting _ _ _ _ Hok g k Hg) as (i & b & Hi).
    apply elem_of_list_to_set, list_elem_of_omap. exists (Running b (ReqWait k g)).
    split; [by eapply list_elem_of_lookup_2|done]. }
  apply subseteq_size in Hsub. etrans; [exact Hsub|].
  assert (Hlen : forall l : list Z, (size (list_to_set l : gset Z) <= length l)%nat).
  { induction l as [|x l IH]; cbn; [by rewrite size_empty|].
    rewrite size_union_alt, size_singleton. pose proof (subseteq_size (list_to_set l ∖ {[x]} : gset Z) (list_to_set l)) as H.
    specialize (H ltac:(set_solver)). lia. }
  etrans; [apply Hlen|]. unfold live. clear. induction ts as [|t ts IH]; [done|].
  rewrite filter_cons. destruct t as [b [f|p|p q w|q w|q]| |]; cbn; repeat case_decide; cbn in *; try done; lia.
Qed.

Lemma sys_ok_keys s : sys_ok s -> Z.of_nat (size (wm_keys (dispatcher (sys_client s)))) < usize_mod.
Proof.
  intros Hs. pose proof (so_live _ Hs). pose proof (keys_live _ _ _ _ (wm_keys (dispatcher (sys_client s)))
    (so_tasks _ Hs) (wm_keys_spec _)). lia.
Qed.

(** One task moves on, on a client whose dispatcher and shutdown cell stay. *)
Lemma sys_ok_replace c c' ts d log i t0 t :
  sys_ok (mkSys c ts d log) -> ts !! i = Some t0 -> is_running t0 = true ->
  (exists vt vr outs ins, client_rep c' vt vr outs ins) -> (exists n, seq c' = usize_wrap n) ->
  wm_closed (dispatcher c') = wm_closed (dispatcher c) -> shutdown_cell c' = shutdown_cell c ->
  has_dispatcher c' = has_dispatcher c ->
  tasks_ok (wm_status (dispatcher c')) (chan_error (channel c')) log (<[i := t]> ts) ->
  sys_ok (mkSys c' (<[i := t]> ts) d log).
Proof.
  intros [_ _ _ Hlive Hd Hhas] Hi Hrun Hc Hn Hcl Hw Hh Hts. split; cbn in *; [done|done|done| |by rewrite Hcl, Hw, Hh|by rewrite Hh].
  pose proof (live_insert ts i t0 t Hi (fun _ => Hrun)) as Hle. lia.
Qed.

(** A task that is polled goes on waiting or ends. *)
Definition polled_ok ts d log i b (r : ReqState * poll (result Rsp Reset)) c' : Prop :=
  (exists state', r = (state', Pending) /\ sys_ok (mkSys c' (<[i := Running b state']> ts) d log)) \/
  (exists q r', r = (ReqEnd q, Ready r') /\ sys_ok (mkSys c' (<[i := Finished q r']> ts) d log)).

Lemma poll_reserve_ok c ts d log i b f :
  sys_ok (mkSys c ts d log) -> ts !! i = Some (Running b (ReqReserve f)) ->
  wp (request_poll (request_fuel c) b (ReqReserve f)) (polled_ok ts d log i b) c.
Proof.
  intros Hs Hi. pose proof Hs as [(vt & vr & outs & ins & Hc) [s Hseq] Hts _ _ _]. cbn in *.
  eapply wp_mono; [by eapply (request_reserve_wp c s); [| |apply (sys_ok_keys _ Hs)]|].
  intros r c' [(f' & -> & _ & (Hq & Hw & Hm & Hh) & Hc')|[(-> & _ & (Hq & Hw & Hm & Hh) & Hc')|(Hopenrx & Hsent)]];
    rewrite (rep_chan_error _ _ _ _ _ Hc) in Hts.
  - left. eexists. split; [done|].
    eapply sys_ok_replace; [done..|by eexists _, _, _, _|exists s; by rewrite Hq|by rewrite Hm|done|done|].
    rewrite Hm, (rep_chan_error _ _ _ _ _ Hc'). by eapply tasks_replace.
  - right. eexists _, _. split; [done|].
    eapply sys_ok_replace; [done..|by eexists _, _, _, _|exists s; by rewrite Hq|by rewrite Hm|done|done|].
    rewrite Hm, (rep_chan_error _ _ _ _ _ Hc').
    eapply tasks_replace; try done. cbn. unfold reset_of. destruct (v_failed vt); [by right|by left].
  - destruct Hsent as (k & w & vt' & -> & Hnew & _ & Hq & Hw & Hh & Hnone & Hwait & Hother & Hopen & Hf & Hc').
    assert (Hopen0 : wm_closed (dispatcher c) = false).
    { destruct (wm_closed (dispatcher c)) eqn:E; [|done].
      apply (cr_map _ _ _ _ _ Hc), (cr_failed _ _ _ _ _ Hc) in E. congruence. }
    left. eexists. split; [done|].
    eapply sys_ok_replace; [done..|by eexists _, _, _, _|by eexists|by rewrite Hopen|done|done|].
    rewrite (rep_chan_error _ _ _ _ _ Hc'), Hf. eapply tasks_replace; [done..| | | |done].
    + intros g _ Hg. apply Hother. intros ->. by apply Hg.
    + cbn. by rewrite Hwait.
    + intros g [= <-]. by right.
Qed.

Lemma poll_wait_ok c ts d log i b q w :
  sys_ok (mkSys c ts d log) -> ts !! i = Some (Running b (ReqWait q w)) ->
  wp (request_poll (request_fuel c) b (ReqWait q w)) (polled_ok ts d log i b) c.
Proof.
  intros Hs Hi. assert (Hfuel : exists k, request_fuel c = S k).
  { exists (2 * size (wm_keys (dispatcher c)) + 3)%nat. unfold request_fuel. lia. }
  destruct Hfuel as [fuel ->]. pose proof Hs as [(vt & vr & outs & ins & Hc) [s Hseq] Hts _ _ _]. cbn in *.
  pose proof (to_each _ _ _ _ Hts i _ Hi) as Hw. cbn in Hw.
  eapply wp_mono; [eapply (request_wait_wp fuel c q w b); [exact Hc|by intros E; rewrite E in Hw]|].
  intros r c' [Hc' Hpost]. unfold wait_post in Hpost.
  rewrite (rep_chan_error _ _ _ _ _ Hc) in Hts.
  destruct (wm_status (dispatcher c) w) as [[k|v|]|] eqn:Hst; [| | |done].
  - destruct Hpost as (-> & Hq & Hw' & Hm & Hh). left. eexists. split; [done|].
    eapply sys_ok_replace; [done..|by eexists _, _, _, _|exists s; by rewrite Hq|by rewrite Hm|done|done|].
    rewrite Hm, (rep_chan_error _ _ _ _ _ Hc'). by rewrite list_insert_id.
  - destruct Hpost as (-> & (Hgone & Hother & Hcl) & Hq & Hw' & Hh). right. eexists _, _. split; [done|].
    eapply sys_ok_replace; [done..|by eexists _, _, _, _|exists s; by rewrite Hq|done|done|done|].
    rewrite (rep_chan_error _ _ _ _ _ Hc'). eapply tasks_replace; [done..| | |done|].
    + intros g Hg _. apply Hother. intros ->. by apply Hg.
    + cbn. by exists q.
    + cbn. intros g k [= <-]. by rewrite Hgone.
  - destruct Hpost as (-> & (Hgone & Hother & Hcl) & Hq & Hw' & Hh). right. eexists _, _. split; [done|].
    eapply sys_ok_replace; [done..|by eexists _, _, _, _|exists s; by rewrite Hq|done|done|done|].
    rewrite (rep_chan_error _ _ _ _ _ Hc'). eapply tasks_replace; [done..| | |done|].
    + intros g Hg _. apply Hother. intros ->. by apply Hg.
    + cbn. unfold reset_of. destruct (v_failed vt); [by right|by left].
    + cbn. intros g k [= <-]. by rewrite Hgone.
Qed.

Lemma poll_ok c ts d log i b state :
  sys_ok (mkSys c ts d log) -> ts !! i = Some (Running b state) ->
  wp (request_poll (request_fuel c) b state) (polled_ok ts d log i b) c.
Proof.
  intros Hs Hi. pose proof (to_each _ _ _ _ (so_tasks _ Hs) i _ Hi) as Ht.
  destruct state as [f|p|p q w|q w|q]; cbn in Ht; try done; [by apply poll_reserve_ok|by apply poll_wait_ok].
Qed.

Lemma cancel_ok c ts d log i b state :
  sys_ok (mkSys c ts d log) -> ts !! i = Some (Running b state) ->
  wp (request_drop state) (fun _ c' => sys_ok (mkSys c' (<[i := Cancelled]> ts) d log)) c.
Proof.
  intros Hs Hi. pose proof (to_each _ _ _ _ (so_tasks _ Hs) i _ Hi) as Ht.
  pose proof Hs as [(vt & vr & outs & ins & Hc) [s Hseq] Hts _ _ _]. cbn in Hc, Hseq, Hts.
  destruct state as [f|p|p q w|q w|q]; cbn in Ht; try done.
  - apply wp_ret. eapply sys_ok_replace; [done..|by eexists _, _, _, _|by exists s|done|done|done|].
    by eapply tasks_replace.
  - eapply on_map_wp; [done|].
    eapply sys_ok_replace; [done..| |by exists s|apply wm_drop_closed|done|done|].
    + exists vt, vr, outs, ins. eapply client_rep_ext; [exact Hc|done|apply wm_drop_closed].
    + cbn. eapply tasks_replace; try done; cbn.
      * intros g Hg _. apply wm_drop_other. intros ->. by apply Hg.
      * intros g k [= <-]. by rewrite wm_drop_none.
Qed.

(** Statuses after a close and after a wake. *)
Lemma tasks_close err err' log ts m :
  tasks_ok (wm_status m) err log ts -> err_le err err' -> tasks_ok (wm_status (wm_close m)) err' log ts.
Proof.
  intros Hts He. eapply tasks_status; [done..|]. intros w. rewrite wm_close_status.
  destruct (wm_status m w) as [[k|v|]|]; [right; exists k; auto|by left..].
Qed.

Lemma fail_view_err (e : Reset) (vt : view Reset) : err_le (v_failed vt) (v_failed (fail_view e vt)).
Proof. rewrite fail_view_failed. intros He. by destruct (v_failed vt). Qed.

Lemma turn_ok c ts log :
  sys_ok (mkSys c ts true log) ->
  wp dispatch_select (fun r c1 =>
    match r with
    | SelPending => sys_ok (mkSys c1 ts true log)
    | SelReturn _ => sys_ok (mkSys c1 ts false log)
    | SelMsg msg =>
        wp (dispatch_wake msg) (fun _ c' => sys_ok (mkSys c' ts true (log ++ [(rs_seq msg, rs_body msg)]))) c1
    end) c.
Proof.
  intros Hs. pose proof Hs as [(vt & vr & outs & ins & Hc) [s Hseq] Hts Hlive Hd Hhas]. cbn in Hc, Hseq, Hts, Hlive, Hd, Hhas.
  pose proof (rep_chan_error _ _ _ _ _ Hc) as Herr. rewrite Herr in Hts.
  eapply wp_mono; [by apply dispatch_select_wp|]. intros r c1 (Hq & Hh & Hw & Hpost).
  destruct r as [|msg|[[]|[|e]]].
  - destruct Hpost as (Hc1 & Hm & _). split; cbn; [by eexists _, _, _, _|exists s; by rewrite Hq| |done|by rewrite Hm, Hw, Hh|by rewrite Hh].
    by rewrite Hm, (rep_chan_error _ _ _ _ _ Hc1).
  - destruct Hpost as (vr' & ins' & -> & Hc1 & Hm & Hcell).
    assert (Hopen : wm_closed (dispatcher c1) = false).
    { destruct (wm_closed (dispatcher c1)) eqn:E; [|done]. rewrite Hm in E. apply Hd in E; [congruence|by left]. }
    eapply wp_mono; [by apply (dispatch_wake_wp c1 msg)|]. intros [] c2 (Hc2 & Hwake & Hopen2 & Hq2 & Hw2 & Hh2).
    split; cbn; [by eexists _, _, _, _|exists s; by rewrite Hq2, Hq| |done|by rewrite Hopen2|by rewrite Hh2, Hh].
    rewrite (rep_chan_error _ _ _ _ _ Hc2). rewrite <- Hm in Hts.
    eapply tasks_status; [exact Hts|done|set_solver|]. intros w.
    destruct Hwake as [(g & Hg & Hg' & Hother)|[_ ->]]; [|by left].
    destruct (decide (w = g)) as [->|Hne]; [|left; by apply Hother].
    right. exists (rs_seq msg). split; [done|]. right. exists (rs_body msg). split; [done|]. set_solver.
  - destruct Hpost as (Hc1 & Hm). split; cbn; [by eexists _, _, _, _|exists s; by rewrite Hq| |done| |done].
    + by rewrite Hm, (rep_chan_error _ _ _ _ _ Hc1).
    + rewrite Hm, Hw, Hh. intros [?|?]; [done|]. apply Hd. by right.
  - by destruct Hpost.
  - destruct Hpost as (_ & _ & Hc1 & Hm). split; cbn; [by eexists _, _, _, _|exists s; by rewrite Hq| |done| |done].
    + rewrite Hm, (rep_chan_error _ _ _ _ _ Hc1). eapply tasks_close; [exact Hts|apply fail_view_err].
    + intros [?|Hhas']; [done|]. rewrite Hh in Hhas'. by rewrite Hhas in Hhas'.
Qed.

Lemma shutdown_ok c ts d log :
  sys_ok (mkSys c ts d log) -> wp shutdown (fun _ c' => sys_ok (mkSys c' ts d log)) c.
Proof.
  intros Hs. pose proof Hs as [(vt & vr & outs & ins & Hc) [s Hseq] Hts Hlive Hd Hhas]. cbn in Hc, Hseq, Hts, Hlive, Hd, Hhas.
  rewrite (rep_chan_error _ _ _ _ _ Hc) in Hts.
  eapply wp_mono; [by apply shutdown_wp|]. intros [] c' (Hc' & Hm & Hq & Hw & Hh).
  split; cbn; [by eexists _, _, _, _|exists s; by rewrite Hq| |done|done|by rewrite Hh].
  rewrite Hm, (rep_chan_error _ _ _ _ _ Hc'). eapply tasks_close; [exact Hts|apply fail_view_err].
Qed.

Lemma peer_ok c ts d log ch :
  sys_ok (mkSys c ts d log) -> chan_next (channel c) ch -> sys_ok (mkSys (set_channel ch c) ts d log).
Proof.
  intros Hs [He (vt & vr & outs & ins & Hb & Hf)].
  pose proof Hs as [(vt0 & vr0 & outs0 & ins0 & Hc) [s Hseq] Hts Hlive Hd Hhas]. cbn in Hc, Hseq, Hts, Hlive, Hd, Hhas.
  assert (Herr : chan_error ch = v_failed vt) by (destruct Hb as [[Hr _ _] _]; apply (rep_error _ _ Hr)).
  assert (Hc' : client_rep (set_channel ch c) vt vr outs ins).
  { split; [done|done|]. cbn. intros Hm. apply (cr_map _ _ _ _ _ Hc) in Hm.
    rewrite <- (rep_chan_error _ _ _ _ _ Hc) in Hm. rewrite <- Herr, (He Hm). done. }
  split; cbn; [by eexists _, _, _, _|by exists s| |done|done|done].
  eapply tasks_status; [exact Hts|done|done|]. by left.
Qed.

Lemma live_app ts t : live (ts ++ [t]) = (live ts + if is_running t then 1 else 0)%nat.
Proof.
  unfold live. rewrite filter_app, length_app. f_equal. rewrite filter_cons, filter_nil.
  case_decide as H; [by rewrite H|]. by destruct (is_running t).
Qed.

Lemma request_ok c ts d log b :
  sys_ok (mkSys c ts d log) -> Z.of_nat (live ts) + 1 < usize_mod ->
  sys_ok (mkSys c (ts ++ [Running b (ReqReserve ReserveStart)]) d log).
Proof.
  intros [Hc Hseq [H1 H2 H3] Hlive Hd Hhas] Hl. cbn in *. split; cbn; [done|done| |rewrite live_app; cbn; lia|done|done].
  split.
  - intros i t [Hi|(_ & Hi)]%lookup_app_Some; [by eapply H1|]. apply list_lookup_singleton_Some in Hi as [_ <-]. done.
  - intros i j t t' w [Hi|(_ & Hi)]%lookup_app_Some [Hj|(_ & Hj)]%lookup_app_Some Hw Hw';
      try (apply list_lookup_singleton_Some in Hi as [_ <-]; done);
      try (apply list_lookup_singleton_Some in Hj as [_ <-]; done). by eapply H2.
  - intros g k Hg. destruct (H3 g k Hg) as (i & b' & Hi). exists i, b'. by apply lookup_app_l_Some.
Qed.

Lemma client_step_ok s s' : sys_step s s' -> sys_ok s -> sys_ok s'.
Proof.
  intros Hstep Hs. destruct Hstep as [c ts d log b Hl|c ts d log i b state c' state' Hi Hrun|c ts d log i b state c' q r Hi Hrun
    |c ts d log i b state c' Hi Hrun|c ts d log Hh|c ts log msg c1 c' Hsel Hwake|c ts log c' Hsel|c ts log c' r Hsel|c ts log
    |c ts d log c' Hrun|c ts d log ch Hch].
  - by apply request_ok.
  - destruct (poll_ok _ _ _ _ _ _ _ Hs Hi) as (c1 & r & Hrun1 & [(st' & -> & Hok)|(q & r' & -> & Hok)]);
      rewrite Hrun in Hrun1; by simplify_eq.
  - destruct (poll_ok _ _ _ _ _ _ _ Hs Hi) as (c1 & r1 & Hrun1 & [(st' & -> & Hok)|(q' & r' & -> & Hok)]);
      rewrite Hrun in Hrun1; by simplify_eq.
  - destruct (cancel_ok _ _ _ _ _ _ _ Hs Hi) as (c1 & [] & Hrun1 & Hok). rewrite Hrun in Hrun1. by injection Hrun1 as <-.
  - destruct Hs as [(vt & vr & outs & ins & Hc) [n Hseq] Hts Hlive Hd Hhas]. cbn in *.
    split; cbn; [|by exists n|done|done| |done].
    + exists vt, vr, outs, ins. by eapply client_rep_ext.
    + intros _. apply Hd. by right.
  - destruct (turn_ok _ _ _ Hs) as (c2 & r & Hrun & Hr). rewrite Hsel in Hrun. injection Hrun as <- <-.
    destruct Hr as (c3 & [] & Hrun & Hok). rewrite Hwake in Hrun. by injection Hrun as <-.
  - destruct (turn_ok _ _ _ Hs) as (c2 & r & Hrun & Hr). rewrite Hsel in Hrun. by injection Hrun as <- <-.
  - destruct (turn_ok _ _ _ Hs) as (c2 & r1 & Hrun & Hr). rewrite Hsel in Hrun. by injection Hrun as <- <-.
  - destruct Hs as [Hc Hseq Hts Hlive Hd Hhas]. cbn in *. split; cbn; [done|done|done|done| |done].
    intros [?|?]; [done|]. specialize (Hhas eq_refl). congruence.
  - destruct (shutdown_ok _ _ _ _ Hs) as (c1 & [] & Hrun1 & Hok). rewrite Hrun in Hrun1. by injection Hrun1 as <-.
  - by apply peer_ok.
Qed.

(** A new client over a channel in a good state. *)
Definition conn_ok (ch : Connection) : Prop :=
  exists vt vr outs ins, brep ch vt vr outs ins /\ (v_failed vt <> None -> v_rx_closed vt = true).
Definition sys_start (ch : Connection) : sys := mkSys (Client_new ch) [] false [].

Lemma sys_reach_ok ch s : conn_ok ch -> rtc sys_step (sys_start ch) s -> sys_ok s.
Proof.
  intros (vt & vr & outs & ins & Hb & Hf) Hsteps.
  eapply (rtc_invariant sys_step sys_ok); [|intros a b' Hab Ha; by eapply client_step_ok|exact Hsteps].
  split; cbn; [|by exists 0| |done| |done].
  - exists vt, vr, outs, ins. split; cbn; [done|done|]. by rewrite wm_new_closed.
  - split; [done|done|]. intros g k. by rewrite wm_new_status.
  - by rewrite wm_new_closed.
Qed.

(** ** Properties *)

(** C20: The request/response client never panics.  Whatever requests are made, polled and
    cancelled, whatever responses the peer sends (unknown or repeated numbers included), and
    whenever the connection fails or the client is shut down: every poll of a request ends
    (the search for a free sequence number included), every turn of the dispatcher ends, and
    so does [shutdown]; none of their [unreachable!]s and [expect]s is reached.  A turn of the
    dispatcher is one step here: see [shutdown_race_panics]. *)
Theorem reqrsp_never_panics ch s :
  conn_ok ch -> rtc sys_step (sys_start ch) s ->
  (forall i b state, sys_tasks s !! i = Some (Running b state) ->
     wp (request_poll (request_fuel (sys_client s)) b state) (fun _ _ => True) (sys_client s)) /\
  (sys_dispatching s = true ->
     wp (r ← dispatch_select; match r with SelMsg msg => dispatch_wake msg | _ => mret tt end) (fun _ _ => True) (sys_client s)) /\
  wp shutdown (fun _ _ => True) (sys_client s).
Proof.
  intros Hch Hsteps. pose proof (sys_reach_ok _ _ Hch Hsteps) as Hs. destruct s as [c ts d log]. cbn. split_and!.
  - intros i b state Hi. eapply wp_mono; [by eapply poll_ok|done].
  - intros ->. apply wp_bind. eapply wp_mono; [by eapply turn_ok|]. intros [|msg|r] c1 Hr; try by apply wp_ret.
    eapply wp_mono; [exact Hr|done].
  - eapply wp_mono; [by eapply shutdown_ok|done].
Qed.

(** C21: Responses reach the requests they answer.  A request that succeeded returned the body
    of a response with its own sequence number that the dispatcher took from the channel; a
    request that failed did so with the error of the channel, or because it was closed
    without one; and no two requests in flight ever have the same sequence number, although
    the counter wraps around. *)
Theorem reqrsp_matches ch s :
  conn_ok ch -> rtc sys_step (sys_start ch) s ->
  (forall i q v, sys_tasks s !! i = Some (Finished q (Ok v)) -> exists n, q = Some n /\ (n, v) ∈ sys_log s) /\
  (forall i q e, sys_tasks s !! i = Some (Finished q (Err e)) ->
     e = BecauseISaidSo \/ chan_error (channel (sys_client s)) = Some e) /\
  (forall i j bi bj q wi wj k k',
     sys_tasks s !! i = Some (Running bi (ReqWait q wi)) -> sys_tasks s !! j = Some (Running bj (ReqWait q wj)) ->
     wm_status (dispatcher (sys_client s)) wi = Some (Waiting k) ->
     wm_status (dispatcher (sys_client s)) wj = Some (Waiting k') -> i = j).
Proof.
  intros Hch Hsteps. pose proof (so_tasks _ (sys_reach_ok _ _ Hch Hsteps)) as [H1 H2 H3]. split_and!.
  - intros i q v Hi. exact (H1 i _ Hi).
  - intros i q e Hi. exact (H1 i _ Hi).
  - intros i j bi bj q wi wj k k' Hi Hj Hwi Hwj. pose proof (H1 i _ Hi) as Hti. pose proof (H1 j _ Hj) as Htj.
    cbn in Hti, Htj. rewrite Hwi in Hti. rewrite Hwj in Htj. subst k k'.
    eapply (H2 i j); [done..|]. cbn. f_equal. by eapply wm_waiting_unique.
Qed.

(** What a request is told once its client was shut down. *)
Definition shutdown_answer c (state : ReqState) : result Rsp Reset :=
  match state with
  | ReqWait _ w =>
      match wm_status (dispatcher c) w with Some (Woken v) => Ok v | _ => Err (reset_of (chan_error (channel c))) end
  | _ => Err (reset_of (chan_error (channel c)))
  end.

(** C26: [shutdown] leaves no request hanging: polled after it, every request in flight ends at
    once, with its response if that had already arrived, and otherwise with the error the
    connection failed with, which is [BecauseISaidSo] if it had not failed before. *)
Theorem shutdown_ends_requests ch s i b state :
  conn_ok ch -> rtc sys_step (sys_start ch) s -> sys_tasks s !! i = Some (Running b state) ->
  wp shutdown (fun _ c' => wp (request_poll (request_fuel c') b state)
    (fun r _ => snd r = Ready (shutdown_answer (sys_client s) state)) c') (sys_client s).
Proof.
  intros Hch Hsteps Hi. pose proof (sys_reach_ok _ _ Hch Hsteps) as Hs. destruct s as [c ts d log]. cbn in *.
  pose proof (to_each _ _ _ _ (so_tasks _ Hs) i _ Hi) as Ht.
  pose proof Hs as [(vt & vr & outs & ins & Hc) [s Hseq] _ _ _ _]. cbn in Hc, Hseq, Ht.
  pose proof (rep_chan_error _ _ _ _ _ Hc) as Herr. unfold shutdown_answer. rewrite Herr.
  destruct (shutdown_ok _ _ _ _ Hs) as (c1 & [] & Hrun & Hs1).
  destruct (shutdown_wp _ _ _ _ _ Hc) as (c2 & [] & Hrun2 & Hc' & Hm & Hq & _ & _).
  rewrite Hrun in Hrun2. injection Hrun2 as <-. exists c1, tt. split; [done|].
  destruct state as [f|p|p q w|q w|q]; try done.
  - eapply wp_mono; [eapply (request_reserve_wp c1 s); [exact Hc'|by rewrite Hq|apply (sys_ok_keys _ Hs1)]|].
    assert (Hcl := fail_view_closed BecauseISaidSo _ (cr_failed _ _ _ _ _ Hc)).
    intros r c2 [(f' & _ & Ho & _)|[(-> & _)|(Ho & _)]]; [congruence| |congruence].
    cbn. by rewrite fail_view_failed.
  - assert (Hfuel : exists k, request_fuel c1 = S k).
    { exists (2 * size (wm_keys (dispatcher c1)) + 3)%nat. unfold request_fuel. lia. }
    destruct Hfuel as [fuel ->].
    assert (Hw : wm_status (dispatcher c1) w = match wm_status (dispatcher c) w with Some (Waiting _) => Some ShutOut | x => x end)
      by (by rewrite Hm, wm_close_status).
    eapply wp_mono; [eapply (request_wait_wp fuel c1 q w b); [exact Hc'|rewrite Hw; by repeat case_match]|].
    intros r c2 [_ Hpost]. unfold wait_post in Hpost. rewrite Hw in Hpost.
    destruct (wm_status (dispatcher c) w) as [[k|v|]|]; [| | |done]; destruct Hpost as (-> & _); cbn;
      rewrite ?fail_view_failed; done.
Qed.

(** ** Calls that go wrong *)

(** A client has one dispatcher in its life: the flag [has_dispatcher] is never taken
    back.  After a dispatcher ended (here because of [shutdown]), or was cancelled, which the
    documentation allows, the next call panics, although no dispatcher is running. *)
Theorem dispatch_only_once c vt vr outs ins :
  client_rep c vt vr outs ins -> has_dispatcher c = false ->
  wp (shutdown;; dispatch_poll 2 DispStart) (fun r c' => r = (DispLoop, Ready (Ok tt)) /\
    forall fuel, snd (dispatch_poll (S fuel) DispStart c') = Panic) c.
Proof.
  intros Hc Hh. apply wp_bind. eapply wp_mono; [by apply shutdown_wp|]. intros [] c1 (Hc1 & _ & _ & Hw & Hh1).
  cbn [dispatch_poll]. apply wp_bind, wp_gets, wp_bind, wp_modify. rewrite Hh1, Hh. set (c2 := set_has true c1).
  assert (Hp : snd (wc_poll_wait (shutdown_cell c2)) = Ready (Err tt)) by (by apply wc_poll_closed).
  apply wp_bind, wp_bind, wp_zoom. destruct (wc_poll_wait (shutdown_cell c2)) as [cell p] eqn:Hcell. cbn in Hp. subst p.
  eexists cell, _. split; [by rewrite Hcell|]. apply wp_ret, wp_ret. done.
Qed.

(** The dispatcher and [shutdown] race: when [shutdown] runs on another thread after the
    dispatcher took a response from the channel and before it wakes the request, the
    dispatcher finds the map closed and reaches its [unreachable!]. *)
Theorem shutdown_race_panics c vt vr outs msg ins :
  client_rep c vt vr outs (msg :: ins) -> snd (wc_poll_wait (shutdown_cell c)) = Pending -> v_delivered vr < LAST_POS ->
  wp (r ← dispatch_select; shutdown;; mret r) (fun r c' => r = SelMsg msg /\ snd (dispatch_wake msg c') = Panic) c.
Proof.
  intros Hc Hp Hlt. apply wp_bind. unfold dispatch_select.
  apply wp_bind, wp_zoom. destruct (wc_poll_wait (shutdown_cell c)) as [cell p] eqn:Hcell. cbn in Hp. subst p.
  exists cell, Pending. split; [by rewrite Hcell|]. set (c1 := set_shutdown cell c).
  assert (Hc1 : client_rep c1 vt vr outs (msg :: ins)) by (by eapply client_rep_ext).
  pose proof (cr_chan _ _ _ _ _ Hc1) as [Ht Hr].
  apply wp_bind, on_chan_wp, on_rx_wp. eapply wp_mono; [by apply Receiver_poll_recv_wp|]. cbn.
  intros r p (_ & H). destruct (Z.ltb_spec (v_delivered vr) LAST_POS); [|lia]. destruct H as [-> Hpr].
  apply wp_ret. set (c2 := set_channel _ c1).
  assert (Hc2 : exists vr', client_rep c2 vt vr' outs ins).
  { eexists. destruct Hc1. split; [split; [exact Ht|exact Hpr]|done|done]. }
  destruct Hc2 as [vr' Hc2]. apply wp_bind. eapply wp_mono; [by apply shutdown_wp|].
  intros [] c3 (_ & Hm & _). apply wp_ret. split; [done|].
  assert (Hcl : wm_closed (dispatcher c3) = true) by (rewrite Hm; apply wm_close_closed).
  unfold dispatch_wake, on_map, zoom. cbv [mbind M_bind]. by rewrite (wm_wake_closed _ _ _ Hcl).
Qed.
End ReqRspSystem.
