(* ===== verification/ConnTable.v ===== *)
(** The connection table: [calliope/src/conn_table.rs].

    The table maps local identifiers to sockets; freed entries form a last-in first-out
    list threaded through the table itself ([Closed next]), which ends at the first
    entry never used.  Each handler of the link state machine is one definition, as a
    computation that may panic (an [expect], an [unreachable!], an arithmetic overflow
    of a debug build).

    A socket's channel is used through [SerChannel]; the response sender of a
    connecting socket through [ResponseSender].  [replies] and [released] record what
    leaves the table: the responses sent to local initiators and the channel ends the
    table dropped. *)
From S2P Require Import Prelude Interfaces Errors BiDi Message.

(** [oneshot::Sender<Result<(), Rejection>>]: whether the receiver was still there. *)
Class ResponseSender := {
  Rsp : Type;
  rsp_send : Rsp -> result unit Rejection -> bool;
}.

Section ConnTable.
Context {SC : SerChannel Reset} {RS : ResponseSender}.
(** The handle of a [serbox::Consumer]: the hello message of a connect request. *)
Context {Hello : Type}.
(** The const parameter of the table. *)
Variable CAPACITY : Z.

Definition Frame_out : Type := OutboundFrame (result bytes PostcardError) Hello.

(** [enum State], [struct Socket], [enum Entry] *)
Inductive State : Type :=
| Open (remote_id : Id)
| Connecting (rsp : Rsp).
Record Socket := mkSocket { sock_state : State; sock_channel : Chan }.
Inductive Entry : Type :=
| Unused
| Closed (next : Id)
| Occupied (sock : Socket).

(** [struct ConnTable<CAPACITY>] *)
Record ConnTable := mkConnTable {
  conns : list Entry;
  next_id : Id;
  len : Z;
  dead_index : option Id;
  replies : list (Rsp * result unit Rejection);
  released : list Chan;
}.
Definition set_conns (l : list Entry) (t : ConnTable) : ConnTable :=
  mkConnTable l (next_id t) (len t) (dead_index t) (replies t) (released t).
Definition set_next_id (i : Id) (t : ConnTable) : ConnTable :=
  mkConnTable (conns t) i (len t) (dead_index t) (replies t) (released t).
Definition set_len (n : Z) (t : ConnTable) : ConnTable :=
  mkConnTable (conns t) (next_id t) n (dead_index t) (replies t) (released t).
Definition set_dead_index (d : option Id) (t : ConnTable) : ConnTable :=
  mkConnTable (conns t) (next_id t) (len t) d (replies t) (released t).
Definition add_reply (r : Rsp * result unit Rejection) (t : ConnTable) : ConnTable :=
  mkConnTable (conns t) (next_id t) (len t) (dead_index t) (replies t ++ [r]) (released t).
Definition add_released (c : Chan) (t : ConnTable) : ConnTable :=
  mkConnTable (conns t) (next_id t) (len t) (dead_index t) (replies t) (released t ++ [c]).

Notation MT := (M ConnTable).

(** *** [Id], [Entries], [Entry] *)

(** [Id::from_index] of a debug build. *)
Definition from_index (idx : nat) : outcome Id :=
  if Z.of_nat idx <? u16_mod then Val (Z.min (Z.of_nat idx + 1) (u16_mod - 1)) else Panic.
(** [Id::to_index] *)
Definition to_index (i : Id) : nat := Z.to_nat (i - 1).
(** [Id::checked_add] *)
Definition checked_add (i : Id) (n : Z) : option Id := if i + n <? u16_mod then Some (i + n) else None.

(** [Entry::socket] *)
Definition socket (e : Entry) : option Socket := match e with Occupied s => Some s | _ => None end.

(** [Entries::get_mut]: the entry, and how it is replaced. *)
Definition get_mut (i : Id) : MT (option Entry) := gets (fun t => conns t !! to_index i).
Definition put_entry (i : Id) (e : Entry) : MT unit :=
  modify (fun t => set_conns (<[to_index i := e]> (conns t)) t).
(** A socket's channel after an operation on it. *)
Definition put_channel (i : Id) (s : Socket) (c : Chan) : MT unit :=
  put_entry i (Occupied (mkSocket (sock_state s) c)).

(** Runs an operation of the channel of the socket [s] at [i], in place. *)
Definition on_channel {A} (i : Id) (s : Socket) (m : M Chan A) : MT A := fun t =>
  match m (sock_channel s) with
  | (c, o) => (fst (put_channel i s c t), o)
  end.

Definition lift {A} (o : outcome A) : MT A := fun t => (t, o).
(** Closes a channel with an error, then drops it. *)
Definition close_and_drop (reason : Reset) (c : Chan) : MT bool := fun t =>
  match sc_close_with_error reason c with (c', o) => (add_released c' t, o) end.

(** *** The table *)

(** [ConnTable::new] *)
Definition new : ConnTable :=
  mkConnTable (replicate (Z.to_nat CAPACITY) Unused) 1 0 None [] [].

(** [remove] *)
Definition remove (local_id : Id) : MT (option Socket) :=
  e ← get_mut local_id;
  match e with
  | None => mret None
  | Some (Occupied sock) =>
      next ← gets next_id;
      put_entry local_id (Closed next);;
      modify (set_next_id local_id);;
      n ← gets len;
      n' ← expect (usize_checked_sub n 1);
      modify (set_len n');;
      mret (Some sock)
  | Some _ => mret None
  end.

(** The caller of [remove] drops the socket. *)
Definition remove_and_drop (local_id : Id) : MT unit :=
  s ← remove local_id;
  match s with Some s => modify (add_released (sock_channel s)) | None => mret tt end.

(** [reserve_id] *)
Definition reserve_id : MT (option Id) :=
  gets (fun t => if len t =? CAPACITY then None else Some (next_id t)).

(** [insert_at] *)
Definition insert_at (local_id : Id) (sock : Socket) : MT unit :=
  e ← get_mut local_id;
  e ← expect e;
  put_entry local_id (Occupied sock);;
  next ← match e with
         | Unused => next ← gets next_id; expect (checked_add next 1)
         | Closed next => mret next
         | Occupied _ => panic (* unreachable! *)
         end;
  modify (set_next_id next);;
  modify (fun t => set_len (len t + 1) t).

(** [insert] *)
Definition insert (sock : Socket) : MT (option Id) :=
  i ← reserve_id;
  match i with
  | None => modify (add_released (sock_channel sock));; mret None
  | Some local_id => insert_at local_id sock;; mret (Some local_id)
  end.

(** [cleanup_dead] *)
Definition cleanup_dead : MT unit :=
  d ← gets dead_index;
  modify (set_dead_index None);;
  match d with Some local_id => remove_and_drop local_id | None => mret tt end.

(** The loop of [next_outbound] over the entries from [idx] on. *)
Fixpoint poll_sockets (n : nat) (idx : nat) : MT (poll Frame_out) :=
  match n with
  | O => mret Pending
  | S n =>
      e ← gets (fun t => conns t !! idx);
      match e with
      | Some (Occupied (mkSocket (Open remote_id) channel as s)) =>
          local_id ← lift (from_index idx);
          p ← on_channel local_id s sc_poll_recv;
          match p with
          | Ready (Ok data) => mret (Ready (frame_data remote_id local_id data))
          | Ready (Err error) =>
              modify (set_dead_index (Some local_id));;
              let reason := match error with
                            | RecvDisconnected => BecauseISaidSo
                            | RecvErrorWith reason => reason
                            end in
              mret (Ready (frame_reset remote_id reason))
          | Pending => poll_sockets n (S idx)
          end
      | _ => poll_sockets n (S idx)
      end
  end.

(** One poll of [next_outbound]: a second poll finds no dead index to clean. *)
Definition next_outbound : MT (poll Frame_out) :=
  cleanup_dead;;
  n ← gets (fun t => length (conns t));
  poll_sockets n 0.

(** [reject] *)
Definition reject (local_id : Id) (rejection : Rejection) : MT bool :=
  s ← remove local_id;
  match s with
  | Some (mkSocket (Open _) c) => modify (add_released c);; mret false
  | Some (mkSocket (Connecting rsp) c) =>
      modify (add_reply (rsp, Err rejection));; modify (add_released c);;
      mret (rsp_send rsp (Err rejection))
  | None => mret false
  end.

(** [reset] *)
Definition reset (local_id : Id) (reason : Reset) : MT bool :=
  s ← remove local_id;
  match s with
  | None => mret false
  | Some (mkSocket (Connecting _) c) => modify (add_released c);; mret false
  | Some (mkSocket (Open _) c) => close_and_drop reason c
  end.

(** [process_ack] *)
Definition process_ack (local_id remote_id : Id) : MT (option Frame_out) :=
  e ← get_mut local_id;
  match e with
  | Some (Occupied sock) =>
      match sock_state sock with
      | Open real_remote_id => mret (Some (frame_reset remote_id YesSuchConn))
      | Connecting rsp =>
          put_entry local_id (Occupied (mkSocket (Open remote_id) (sock_channel sock)));;
          modify (add_reply (rsp, Ok tt));;
          if negb (rsp_send rsp (Ok tt)) then mret (Some (frame_reset remote_id BecauseISaidSo))
          else mret None
      end
  | _ => mret (Some (frame_reset remote_id NoSuchConn))
  end.

(** [accept] *)
Definition accept (remote_id : Id) (channel : Chan) : MT Frame_out :=
  i ← insert (mkSocket (Open remote_id) channel);
  match i with
  | Some local_id => mret (frame_ack local_id remote_id)
  | None => mret (frame_reject remote_id (ConnTableFull CAPACITY))
  end.

(** One poll of the [Header::Data] arm of [process_inbound], which awaits the socket's
    [send]; [fut] is the state of that future.  It is pending while the socket's channel has
    no room for the message. *)
Definition process_data (local_id remote_id : Id) (bs : bytes) (fut : SendFut)
    : MT (SendFut * poll (option Frame_out)) :=
  let id := remote_id in
  e ← get_mut id;
  match e ≫= socket with
  | None => mret (fut, Ready (Some (frame_reset local_id NoSuchConn)))
  | Some sock =>
      match sock_state sock with
      | Open remote_id =>
          if negb (local_id =? remote_id) then mret (fut, Ready (Some (frame_reset local_id NoSuchConn)))
          else
            fp ← on_channel id sock (sc_send bs fut);
            let fut := fst fp in
            match snd fp with
            | Pending => mret (fut, Pending)
            | Ready (Ok _) => mret (fut, Ready None)
            | Ready (Err err) =>
                let reset := match err with
                             | SerSendDeserialize error => bad_frame error
                             | SerSendDisconnected => BecauseISaidSo
                             | SerSendErrorWith error => error
                             end in
                remove_and_drop id;;
                mret (fut, Ready (Some (frame_reset local_id reset)))
            end
      | Connecting _ => mret (fut, Ready (Some (frame_reset local_id NoSuchConn)))
      end
  end.

(** One poll of [process_inbound]; [registry] is [Registry::connect]. *)
Definition process_inbound (registry : Identity -> bytes -> result Chan Rejection) (frame : InboundFrame)
    (fut : SendFut) : MT (SendFut * poll (option Frame_out)) :=
  match header frame with
  | Data local_id remote_id => process_data local_id remote_id (body frame) fut
  | Ack local_id remote_id => r ← process_ack remote_id local_id; mret (fut, Ready r)
  | Reject remote_id reason => reject remote_id reason;; mret (fut, Ready None)
  | HReset remote_id reason => reset remote_id reason;; mret (fut, Ready None)
  | Connect local_id identity =>
      match registry identity (body frame) with
      | Ok channel => f ← accept local_id channel; mret (fut, Ready (Some f))
      | Err reason => mret (fut, Ready (Some (frame_reject local_id reason)))
      end
  end.

(** [struct OutboundConnect] ([client.rs]) *)
Record OutboundConnect := mkOutboundConnect {
  oc_identity : Identity;
  oc_hello : Hello;
  oc_channel : Chan;
  oc_rsp : Rsp;
}.

(** [start_connecting] *)
Definition start_connecting (connect : OutboundConnect) : MT (option Frame_out) :=
  i ← reserve_id;
  match i with
  | None =>
      modify (add_reply (oc_rsp connect, Err (ConnTableFull CAPACITY)));;
      modify (add_released (oc_channel connect));;
      mret None
  | Some local_id =>
      insert_at local_id (mkSocket (Connecting (oc_rsp connect)) (oc_channel connect));;
      mret (Some (frame_connect local_id (oc_identity connect) (oc_hello connect)))
  end.
End ConnTable.
#[global] Arguments ConnTable {SC RS}.
#[global] Arguments OutboundConnect {SC RS} Hello.
