(* ===== verification/ConnTableSpec.v ===== *)
(** The connection table implements a finite map from local identifiers to sockets.

    [trep t m] says that the table [t] is well formed and holds the sockets of the map
    [m]: the free list runs through distinct closed entries and ends at the first unused
    one, and [len] is the size of [m].  The theorems [*_spec] refine each handler to an
    operation on [m]; they also say that no handler panics while the capacity fits in
    the identifiers. *)
From S2P Require Import Prelude Interfaces Errors BiDi Message ConnTable.

Section TableSpec.
Context {SC : SerChannel Reset} {SCL : SerChannelLaws Reset} {RS : ResponseSender} {Hello : Type}.
Variable CAPACITY : Z.
Hypothesis CAPACITY_range : 0 <= CAPACITY < u16_mod - 1.
Implicit Types (t : ConnTable) (m : gmap Id Socket).

Notation MT := (M (ConnTable (RS := RS))).

(** The free list from [i] on: closed entries, then the first unused entry [k]. *)
Fixpoint chain (l : list Entry) (i : Id) (free : list Id) (k : nat) : Prop :=
  match free with
  | [] => i = Z.of_nat k + 1
  | j :: free => i = j /\ exists next, l !! to_index j = Some (Closed next) /\ chain l next free k
  end.

Record twf t m (free : list Id) (k : nat) : Prop := {
  tw_length : length (conns t) = Z.to_nat CAPACITY;
  tw_k : (k <= length (conns t))%nat;
  tw_unused : forall i, conns t !! i = Some Unused <-> (k <= i < length (conns t))%nat;
  tw_chain : chain (conns t) (next_id t) free k;
  tw_nodup : NoDup free;
  tw_closed : forall i, 1 <= i -> i ∈ free <-> exists next, conns t !! to_index i = Some (Closed next);
  tw_ids : forall i, i ∈ free -> 1 <= i;
  tw_occupied : forall i s, 1 <= i -> m !! i = Some s <-> conns t !! to_index i = Some (Occupied s);
  tw_dom : forall i s, m !! i = Some s -> 1 <= i;
  tw_len : len t = Z.of_nat (size m) /\ len t + Z.of_nat (length free) = Z.of_nat k;
}.
Definition trep t m : Prop := exists free k, twf t m free k.

Lemma to_index_inj i j : 1 <= i -> 1 <= j -> to_index i = to_index j -> i = j.
Proof. unfold to_index. lia. Qed.

Lemma to_index_of n : to_index (Z.of_nat n + 1) = n.
Proof. unfold to_index. lia. Qed.

(** A chain is not disturbed by an entry that is not on it. *)
Lemma chain_insert l i free k j e :
  (j ∉ free) -> 1 <= j -> (forall x, x ∈ free -> 1 <= x) ->
  chain l i free k -> chain (<[to_index j := e]> l) i free k.
Proof.
  revert i. induction free as [|x free IH]; intros i Hj H1 Hids; [done|]. intros [-> (next & Hx & Hc)].
  split; [done|]. exists next. split.
  - rewrite list_lookup_insert_ne; [done|]. intros Heq. apply to_index_inj in Heq; [|done|apply Hids; set_solver].
    set_solver.
  - apply IH; set_solver.
Qed.

(** ** The table operations *)

Lemma new_trep : trep (new CAPACITY) ∅.
Proof.
  exists [], 0%nat. unfold new. split; cbn; rewrite ?length_replicate; try done; try lia.
  - intros i. split; [intros Hi%lookup_replicate_1; lia|]. intros Hi. apply lookup_replicate_2. lia.
  - constructor.
  - intros i Hi. split; [set_solver|]. intros (next & [? _]%lookup_replicate_1). done.
  - set_solver.
  - intros i s Hi. rewrite lookup_empty. split; [done|]. by intros [? _]%lookup_replicate_1.
Qed.

Lemma get_mut_spec t m i :
  trep t m -> 1 <= i -> conns t !! to_index i ≫= socket = m !! i.
Proof.
  intros (free & k & []) Hi. destruct (m !! i) as [s|] eqn:Hm.
  - apply tw_occupied0 in Hm; [|done]. by rewrite Hm.
  - destruct (conns t !! to_index i) as [[| |s]|] eqn:He; try done. apply tw_occupied0 in He; [congruence|done].
Qed.

(** The same table with other bookkeeping. *)
Lemma trep_ext t t' m :
  conns t' = conns t -> next_id t' = next_id t -> len t' = len t -> trep t m -> trep t' m.
Proof. intros Hc Hn Hl (free & k & []). exists free, k. split; rewrite ?Hc, ?Hn, ?Hl; done. Qed.

(** What [remove], [insert_at] and the channel operations leave alone. *)
Definition same_books t t' : Prop :=
  dead_index t' = dead_index t /\ replies t' = replies t /\ released t' = released t.

(** Removing a connection: its identifier heads the free list. *)
Lemma remove_wp t m i (Q : option Socket -> ConnTable -> Prop) :
  trep t m -> 1 <= i ->
  (forall t', trep t' (delete i m) -> same_books t t' ->
     (is_Some (m !! i) -> next_id t' = i) -> Q (m !! i) t') ->
  wp (remove i) Q t.
Proof.
  intros Hrep Hi HQ. pose proof (get_mut_spec _ _ _ Hrep Hi) as Hget.
  unfold remove. apply wp_bind, wp_gets.
  assert (Hnone : m !! i = None -> trep t (delete i m)) by (intros Hm; by rewrite delete_id).
  destruct (conns t !! to_index i) as [[|next|s]|] eqn:He; cbn in Hget.
  1,2,4: (apply wp_ret; rewrite Hget; apply HQ; [by apply Hnone|done|intros [? ?]; congruence]).
  apply wp_bind, wp_gets, wp_bind, wp_modify, wp_bind, wp_modify, wp_bind, wp_gets. cbn.
  destruct Hrep as (free & k & []).
  assert (Hlt : (to_index i < k)%nat).
  { destruct (decide (k <= to_index i)%nat) as [Hge|]; [|lia]. exfalso.
    assert (Hu : conns t !! to_index i = Some Unused); [|congruence].
    apply tw_unused0. split; [done|]. by eapply lookup_lt_Some. }
  assert (Hsz : size m = S (size (delete i m))).
  { assert (Hs : size (<[i := s]> (delete i m)) = S (size (delete i m)))
      by (apply map_size_insert_None, lookup_delete_eq).
    rewrite <- Hs, insert_delete_id; done. }
  destruct tw_len0 as [Hl1 Hl2].
  assert (Hni : i ∉ free).
  { intros Hin. apply tw_closed0 in Hin as [n Hn]; [congruence|done]. }
  unfold usize_checked_sub. destruct (Z.leb_spec 1 (len t)); [|lia]. cbn.
  apply wp_bind, wp_ret, wp_bind, wp_modify, wp_ret. rewrite Hget. apply HQ; [|done|done].
  exists (i :: free), k. split; cbn; rewrite ?length_insert; try done; try lia.
  - intros j. destruct (decide (j = to_index i)) as [->|Hne].
    + rewrite list_lookup_insert_eq by (by eapply lookup_lt_Some). split; [done|lia].
    + rewrite list_lookup_insert_ne by done. apply tw_unused0.
  - split; [done|]. exists (next_id t). split; [apply list_lookup_insert_eq; by eapply lookup_lt_Some|].
    by apply chain_insert.
  - by constructor.
  - intros j Hj. rewrite elem_of_cons. destruct (decide (j = i)) as [->|Hne].
    + split; [|tauto]. intros _. eexists. apply list_lookup_insert_eq. by eapply lookup_lt_Some.
    + rewrite list_lookup_insert_ne by (intros ?; by apply Hne, to_index_inj). rewrite <- tw_closed0 by done. tauto.
  - intros j [->|Hj]%elem_of_cons; [done|by apply tw_ids0].
  - intros j s' Hj. destruct (decide (j = i)) as [->|Hne].
    + rewrite lookup_delete_eq, list_lookup_insert_eq by (by eapply lookup_lt_Some). done.
    + rewrite lookup_delete_ne by done. rewrite list_lookup_insert_ne by (intros ?; by apply Hne, to_index_inj).
      by apply tw_occupied0.
  - intros j s' Hj. apply lookup_delete_Some in Hj as [_ Hj]. by eapply tw_dom0.
Qed.
Lemma chain_head l i free k :
  chain l i free k -> (forall x, x ∈ free -> 1 <= x) -> (k <= length l)%nat -> 1 <= i <= Z.of_nat (length l) + 1.
Proof.
  destruct free as [|x free]; cbn; [lia|]. intros [-> (next & Hx & _)] Hids Hk.
  assert (1 <= x) by (apply Hids; set_solver). apply lookup_lt_Some in Hx. unfold to_index in Hx. lia.
Qed.

Lemma occupied_insert (l : list Entry) m i sock :
  (forall j s, 1 <= j -> m !! j = Some s <-> l !! to_index j = Some (Occupied s)) ->
  1 <= i -> (to_index i < length l)%nat ->
  forall j s, 1 <= j ->
    <[i := sock]> m !! j = Some s <-> <[to_index i := Occupied sock]> l !! to_index j = Some (Occupied s).
Proof.
  intros Ho Hi Hlt j s Hj. destruct (decide (j = i)) as [->|Hne].
  - rewrite lookup_insert_eq, list_lookup_insert_eq by done. split; congruence.
  - rewrite lookup_insert_ne by done. rewrite list_lookup_insert_ne by (intros ?; by apply Hne, to_index_inj).
    by apply Ho.
Qed.

(** Taking the head of the free list: a closed entry, or the first unused one. *)
(** The entry that the next socket takes, and the table after it. *)
Definition takes t m sock : Prop :=
  1 <= next_id t <= CAPACITY /\ m !! next_id t = None /\
  exists e next free' k', conns t !! to_index (next_id t) = Some e /\
    match e with
    | Unused => checked_add (next_id t) 1 = Some next
    | Closed n => n = next
    | Occupied _ => False
    end /\
    forall t', conns t' = <[to_index (next_id t) := Occupied sock]> (conns t) -> next_id t' = next ->
      len t' = len t + 1 -> twf t' (<[next_id t := sock]> m) free' k'.

(** The first unused entry. *)
Lemma take_unused t m k sock : twf t m [] k -> len t <> CAPACITY -> takes t m sock.
Proof.
  intros Hwf Hlen. assert (Hwf' := Hwf). destruct Hwf'. destruct tw_len0 as [Hl1 Hl2].
  assert (Hsz : m !! next_id t = None -> size (<[next_id t := sock]> m) = S (size m))
    by apply map_size_insert_None. cbn [chain length] in *.
  assert (Hk : (k < length (conns t))%nat) by lia.
  assert (Hun : conns t !! to_index (next_id t) = Some Unused)
    by (rewrite tw_chain0, to_index_of; apply tw_unused0; lia).
  assert (Hnone : m !! next_id t = None).
  { destruct (m !! next_id t) as [s|] eqn:Hm; [|done]. apply tw_occupied0 in Hm; [congruence|lia]. }
  split; [lia|]. split; [done|]. exists Unused, (next_id t + 1), [], (S k). split; [done|]. split.
  { unfold checked_add, u16_mod in *. destruct (Z.ltb_spec (next_id t + 1) 65536); [done|lia]. }
  intros t' Hc Hn Hl. split; rewrite ?Hc, ?Hn, ?Hl, ?length_insert; try done; try lia.
  - intros j. rewrite tw_chain0, to_index_of. destruct (decide (j = k)) as [->|Hne].
    + rewrite list_lookup_insert_eq by done. split; [done|lia].
    + rewrite list_lookup_insert_ne, tw_unused0 by done. lia.
  - cbn. lia.
  - intros j Hj. split; [set_solver|]. intros (next & Hnx). destruct (decide (j = next_id t)) as [->|Hne].
    + rewrite list_lookup_insert_eq in Hnx by (by eapply lookup_lt_Some). done.
    + rewrite list_lookup_insert_ne in Hnx by (intros ?; apply Hne; symmetry; apply to_index_inj; [lia|done..]).
      apply tw_closed0; [done|by exists next].
  - apply occupied_insert; [done|lia|by eapply lookup_lt_Some].
  - intros j s Hj. destruct (decide (j = next_id t)) as [->|Hne]; [lia|].
    rewrite lookup_insert_ne in Hj by done. by eapply tw_dom0.
  - rewrite Hsz by done. split; [lia|]. cbn in *. lia.
Qed.
(** The entry that was closed last. *)
Lemma take_closed t m x free k sock : twf t m (x :: free) k -> len t <> CAPACITY -> takes t m sock.
Proof.
  intros Hwf Hlen. assert (Hwf' := Hwf). destruct Hwf'. destruct tw_len0 as [Hl1 Hl2].
  assert (Hsz : m !! next_id t = None -> size (<[next_id t := sock]> m) = S (size m))
    by apply map_size_insert_None. cbn [chain length] in *.
  destruct tw_chain0 as [Heq (next & Hx & Hc)]. subst x.
  assert (H1 : 1 <= next_id t) by (apply tw_ids0; set_solver).
  assert (Hlt : (to_index (next_id t) < length (conns t))%nat) by (by eapply lookup_lt_Some).
  assert (Hnone : m !! next_id t = None).
  { destruct (m !! next_id t) as [s|] eqn:Hm; [|done]. apply tw_occupied0 in Hm; [congruence|done]. }
  apply NoDup_cons in tw_nodup0 as [Hni Hnd].
  assert (Hki : (to_index (next_id t) < k)%nat).
  { destruct (decide (k <= to_index (next_id t))%nat); [|lia]. exfalso.
    assert (conns t !! to_index (next_id t) = Some Unused) by (apply tw_unused0; lia). congruence. }
  split; [unfold to_index in *; lia|]. split; [done|]. exists (Closed next), next, free, k.
  split; [done|]. split; [done|].
  intros t' Hc' Hn Hl. split; rewrite ?Hc', ?Hn, ?Hl, ?length_insert; try done; try lia.
  - intros j. destruct (decide (j = to_index (next_id t))) as [->|Hne].
    + rewrite list_lookup_insert_eq by done. split; [done|lia].
    + rewrite list_lookup_insert_ne by done. apply tw_unused0.
  - apply chain_insert; [done..| |done]. intros j Hj. apply tw_ids0. set_solver.
  - intros j Hj. destruct (decide (j = next_id t)) as [->|Hne].
    + rewrite list_lookup_insert_eq by done. split; [done|]. intros [? ?]. done.
    + rewrite list_lookup_insert_ne by (intros ?; by apply Hne, to_index_inj). rewrite <- tw_closed0 by done.
      rewrite elem_of_cons. tauto.
  - intros j Hj. apply tw_ids0. set_solver.
  - apply occupied_insert; done.
  - intros j s Hj. destruct (decide (j = next_id t)) as [->|Hne]; [lia|].
    rewrite lookup_insert_ne in Hj by done. by eapply tw_dom0.
  - rewrite Hsz by done. split; lia.
Qed.
Lemma take_free t m free k sock : twf t m free k -> len t <> CAPACITY -> takes t m sock.
Proof. destruct free; [apply take_unused|apply take_closed]. Qed.

(** Inserting at the identifier that [reserve_id] offers: it is fresh. *)
Lemma insert_at_wp t m sock (Q : unit -> ConnTable -> Prop) :
  trep t m -> len t <> CAPACITY ->
  (forall t', trep t' (<[next_id t := sock]> m) -> same_books t t' ->
     m !! next_id t = None -> 1 <= next_id t <= CAPACITY -> Q tt t') ->
  wp (insert_at (next_id t) sock) Q t.
Proof.
  intros (free & k & Hwf) Hlen HQ.
  destruct (take_free _ _ _ _ sock Hwf Hlen) as (Hid & Hnone & e & next & free' & k' & He & Hnext & Hwf').
  unfold insert_at. apply wp_bind, wp_gets. rewrite He. apply wp_bind, wp_ret, wp_bind, wp_modify, wp_bind.
  set (t1 := set_conns _ t).
  assert (Hgo : wp (modify (set_next_id next);; modify (fun t => set_len (len t + 1) t)) Q t1).
  { apply wp_bind, wp_modify, wp_modify. apply HQ; [|done|done|done]. by exists free', k'; apply Hwf'. }
  destruct e as [|n|s]; [|subst n; by apply wp_ret|done].
  apply wp_bind, wp_gets. unfold t1 in *. cbn. rewrite Hnext. by apply wp_ret.
Qed.

(** [len] counts the connections. *)
Lemma trep_size t m : trep t m -> len t = Z.of_nat (size m).
Proof. intros (free & k & []). apply tw_len0. Qed.

Lemma trep_dom t m i s : trep t m -> m !! i = Some s -> 1 <= i <= CAPACITY.
Proof.
  intros (free & k & []) Hm. pose proof (tw_dom0 _ _ Hm) as Hi. apply tw_occupied0 in Hm; [|done].
  apply lookup_lt_Some in Hm. unfold to_index in Hm. lia.
Qed.

Lemma insert_wp t m sock (Q : option Id -> ConnTable -> Prop) :
  trep t m ->
  (Z.of_nat (size m) = CAPACITY -> forall t', trep t' m -> dead_index t' = dead_index t ->
     replies t' = replies t -> released t' = released t ++ [sock_channel sock] -> Q None t') ->
  (Z.of_nat (size m) <> CAPACITY -> forall t' i, i = next_id t -> m !! i = None -> 1 <= i <= CAPACITY ->
     trep t' (<[i := sock]> m) -> same_books t t' -> Q (Some i) t') ->
  wp (insert CAPACITY sock) Q t.
Proof.
  intros Hrep Hfull Hroom. pose proof (trep_size _ _ Hrep) as Hsz.
  unfold insert, reserve_id. apply wp_bind, wp_gets. destruct (Z.eqb_spec (len t) CAPACITY) as [Heq|Hne].
  - apply wp_bind, wp_modify, wp_ret. apply Hfull; try done; [lia|]. by apply (trep_ext t).
  - apply wp_bind. eapply insert_at_wp; [done..|]. intros t' Hrep' Hb Hn Hr. apply wp_ret.
    apply Hroom; try done. lia.
Qed.

(** Replacing a socket that is in the table. *)
Lemma put_socket_trep t m i s s' :
  trep t m -> m !! i = Some s ->
  trep (set_conns (<[to_index i := Occupied s']> (conns t)) t) (<[i := s']> m).
Proof.
  intros Hrep Hm. pose proof (trep_dom _ _ _ _ Hrep Hm) as Hi. destruct Hrep as (free & k & []).
  assert (Ho : conns t !! to_index i = Some (Occupied s)) by (apply tw_occupied0; [lia|done]).
  assert (Hlt : (to_index i < length (conns t))%nat) by (by eapply lookup_lt_Some).
  exists free, k.
  assert (Hother : forall j e, e <> Occupied s -> e <> Occupied s' ->
    <[to_index i := Occupied s']> (conns t) !! j = Some e <-> conns t !! j = Some e).
  { intros j e H1 H2. destruct (decide (j = to_index i)) as [->|Hne].
    - rewrite list_lookup_insert_eq by done. rewrite Ho. split; congruence.
    - by rewrite list_lookup_insert_ne. }
  split; cbn; rewrite ?length_insert; try done.
  - intros j. rewrite Hother by done. apply tw_unused0.
  - apply chain_insert; [|lia|done|done]. intros Hin. apply tw_closed0 in Hin as [n Hn]; [congruence|lia].
  - intros j Hj. rewrite tw_closed0 by done. split; intros [n Hn]; exists n; by apply Hother.
  - apply occupied_insert; [done|lia|done].
  - intros j s1 Hj. destruct (decide (j = i)) as [->|Hne]; [lia|].
    rewrite lookup_insert_ne in Hj by done. by eapply tw_dom0.
  - rewrite map_size_insert_Some; [done|by eexists].
Qed.

(** ** The handlers *)

(** Every channel of the table is in a good state. *)
Definition chan_ok m : Prop := forall i s, m !! i = Some s -> sc_inv (sock_channel s).

Lemma chan_ok_delete m i : chan_ok m -> chan_ok (delete i m).
Proof. intros H j s Hj. apply lookup_delete_Some in Hj as [_ Hj]. by eapply H. Qed.
Lemma chan_ok_insert m i s : chan_ok m -> sc_inv (sock_channel s) -> chan_ok (<[i := s]> m).
Proof. intros H Hs j s' [[<- <-]|[_ Hj]]%lookup_insert_Some; [done|by eapply H]. Qed.

Definition frame_ids (h : Header) : Prop :=
  match h with
  | Connect l _ => 1 <= l
  | Data l r | Ack l r => 1 <= l /\ 1 <= r
  | Reject r _ | HReset r _ => 1 <= r
  end.

(** Why a data frame that could not be delivered resets its connection. *)
Definition data_reset (e : SerSendError Reset) : Reset :=
  match e with
  | SerSendDeserialize error => bad_frame error
  | SerSendDisconnected => BecauseISaidSo
  | SerSendErrorWith error => error
  end.

Notation Frame_res := (SendFut * poll (option (Frame_out (Hello := Hello))))%type.

(** The abstract behaviour of a poll for a data frame from the remote [l] for the
    connection [i], with the state [fut] of the socket's send. *)
Definition data_post (l i : Id) (bs : bytes) (fut : SendFut) m t (fr : Frame_res) t' m' : Prop :=
  let r := snd fr in
  match m !! i with
  | Some (mkSocket (Open remote) c) =>
      if l =? remote then
        exists c' p, sc_send bs fut c = (c', Val (fst fr, p)) /\
        match p with
        | Pending => r = Pending /\ m' = <[i := mkSocket (Open remote) c']> m /\ same_books t t'
        | Ready (Ok _) => r = Ready None /\ m' = <[i := mkSocket (Open remote) c']> m /\ same_books t t'
        | Ready (Err e) =>
            r = Ready (Some (frame_reset l (data_reset e))) /\ m' = delete i m /\ replies t' = replies t /\
            released t' = released t ++ [c']
        end
      else r = Ready (Some (frame_reset l NoSuchConn)) /\ m' = m /\ same_books t t'
  | _ => r = Ready (Some (frame_reset l NoSuchConn)) /\ m' = m /\ same_books t t'
  end.

(** An acknowledgement by the remote [l] of the connection [i]. *)
Definition ack_post (i l : Id) m t (r : option (Frame_out (Hello := Hello))) t' m' : Prop :=
  match m !! i with
  | None => r = Some (frame_reset l NoSuchConn) /\ m' = m /\ same_books t t'
  | Some (mkSocket (Open _) _) => r = Some (frame_reset l YesSuchConn) /\ m' = m /\ same_books t t'
  | Some (mkSocket (Connecting rsp) c) =>
      m' = <[i := mkSocket (Open l) c]> m /\ replies t' = replies t ++ [(rsp, Ok tt)] /\
      r = if rsp_send rsp (Ok tt) then None else Some (frame_reset l BecauseISaidSo)
  end.

Lemma process_data_wp t m l i bs fut :
  trep t m -> chan_ok m -> 1 <= i ->
  wp (process_data (Hello := Hello) l i bs fut)
     (fun r t' => exists m', trep t' m' /\ chan_ok m' /\ data_post l i bs fut m t r t' m') t.
Proof.
  intros Hrep Hok Hi. unfold process_data, data_post. apply wp_bind, wp_gets.
  rewrite (get_mut_spec _ _ _ Hrep Hi). destruct (m !! i) as [[[remote|rsp] c]|] eqn:Hm; cbn;
    try by (apply wp_ret; exists m).
  destruct (Z.eqb_spec l remote) as [->|Hne]; cbn; [|by apply wp_ret; exists m].
  pose proof (Hok _ _ Hm) as Hc. cbn in Hc.
  destruct (sc_send_ok c bs fut Hc) as (c' & [fut' p] & Hsend & Hc').
  pose proof (put_socket_trep _ _ _ _ (mkSocket (Open remote) c') Hrep Hm) as Hrep1. set (t1 := set_conns _ _) in *.
  apply wp_bind. exists t1, (fut', p). split; [unfold on_channel; cbn; by rewrite Hsend|].
  assert (Hok1 : chan_ok (<[i := mkSocket (Open remote) c']> m)) by (by apply chan_ok_insert).
  destruct p as [|[[]|e]].
  - apply wp_ret. eexists. split; [exact Hrep1|]. split; [done|]. by exists c', Pending.
  - apply wp_ret. eexists. split; [exact Hrep1|]. split; [done|]. by exists c', (Ready (Ok tt)).
  - apply wp_bind, wp_bind. eapply remove_wp; [exact Hrep1|done|]. intros t2 Hrep2 (Hd1 & Hd2 & Hd3) _.
    rewrite lookup_insert_eq. apply wp_modify, wp_ret. rewrite delete_insert_eq in Hrep2.
    exists (delete i m). split; [by apply (trep_ext t2)|]. split; [by apply chan_ok_delete|].
    exists c', (Ready (Err e)). split; [done|]. cbn. rewrite Hd2, Hd3.
    split_and!; try done; by destruct e.
Qed.

Lemma process_ack_wp t m i l :
  trep t m -> 1 <= i ->
  wp (process_ack (Hello := Hello) i l)
     (fun r t' => exists m', trep t' m' /\ (chan_ok m -> chan_ok m') /\ ack_post i l m t r t' m') t.
Proof.
  intros Hrep Hi. unfold process_ack, ack_post. apply wp_bind, wp_gets.
  pose proof (get_mut_spec _ _ _ Hrep Hi) as Hget.
  destruct (conns t !! to_index i) as [[| |s]|] eqn:He; cbn in Hget; rewrite <- Hget;
    try by (apply wp_ret; exists m).
  destruct s as [[remote|rsp] c]; cbn; [by apply wp_ret; exists m|].
  pose proof (put_socket_trep t m i _ (mkSocket (Open l) c) Hrep (eq_sym Hget)) as Hrep1.
  apply wp_bind, wp_modify, wp_bind, wp_modify.
  assert (Hok : chan_ok m -> chan_ok (<[i := mkSocket (Open l) c]> m)).
  { intros Hok. apply chan_ok_insert; [done|]. by apply (Hok i (mkSocket (Connecting rsp) c)). }
  destruct (rsp_send rsp (Ok tt)) eqn:Hr; cbn; apply wp_ret; (eexists; split; [by eapply trep_ext; [..|exact Hrep1]|];
    split; [exact Hok|]); done.
Qed.
(** A rejection: the socket goes, and a local initiator that waited is told. *)
Definition reject_post (i : Id) (reason : Rejection) m t t' m' : Prop :=
  m' = delete i m /\
  replies t' = replies t ++ match m !! i with
                            | Some (mkSocket (Connecting rsp) _) => [(rsp, Err reason)]
                            | _ => []
                            end /\
  released t' = released t ++ match m !! i with Some s => [sock_channel s] | None => [] end.

Lemma reject_wp t m i reason :
  trep t m -> 1 <= i ->
  wp (reject i reason) (fun r t' => trep t' (delete i m) /\ reject_post i reason m t t' (delete i m)) t.
Proof.
  intros Hrep Hi. unfold reject. apply wp_bind. eapply remove_wp; [done..|].
  intros t1 Hrep1 (Hd & Hr & Hc) _. unfold reject_post.
  destruct (m !! i) as [[[remote|rsp] c]|] eqn:Hm.
  - apply wp_bind, wp_modify, wp_ret. cbn. rewrite Hr, Hc, app_nil_r. split; [by apply (trep_ext t1)|done].
  - apply wp_bind, wp_modify, wp_bind, wp_modify, wp_ret. cbn. rewrite Hr, Hc. split; [by apply (trep_ext t1)|done].
  - apply wp_ret. rewrite Hr, Hc, !app_nil_r. done.
Qed.

(** A reset: the socket goes, and the channel of an established one fails with the reason. *)
Definition reset_post (i : Id) (reason : Reset) m t t' m' : Prop :=
  m' = delete i m /\ replies t' = replies t /\
  match m !! i with
  | None => released t' = released t
  | Some (mkSocket (Connecting _) c) => released t' = released t ++ [c]
  | Some (mkSocket (Open _) c) =>
      exists c' b, sc_close_with_error reason c = (c', Val b) /\ released t' = released t ++ [c']
  end.

Lemma reset_wp t m i reason :
  trep t m -> chan_ok m -> 1 <= i ->
  wp (reset i reason) (fun r t' => trep t' (delete i m) /\ reset_post i reason m t t' (delete i m) /\
    dead_index t' = dead_index t /\ (is_Some (m !! i) -> next_id t' = i)) t.
Proof.
  intros Hrep Hok Hi. unfold reset. apply wp_bind. eapply remove_wp; [done..|].
  intros t1 Hrep1 (Hd & Hr & Hc) Hnx. unfold reset_post.
  destruct (m !! i) as [[[remote|rsp] c]|] eqn:Hm.
  - destruct (sc_close_ok c reason (Hok _ _ Hm)) as (c' & b & Hrun & _).
    exists (add_released c' t1), b. unfold close_and_drop. rewrite Hrun. split; [done|].
    split; [by apply (trep_ext t1)|]. cbn. rewrite Hr, Hc. split; [|auto]. split_and!; try done. by exists c', b.
  - apply wp_bind, wp_modify, wp_ret. split; [by apply (trep_ext t1)|]. cbn. rewrite Hr, Hc. auto.
  - apply wp_ret. rewrite Hr, Hc. auto.
Qed.

(** A connect request of the remote [l] for an accepted channel [c]. *)
Definition accept_post (l : Id) (c : Chan) m t (f : Frame_out (Hello := Hello)) t' m' : Prop :=
  (Z.of_nat (size m) = CAPACITY /\ f = frame_reject l (ConnTableFull CAPACITY) /\ m' = m /\
   released t' = released t ++ [c]) \/
  (Z.of_nat (size m) <> CAPACITY /\ exists i, i = next_id t /\ 1 <= i <= CAPACITY /\ m !! i = None /\
   f = frame_ack i l /\ m' = <[i := mkSocket (Open l) c]> m /\ released t' = released t).

Lemma accept_wp t m l c :
  trep t m ->
  wp (accept (Hello := Hello) CAPACITY l c)
     (fun f t' => exists m', trep t' m' /\ (chan_ok m -> sc_inv c -> chan_ok m') /\ accept_post l c m t f t' m' /\
        dead_index t' = dead_index t) t.
Proof.
  intros Hrep. unfold accept. apply wp_bind. eapply insert_wp; [exact Hrep|..].
  - intros Hsz t' Hrep' Hd Hr Hc. apply wp_ret. exists m. split_and!; try done. by left.
  - intros Hsz t' i Hi Hm Hr Hrep' (Hd & _ & Hc). apply wp_ret. eexists. split; [exact Hrep'|].
    split; [intros Hok Hinv; by apply chan_ok_insert|]. split; [|done]. right. split; [done|]. by exists i.
Qed.

Definition inbound_post (registry : Identity -> bytes -> result Chan Rejection) (f : InboundFrame) (fut : SendFut) m t
    (fr : Frame_res) t' m' : Prop :=
  let r := snd fr in
  match header f with
  | Data l i => data_post l i (body f) fut m t fr t' m'
  | Ack l i => exists o, r = Ready o /\ ack_post i l m t o t' m'
  | Reject i reason => r = Ready None /\ reject_post i reason m t t' m'
  | HReset i reason => r = Ready None /\ reset_post i reason m t t' m'
  | Connect l identity =>
      match registry identity (body f) with
      | Err reason => r = Ready (Some (frame_reject l reason)) /\ m' = m /\ t' = t
      | Ok c => exists o, r = Ready (Some o) /\ accept_post l c m t o t' m'
      end
  end.

Lemma process_inbound_wp registry t m (f : InboundFrame) fut :
  trep t m -> chan_ok m -> frame_ids (header f) ->
  (forall identity bs c, registry identity bs = Ok c -> sc_inv c) ->
  wp (process_inbound (Hello := Hello) CAPACITY registry f fut)
     (fun r t' => exists m', trep t' m' /\ chan_ok m' /\ inbound_post registry f fut m t r t' m') t.
Proof.
  intros Hrep Hok Hids Hreg. unfold process_inbound, inbound_post. destruct f as [[l identity|l i|l i|i reason|i reason] bs];
    cbn in *.
  - destruct (registry identity bs) as [c|reason] eqn:Hc; [|by apply wp_ret; exists m].
    apply wp_bind. eapply wp_mono; [by apply (accept_wp t m)|]. cbn. intros o t' (m' & Hrep' & Hok' & Hpost & _).
    apply wp_ret. exists m'. split; [done|]. split; [by eapply Hok', Hreg|]. by exists o.
  - apply process_data_wp; tauto.
  - apply wp_bind. eapply wp_mono; [apply (process_ack_wp t m); tauto|]. cbn. intros o t' (m' & Hrep' & Hok' & Hpost).
    apply wp_ret. exists m'. split; [done|]. split; [auto|]. by exists o.
  - apply wp_bind. eapply wp_mono; [by apply (reject_wp t m)|]. cbn. intros b t' (Hrep' & Hpost).
    apply wp_ret. eexists. split; [exact Hrep'|]. split; [by apply chan_ok_delete|done].
  - apply wp_bind. eapply wp_mono; [by apply (reset_wp t m)|]. cbn. intros b t' (Hrep' & Hpost & _).
    apply wp_ret. eexists. split; [exact Hrep'|]. split; [by apply chan_ok_delete|done].
Qed.

(** C10: Every inbound frame, on every branch: the handler ends without a panic, the table stays
    well formed, and the map of connections, the response frame, the replies to local
    connectors and the dropped channels are those of [inbound_post]: data goes to its
    socket only if the remote identifier matches, an unknown connection is answered by a
    reset, an ACK opens a connecting socket, a CONNECT takes a free identifier or is
    rejected. *)
Theorem process_inbound_spec registry t m (f : InboundFrame) fut :
  trep t m -> chan_ok m -> frame_ids (header f) ->
  (forall identity bs c, registry identity bs = Ok c -> sc_inv c) ->
  wp (process_inbound (Hello := Hello) CAPACITY registry f fut)
     (fun r t' => exists m', trep t' m' /\ chan_ok m' /\ inbound_post registry f fut m t r t' m') t.
Proof. apply process_inbound_wp. Qed.

Lemma start_connecting_wp t m (oc : OutboundConnect Hello) :
  trep t m ->
  wp (start_connecting CAPACITY oc) (fun r t' =>
    (Z.of_nat (size m) = CAPACITY /\ r = None /\ trep t' m /\
     replies t' = replies t ++ [(oc_rsp oc, Err (ConnTableFull CAPACITY))] /\
     released t' = released t ++ [oc_channel oc]) \/
    (Z.of_nat (size m) <> CAPACITY /\ exists i, 1 <= i <= CAPACITY /\ m !! i = None /\
     r = Some (frame_connect i (oc_identity oc) (oc_hello oc)) /\
     trep t' (<[i := mkSocket (Connecting (oc_rsp oc)) (oc_channel oc)]> m) /\ same_books t t')) t.
Proof.
  intros Hrep. pose proof (trep_size _ _ Hrep) as Hsz. unfold start_connecting, reserve_id. apply wp_bind, wp_gets.
  destruct (Z.eqb_spec (len t) CAPACITY) as [Heq|Hne].
  - apply wp_bind, wp_modify, wp_bind, wp_modify, wp_ret. left. split_and!; try done; [lia|]. by apply (trep_ext t).
  - apply wp_bind. eapply insert_at_wp; [done..|]. intros t' Hrep' Hb Hn Hr. apply wp_ret. right.
    split; [lia|]. by exists (next_id t).
Qed.

(** A local connect request either finds the table full, and then the connector is told so and
    its channel is dropped, or it takes a fresh identifier between one and the capacity, the
    socket waits for its ACK, and the CONNECT frame names that identifier. *)
Theorem start_connecting_spec t m (oc : OutboundConnect Hello) :
  trep t m ->
  wp (start_connecting CAPACITY oc) (fun r t' =>
    (Z.of_nat (size m) = CAPACITY /\ r = None /\ trep t' m /\
     replies t' = replies t ++ [(oc_rsp oc, Err (ConnTableFull CAPACITY))] /\
     released t' = released t ++ [oc_channel oc]) \/
    (Z.of_nat (size m) <> CAPACITY /\ exists i, 1 <= i <= CAPACITY /\ m !! i = None /\
     r = Some (frame_connect i (oc_identity oc) (oc_hello oc)) /\
     trep t' (<[i := mkSocket (Connecting (oc_rsp oc)) (oc_channel oc)]> m) /\ same_books t t')) t.
Proof. apply start_connecting_wp. Qed.

(** ** Outbound frames *)

Definition same_states m m' : Prop := forall i, sock_state <$> m !! i = sock_state <$> m' !! i.

Definition close_reset (e : RecvError Reset) : Reset :=
  match e with RecvDisconnected => BecauseISaidSo | RecvErrorWith reason => reason end.

(** The established sockets after [from] have nothing to send, up to [upto]. *)
Definition quiet m (from upto : Id) : Prop :=
  forall j remote c, from < j < upto -> m !! j = Some (mkSocket (Open remote) c) ->
    snd (sc_poll_recv c) = Val Pending.

(** The map once the established sockets between [from] and [upto] were polled. *)
Definition poll_one (s : Socket) : Socket :=
  match s with
  | mkSocket (Open remote) c => mkSocket (Open remote) (fst (sc_poll_recv c))
  | _ => s
  end.
Definition polled (from upto : Id) m : gmap Id Socket :=
  map_imap (fun j s => Some (if decide (from < j < upto) then poll_one s else s)) m.

Lemma polled_lookup from upto m j :
  polled from upto m !! j = (fun s => if decide (from < j < upto) then poll_one s else s) <$> m !! j.
Proof. unfold polled. rewrite map_lookup_imap. by destruct (m !! j). Qed.

Lemma polled_states from upto m : same_states m (polled from upto m).
Proof.
  intros j. rewrite polled_lookup. destruct (m !! j) as [[[remote|rsp] c]|]; [..|done]; cbn; by case_decide.
Qed.

Lemma polled_none from upto m :
  (forall j, from < j < upto -> m !! j = None) -> polled from upto m = m.
Proof.
  intros H. apply map_eq. intros j. rewrite polled_lookup. destruct (m !! j) as [s|] eqn:Hj; [|done]. cbn.
  case_decide; [|done]. by rewrite H in Hj.
Qed.

Lemma polled_step from upto m m1 :
  from + 1 < upto ->
  (forall j, m1 !! j = if decide (j = from + 1) then poll_one <$> m !! j else m !! j) ->
  polled (from + 1) upto m1 = polled from upto m.
Proof.
  intros Hu Hm1. apply map_eq. intros j. rewrite !polled_lookup, Hm1.
  destruct (decide (j = from + 1)) as [->|Hne].
  - destruct (m !! (from + 1)); [|done]. cbn. do 2 case_decide; done || lia.
  - destruct (m !! j); [|done]. cbn. do 2 case_decide; done || lia.
Qed.

(** The outcome of polling the sockets after [from]: the first one that is ready speaks. *)
Definition poll_post (from : Id) m t (r : poll (Frame_out (Hello := Hello))) t' m' : Prop :=
  match r with
  | Pending => quiet m from (CAPACITY + 1) /\ dead_index t' = dead_index t /\ m' = polled from (CAPACITY + 1) m
  | Ready f =>
      exists i remote c c' x, from < i /\ m' = polled from (i + 1) m /\ m !! i = Some (mkSocket (Open remote) c) /\ quiet m from i /\
        sc_poll_recv c = (c', Val (Ready x)) /\
        match x with
        | Ok data => f = frame_data remote i data /\ dead_index t' = dead_index t
        | Err e => f = frame_reset remote (close_reset e) /\ dead_index t' = Some i
        end
  end.

Lemma quiet_extend m from upto :
  quiet m (from + 1) upto ->
  (forall remote c, m !! (from + 1) = Some (mkSocket (Open remote) c) -> snd (sc_poll_recv c) = Val Pending) ->
  quiet m from upto.
Proof.
  intros Hq H1 j remote c Hj Hm. destruct (decide (j = from + 1)) as [->|Hne]; [by eapply H1|].
  eapply Hq; [|done]. lia.
Qed.

Lemma poll_post_extend m m1 from t t1 r t' m' :
  poll_post (from + 1) m1 t1 r t' m' -> dead_index t1 = dead_index t -> from < CAPACITY ->
  (forall j, m1 !! j = if decide (j = from + 1) then poll_one <$> m !! j else m !! j) ->
  (forall remote c, m !! (from + 1) = Some (mkSocket (Open remote) c) -> snd (sc_poll_recv c) = Val Pending) ->
  poll_post from m t r t' m'.
Proof.
  intros Hp Hd Hfrom Hm1 H1.
  assert (Hsame : forall j, from + 1 < j -> m1 !! j = m !! j) by (intros j Hj; rewrite Hm1; case_decide; done || lia).
  assert (Hq : forall upto, quiet m1 (from + 1) upto -> quiet m from upto).
  { intros upto Hq. apply quiet_extend; [|done]. intros j remote c Hj Hm. eapply Hq; [exact Hj|].
    rewrite Hsame; [done|lia]. }
  destruct r as [|f]; cbn in *.
  { destruct Hp as (? & ? & ->). split_and!; [by apply Hq|congruence|apply polled_step; [lia|done]]. }
  destruct Hp as (i & remote & c & c' & x & Hi & -> & Hm & Hqi & Hx & Hpost).
  exists i, remote, c, c', x. rewrite Hsame in Hm by lia.
  split_and!; [lia|apply polled_step; [lia|done]|done|by apply Hq|done|].
  destruct x; [|done]. destruct Hpost. split; [done|congruence].
Qed.

(** Polling one connection changes the state of its channel only. *)
Lemma polled_socket m k remote c c' p :
  m !! (k + 1) = Some (mkSocket (Open remote) c) -> sc_poll_recv c = (c', Val p) ->
  let m1 := <[k + 1 := mkSocket (Open remote) c']> m in
  same_states m m1 /\ (forall j, m1 !! j = if decide (j = k + 1) then poll_one <$> m !! j else m !! j) /\
  m1 = polled k (k + 1 + 1) m.
Proof.
  intros Hm Hpoll m1.
  assert (Hm1 : forall j, m1 !! j = if decide (j = k + 1) then poll_one <$> m !! j else m !! j).
  { intros j. unfold m1. case_decide as Hj; [subst j|by rewrite lookup_insert_ne].
    rewrite lookup_insert_eq, Hm. cbn. by rewrite Hpoll. }
  split_and!; [|exact Hm1|].
  - intros j. unfold m1. destruct (decide (j = k + 1)) as [->|Hne]; [by rewrite lookup_insert_eq, Hm|by rewrite lookup_insert_ne].
  - rewrite <- (polled_step _ _ m m1) by (lia || done). rewrite polled_none; [done|]. intros j Hj. lia.
Qed.

Lemma poll_sockets_wp n : forall idx t m,
  (n + idx = length (conns t))%nat -> trep t m -> chan_ok m ->
  wp (poll_sockets (Hello := Hello) n idx) (fun r t' => exists m', trep t' m' /\ chan_ok m' /\ same_states m m' /\
    replies t' = replies t /\ released t' = released t /\ poll_post (Z.of_nat idx) m t r t' m') t.
Proof.
  induction n as [|n IH]; intros idx t m Hn Hrep Hok; cbn [poll_sockets].
  - assert (Hlen : Z.of_nat idx = CAPACITY) by (destruct Hrep as (free & k & []); cbn in Hn; lia).
    apply wp_ret. exists m. split_and!; try done. split_and!; [|done|].
    + intros j remote c Hj Hm. lia.
    + rewrite polled_none; [done|]. intros j Hj. lia.
  - assert (Hidx1 : Z.of_nat idx < CAPACITY) by (destruct Hrep as (free & k & []); lia).
    assert (Hget : conns t !! idx ≫= socket = m !! (Z.of_nat idx + 1))
      by (rewrite <- (get_mut_spec _ _ _ Hrep) by lia; by rewrite to_index_of).
    assert (Hskip : (forall remote c, m !! (Z.of_nat idx + 1) = Some (mkSocket (Open remote) c) -> False) ->
      wp (poll_sockets (Hello := Hello) n (S idx)) (fun r t' => exists m', trep t' m' /\ chan_ok m' /\ same_states m m' /\
        replies t' = replies t /\ released t' = released t /\ poll_post (Z.of_nat idx) m t r t' m') t).
    { intros Hno. eapply wp_mono; [apply (IH (S idx) t m); [lia|done..]|].
      intros r t' (m' & ? & ? & ? & ? & ? & Hpost). exists m'. split_and!; try done.
      rewrite Nat2Z.inj_succ in Hpost. eapply poll_post_extend; [exact Hpost|done|done|..].
      - intros j. case_decide as Hj; [|done]. subst j.
        destruct (m !! (Z.of_nat idx + 1)) as [[[remote|rsp] c]|]; [by destruct (Hno remote c)|done..].
      - intros remote c Hm. by destruct (Hno remote c). }
    apply wp_bind, wp_gets.
    destruct (conns t !! idx) as [[| |[[remote|rsp] c]]|] eqn:He; cbn in Hget;
      try by (apply Hskip; intros r1 c1 Hm1; congruence).
    assert (Hidx : from_index idx = Val (Z.of_nat idx + 1)).
    { apply lookup_lt_Some in He. destruct Hrep as (free & k & []). unfold from_index, u16_mod in *.
      destruct (Z.ltb_spec (Z.of_nat idx) 65536); [f_equal; lia|lia]. }
    rewrite Hidx. apply wp_bind. exists t, (Z.of_nat idx + 1). split; [done|].
    pose proof (Hok _ _ (eq_sym Hget)) as Hc. cbn in Hc.
    destruct (sc_poll_recv_ok c Hc) as (c' & p & Hpoll & Hc').
    pose proof (put_socket_trep _ _ _ _ (mkSocket (Open remote) c') Hrep (eq_sym Hget)) as Hrep1.
    set (m1 := <[Z.of_nat idx + 1 := mkSocket (Open remote) c']> m) in *. set (t1 := set_conns _ _) in Hrep1.
    assert (Hok1 : chan_ok m1) by (by apply chan_ok_insert).
    destruct (polled_socket _ _ _ _ _ _ (eq_sym Hget) Hpoll) as (Hst & Hm1 & Hpolled). fold m1 in Hst, Hm1, Hpolled.
    apply wp_bind. exists t1, p. split; [unfold on_channel; cbn; by rewrite Hpoll|].
    assert (Hquiet : quiet m (Z.of_nat idx) (Z.of_nat idx + 1)) by (intros j r1 c1 Hj; lia).
    destruct p as [|[data|e]].
    + eapply wp_mono; [apply (IH (S idx) t1 m1); [cbn; rewrite length_insert; lia|done..]|].
      intros r t' (m' & ? & ? & Hst' & ? & ? & Hpost). exists m'. split_and!; try done.
      * intros j. by rewrite Hst.
      * rewrite Nat2Z.inj_succ in Hpost. eapply poll_post_extend; [exact Hpost|done|done|done|].
        intros r1 c1 Hr1. rewrite <- Hget in Hr1. simplify_eq. by rewrite Hpoll.
    + apply wp_ret. exists m1. split_and!; try done. eexists _, remote, c, c', (Ok data).
      split_and!; [|exact Hpolled|by rewrite <- Hget|..]; try done. lia.
    + apply wp_bind, wp_modify, wp_ret. exists m1. split_and!; try done; [by apply (trep_ext t1)|].
      eexists _, remote, c, c', (Err e). split_and!; [|exact Hpolled|by rewrite <- Hget|..]; try done. lia.
Qed.

(** What is left once the connection that closed during the previous call is removed. *)
Definition cleaned t m : gmap Id Socket :=
  match dead_index t with Some i => delete i m | None => m end.

Lemma cleanup_dead_wp t m :
  trep t m -> (forall i, dead_index t = Some i -> 1 <= i) ->
  wp cleanup_dead (fun _ t' => trep t' (cleaned t m) /\ dead_index t' = None /\ replies t' = replies t /\
    released t' = released t ++ match dead_index t ≫= fun i => m !! i with Some s => [sock_channel s] | None => [] end) t.
Proof.
  intros Hrep Hd. unfold cleanup_dead, cleaned. apply wp_bind, wp_gets, wp_bind, wp_modify.
  destruct (dead_index t) as [i|] eqn:Hdi.
  - assert (Hrep0 : trep (set_dead_index None t) m) by (by apply (trep_ext t)).
    apply wp_bind. eapply remove_wp; [exact Hrep0|by apply Hd|]. intros t1 Hrep1 (Hb1 & Hb2 & Hb3) _. cbn in *.
    destruct (m !! i) as [s|]; [apply wp_modify|apply wp_ret]; cbn; rewrite Hb1, Hb2, Hb3, ?app_nil_r.
    + split; [by apply (trep_ext t1)|done].
    + done.
  - apply wp_ret. cbn. rewrite app_nil_r. split; [by apply (trep_ext t)|done].
Qed.

Lemma next_outbound_wp t m :
  trep t m -> chan_ok m -> (forall i, dead_index t = Some i -> 1 <= i) ->
  wp (next_outbound (Hello := Hello)) (fun r t' => exists m', trep t' m' /\ chan_ok m' /\
    same_states (cleaned t m) m' /\ replies t' = replies t /\
    match r with
    | Pending =>
        quiet (cleaned t m) 0 (CAPACITY + 1) /\ dead_index t' = None /\ m' = polled 0 (CAPACITY + 1) (cleaned t m)
    | Ready f =>
        exists i remote c c' x, m' = polled 0 (i + 1) (cleaned t m) /\ cleaned t m !! i = Some (mkSocket (Open remote) c) /\ quiet (cleaned t m) 0 i /\
          sc_poll_recv c = (c', Val (Ready x)) /\
          match x with
          | Ok data => f = frame_data remote i data /\ dead_index t' = None
          | Err e => f = frame_reset remote (close_reset e) /\ dead_index t' = Some i
          end
    end) t.
Proof.
  intros Hrep Hok Hd. unfold next_outbound. apply wp_bind.
  eapply wp_mono; [by apply cleanup_dead_wp|]. cbn. intros [] t1 (Hrep1 & Hd1 & Hr1 & _).
  assert (Hok1 : chan_ok (cleaned t m)) by (unfold cleaned; destruct (dead_index t); [by apply chan_ok_delete|done]).
  apply wp_bind, wp_gets. eapply wp_mono; [apply (poll_sockets_wp _ 0 t1 (cleaned t m)); [lia|done..]|].
  intros r t' (m' & Hrep' & Hok' & Hst & Hr & _ & Hpost). exists m'. rewrite Hr, Hr1. split_and!; try done.
  destruct r as [|f]; cbn in *; [by rewrite Hd1 in Hpost|].
  destruct Hpost as (i & remote & c & c' & x & _ & Hm' & Hm & Hq & Hx & Hpost). rewrite Hd1 in Hpost.
  by exists i, remote, c, c', x.
Qed.

(** C22: [next_outbound] first forgets the connection that died in the previous call, then polls
    the established connections in the order of their identifiers: the first that is ready
    speaks, with its data or, when its channel is over, with a reset that marks it dead;
    it waits only if none is ready.  It never panics and changes no other socket. *)
Theorem next_outbound_spec t m :
  trep t m -> chan_ok m -> (forall i, dead_index t = Some i -> 1 <= i) ->
  wp (next_outbound (Hello := Hello)) (fun r t' => exists m', trep t' m' /\ chan_ok m' /\
    same_states (cleaned t m) m' /\ replies t' = replies t /\
    match r with
    | Pending =>
        quiet (cleaned t m) 0 (CAPACITY + 1) /\ dead_index t' = None /\ m' = polled 0 (CAPACITY + 1) (cleaned t m)
    | Ready f =>
        exists i remote c c' x, m' = polled 0 (i + 1) (cleaned t m) /\ cleaned t m !! i = Some (mkSocket (Open remote) c) /\ quiet (cleaned t m) 0 i /\
          sc_poll_recv c = (c', Val (Ready x)) /\
          match x with
          | Ok data => f = frame_data remote i data /\ dead_index t' = None
          | Err e => f = frame_reset remote (close_reset e) /\ dead_index t' = Some i
          end
    end) t.
Proof. apply next_outbound_wp. Qed.

(** ** Protocol *)

(** Connection establishment between two tables: the CONNECT frame one of them makes,
    accepted by the registry of the other, is answered by an ACK; processing that ACK tells
    the connector [Ok], and both ends are open, each with the identifier the other chose. *)
Theorem handshake ta ma tb mb (oc : OutboundConnect Hello) regA regB bs c :
  trep ta ma -> trep tb mb ->
  Z.of_nat (size ma) <> CAPACITY -> Z.of_nat (size mb) <> CAPACITY ->
  regB (oc_identity oc) bs = Ok c -> rsp_send (oc_rsp oc) (Ok tt) = true ->
  wp (start_connecting CAPACITY oc) (fun connect ta1 => exists i,
    connect = Some (frame_connect i (oc_identity oc) (oc_hello oc)) /\
    wp (process_inbound (Hello := Hello) CAPACITY regB (mkFrame (Connect i (oc_identity oc)) bs) sc_send_start)
      (fun ack tb1 => exists j, snd ack = Ready (Some (frame_ack j i)) /\
        wp (process_inbound (Hello := Hello) CAPACITY regA (mkFrame (Ack j i) []) sc_send_start)
          (fun r ta2 => snd r = Ready None /\ replies ta2 = replies ta ++ [(oc_rsp oc, Ok tt)] /\
            trep ta2 (<[i := mkSocket (Open j) (oc_channel oc)]> ma) /\ ma !! i = None /\
            trep tb1 (<[j := mkSocket (Open i) c]> mb) /\ mb !! j = None) ta1) tb) ta.
Proof.
  intros Ha Hb Hsa Hsb Hreg Hrsp.
  eapply wp_mono; [by apply start_connecting_wp|]. cbn. intros r ta1 [(? & _)|(_ & i & Hi & Hma & -> & Ha1 & Hba)]; [done|].
  exists i. split; [done|]. unfold process_inbound. cbn. rewrite Hreg.
  apply wp_bind. eapply wp_mono; [by apply (accept_wp tb mb)|]. cbn.
  intros f tb1 (mb' & Hb1 & _ & [(? & _)|(_ & j & _ & Hj & Hmb & -> & -> & _)] & _); [done|].
  apply wp_ret. exists j. split; [done|]. apply wp_bind.
  eapply wp_mono; [apply (process_ack_wp ta1 _ i j Ha1); lia|]. cbn. intros o ta2 (ma' & Ha2 & _ & Hpost).
  unfold ack_post in Hpost. rewrite lookup_insert_eq, Hrsp in Hpost. destruct Hpost as (-> & Hr & ->).
  apply wp_ret. destruct Hba as (_ & Hr1 & _). rewrite insert_insert_eq in Ha2. rewrite Hr, Hr1. done.
Qed.

(** C40: A connection that closed locally leaves its identifier behind in [dead_index].  When
    the remote resets it before the next outbound frame, and then connects again, the
    new connection gets the same identifier, and the next call of [next_outbound]
    removes it, without any frame to the remote. *)
Theorem stale_dead_index_removes_live_connection t m i remote remote' c c' registry identity bs reason :
  trep t m -> chan_ok m -> sc_inv c' -> dead_index t = Some i -> m !! i = Some (mkSocket (Open remote) c) ->
  registry identity bs = Ok c' ->
  wp (process_inbound (Hello := Hello) CAPACITY registry (mkFrame (HReset i reason) []) sc_send_start;;
      process_inbound (Hello := Hello) CAPACITY registry (mkFrame (Connect remote' identity) bs) sc_send_start)
     (fun r t' => snd r = Ready (Some (frame_ack i remote')) /\
        trep t' (<[i := mkSocket (Open remote') c']> m) /\
        wp cleanup_dead (fun _ t'' => trep t'' (delete i m) /\
          released t'' = released t' ++ [c']) t') t.
Proof.
  intros Hrep Hok Hc' Hd Hm Hreg. pose proof (trep_dom _ _ _ _ Hrep Hm) as Hi.
  pose proof (trep_size _ _ Hrep) as Hsz.
  unfold process_inbound. cbn. rewrite Hreg. apply wp_bind, wp_bind.
  eapply wp_mono; [apply (reset_wp t m i reason Hrep Hok); lia|]. cbn.
  intros b t1 (Hrep1 & _ & Hd1 & Hnx). rewrite Hm in Hnx. specialize (Hnx ltac:(by eexists)).
  apply wp_ret, wp_bind. eapply wp_mono; [by apply (accept_wp t1 (delete i m))|]. cbn.
  assert (Hsmall : Z.of_nat (size (delete i m)) <> CAPACITY).
  { destruct Hrep as (free & k & []). destruct tw_len0 as [Hl1 Hl2].
    assert (Hs : size (<[i := mkSocket (Open remote) c]> (delete i m)) = S (size (delete i m)))
      by (apply map_size_insert_None, lookup_delete_eq).
    rewrite insert_delete_id in Hs by done. lia. }
  intros f t2 (m2 & Hrep2 & _ & [(? & _)|(_ & j & -> & Hj & Hmj & -> & -> & _)] & Hd2); [done|].
  rewrite Hnx in *. rewrite insert_delete_eq in Hrep2. apply wp_ret. split; [done|]. split; [done|].
  eapply wp_mono; [apply (cleanup_dead_wp t2 _ Hrep2); rewrite Hd2, Hd1, Hd; intros ? [= <-]; lia|]. cbn.
  intros [] t3 (Hrep3 & _ & _ & Hrel). unfold cleaned in Hrep3. rewrite Hd2, Hd1, Hd in *. cbn in Hrel.
  rewrite lookup_insert_eq in Hrel. rewrite delete_insert_eq in Hrep3. done.
Qed.

(** ** The table over its whole life *)

(** Only [next_outbound] marks a dead connection. *)
Definition keeps_dead {A} (f : MT A) : Prop := forall t, dead_index (fst (f t)) = dead_index t.

Lemma keeps_dead_bind {A B} (f : MT A) (k : A -> MT B) :
  keeps_dead f -> (forall a, keeps_dead (k a)) -> keeps_dead (f ≫= k).
Proof.
  intros Hf Hk t. specialize (Hf t). cbv [mbind M_bind].
  destruct (f t) as [t1 [a| |]]; cbn in *; [rewrite Hk|..]; done.
Qed.
Lemma keeps_dead_modify f : (forall t, dead_index (f t) = dead_index t) -> keeps_dead (modify f).
Proof. intros H t. apply H. Qed.
Lemma keeps_dead_on_channel {A} i s (f : M Chan A) : keeps_dead (on_channel i s f).
Proof. intros t. unfold on_channel. by destruct (f (sock_channel s)). Qed.
Lemma keeps_dead_close r c : keeps_dead (close_and_drop r c).
Proof. intros t. unfold close_and_drop. by destruct (sc_close_with_error r c). Qed.

Lemma keeps_dead_expect {A} (o : option A) : keeps_dead (expect o).
Proof. by destruct o. Qed.

Ltac keeps_dead :=
  repeat first
    [ apply keeps_dead_expect
    | apply keeps_dead_bind; [|intros ?]
    | apply keeps_dead_modify; intros ?; reflexivity
    | apply keeps_dead_on_channel | apply keeps_dead_close
    | case_match
    | intros ?; reflexivity ].

Lemma keeps_dead_remove i : keeps_dead (remove i).
Proof. unfold remove, get_mut, put_entry. keeps_dead. Qed.
Lemma keeps_dead_insert s : keeps_dead (insert CAPACITY s).
Proof. unfold insert, reserve_id, insert_at, get_mut, put_entry. keeps_dead. Qed.
Lemma keeps_dead_inbound registry f fut : keeps_dead (process_inbound (Hello := Hello) CAPACITY registry f fut).
Proof.
  pose proof keeps_dead_remove as Hr. pose proof keeps_dead_insert as Hi.
  unfold process_inbound, process_data, process_ack, reject, reset, accept, remove_and_drop, get_mut, put_entry.
  keeps_dead.
Qed.
Lemma keeps_dead_connect oc : keeps_dead (start_connecting (Hello := Hello) CAPACITY oc).
Proof. unfold start_connecting, reserve_id, insert_at, get_mut, put_entry. keeps_dead. Qed.

(** What happens to a table: the machine's three calls, and its channels changing hands
    with the local tasks that hold their other ends. *)
Inductive table_event : Type :=
| TInbound (registry : Identity -> bytes -> result Chan Rejection) (f : InboundFrame) (fut : SendFut)
| TOutbound
| TConnect (oc : OutboundConnect Hello)
| TTouch (i : Id) (c : Chan).

Definition table_step (ev : table_event) : MT unit :=
  match ev with
  | TInbound registry f fut => process_inbound (Hello := Hello) CAPACITY registry f fut;; mret tt
  | TOutbound => next_outbound (Hello := Hello);; mret tt
  | TConnect oc => start_connecting CAPACITY oc;; mret tt
  | TTouch i c =>
      e ← get_mut i;
      match e with
      | Some (Occupied s) => put_channel i s c
      | _ => mret tt
      end
  end.

Definition event_ok (ev : table_event) : Prop :=
  match ev with
  | TInbound registry f _ =>
      frame_ids (header f) /\ (forall identity bs c, registry identity bs = Ok c -> sc_inv c)
  | TOutbound => True
  | TConnect oc => sc_inv (oc_channel oc)
  | TTouch i c => 1 <= i /\ sc_inv c
  end.

Fixpoint table_run (evs : list table_event) : MT unit :=
  match evs with [] => mret tt | ev :: evs => table_step ev;; table_run evs end.

Definition table_ok t : Prop :=
  exists m, trep t m /\ chan_ok m /\ (forall i, dead_index t = Some i -> 1 <= i).

Lemma wp_fst {A} (f : MT A) (Q : A -> ConnTable -> Prop) t :
  wp f Q t -> wp f (fun a t' => Q a t' /\ t' = fst (f t)) t.
Proof. intros (t' & a & Hf & HQ). exists t', a. by rewrite Hf. Qed.

Lemma table_step_ok ev t : table_ok t -> event_ok ev -> wp (table_step ev) (fun _ t' => table_ok t') t.
Proof.
  intros (m & Hrep & Hok & Hd) Hev. destruct ev as [registry f fut| |oc|i c]; cbn [table_step event_ok] in *.
  - destruct Hev as [Hids Hreg]. apply wp_bind. eapply wp_mono; [by apply wp_fst, process_inbound_wp|].
    cbn. intros r t' [(m' & Hrep' & Hok' & _) ->]. apply wp_ret. exists m'. split_and!; try done.
    by rewrite keeps_dead_inbound.
  - apply wp_bind. eapply wp_mono; [by apply next_outbound_wp|]. cbn.
    intros r t' (m' & Hrep' & Hok' & Hst & _ & Hpost). apply wp_ret. exists m'. split_and!; try done.
    destruct r as [|f]; [destruct Hpost as (_ & -> & _); done|].
    destruct Hpost as (i & remote & c & c' & x & _ & Hm & _ & _ & Hx). intros j Hj.
    destruct x; destruct Hx as [_ Hx]; [congruence|]. rewrite Hx in Hj. simplify_eq.
    pose proof (Hst j) as Hsj. rewrite Hm in Hsj. destruct (m' !! j) as [s|] eqn:Hm'; [|done].
    apply (trep_dom _ _ _ _ Hrep') in Hm'. lia.
  - apply wp_bind. eapply wp_mono; [by apply wp_fst, start_connecting_wp|]. cbn.
    intros r t' [H ->]. apply wp_ret.
    destruct H as [(_ & _ & Hrep' & _)|(_ & i & _ & _ & _ & Hrep' & _)]; eexists; (split; [exact Hrep'|]);
      rewrite keeps_dead_connect; [done|]. split; [by apply chan_ok_insert|done].
  - destruct Hev as [Hi Hc]. apply wp_bind, wp_gets. pose proof (get_mut_spec _ _ _ Hrep Hi) as Hget.
    destruct (conns t !! to_index i) as [[| |s]|] eqn:He; cbn in Hget; try by (apply wp_ret; exists m).
    apply wp_modify. exists (<[i := mkSocket (sock_state s) c]> m). split; [by apply (put_socket_trep t m i s)|].
    split; [by apply chan_ok_insert|done].
Qed.

(** C11: Over any sequence of inbound frames, outbound polls and local connects, with the channels
    used in between by the tasks that own their other ends, the connection table never
    panics and stays well formed: its free list never loops, never hands out an identifier
    in use, and its length is the number of connections. *)
Theorem table_never_panics evs :
  Forall event_ok evs -> wp (table_run evs) (fun _ t => table_ok t) (new CAPACITY).
Proof.
  assert (Hgo : forall t, table_ok t -> Forall event_ok evs -> wp (table_run evs) (fun _ t => table_ok t) t).
  { induction evs as [|ev evs IH]; intros t Ht Hevs; cbn [table_run]; [by apply wp_ret|].
    apply Forall_cons in Hevs as [Hev Hevs]. apply wp_bind. eapply wp_mono; [by apply table_step_ok|].
    intros [] t' Ht'. by apply IH. }
  apply Hgo. exists ∅. split; [apply new_trep|]. split; [intros i s; by rewrite lookup_empty|done].
Qed.

End TableSpec.
