(* ===== verification/PlugTail.v ===== *)
(** The header-with-a-tail storage of [plugtail/src/lib.rs]: its memory layout, the
    reference-counted heap version and the static version.

    Sizes and alignments are the integers of [core::alloc::Layout] and of [repr(C)].  The
    memory of one [ArcPlugTail] is a [Block]; an access to memory that is freed, outside of
    the block, or of a dropped header is [panic], and so is a [dealloc] with another layout
    than that of the allocation.  The last section interleaves the destructors of any number
    of handles, access by access. *)
From S2P Require Import Prelude.

(** ** Layouts *)

(** [core::alloc::Layout], with [new], [array] and [extend]; [None] is a [LayoutError]. *)
Record Layout := mkLayout { size : Z; align : Z }.
#[export] Instance Layout_eq_dec : EqDecision Layout.
Proof. solve_decision. Defined.

Definition isize_max : Z := 9223372036854775807.
Definition round_up (n a : Z) : Z := (n + a - 1) / a * a.
Definition from_size_align (n a : Z) : option Layout := if n <=? isize_max - (a - 1) then Some (mkLayout n a) else None.
Definition layout_array (t : Layout) (n : Z) : option Layout := from_size_align (size t * n) (align t).
Definition extend (l next : Layout) : option (Layout * Z) :=
  let offset := round_up (size l) (align next) in
  l' ← from_size_align (offset + size next) (Z.max (align l) (align next)); Some (l', offset).

(** [repr(C)]: the fields in order, each at the next multiple of its alignment. *)
Definition repr_c_next (st : Layout * list Z) (field : Layout) : Layout * list Z :=
  let offset := round_up (size st.1) (align field) in
  (mkLayout (offset + size field) (Z.max (align st.1) (align field)), st.2 ++ [offset]).
Definition repr_c (fields : list Layout) : Layout * list Z :=
  let '(l, offsets) := foldl repr_c_next (mkLayout 0 1, []) fields in
  (mkLayout (round_up (size l) (align l)) (align l), offsets).

(** What Rust promises of every type: the alignment is a power of two that divides the size. *)
Definition layout_ok (l : Layout) : Prop :=
  (exists k, 0 <= k < 64 /\ align l = 2 ^ k) /\ 0 <= size l /\ (align l | size l).

Definition usize_layout : Layout := mkLayout 8 8.

Section PlugTail.
(** The layouts of [H] and [T]. *)
Variables lH lT : Layout.

(** [struct ArcHdr<H>], [struct PlugTail<H, T>], [struct StaticPlugTail<H, T, N>]: layout and
    offsets of the fields. *)
Definition ArcHdr_layout : Layout * list Z := repr_c [usize_layout; usize_layout; lH].
Definition PlugTail_layout (hdr : Layout) : Layout * list Z := repr_c [hdr; mkLayout 0 (align lT)].
Definition StaticPlugTail_layout (n : Z) : Layout * list Z := repr_c [fst (PlugTail_layout lH); mkLayout (size lT * n) (align lT)].

Definition ArcPlug_layout : Layout * list Z := PlugTail_layout (fst ArcHdr_layout).
(** The addresses of the header and of the tail in [storage], from [base_ptr]. *)
Definition hdr_offset : Z := nth 0 (snd ArcPlug_layout) 0 + nth 2 (snd ArcHdr_layout) 0.
Definition tail_offset : Z := nth 1 (snd ArcPlug_layout) 0.

(** [ArcPlugTail::layout]; [None] is a panic of one of its [unwrap]s. *)
Definition ArcPlugTail_layout (n : Z) : option Layout :=
  tail ← layout_array lT n;
  lo ← extend (fst ArcPlug_layout) tail;
  Some (fst lo).

(** ** [ArcPlugTail] *)

Context {H T : Type}.
(** [BodyDrop::body_drop] of the header: what it leaves in the cells. *)
Variable body_drop : H -> list (option T) -> list (option T).

(** [struct ArcHdr<H>] and the tail, in the block they were allocated in; [bl_freed] are the
    layouts the block was freed with, [bl_torn] the numbers of cells [body_drop] was called
    with, [bl_hdr_dropped] the headers dropped. *)
Record Block := mkBlock {
  bl_strong : Z;
  bl_len : Z;
  bl_hdr : option H;
  bl_cells : list (option T);
  bl_layout : Layout;
  bl_freed : list Layout;
  bl_torn : list nat;
  bl_hdr_dropped : list H;
}.
Definition set_strong (n : Z) (b : Block) : Block :=
  mkBlock n (bl_len b) (bl_hdr b) (bl_cells b) (bl_layout b) (bl_freed b) (bl_torn b) (bl_hdr_dropped b).
Definition set_cells (l : list (option T)) (b : Block) : Block :=
  mkBlock (bl_strong b) (bl_len b) (bl_hdr b) l (bl_layout b) (bl_freed b) (bl_torn b) (bl_hdr_dropped b).
Definition add_torn (n : nat) (b : Block) : Block :=
  mkBlock (bl_strong b) (bl_len b) (bl_hdr b) (bl_cells b) (bl_layout b) (bl_freed b) (bl_torn b ++ [n]) (bl_hdr_dropped b).
Definition drop_hdr_value (h : H) (b : Block) : Block :=
  mkBlock (bl_strong b) (bl_len b) None (bl_cells b) (bl_layout b) (bl_freed b) (bl_torn b) (bl_hdr_dropped b ++ [h]).
Definition add_freed (l : Layout) (b : Block) : Block :=
  mkBlock (bl_strong b) (bl_len b) (bl_hdr b) (bl_cells b) (bl_layout b) (bl_freed b ++ [l]) (bl_torn b) (bl_hdr_dropped b).

(** Every access goes to the allocation. *)
Definition in_block {A} (m : M Block A) : M Block A := fun b =>
  match bl_freed b with [] => m b | _ => (b, Panic) end.
Definition strong_fetch_add (n : Z) : M Block Z := in_block (fun b => (set_strong (usize_wrapping_add (bl_strong b) n) b, Val (bl_strong b))).
Definition strong_fetch_sub (n : Z) : M Block Z := in_block (fun b => (set_strong (usize_wrapping_sub (bl_strong b) n) b, Val (bl_strong b))).

(** [ArcPlugTail::new], over what the allocator answers ([None] is a null pointer). *)
Definition ArcPlugTail_new (alloc : option unit) (hdr : H) (n : Z) : outcome Block :=
  match ArcPlugTail_layout n, alloc with
  | Some l, Some _ => Val (mkBlock 1 n (Some hdr) (replicate (Z.to_nat n) None) l [] [] [])
  | _, _ => Panic
  end.

(** [Clone for ArcPlugTail] *)
Definition ArcPlugTail_clone : M Block unit := strong_fetch_add 1;; mret tt.

(** [Pluggable::storage]: the header and the slice of [len] cells at the tail. *)
Definition ArcPlugTail_storage : M Block (H * list (option T)) := in_block (fun b =>
  match bl_hdr b with
  | Some h => if bl_len b <=? Z.of_nat (length (bl_cells b)) then (b, Val (h, take (Z.to_nat (bl_len b)) (bl_cells b))) else (b, Panic)
  | None => (b, Panic)
  end).

(** The parts of the destructor once the count has reached zero: the body, the header (its
    [drop_in_place]; the empty tail has nothing to drop), and the memory. *)
Definition drop_body : M Block nat :=
  s ← ArcPlugTail_storage;
  modify (fun b => set_cells (body_drop (fst s) (snd s) ++ drop (length (snd s)) (bl_cells b)) b);;
  modify (add_torn (length (snd s)));;
  mret (length (snd s)).
Definition drop_hdr : M Block unit := in_block (fun b =>
  match bl_hdr b with Some h => (drop_hdr_value h b, Val tt) | None => (b, Panic) end).
Definition dealloc (l : Layout) : M Block unit := in_block (fun b =>
  if decide (l = bl_layout b) then (add_freed l b, Val tt) else (b, Panic)).
Definition drop_free (n : nat) : M Block unit :=
  l ← expect (ArcPlugTail_layout (Z.of_nat n)); dealloc l.

(** [Drop for ArcPlugTail] *)
Definition ArcPlugTail_drop : M Block unit :=
  old ← strong_fetch_sub 1;
  if 1 <? old then mret tt
  else n ← drop_body; drop_hdr;; drop_free n.

(** ** Any number of handles *)

(** A handle: in use, turned into a pointer ([leak]), in its destructor (about to tear the
    body down, to drop the header, to free), or gone. *)
Inductive handle : Type :=
| HLive | HLeaked | HBody | HHeader (n : nat) | HFree (n : nat) | HGone.

Inductive plug_event : Type :=
| EvClone | EvStorage | EvLeak | EvUnleak | EvDrop | EvStep.

Record handles := mkHandles { hs_block : Block; hs_list : list handle }.
Definition on_block {A} (m : M Block A) : M handles A := zoom hs_block (fun b s => mkHandles b (hs_list s)) m.
Definition put_handle (i : nat) (h : handle) : M handles unit := modify (fun s => mkHandles (hs_block s) (<[i := h]> (hs_list s))).

(** The next access of the handle [i]; an event that does not apply changes nothing. *)
Definition handle_step (i : nat) (ev : plug_event) : M handles unit :=
  h ← gets (fun s => hs_list s !! i);
  match h, ev with
  | Some HLive, EvClone => on_block ArcPlugTail_clone;; modify (fun s => mkHandles (hs_block s) (hs_list s ++ [HLive]))
  | Some HLive, EvStorage => on_block ArcPlugTail_storage;; mret tt
  | Some HLive, EvLeak => put_handle i HLeaked
  | Some HLeaked, EvUnleak => put_handle i HLive
  | Some HLive, EvDrop =>
      old ← on_block (strong_fetch_sub 1);
      put_handle i (if 1 <? old then HGone else HBody)
  | Some HBody, EvStep => n ← on_block drop_body; put_handle i (HHeader n)
  | Some (HHeader n), EvStep => on_block drop_hdr;; put_handle i (HFree n)
  | Some (HFree n), EvStep => on_block (drop_free n);; put_handle i HGone
  | _, _ => mret tt
  end.

Fixpoint handle_run (evs : list (nat * plug_event)) : M handles unit :=
  match evs with [] => mret tt | (i, ev) :: evs => handle_step i ev;; handle_run evs end.
End PlugTail.
#[global] Arguments Block : clear implicits.
#[global] Arguments handles : clear implicits.

(** ** [Pluggable] *)

(** [trait Pluggable]: a handle is a pointer to the storage, whatever its kind; [storage]
    gives the header and the tail.  The laws are what its users rely on. *)
Class Pluggable (P H T : Type) := {
  Store : Type;
  storage : P -> Store -> option (H * list (option T));
  leak : P -> Z;
  unleak : Z -> P;
}.
Class PluggableLaws (P H T : Type) {PL : Pluggable P H T} := {
  unleak_leak p : unleak (leak p) = p;
}.

(** [ArcPlugTail] and [&'static StaticPlugTail<H, T, N>], with [StaticPlugTail::new] and
    [uninit]. *)
Record ArcPlugTail := mkArcPlugTail { pt : Z }.
Record StaticPlugTail (H T : Type) := mkStaticPlugTail { st_hdr : H; st_tfr : list (option T) }.
Arguments mkStaticPlugTail {H T} st_hdr st_tfr.
Arguments st_hdr {H T} s.
Arguments st_tfr {H T} s.
Definition StaticPlugTail_new {H T} (hdr : H) (val : list (option T)) : StaticPlugTail H T := mkStaticPlugTail hdr val.
Definition StaticPlugTail_uninit {H T} (n : nat) (hdr : H) : StaticPlugTail H T := mkStaticPlugTail hdr (replicate n None).
Record StaticRef := mkStaticRef { sr_ptr : Z }.

#[export] Instance Arc_Pluggable (H T : Type) : Pluggable ArcPlugTail H T := {|
  Store := gmap Z (Block H T);
  storage p m := b ← m !! pt p;
    match ArcPlugTail_storage b with (_, Val s) => Some s | _ => None end;
  leak p := pt p;
  unleak z := mkArcPlugTail z;
|}.
#[export] Instance Static_Pluggable (H T : Type) : Pluggable StaticRef H T := {|
  Store := gmap Z (StaticPlugTail H T);
  storage p m := s ← m !! sr_ptr p; Some (st_hdr s, st_tfr s);
  leak p := sr_ptr p;
  unleak z := mkStaticRef z;
|}.
