(* ===== verification/PlugTailSpec.v ===== *)
(** The plugtail's memory is used within its bounds: the tail starts aligned, past the
    header, and ends where the allocation ends; and however the handles of a heap storage
    are cloned, leaked and dropped, by any number of threads, nothing is used after it was
    freed and the body, the header and the memory are given up exactly once. *)
From S2P Require Import Prelude PlugTail.

(** ** Layouts *)

Lemma round_up_bounds n a : 0 < a -> n <= round_up n a < n + a.
Proof. intros Ha. unfold round_up. mlia. Qed.
Lemma round_up_divide n a : (a | round_up n a).
Proof. unfold round_up. by exists ((n + a - 1) / a). Qed.
Lemma round_up_same n a : 0 < a -> (a | n) -> round_up n a = n.
Proof. intros Ha [k ->]. unfold round_up. replace (k * a + a - 1) with ((a - 1) + k * a) by lia.
  rewrite Z.div_add by lia. rewrite Z.div_small by lia. lia. Qed.

(** Alignments: powers of two, one of which always divides the other. *)
Definition pow2 (a : Z) : Prop := exists k, 0 <= k /\ a = 2 ^ k.
Lemma pow2_pos a : pow2 a -> 0 < a.
Proof. intros (k & Hk & ->). by apply Z.pow_pos_nonneg. Qed.
Lemma pow2_divide a b : pow2 a -> pow2 b -> a <= b -> (a | b).
Proof.
  intros (j & Hj & ->) (k & Hk & ->) Hle. apply Z.pow_le_mono_r_iff in Hle; [|lia..].
  exists (2 ^ (k - j)). rewrite <- Z.pow_add_r by lia. f_equal. lia.
Qed.
Lemma pow2_max a b : pow2 a -> pow2 b -> pow2 (Z.max a b).
Proof. intros Ha Hb. by destruct (Z.max_spec a b) as [[_ ->]|[_ ->]]. Qed.
Lemma pow2_max_divide_l a b : pow2 a -> pow2 b -> (a | Z.max a b).
Proof. intros Ha Hb. apply pow2_divide; [done|by apply pow2_max|lia]. Qed.
Lemma pow2_max_divide_r a b : pow2 a -> pow2 b -> (b | Z.max a b).
Proof. intros Ha Hb. apply pow2_divide; [done|by apply pow2_max|lia]. Qed.

(** Rounding up to two alignments, one after the other: the second changes nothing. *)
Lemma round_up_twice n a b : pow2 a -> pow2 b -> (a | n) -> round_up (round_up n b) (Z.max a b) = round_up n b.
Proof.
  intros Ha Hb Hn. pose proof (pow2_pos _ Ha). pose proof (pow2_pos _ Hb). apply round_up_same; [lia|].
  destruct (Z.le_ge_cases a b).
  - rewrite Z.max_r by lia. apply round_up_divide.
  - rewrite Z.max_l by lia. rewrite round_up_same; [done|lia|]. etrans; [|exact Hn]. by apply pow2_divide.
Qed.

Section Layouts.
Variables lH lT : Layout.
Hypothesis H_ok : layout_ok lH.
Hypothesis T_ok : layout_ok lT.

Lemma layout_ok_pow2 l : layout_ok l -> pow2 (align l).
Proof. intros ((k & Hk & ->) & _). exists k. split; [lia|done]. Qed.
Lemma pow2_8 : pow2 8.
Proof. by exists 3. Qed.

(** The header: its own header field behind two words. *)
Definition hdr_align : Z := Z.max 8 (align lH).
Definition hdr_size : Z := round_up (round_up 16 (align lH) + size lH) hdr_align.

Lemma ArcHdr_layout_eq : ArcHdr_layout lH = (mkLayout hdr_size hdr_align, [0; 8; round_up 16 (align lH)]).
Proof. done. Qed.

Lemma hdr_pow2 : pow2 hdr_align.
Proof. apply pow2_max; [apply pow2_8|by apply layout_ok_pow2]. Qed.
Lemma hdr_divide : (hdr_align | hdr_size).
Proof. apply round_up_divide. Qed.

Lemma hdr_offset_eq : hdr_offset lH lT = round_up 16 (align lH).
Proof.
  unfold hdr_offset, ArcPlug_layout. rewrite ArcHdr_layout_eq. unfold PlugTail_layout, repr_c, repr_c_next. cbn.
  pose proof (pow2_pos _ hdr_pow2). rewrite round_up_same; [lia|done|]. by exists 0.
Qed.
Lemma ArcPlug_layout_eq : fst (ArcPlug_layout lH lT) = mkLayout (tail_offset lH lT) (Z.max hdr_align (align lT)) /\
  tail_offset lH lT = round_up hdr_size (align lT).
Proof.
  unfold tail_offset, ArcPlug_layout. rewrite ArcHdr_layout_eq. unfold PlugTail_layout, repr_c, repr_c_next. cbn.
  pose proof (pow2_pos _ hdr_pow2). pose proof (layout_ok_pow2 _ T_ok) as HT. pose proof (pow2_pos _ HT).
  rewrite (round_up_same 0) by (done || by exists 0). rewrite !Z.add_0_l, Z.add_0_r.
  replace (Z.max (Z.max 1 hdr_align) (align lT)) with (Z.max hdr_align (align lT)) by lia.
  by rewrite round_up_twice by (done || apply hdr_pow2 || apply hdr_divide).
Qed.

(** A block of any layout [p] whose size suits the items, extended by an array of them. *)
Lemma extend_array_eq p n :
  (align lT | size p) -> align lT <= align p ->
  (tail ← layout_array lT n; lo ← extend p tail; Some (fst lo)) =
  if (size lT * n <=? isize_max - (align lT - 1)) && (size p + size lT * n <=? isize_max - (align p - 1))
  then Some (mkLayout (size p + size lT * n) (align p)) else None.
Proof.
  intros Hd Hle. pose proof (pow2_pos _ (layout_ok_pow2 _ T_ok)). unfold layout_array, extend, from_size_align. cbn [size align].
  destruct (size lT * n <=? _); [|done]. cbn [mbind option_bind andb size align]. rewrite round_up_same by done.
  rewrite Z.max_l by done. by destruct (_ <=? _).
Qed.

Lemma ArcPlugTail_layout_eq n :
  ArcPlugTail_layout lH lT n =
  if (size lT * n <=? isize_max - (align lT - 1)) &&
     (tail_offset lH lT + size lT * n <=? isize_max - (Z.max hdr_align (align lT) - 1))
  then Some (mkLayout (tail_offset lH lT + size lT * n) (Z.max hdr_align (align lT))) else None.
Proof.
  destruct ArcPlug_layout_eq as [Hplug Htail]. unfold ArcPlugTail_layout. rewrite extend_array_eq; rewrite Hplug; cbn [size align].
  - done.
  - rewrite Htail. apply round_up_divide.
  - lia.
Qed.

(** The offsets and sizes, in order. *)
Lemma offsets_ordered :
  16 <= hdr_offset lH lT /\ hdr_offset lH lT + size lH <= tail_offset lH lT /\ (align lH | hdr_offset lH lT) /\ (align lT | tail_offset lH lT).
Proof.
  destruct ArcPlug_layout_eq as [_ Htail]. rewrite hdr_offset_eq, Htail.
  pose proof (pow2_pos _ (layout_ok_pow2 _ T_ok)) as HT. pose proof (pow2_pos _ (layout_ok_pow2 _ H_ok)) as HH.
  pose proof (pow2_pos _ hdr_pow2) as HA.
  pose proof (round_up_bounds hdr_size _ HT). pose proof (round_up_bounds (round_up 16 (align lH) + size lH) _ HA) as Hb. fold hdr_size in Hb.
  pose proof (round_up_bounds 16 _ HH). split; [lia|]. split; [lia|]. split; apply round_up_divide.
Qed.

#[local] Arguments tail_offset : simpl never.
#[local] Arguments hdr_offset : simpl never.

(** C30: The memory of a heap storage with [n] cells, whatever the sizes and alignments of the
    header and of the items.  [layout] panics exactly when the storage would be too large
    for an allocation; otherwise the header lies behind the two words of the count and the
    length and before the tail, the tail starts at a multiple of the items' alignment, both
    in terms of the block's own alignment, and the [n] items end exactly where the block
    ends: [storage]'s slice is in bounds and overlaps nothing. *)
Theorem layout_in_bounds n :
  0 <= n ->
  match ArcPlugTail_layout lH lT n with
  | Some l =>
      16 <= hdr_offset lH lT /\ hdr_offset lH lT + size lH <= tail_offset lH lT /\
      tail_offset lH lT + n * size lT = size l /\ size l <= isize_max - (align l - 1) /\
      (forall base, (align l | base) -> (align lH | base + hdr_offset lH lT) /\ (align lT | base + tail_offset lH lT))
  | None => exists a, Z.max (Z.max 8 (align lH)) (align lT) = a /\
      isize_max - (a - 1) < tail_offset lH lT + n * size lT
  end.
Proof.
  intros Hn. destruct offsets_ordered as (H1 & H2 & Hd1 & Hd2). rewrite ArcPlugTail_layout_eq.
  destruct H_ok as (_ & HsH & _).
  pose proof (layout_ok_pow2 _ T_ok) as HT. pose proof (layout_ok_pow2 _ H_ok) as HH. pose proof hdr_pow2 as HA.
  pose proof (pow2_pos _ HT). pose proof (pow2_max _ _ HA HT) as Hmax.
  assert (HdH : (align lH | Z.max hdr_align (align lT))) by (apply pow2_divide; [done..|unfold hdr_align; lia]).
  assert (HdT : (align lT | Z.max hdr_align (align lT))) by (by apply pow2_max_divide_r).
  change (Z.max 8 (align lH)) with hdr_align. set (A := Z.max hdr_align (align lT)) in *.
  assert (HA_T : align lT <= A) by (unfold A; lia). clearbody A.
  destruct (Z.leb_spec (size lT * n) (isize_max - (align lT - 1)));
    destruct (Z.leb_spec (tail_offset lH lT + size lT * n) (isize_max - (A - 1))); cbn [andb size align];
    try (exists A; split; [done|lia]).
  split_and!; [done|done|lia|done|]. intros base Hbase.
  by split; apply Z.divide_add_r; [etrans; [|exact Hbase]|..|etrans; [|exact Hbase]|].
Qed.

End Layouts.

(** ** Handles *)

Section Handles.
Variables lH lT : Layout.
Context {H T : Type}.
Variable body_drop : H -> list (option T) -> list (option T).
(** [body_drop] gets a slice: it cannot change its length. *)
Hypothesis body_drop_length : forall h l, length (body_drop h l) = length l.

(** The sum of a weight over the handles. *)
Fixpoint total (w : handle -> Z) (l : list handle) : Z := match l with [] => 0 | h :: l => w h + total w l end.
Lemma total_insert w l i h h' : l !! i = Some h -> total w (<[i:=h']> l) = total w l - w h + w h'.
Proof.
  revert i. induction l as [|x l IH]; intros [|i] Hi; cbn in *; simplify_eq; [lia|].
  etrans; [exact (f_equal (Z.add (w x)) (IH i Hi))|lia].
Qed.
Lemma total_app w l l' : total w (l ++ l') = total w l + total w l'.
Proof. induction l; cbn; lia. Qed.
Lemma total_nonneg w l : (forall h, 0 <= w h) -> 0 <= total w l.
Proof. intros Hw. induction l as [|h l IH]; cbn; [lia|]. pose proof (Hw h). lia. Qed.
Lemma total_le w l i h : (forall h, 0 <= w h) -> l !! i = Some h -> w h <= total w l.
Proof.
  intros Hw. revert i. induction l as [|x l IH]; intros [|i] Hi; cbn in *; simplify_eq.
  - pose proof (total_nonneg w l Hw). lia.
  - specialize (IH _ Hi). pose proof (Hw x). lia.
Qed.

(** Handles that count, and handles in their destructor. *)
Definition counts (h : handle) : Z := match h with HLive | HLeaked => 1 | _ => 0 end.
Definition tears (h : handle) : Z := match h with HBody | HHeader _ | HFree _ => 1 | _ => 0 end.
Lemma counts_nonneg h : 0 <= counts h. Proof. by destruct h. Qed.
Lemma tears_nonneg h : 0 <= tears h. Proof. by destruct h. Qed.

Variable l : Layout.
Variable h0 : H.
Variable n : nat.
Hypothesis l_is : ArcPlugTail_layout lH lT (Z.of_nat n) = Some l.

(** The block while nothing was torn down, and at each stage of the destructor. *)
Definition shape (b : Block H T) : Prop := bl_len b = Z.of_nat n /\ length (bl_cells b) = n /\ bl_layout b = l.
Definition whole (b : Block H T) : Prop := shape b /\ bl_hdr b = Some h0 /\ bl_freed b = [] /\ bl_torn b = [] /\ bl_hdr_dropped b = [].
Definition stage (h : handle) (b : Block H T) : Prop :=
  match h with
  | HBody => whole b
  | HHeader k => k = n /\ shape b /\ bl_hdr b = Some h0 /\ bl_freed b = [] /\ bl_torn b = [n] /\ bl_hdr_dropped b = []
  | HFree k => k = n /\ shape b /\ bl_freed b = [] /\ bl_torn b = [n] /\ bl_hdr_dropped b = [h0]
  | _ => True
  end.
Definition torn_down (b : Block H T) : Prop := bl_torn b = [n] /\ bl_hdr_dropped b = [h0] /\ bl_freed b = [l].

Inductive handles_inv : handles H T -> Prop :=
| InvInUse b hs : 1 <= total counts hs -> bl_strong b = total counts hs -> total tears hs = 0 -> whole b -> handles_inv (mkHandles b hs)
| InvTearing b hs i h : total counts hs = 0 -> total tears hs = 1 -> hs !! i = Some h -> tears h = 1 -> stage h b ->
    handles_inv (mkHandles b hs)
| InvOver b hs : total counts hs = 0 -> total tears hs = 0 -> torn_down b -> handles_inv (mkHandles b hs).

Notation step := (handle_step lH lT body_drop).

Lemma storage_wp b : whole b -> wp ArcPlugTail_storage (fun s b' => b' = b /\ s.1 = h0 /\ length s.2 = n) b.
Proof.
  intros ((Hl & Hc & _) & Hh & Hf & _). unfold wp, ArcPlugTail_storage, in_block. rewrite Hf, Hh, Hl, Hc, (proj2 (Z.leb_le _ _)) by lia.
  eexists _, _. split; [reflexivity|]. split; [done|]. split; [done|]. cbn. rewrite length_take. lia.
Qed.

Lemma drop_body_wp b : whole b -> wp (drop_body body_drop) (fun k b' => k = n /\ stage (HHeader n) b') b.
Proof.
  intros Hb. apply wp_bind. eapply wp_mono; [by apply storage_wp|]. intros s b' (-> & Hs1 & Hs2).
  apply wp_bind, wp_modify, wp_bind, wp_modify, wp_ret. split; [done|].
  destruct Hb as ((Hl & Hc & Hla) & Hh & Hf & Ht & Hd). split_and!; try done; [split_and!; try done; cbn|cbn; by rewrite Ht, Hs2].
  rewrite length_app, body_drop_length, length_drop. lia.
Qed.

Lemma drop_hdr_wp b k : stage (HHeader k) b -> wp drop_hdr (fun _ b' => stage (HFree k) b') b.
Proof.
  intros (-> & Hs & Hh & Hf & Ht & Hd). unfold wp, drop_hdr, in_block. rewrite Hf, Hh. eexists _, _. split; [reflexivity|].
  split_and!; try done. cbn. by rewrite Hd.
Qed.

Lemma drop_free_wp b k : stage (HFree k) b -> wp (drop_free lH lT k) (fun _ b' => torn_down b') b.
Proof.
  intros (-> & (Hl & Hc & Hla) & Hf & Ht & Hd). unfold drop_free. rewrite l_is. apply wp_bind, wp_ret.
  unfold wp, dealloc, in_block. rewrite Hf, Hla, decide_True by done. eexists _, _. split; [reflexivity|].
  split_and!; try done. cbn. by rewrite Hf.
Qed.

Lemma on_block_wp {A} (m : M (Block H T) A) (Q : A -> handles H T -> Prop) b hs :
  wp m (fun a b' => Q a (mkHandles b' hs)) b -> wp (on_block m) Q (mkHandles b hs).
Proof. intros Hm. by apply wp_zoom. Qed.

(** A handle that counts is there only while the storage is in use; one in its destructor is
    the only one, and no handle counts. *)
Lemma inv_counts b hs i h : handles_inv (mkHandles b hs) -> hs !! i = Some h -> counts h = 1 ->
  1 <= total counts hs /\ bl_strong b = total counts hs /\ total tears hs = 0 /\ whole b.
Proof.
  intros Hi Hl Hh. pose proof (total_le counts hs i h counts_nonneg Hl). inversion Hi; subst; [done|lia..].
Qed.
Lemma inv_tears b hs i h : handles_inv (mkHandles b hs) -> hs !! i = Some h -> tears h = 1 ->
  total counts hs = 0 /\ total tears hs = 1 /\ stage h b.
Proof.
  intros Hi Hl Hh. pose proof (total_le tears hs i h tears_nonneg Hl). inversion Hi as [|b' hs' j h' Hc Ht Hj Hh' Hs|]; subst; [lia| |lia].
  split; [done|]. split; [done|]. destruct (decide (i = j)) as [->|Hne]; [by simplify_eq|].
  pose proof (total_insert tears hs i h HGone Hl) as E. cbn in E.
  pose proof (total_le tears (<[i:=HGone]> hs) j h' tears_nonneg) as E2. rewrite list_lookup_insert_ne in E2 by done.
  specialize (E2 Hj). lia.
Qed.

Ltac in_use H := constructor 1; cbn; rewrite ?(total_insert _ _ _ _ _ H), ?total_app; cbn; try lia; try done.

Lemma step_inv i ev s :
  handles_inv s -> total counts (hs_list s) < usize_mod - 1 ->
  wp (step i ev) (fun _ s' => handles_inv s' /\ total counts (hs_list s') <= total counts (hs_list s) + 1) s.
Proof.
  intros Hs Hlt. destruct s as [b hs]. cbn in Hlt. apply wp_bind, wp_gets. cbn [hs_list].
  assert (Hstay : wp (mret tt) (fun _ s' => handles_inv s' /\ total counts (hs_list s') <= total counts (hs_list (mkHandles b hs)) + 1) (mkHandles b hs))
    by (apply wp_ret; split; [done|cbn; lia]).
  destruct (hs !! i) as [h|] eqn:Hh; [|exact Hstay].
  destruct h as [| | |k|k|], ev; try exact Hstay.
  - destruct (inv_counts _ _ _ _ Hs Hh eq_refl) as (H1 & H2 & H3 & H4). apply wp_bind, on_block_wp.
    destruct H4 as (Hsh & Hhd & Hf & Hrest). eexists _, _. split; [unfold ArcPlugTail_clone, strong_fetch_add, in_block; run_M; rewrite Hf; reflexivity|].
    apply wp_modify. cbn. rewrite total_app. cbn. split; [|lia]. in_use Hh.
    rewrite H2. unfold usize_wrapping_add, usize_wrap. apply Z.mod_small. lia.
  - destruct (inv_counts _ _ _ _ Hs Hh eq_refl) as (_ & _ & _ & H4). apply wp_bind, on_block_wp.
    eapply wp_mono; [by apply storage_wp|]. intros x b' (-> & _). exact Hstay.
  - destruct (inv_counts _ _ _ _ Hs Hh eq_refl) as (H1 & H2 & H3 & H4). apply wp_modify. cbn.
    rewrite (total_insert _ _ _ _ _ Hh). split; [in_use Hh|cbn; lia].
  - destruct (inv_counts _ _ _ _ Hs Hh eq_refl) as (H1 & H2 & H3 & H4). apply wp_bind, on_block_wp.
    pose proof H4 as (Hsh & Hhd & Hf & Hrest). eexists _, _. split; [unfold strong_fetch_sub, in_block; rewrite Hf; reflexivity|].
    apply wp_modify. cbn. rewrite H2, (total_insert _ _ _ _ _ Hh).
    destruct (Z.ltb_spec 1 (total counts hs)); (split; [|cbn; lia]).
    + in_use Hh. unfold usize_wrapping_sub, usize_wrap. rewrite Z.mod_small; lia.
    + apply (InvTearing _ _ i HBody); rewrite ?(total_insert _ _ _ _ _ Hh); cbn; try lia; [|done].
      apply list_lookup_insert_eq. by eapply lookup_lt_Some.
  - destruct (inv_counts _ _ _ _ Hs Hh eq_refl) as (H1 & H2 & H3 & H4). apply wp_modify. cbn.
    rewrite (total_insert _ _ _ _ _ Hh). split; [in_use Hh|cbn; lia].
  - destruct (inv_tears _ _ _ _ Hs Hh eq_refl) as (H1 & H2 & H3). apply wp_bind, on_block_wp.
    eapply wp_mono; [by apply drop_body_wp|]. intros k b' [-> Hb']. apply wp_modify. cbn.
    rewrite (total_insert _ _ _ _ _ Hh). split; [|cbn; lia].
    apply (InvTearing _ _ i (HHeader n)); rewrite ?(total_insert _ _ _ _ _ Hh); cbn; try lia; [|done].
    apply list_lookup_insert_eq. by eapply lookup_lt_Some.
  - destruct (inv_tears _ _ _ _ Hs Hh eq_refl) as (H1 & H2 & H3). apply wp_bind, on_block_wp.
    eapply wp_mono; [by apply drop_hdr_wp|]. intros ? b' Hb'. apply wp_modify. cbn.
    rewrite (total_insert _ _ _ _ _ Hh). split; [|cbn; lia].
    apply (InvTearing _ _ i (HFree k)); rewrite ?(total_insert _ _ _ _ _ Hh); cbn; try lia; [|done].
    apply list_lookup_insert_eq. by eapply lookup_lt_Some.
  - destruct (inv_tears _ _ _ _ Hs Hh eq_refl) as (H1 & H2 & H3). apply wp_bind, on_block_wp.
    eapply wp_mono; [by apply drop_free_wp|]. intros ? b' Hb'. apply wp_modify. cbn.
    rewrite (total_insert _ _ _ _ _ Hh). split; [|cbn; lia].
    by apply InvOver; rewrite ?(total_insert _ _ _ _ _ Hh); cbn; try lia.
Qed.

Lemma handle_run_inv evs : forall s,
  handles_inv s -> total counts (hs_list s) + Z.of_nat (length evs) < usize_mod ->
  wp (handle_run lH lT body_drop evs) (fun _ s' => handles_inv s') s.
Proof.
  induction evs as [|[i ev] evs IH]; intros s Hs Hlt; cbn [handle_run length] in *; [by apply wp_ret|].
  apply wp_bind. eapply wp_mono; [apply step_inv; [done|lia]|]. intros ? s' [Hs' Hle]. apply IH; [done|lia].
Qed.

Lemma all_gone hs : Forall (eq HGone) hs -> total counts hs = 0 /\ total tears hs = 0.
Proof. induction 1 as [|x l' <- _ IH]; cbn; lia. Qed.

Lemma stage_not_freed x b : tears x = 1 -> stage x b -> bl_freed b = [].
Proof. destruct x; try done; intros _ Hst; unfold stage, whole in Hst; by destruct_and?. Qed.

Lemma start_inv b : whole b -> bl_strong b = 1 -> handles_inv (mkHandles b [HLive]).
Proof. intros Hb Hs. by apply InvInUse. Qed.
End Handles.

Lemma new_block lH lT {H T} (h : H) n b :
  ArcPlugTail_new (T := T) lH lT (Some tt) h (Z.of_nat n) = Val b ->
  bl_strong b = 1 /\ whole (bl_layout b) h n b /\ ArcPlugTail_layout lH lT (Z.of_nat n) = Some (bl_layout b).
Proof.
  unfold ArcPlugTail_new. destruct (ArcPlugTail_layout lH lT (Z.of_nat n)) as [l|]; [|done]. intros [= <-]. split; [done|]. split; [|done].
  split_and!; try done. split_and!; try done. cbn. rewrite length_replicate. lia.
Qed.

(** C28: The reference count of a heap storage, over any interleaving of any number of threads
    that clone, read, leak, take back and drop handles (the destructor one access at a
    time): nothing panics, so no access is to freed memory or out of bounds and nothing is
    freed with a layout it was not allocated with; while a handle is in use [storage] gives
    the header and all the cells; nothing is freed before every handle is gone, and then
    [body_drop] was called exactly once with all the cells, the header was dropped exactly
    once and the memory was freed exactly once.  The bound keeps the count from wrapping. *)
Theorem handles_safe lH lT {H T} body_drop (h : H) n b evs :
  (forall h (l : list (option T)), length (body_drop h l) = length l) ->
  ArcPlugTail_new lH lT (Some tt) h (Z.of_nat n) = Val b -> Z.of_nat (length evs) < usize_mod - 1 ->
  wp (handle_run lH lT body_drop evs) (fun _ s =>
    (forall i, hs_list s !! i = Some HLive ->
       wp ArcPlugTail_storage (fun st _ => st.1 = h /\ length st.2 = n) (hs_block s)) /\
    (forall i, hs_list s !! i <> None -> hs_list s !! i <> Some HGone -> bl_freed (hs_block s) = []) /\
    (Forall (eq HGone) (hs_list s) -> torn_down (bl_layout b) h n (hs_block s))) (mkHandles b [HLive]).
Proof.
  intros Hlen Hnew Hevs. destruct (new_block _ _ _ _ _ Hnew) as (Hs & Hw & Hl).
  eapply wp_mono; [apply (handle_run_inv lH lT body_drop Hlen (bl_layout b) h n Hl); [by apply start_inv|cbn; lia]|].
  intros ? [b' hs] Hi. cbn. split_and!.
  - intros i Hlive. destruct (inv_counts _ _ _ _ _ _ _ Hi Hlive eq_refl) as (_ & _ & _ & Hb).
    eapply wp_mono; [by eapply storage_wp|]. by intros st ? (_ & ? & ?).
  - intros i Hsome Hne. destruct (hs !! i) as [x|] eqn:Hx; [|done].
    destruct x; try done;
      first [ destruct (inv_counts _ _ _ _ _ _ _ Hi Hx eq_refl) as (_ & _ & _ & (_ & _ & ? & _)); done
            | destruct (inv_tears _ _ _ _ _ _ _ Hi Hx eq_refl) as (_ & _ & Hst); by apply stage_not_freed in Hst ].
  - intros Hgone. destruct (all_gone _ Hgone) as [Hc Ht]. inversion Hi; subst; [lia..|done].
Qed.

(** What [leak] is for: a storage given away as a plain pointer, as a vtable wants it, is the
    same storage when it is taken back. *)
#[export] Instance Arc_Pluggable_laws (H T : Type) : PluggableLaws ArcPlugTail H T.
Proof. split. by intros []. Qed.
#[export] Instance Static_Pluggable_laws (H T : Type) : PluggableLaws StaticRef H T.
Proof. split. by intros []. Qed.

Lemma storage_after_leak {P H T} {PL : Pluggable P H T} {PLL : PluggableLaws P H T} (p : P) (m : Store) :
  storage (unleak (leak p)) m = storage p m.
Proof. by rewrite unleak_leak. Qed.

(** A count that wraps: the clone that makes it zero is not refused, and the next handle to
    go frees the storage under all the others. *)
Theorem clone_overflow_frees lH lT {H T} body_drop (h : H) n (b : Block H T) :
  (forall h (l : list (option T)), length (body_drop h l) = length l) ->
  whole (bl_layout b) h n b -> ArcPlugTail_layout lH lT (Z.of_nat n) = Some (bl_layout b) -> bl_strong b = usize_mod - 1 ->
  wp (ArcPlugTail_clone;; ArcPlugTail_drop lH lT body_drop) (fun _ b' => bl_freed b' = [bl_layout b]) b.
Proof.
  intros Hlen (Hsh & Hh & Hf & Ht & Hd) Hl Hs. apply wp_bind.
  eexists (set_strong 0 b), tt. split.
  { unfold ArcPlugTail_clone, strong_fetch_add, in_block. run_M. by rewrite Hf, Hs. }
  apply wp_bind. eexists (set_strong (usize_wrapping_sub 0 1) b), 0. split; [unfold strong_fetch_sub, in_block; cbn; by rewrite Hf|].
  cbn [Z.ltb Z.compare]. apply wp_bind. eapply wp_mono.
  { eapply (drop_body_wp body_drop Hlen (bl_layout b) h n). split; [exact Hsh|by split_and!]. }
  intros k b1 [-> Hb1]. apply wp_bind. eapply wp_mono; [by eapply drop_hdr_wp|]. intros ? b2 Hb2.
  eapply wp_mono; [exact (drop_free_wp lH lT (bl_layout b) h n Hl b2 n Hb2)|]. by intros ? b3 (_ & _ & ?).
Qed.
