(* ===== verification/SerBox.v ===== *)
(** The shared box of [tricky-pipe/src/serbox.rs]: a place in memory for one value at a
    time, owned together by a [Sharer], which puts values in, and a [Consumer], which
    serializes the value and gives the place back.

    The memory is explicit: [sb_data] is the value in the [UnsafeCell], if it is
    initialized, and [sb_freed] says that the allocation is gone.  Using freed memory,
    dropping or reading an uninitialized value and freeing twice are [panic]: the places
    where the code would run into undefined behaviour.  [sb_dropped] records the values
    whose destructor ran. *)
From stdpp Require Import strings.
From S2P Require Import Prelude Interfaces TypeInfo.

Definition NEW : Z := 0.
Definition HAS_SHARER : Z := 1.
Definition HAS_DATA : Z := 2.
Definition HAS_CONSUMER : Z := 4.
Definition SHARED : Z := Z.lor (Z.lor HAS_CONSUMER HAS_DATA) HAS_SHARER.
(** [!mask] on [u8] *)
Definition u8_not (mask : Z) : Z := 255 - mask.

(** The state word with a CONSUMER, DATA and SHARER flag. *)
Definition flags (consumer data sharer : bool) : Z := 4 * Z.b2z consumer + 2 * Z.b2z data + Z.b2z sharer.

Section SerBox.
Context {WCA : WaitCellApi} {T : Type} {AN : Any T} {PC : Postcard T}.

(** [struct SerBox] *)
Record SerBox := mkSerBox {
  sb_state : Z;
  sb_typeinfo : TypeInfo;
  sb_sharer_ready : WaitCell;
  sb_data : option T;
  sb_freed : bool;
  sb_dropped : list T;
}.
Definition set_sb_state (v : Z) (b : SerBox) : SerBox :=
  mkSerBox v (sb_typeinfo b) (sb_sharer_ready b) (sb_data b) (sb_freed b) (sb_dropped b).
Definition set_sb_ready (w : WaitCell) (b : SerBox) : SerBox :=
  mkSerBox (sb_state b) (sb_typeinfo b) w (sb_data b) (sb_freed b) (sb_dropped b).
Definition set_sb_data (d : option T) (b : SerBox) : SerBox :=
  mkSerBox (sb_state b) (sb_typeinfo b) (sb_sharer_ready b) d (sb_freed b) (sb_dropped b).
Definition set_sb_freed (b : SerBox) : SerBox :=
  mkSerBox (sb_state b) (sb_typeinfo b) (sb_sharer_ready b) (sb_data b) true (sb_dropped b).
Definition add_dropped (x : T) (b : SerBox) : SerBox :=
  mkSerBox (sb_state b) (sb_typeinfo b) (sb_sharer_ready b) (sb_data b) (sb_freed b) (sb_dropped b ++ [x]).

(** [SerBox::new] *)
Definition SerBox_new : SerBox := mkSerBox NEW (TypeInfo_of T) wc_new None false [].

(** *** Accesses *)

(** Every access goes to the allocation. *)
Definition access {A} (m : M SerBox A) : M SerBox A :=
  freed ← gets sb_freed; if (freed : bool) then panic else m.
Definition state_fetch_and (mask : Z) : M SerBox Z := access (fun b =>
  (set_sb_state (Z.land (sb_state b) mask) b, Val (sb_state b))).
Definition state_cas (expected new : Z) : M SerBox (result Z Z) := access (fun b =>
  if sb_state b =? expected then (set_sb_state new b, Val (Ok (sb_state b))) else (b, Val (Err (sb_state b)))).
Definition data_write (x : T) : M SerBox unit := access (modify (set_sb_data (Some x))).
Definition data_read : M SerBox T := access (d ← gets sb_data; expect d).
(** [drop_in_place] *)
Definition data_drop : M SerBox unit :=
  x ← data_read; modify (set_sb_data None);; modify (add_dropped x).
Definition ready_wake : M SerBox unit := access (modify (fun b => set_sb_ready (wc_wake (sb_sharer_ready b)) b)).
Definition ready_poll : M SerBox (poll (result unit unit)) := access (fun b =>
  match wc_poll_wait (sb_sharer_ready b) with (w, p) => (set_sb_ready w b, Val p) end).

(** *** [SerBox] *)

(** [drop_box] and [drop_static]: the two values of [drop_shared]. *)
Definition drop_box : M SerBox unit := access (modify set_sb_freed).
Definition drop_static : M SerBox unit := state_fetch_and (u8_not HAS_SHARER);; mret tt.

(** [SerBox::try_share] *)
Definition try_share (value : T) : M SerBox (result unit T) :=
  r ← state_cas HAS_SHARER SHARED;
  match r with
  | Err _ => mret (Err value)
  | Ok _ => data_write value;; mret (Ok tt)
  end.

(** [SerBox::sharer] and [SerBox::static_sharer] *)
Definition sharer : M SerBox unit :=
  r ← state_cas NEW HAS_SHARER;
  match r with Ok _ => mret tt | Err _ => panic (* expect *) end.
Definition static_sharer : M SerBox (option unit) :=
  r ← state_cas NEW HAS_SHARER;
  mret (match r with Ok _ => Some tt | Err _ => None end).

(** [SerBox::from_erased]: before the type-erased box is used as one of [T]. *)
Definition from_erased : M SerBox unit := access (typeinfo ← gets sb_typeinfo; assert_matches T typeinfo "SerBox").

(** [SerBox::with_data] *)
Definition with_data {U} (f : T -> U) : M SerBox U := from_erased;; x ← data_read; mret (f x).

(** [struct Vtable], and the [VTABLE] of a box of [T]. *)
Record Vtable := mkVtable {
  vt_to_vec : M SerBox (result bytes PostcardError);
  vt_to_vec_framed : M SerBox (result bytes PostcardError);
  vt_to_slice : bytes -> M SerBox (bytes * result nat PostcardError);
  vt_to_slice_framed : bytes -> M SerBox (bytes * result nat PostcardError);
  vt_drop_data : M SerBox unit;
}.
Definition VTABLE : Vtable := {|
  vt_to_vec := with_data pc_to_allocvec;
  vt_to_vec_framed := with_data pc_to_allocvec_cobs;
  vt_to_slice buf := with_data (fun data => pc_to_slice data buf);
  vt_to_slice_framed buf := with_data (fun data => pc_to_slice_cobs data buf);
  vt_drop_data := from_erased;; data_drop;
|}.

(** *** [Sharer] *)

(** [Sharer::try_share]: the [Consumer] is a handle on the same box. *)
Definition Sharer_try_share (value : T) : M SerBox (result unit T) := try_share value.

(** One poll of [Sharer::share]. *)
Fixpoint Sharer_share_poll (fuel : nat) (value : T) : M SerBox (poll unit) :=
  match fuel with
  | O => out_of_fuel
  | S fuel =>
      r ← Sharer_try_share value;
      match r with
      | Ok _ => mret (Ready tt)
      | Err v =>
          p ← ready_poll;
          match p with
          | Pending => mret Pending
          | Ready (Ok _) => Sharer_share_poll fuel v
          | Ready (Err _) => panic (* expect: never closed *)
          end
      end
  end.

(** [Drop for Sharer] *)
Definition Sharer_drop (drop_shared : M SerBox unit) : M SerBox unit :=
  st ← state_fetch_and (u8_not (Z.lor HAS_SHARER HAS_DATA));
  if Z.land st HAS_CONSUMER =? 0 then
    (if negb (Z.land st HAS_DATA =? 0) then data_drop else mret tt);;
    drop_shared
  else mret tt.

(** *** [Consumer] *)

(** A [Consumer] is a pointer to the box and its [VTABLE]. *)
Definition Consumer_to_vec : M SerBox (result bytes PostcardError) := vt_to_vec VTABLE.
Definition Consumer_to_vec_framed : M SerBox (result bytes PostcardError) := vt_to_vec_framed VTABLE.
Definition Consumer_to_slice (buf : bytes) : M SerBox (bytes * result nat PostcardError) := vt_to_slice VTABLE buf.
Definition Consumer_to_slice_framed (buf : bytes) : M SerBox (bytes * result nat PostcardError) := vt_to_slice_framed VTABLE buf.

(** [Drop for Consumer], and its accesses one by one. *)
Definition Consumer_drop (drop_shared : M SerBox unit) : M SerBox unit :=
  state_fetch_and (u8_not HAS_CONSUMER);;
  vt_drop_data VTABLE;;
  st ← state_fetch_and (u8_not HAS_DATA);
  if Z.land st HAS_SHARER =? 0 then drop_shared else ready_wake.

(** *** Two threads *)

(** Where the sharer's thread is: at rest, about to write a value it has claimed the box
    for, in its destructor with the state it saw, or gone. *)
Inductive sharer_pc : Type :=
| SLive | SWrite (x : T) | SDrop (st : Z) | SGone.
(** Where the consumer is: there is none, it is at rest, or it is in its destructor, about
    to drop the value, to clear the DATA flag, or to free the box. *)
Inductive consumer_pc : Type :=
| CNone | CLive | CData | CFlag | CFree.

(** [th_wakes] counts the consumers that are about to wake the sharer, their last access:
    a new consumer can exist before they do.  [th_shared] is the history of the values the
    box was claimed for. *)
Record threads := mkThreads {
  th_box : SerBox;
  th_sharer : sharer_pc;
  th_consumer : consumer_pc;
  th_wakes : nat;
  th_shared : list T;
}.

Inductive box_event : Type :=
| EvTryShare (x : T)   (* the sharer claims the box *)
| EvSharerStep         (* the sharer's next access *)
| EvSharerDrop         (* the sharer's destructor starts *)
| EvToVec              (* the consumer serializes *)
| EvConsumerDrop       (* the consumer's destructor starts *)
| EvConsumerStep       (* the consumer's next access *)
| EvWake.              (* a consumer on its way out wakes the sharer *)

Definition with_box {A} (m : M SerBox A) (k : A -> threads -> threads) : M threads unit :=
  a ← zoom th_box (fun b t => mkThreads b (th_sharer t) (th_consumer t) (th_wakes t) (th_shared t)) m; modify (k a).
Definition sharer_at (pc : sharer_pc) (t : threads) : threads :=
  mkThreads (th_box t) pc (th_consumer t) (th_wakes t) (th_shared t).
Definition consumer_at (pc : consumer_pc) (t : threads) : threads :=
  mkThreads (th_box t) (th_sharer t) pc (th_wakes t) (th_shared t).
Definition wakes_at (n : nat) (t : threads) : threads :=
  mkThreads (th_box t) (th_sharer t) (th_consumer t) n (th_shared t).
Definition claim (x : T) (t : threads) : threads :=
  mkThreads (th_box t) (SWrite x) (th_consumer t) (th_wakes t) (th_shared t ++ [x]).

(** An event; one that does not apply changes nothing. *)
Definition box_step (drop_shared : M SerBox unit) (ev : box_event) : M threads unit := fun t =>
  match ev, th_sharer t, th_consumer t with
  | EvTryShare x, SLive, _ =>
      with_box (state_cas HAS_SHARER SHARED) (fun r => match r with Ok _ => claim x | Err _ => id end) t
  | EvSharerStep, SWrite x, _ =>
      with_box (data_write x) (fun _ t => consumer_at CLive (sharer_at SLive t)) t
  | EvSharerDrop, SLive, _ =>
      with_box (state_fetch_and (u8_not (Z.lor HAS_SHARER HAS_DATA))) (fun st => sharer_at (SDrop st)) t
  | EvSharerStep, SDrop st, _ =>
      with_box (if Z.land st HAS_CONSUMER =? 0 then
                  (if negb (Z.land st HAS_DATA =? 0) then data_drop else mret tt);; drop_shared
                else mret tt)
        (fun _ => sharer_at SGone) t
  | EvToVec, _, CLive => with_box Consumer_to_vec (fun _ => id) t
  | EvConsumerDrop, _, CLive =>
      with_box (state_fetch_and (u8_not HAS_CONSUMER)) (fun _ => consumer_at CData) t
  | EvConsumerStep, _, CData => with_box (vt_drop_data VTABLE) (fun _ => consumer_at CFlag) t
  | EvConsumerStep, _, CFlag =>
      with_box (state_fetch_and (u8_not HAS_DATA)) (fun st t =>
        if Z.land st HAS_SHARER =? 0 then consumer_at CFree t
        else wakes_at (S (th_wakes t)) (consumer_at CNone t)) t
  | EvConsumerStep, _, CFree => with_box drop_shared (fun _ => consumer_at CNone) t
  | EvWake, _, _ =>
      match th_wakes t with
      | O => (t, Val tt)
      | S n => with_box ready_wake (fun _ => wakes_at n) t
      end
  | _, _, _ => (t, Val tt)
  end.

Fixpoint box_run (drop_shared : M SerBox unit) (evs : list box_event) : M threads unit :=
  match evs with [] => mret tt | ev :: evs => box_step drop_shared ev;; box_run drop_shared evs end.

(** A boxed [SerBox] turned into a sharer. *)
Definition box_start : threads := mkThreads (fst (sharer SerBox_new)) SLive CNone 0 [].
End SerBox.
#[global] Arguments SerBox {WCA} T.
#[global] Arguments threads {WCA} T.
#[global] Arguments box_event : clear implicits.
