(* ===== verification/SerBoxSpec.v ===== *)
(** The shared box: what each operation does, that two threads use it safely as long as
    the sharer's destructor does not start inside the consumer's, and that they do not
    when it does. *)
From S2P Require Import Prelude Interfaces TypeInfo SerBox.

(** The type assertion of a box of [T] is the only step that does not compute. *)
Ltac box_compute :=
  cbv -[wc_wake wc_poll_wait wc_closed pc_to_allocvec app assert_matches TypeInfo_of];
  rewrite ?assert_matches_of; cbv -[wc_wake wc_poll_wait wc_closed pc_to_allocvec app assert_matches TypeInfo_of].

Section BoxSpec.
Context {WCA : WaitCellApi} {WCL : WaitCellLaws} {T : Type} {AN : Any T} {PC : Postcard T}.
Implicit Types (b : SerBox T) (t : threads T) (x : T).

(** ** One operation at a time *)

(** Who owns the box, and the value in it. *)
Inductive phase : Type :=
| PNew | PSharer | PShared (x : T) | PConsumer (x : T) | PFreed.

Definition state_is b (st : Z) (d : option T) : Prop :=
  sb_state b = st /\ sb_typeinfo b = TypeInfo_of T /\ sb_data b = d /\ sb_freed b = false.

Definition box_rep b (ph : phase) : Prop :=
  wc_closed (sb_sharer_ready b) = false /\
  match ph with
  | PNew => state_is b (flags false false false) None
  | PSharer => state_is b (flags false false true) None
  | PShared x => state_is b (flags true true true) (Some x)
  | PConsumer x => state_is b (flags true false false) (Some x)
  | PFreed => sb_freed b = true
  end.

Inductive box_op : Type :=
| OpShare (x : T) | OpToVec | OpDropConsumer | OpDropSharer.
Inductive box_out : Type :=
| OutUnit | OutShare (r : result unit T) | OutVec (r : result bytes PostcardError).

Definition box_op_run (op : box_op) : M (SerBox T) box_out :=
  match op with
  | OpShare x => r ← Sharer_try_share x; mret (OutShare r)
  | OpToVec => r ← Consumer_to_vec; mret (OutVec r)
  | OpDropConsumer => Consumer_drop drop_box;; mret OutUnit
  | OpDropSharer => Sharer_drop drop_box;; mret OutUnit
  end.

(** What an operation returns, who owns the box then, and the values dropped; nothing when
    nobody has the handle to call it. *)
Definition box_op_spec (op : box_op) (ph : phase) : option (box_out * phase * list T) :=
  match op, ph with
  | OpShare x, PSharer => Some (OutShare (Ok tt), PShared x, [])
  | OpShare y, PShared x => Some (OutShare (Err y), PShared x, [])
  | OpToVec, PShared x | OpToVec, PConsumer x => Some (OutVec (pc_to_allocvec x), ph, [])
  | OpDropConsumer, PShared x => Some (OutUnit, PSharer, [x])
  | OpDropConsumer, PConsumer x => Some (OutUnit, PFreed, [x])
  | OpDropSharer, PSharer => Some (OutUnit, PFreed, [])
  | OpDropSharer, PShared x => Some (OutUnit, PConsumer x, [])
  | _, _ => None
  end.

Ltac box_cases :=
  repeat match goal with
    | H : box_rep _ _ |- _ => destruct H as [? ?]
    | H : _ \/ _ |- _ => destruct H as [->| ->]
    | H : state_is _ _ _ |- _ => destruct H as (? & ? & ? & ?)
    | b : SerBox T |- _ => destruct b
    end; cbn in *; subst.
Ltac box_eval :=
  unfold wp; box_compute; eexists _, _; (split; [reflexivity|]).

(** C34: A shared box holds one value at a time and drops each value exactly once: sharing
    succeeds exactly when no consumer exists (otherwise the value is given back), the
    consumer serializes the value that was shared, dropping the consumer drops the value,
    and the memory is freed by whichever of sharer and consumer goes last. *)
Theorem serbox_refines op b ph out ph' d :
  box_rep b ph -> box_op_spec op ph = Some (out, ph', d) ->
  wp (box_op_run op) (fun o b' => o = out /\ box_rep b' ph' /\ sb_dropped b' = sb_dropped b ++ d) b.
Proof.
  intros Hb Hs. destruct op, ph; cbn in Hs; simplify_eq; box_cases; box_eval;
    rewrite ?app_nil_r; unfold box_rep; cbn; rewrite ?wc_wake_closed; done.
Qed.

(** A poll of [share] while a consumer exists: at most one stored wakeup is consumed. *)
Lemma share_poll_blocked b x y :
  box_rep b (PShared x) ->
  wp (Sharer_share_poll 3 y) (fun r b' => r = Pending /\ box_rep b' (PShared x) /\ sb_dropped b' = sb_dropped b) b.
Proof.
  intros Hb. box_cases. pose proof (wc_poll_closed_same sb_sharer_ready) as Hc1. pose proof (wc_poll_open sb_sharer_ready) as Ho.
  pose proof (wc_poll_consumes sb_sharer_ready) as Hn. unfold wp. cbn [Sharer_share_poll].
  cbv -[wc_wake wc_poll_wait wc_closed Sharer_share_poll app].
  destruct (wc_poll_wait sb_sharer_ready) as [w [|[[]|[]]]]; cbn in *; try by destruct Ho.
  - eexists _, _. split; [reflexivity|]. by rewrite <- Hc1 in *.
  - specialize (Hn eq_refl). pose proof (wc_poll_closed_same w) as Hc2.
    destruct (wc_poll_wait w) as [w' p] eqn:Hw. cbn in *. subst p.
    cbv -[wc_wake wc_poll_wait wc_closed app]. rewrite ?Hw.
    eexists _, _. split; [reflexivity|].
    split; [done|]. split; [|done]. split; [|done]. cbn. congruence.
Qed.

(** [Sharer::share] waits for the consumer and is woken by it: polled while a consumer
    exists it is pending, whatever wakeup was stored; dropping the consumer wakes the
    sharer's task, and then the value is shared. *)
Theorem share_waits_for_consumer b x y :
  box_rep b (PShared x) ->
  wp (p ← Sharer_share_poll 3 y; Consumer_drop drop_box;; w ← gets sb_sharer_ready;
      p' ← Sharer_share_poll 3 y; mret (p, snd (wc_poll_wait w), p'))
     (fun r b' => r = (Pending, Ready (Ok tt), Ready tt) /\ box_rep b' (PShared y) /\
        sb_dropped b' = sb_dropped b ++ [x]) b.
Proof.
  intros Hb. apply wp_bind. eapply wp_mono; [by apply (share_poll_blocked b x y)|].
  intros p b1 (-> & Hb1 & <-). box_cases. box_eval.
  assert (Hw : snd (wc_poll_wait (wc_wake sb_sharer_ready)) = Ready (Ok tt)) by (by rewrite wc_wake_ready).
  split; [by rewrite <- Hw|]. unfold box_rep. cbn. by rewrite wc_wake_closed.
Qed.

(** ** Two threads *)

(** The invariant.  [held] is the value that is in the box, or about to be. *)
Inductive box_inv : threads T -> Prop :=
| InvRest b n log :
    state_is b (flags false false true) None -> wc_closed (sb_sharer_ready b) = false ->
    sb_dropped b = log -> box_inv (mkThreads b SLive CNone n log)
| InvWrite b n log x :
    state_is b (flags true true true) None -> wc_closed (sb_sharer_ready b) = false ->
    sb_dropped b = log -> box_inv (mkThreads b (SWrite x) CNone n (log ++ [x]))
| InvShared b n log x :
    state_is b (flags true true true) (Some x) -> wc_closed (sb_sharer_ready b) = false ->
    sb_dropped b = log -> box_inv (mkThreads b SLive CLive n (log ++ [x]))
| InvData b n log x :
    state_is b (flags false true true) (Some x) -> wc_closed (sb_sharer_ready b) = false ->
    sb_dropped b = log -> box_inv (mkThreads b SLive CData n (log ++ [x]))
| InvFlag b n log :
    state_is b (flags false true true) None -> wc_closed (sb_sharer_ready b) = false ->
    sb_dropped b = log -> box_inv (mkThreads b SLive CFlag n log)
| InvAlone b log :
    state_is b 0 None -> sb_dropped b = log -> box_inv (mkThreads b (SDrop (flags false false true)) CNone 0 log)
| InvLeft b spc log x :
    (spc = SGone \/ spc = SDrop (flags true true true)) ->
    state_is b (flags true false false) (Some x) -> sb_dropped b = log -> box_inv (mkThreads b spc CLive 0 (log ++ [x]))
| InvLeftData b spc log x :
    (spc = SGone \/ spc = SDrop (flags true true true)) ->
    state_is b 0 (Some x) -> sb_dropped b = log -> box_inv (mkThreads b spc CData 0 (log ++ [x]))
| InvLeftFlag b spc log :
    (spc = SGone \/ spc = SDrop (flags true true true)) ->
    state_is b 0 None -> sb_dropped b = log -> box_inv (mkThreads b spc CFlag 0 log)
| InvLeftFree b spc log :
    (spc = SGone \/ spc = SDrop (flags true true true)) ->
    state_is b 0 None -> sb_dropped b = log -> box_inv (mkThreads b spc CFree 0 log)
| InvGone b spc log :
    (spc = SGone \/ spc = SDrop (flags true true true)) ->
    sb_freed b = true -> sb_dropped b = log -> box_inv (mkThreads b spc CNone 0 log).

(** The sharer's destructor does not start inside the consumer's. *)
Definition box_allowed (ev : box_event T) t : Prop :=
  ev = EvSharerDrop -> th_sharer t = SLive -> (th_consumer t = CNone \/ th_consumer t = CLive) /\ th_wakes t = 0%nat.

(** The next state, by computation, and the clause of the invariant it is in. *)
Ltac box_next :=
  unfold wp; box_compute;
  eexists _, _; (split; [reflexivity|]);
  first [ by apply InvRest | by apply InvWrite | by apply InvShared | by apply InvData | by apply InvFlag
        | by apply InvAlone | by apply InvLeft; auto | by apply InvLeftData; auto | by apply InvLeftFlag; auto
        | by apply InvLeftFree; auto | by apply InvGone; auto ].

Lemma box_step_inv ev t :
  box_inv t -> box_allowed ev t -> wp (box_step drop_box ev) (fun _ t' => box_inv t') t.
Proof.
  intros Hi Ha. destruct ev, Hi; unfold box_allowed in Ha; cbn in Ha; box_cases;
    try (destruct (Ha eq_refl eq_refl) as [[Hc|Hc] ->]; try done);
    try (assert (wc_closed (wc_wake sb_sharer_ready) = false) by (by rewrite wc_wake_closed));
    try box_next; destruct n; box_next.
Qed.

(** A schedule that keeps to [box_allowed]. *)
Fixpoint box_schedule (evs : list (box_event T)) t : Prop :=
  match evs with
  | [] => True
  | ev :: evs => box_allowed ev t /\ box_schedule evs (fst (box_step drop_box ev t))
  end.

Lemma box_run_inv evs : forall t,
  box_inv t -> box_schedule evs t -> wp (box_run drop_box evs) (fun _ t' => box_inv t') t.
Proof.
  induction evs as [|ev evs IH]; intros t Hi Hs; [by apply wp_ret|]. destruct Hs as [Ha Hs].
  destruct (box_step_inv ev t Hi Ha) as (t' & [] & Hrun & Hi'). rewrite Hrun in Hs.
  apply wp_bind. exists t', tt. split; [done|]. by apply IH.
Qed.

(** C33: Two threads, one with the sharer and one with its consumers, in any interleaving of
    their accesses in which the sharer's destructor does not start inside a consumer's: no
    freed memory is used, nothing uninitialized is read, nothing is dropped or freed twice,
    the values are dropped in the order they were shared, and when both threads are done
    every value was dropped and the memory is freed. *)
Theorem serbox_interleaved_safe evs :
  box_schedule evs box_start ->
  wp (box_run drop_box evs) (fun _ t => exists rest, th_shared t = sb_dropped (th_box t) ++ rest /\
    (length rest <= 1)%nat /\
    (th_sharer t = SGone -> th_consumer t = CNone -> rest = [] /\ sb_freed (th_box t) = true)) box_start.
Proof.
  intros Hs. eapply wp_mono.
  { apply box_run_inv; [|exact Hs]. apply InvRest; [done|apply wc_new_closed|done]. }
  intros [] t []; cbn; subst;
    first [ exists []; rewrite app_nil_r; split; [reflexivity|] | exists [x]; split; [reflexivity|] ];
    (split; [cbn; lia|]); done || by destruct_or!; subst.
Qed.

(** The two ways in which it goes wrong otherwise, for a value [x] and any box on the
    heap.  If the sharer is dropped after the consumer's destructor cleared its flag, the
    sharer frees the box under the consumer; if it is dropped after the consumer's
    destructor is done with the value, the box is freed before the consumer wakes it. *)
Theorem serbox_drop_race x :
  snd (box_run drop_box [EvTryShare x; EvSharerStep; EvConsumerDrop; EvSharerDrop; EvSharerStep; EvConsumerStep]
    box_start) = Panic /\
  snd (box_run drop_box [EvTryShare x; EvSharerStep; EvConsumerDrop; EvConsumerStep; EvConsumerStep;
    EvSharerDrop; EvSharerStep; EvWake] box_start) = Panic.
Proof. split; box_compute; reflexivity. Qed.

(** A box in a static is up for reuse too early: with the sharer gone, the first access
    of the consumer's destructor makes the state that of a new box, so a second sharer can
    be made and share [y] before the destructor goes on; that destructor then drops [y],
    and the second consumer reads uninitialized memory. *)
Theorem serbox_static_reuse_race x y :
  let reuse := static_sharer;; try_share x;; Sharer_drop drop_static;; state_fetch_and (u8_not HAS_CONSUMER);;
    s ← static_sharer; r ← try_share y; data_drop;; mret (s, r) in
  snd (reuse SerBox_new) = Val (Some tt, Ok tt) /\ sb_dropped (fst (reuse SerBox_new)) = [y] /\
  snd ((reuse;; Consumer_to_vec) SerBox_new) = Panic.
Proof. cbn zeta. box_compute. done. Qed.
End BoxSpec.
