(* ===== verification/Oneshot.v ===== *)
(** The reusable one-shot channel of [tricky-pipe/src/oneshot.rs].

    As in [SerBox], the cell of the channel is explicit: [os_cell] is the value in it, if it
    is initialized, and using an uninitialized cell or freed memory is [panic].
    [os_dropped] records the values the channel's own code drops.  Operations are whole
    calls, or polls of a future; the last section splits sending and receiving into their
    accesses and interleaves them. *)
From stdpp Require Import strings.
From S2P Require Import Prelude Interfaces TypeInfo.

Definition HAS_RX : Z := 1.
Definition HAS_TX : Z := 2.
Definition RX_WAITING : Z := 4.
Definition SENT : Z := 8.
Definition CLOSED : Z := 16.
(** [!mask] on [u8], and [state & mask != 0] *)
Definition u8_not (mask : Z) : Z := 255 - mask.
Definition has (state mask : Z) : bool := negb (Z.land state mask =? 0).

(** [enum RecvError], [enum SenderError], [enum ErasedSenderError], [struct Closed],
    [enum DeserSendError] *)
Inductive RecvError : Type := NoSender | RecvClosed.
Inductive SenderError : Type := SenderAlreadyActive | SenderClosed.
Inductive ErasedSenderError : Type := SenderErr (e : SenderError) | WrongType.
Record Closed (T : Type) := mkClosed { closed_item : T }.
Arguments mkClosed {T} closed_item.
Inductive DeserSendError : Type := Deserialize (error : PostcardError) (message_type : string) | DeserClosed.

Section Oneshot.
Context {WCA : WaitCellApi} {T : Type} {AN : Any T} {PC : Postcard T}.

(** [struct Oneshot], with the reference count of its [Arc]. *)
Record Oneshot := mkOneshot {
  os_state : Z;
  os_wait : WaitCell;
  os_cell : option T;
  os_strong : Z;
  os_dropped : list T;
}.
Definition set_os_state (v : Z) (o : Oneshot) : Oneshot :=
  mkOneshot v (os_wait o) (os_cell o) (os_strong o) (os_dropped o).
Definition set_os_wait (w : WaitCell) (o : Oneshot) : Oneshot :=
  mkOneshot (os_state o) w (os_cell o) (os_strong o) (os_dropped o).
Definition set_os_cell (c : option T) (o : Oneshot) : Oneshot :=
  mkOneshot (os_state o) (os_wait o) c (os_strong o) (os_dropped o).
Definition set_os_strong (n : Z) (o : Oneshot) : Oneshot :=
  mkOneshot (os_state o) (os_wait o) (os_cell o) n (os_dropped o).
Definition os_drop (x : T) (o : Oneshot) : Oneshot :=
  mkOneshot (os_state o) (os_wait o) (os_cell o) (os_strong o) (os_dropped o ++ [x]).

(** *** Accesses *)

Definition state_swap (v : Z) : M Oneshot Z := fun o => (set_os_state v o, Val (os_state o)).
Definition state_store (v : Z) : M Oneshot unit := modify (set_os_state v).
Definition state_fetch_or (v : Z) : M Oneshot Z := fun o => (set_os_state (Z.lor (os_state o) v) o, Val (os_state o)).
Definition state_fetch_and (v : Z) : M Oneshot Z := fun o => (set_os_state (Z.land (os_state o) v) o, Val (os_state o)).
Definition state_cas (expected new : Z) : M Oneshot (result Z Z) := fun o =>
  if os_state o =? expected then (set_os_state new o, Val (Ok (os_state o))) else (o, Val (Err (os_state o))).
Definition wait_poll : M Oneshot (poll (result unit unit)) := fun o =>
  match wc_poll_wait (os_wait o) with (w, p) => (set_os_wait w o, Val p) end.
Definition wait_wake : M Oneshot unit := modify (fun o => set_os_wait (wc_wake (os_wait o)) o).
Definition wait_close : M Oneshot unit := modify (fun o => set_os_wait (wc_close (os_wait o)) o).
(** [cell.write]: what was there is forgotten, not dropped. *)
Definition cell_write (x : T) : M Oneshot unit := modify (set_os_cell (Some x)).
(** Moves the value out of the cell. *)
Definition cell_read : M Oneshot T := c ← gets os_cell; x ← expect c; modify (set_os_cell None);; mret x.
Definition cell_drop : M Oneshot unit := x ← cell_read; modify (os_drop x).

(** *** [Oneshot] *)

(** The two values of [RefVtable]. *)
Record RefVtable := mkRefVtable { rv_drop : M Oneshot unit; rv_clone : M Oneshot unit }.
Definition ARC_VTABLE : RefVtable :=
  mkRefVtable (modify (fun o => set_os_strong (os_strong o - 1) o)) (modify (fun o => set_os_strong (os_strong o + 1) o)).
Definition STATIC_VTABLE : RefVtable := mkRefVtable (mret tt) (mret tt).

(** [Oneshot::new], [static_receiver], [arc_receiver], [Receiver::new] *)
Definition Oneshot_new : Oneshot := mkOneshot 0 wc_new None 1 [].
Definition static_receiver : M Oneshot (option unit) :=
  r ← state_cas 0 HAS_RX; mret (result_ok (result_map (fun _ => tt) r)).
Definition arc_receiver : M Oneshot (option unit) :=
  r ← state_cas 0 HAS_RX; mret (result_ok (result_map (fun _ => tt) r)).
Definition Receiver_new : Oneshot := mkOneshot HAS_RX wc_new None 1 [].

(** [Oneshot::poll_recv] *)
Fixpoint poll_recv (fuel : nat) : M Oneshot (poll (result unit RecvError)) :=
  match fuel with
  | O => out_of_fuel
  | S fuel =>
      state ← state_fetch_or RX_WAITING;
      if has state CLOSED then mret (Ready (Err RecvClosed))
      else if has state SENT then mret (Ready (Ok tt))
      else if negb (has state HAS_TX) then mret (Ready (Err NoSender))
      else
        p ← wait_poll;
        match p with
        | Pending => mret Pending
        | Ready (Err _) => mret (Ready (Err RecvClosed))
        | Ready (Ok _) => poll_recv fuel
        end
  end.

(** [Oneshot::take_value] *)
Definition take_value : M Oneshot T := x ← cell_read; state_store HAS_RX;; mret x.

(** *** [Header] *)

Definition Header_close : M Oneshot bool :=
  state ← state_swap CLOSED;
  wait_close;;
  if has state SENT && negb (has state HAS_TX) then mret true
  else if has state CLOSED then panic (* debug_assert! *)
  else mret false.
Definition Header_finish_write : M Oneshot (result unit (Closed unit)) :=
  state ← state_fetch_or SENT;
  if has state CLOSED then mret (Err (mkClosed tt))
  else (if has state RX_WAITING then wait_wake else mret tt);; mret (Ok tt).
Definition Header_drop_tx : M Oneshot unit := state_fetch_and (u8_not HAS_TX);; mret tt.

(** *** [Receiver] *)

(** [Receiver::poll_recv], and one poll of [Recv]. *)
Definition Receiver_poll_recv (fuel : nat) : M Oneshot (poll (result T RecvError)) :=
  p ← poll_recv fuel;
  match p with
  | Ready (Ok _) => x ← take_value; mret (Ready (Ok x))
  | Ready (Err e) => mret (Ready (Err e))
  | Pending => mret Pending
  end.
Definition Recv_poll (fuel : nat) : M Oneshot (poll (result T RecvError)) := Receiver_poll_recv fuel.

(** The future of [take_sender]: at the head of its loop, or receiving the unreceived
    message, with the state it saw. *)
Inductive TakeSender : Type := TakeLoop | TakeRecv (state : Z).

(** After the receive, if there was one: the exits of the loop. *)
Definition take_exit (state : Z) : option SenderError :=
  if has state CLOSED then Some SenderClosed
  else if has state HAS_TX then Some SenderAlreadyActive
  else None.

(** One poll of [Receiver::take_sender]. *)
Fixpoint take_sender_poll (fuel : nat) (f : TakeSender) : M Oneshot (TakeSender * poll (result unit SenderError)) :=
  match fuel with
  | O => out_of_fuel
  | S fuel =>
      match f with
      | TakeLoop =>
          r ← state_cas HAS_RX (Z.lor HAS_RX HAS_TX);
          match r with
          | Ok _ => mret (f, Ready (Ok tt))
          | Err state =>
              if has state SENT then take_sender_poll fuel (TakeRecv state)
              else match take_exit state with
                   | Some e => mret (f, Ready (Err e))
                   | None => take_sender_poll fuel TakeLoop
                   end
          end
      | TakeRecv state =>
          p ← Recv_poll fuel;
          match p with
          | Pending => mret (f, Pending)
          | Ready r =>
              match r with Ok x => modify (os_drop x) | Err _ => mret tt end;;
              match take_exit state with
              | Some e => mret (f, Ready (Err e))
              | None => take_sender_poll fuel TakeLoop
              end
          end
      end
  end.

(** One poll of [Receiver::sender] and of [Receiver::deser_sender]. *)
Definition Receiver_sender_poll (vt : RefVtable) (fuel : nat) (f : TakeSender)
    : M Oneshot (TakeSender * poll (result unit SenderError)) :=
  fp ← take_sender_poll fuel f;
  match fp with
  | (f, Ready (Ok _)) => rv_clone vt;; mret (f, Ready (Ok tt))
  | fp => mret fp
  end.
Definition Receiver_deser_sender_poll (vt : RefVtable) (fuel : nat) (f : TakeSender)
    : M Oneshot (TakeSender * poll (result unit SenderError)) := Receiver_sender_poll vt fuel f.

(** [Receiver::close], [Drop for Receiver] *)
Definition Receiver_close : M Oneshot unit :=
  owned ← Header_close; if owned : bool then cell_drop else mret tt.
Definition Receiver_drop (vt : RefVtable) : M Oneshot unit := rv_drop vt.

(** *** [Sender] *)

(** [Drop for Sender] *)
Definition Sender_drop (vt : RefVtable) (sent : bool) : M Oneshot unit :=
  (if sent then mret tt else Header_drop_tx);; rv_drop vt.

(** [Sender::send]: the sender is dropped at the end. *)
Definition Sender_send (vt : RefVtable) (item : T) : M Oneshot (result unit (Closed T)) :=
  cell_write item;;
  r ← Header_finish_write;
  match r with
  | Err _ => item ← cell_read; Sender_drop vt false;; mret (Err (mkClosed item))
  | Ok _ => Sender_drop vt true;; mret (Ok tt)
  end.

(** *** [DeserSender] *)

(** [struct DeserVtable]: its functions take the sender, whose [ser_vtable] they look the
    type up in. *)
Record DeserVtable := mkDeserVtable {
  dv_drop_data : TypeInfo -> M Oneshot unit;
  dv_from_bytes : TypeInfo -> bytes -> M Oneshot (result unit PostcardError);
  dv_from_bytes_framed : TypeInfo -> bytes -> M Oneshot (result unit PostcardError);
  dv_typeinfo : TypeInfo;
}.
(** What both decoders do with what the bytes decode to. *)
Definition write_decoded (this : TypeInfo) (val : result T PostcardError) : M Oneshot (result unit PostcardError) :=
  assert_matches T this "oneshot::DeserSender";;
  match val with
  | Err error => mret (Err error)
  | Ok val => cell_write val;; mret (Ok tt)
  end.
(** [Receiver::DESER_VTABLE] *)
Definition DESER_VTABLE : DeserVtable := {|
  dv_drop_data this := assert_matches T this "oneshot::DeserSender";; cell_drop;
  dv_from_bytes this bs := write_decoded this (pc_from_bytes bs);
  dv_from_bytes_framed this bs := write_decoded this (pc_from_bytes_cobs bs);
  dv_typeinfo := TypeInfo_of T;
|}.

(** [DeserSender::deser_error] *)
Definition deser_error (ser_vtable : DeserVtable) (error : PostcardError) : DeserSendError :=
  Deserialize error (TypeInfo_name (dv_typeinfo ser_vtable)).

Definition DeserSender_drop (vt : RefVtable) (sent : bool) : M Oneshot unit :=
  (if sent then mret tt else Header_drop_tx);; rv_drop vt.

(** [DeserSender::finish_write] *)
Definition DeserSender_finish_write (vt : RefVtable) (sv : DeserVtable) : M Oneshot (result unit DeserSendError) :=
  r ← Header_finish_write;
  match r with
  | Err _ => dv_drop_data sv (dv_typeinfo sv);; DeserSender_drop vt false;; mret (Err DeserClosed)
  | Ok _ => DeserSender_drop vt true;; mret (Ok tt)
  end.

(** [DeserSender::send] and [send_framed], with one of the two decoders. *)
Definition DeserSender_send_with (vt : RefVtable) (sv : DeserVtable)
    (decode : TypeInfo -> bytes -> M Oneshot (result unit PostcardError)) (bs : bytes) : M Oneshot (result unit DeserSendError) :=
  r ← decode (dv_typeinfo sv) bs;
  match r with
  | Err error => DeserSender_drop vt false;; mret (Err (deser_error sv error))
  | Ok _ => DeserSender_finish_write vt sv
  end.
Definition DeserSender_send (vt : RefVtable) (bs : bytes) : M Oneshot (result unit DeserSendError) :=
  DeserSender_send_with vt DESER_VTABLE (dv_from_bytes DESER_VTABLE) bs.
Definition DeserSender_send_framed (vt : RefVtable) (bs : bytes) : M Oneshot (result unit DeserSendError) :=
  DeserSender_send_with vt DESER_VTABLE (dv_from_bytes_framed DESER_VTABLE) bs.

(** *** Sending and receiving, access by access *)

(** [Sender::send]: with the channel closed it takes the message back, and its destructor
    clears HAS_TX. *)
Inductive send_pc : Type :=
| SendWrite (x : T) | SendFinish | SendWake | SendDone
| SendTakeBack | SendDropTx (x : T) | SendRefused (x : T).
Inductive recv_pc : Type :=
| RecvStart | RecvWait | RecvParked | RecvTake | RecvStore (x : T) | RecvGot (x : T) | RecvFailed.

Definition send_step (pc : send_pc) : M Oneshot send_pc :=
  match pc with
  | SendWrite x => cell_write x;; mret SendFinish
  | SendFinish =>
      state ← state_fetch_or SENT;
      mret (if has state CLOSED then SendTakeBack else if has state RX_WAITING then SendWake else SendDone)
  | SendWake => wait_wake;; mret SendDone
  | SendDone => mret SendDone
  | SendTakeBack => x ← cell_read; mret (SendDropTx x)
  | SendDropTx x => Header_drop_tx;; mret (SendRefused x)
  | SendRefused x => mret (SendRefused x)
  end.

(** [RecvParked] is a task that sleeps: it goes on when its cell has been woken. *)
Definition recv_step (pc : recv_pc) : M Oneshot recv_pc :=
  match pc with
  | RecvStart =>
      state ← state_fetch_or RX_WAITING;
      mret (if has state CLOSED then RecvFailed
            else if has state SENT then RecvTake
            else if negb (has state HAS_TX) then RecvFailed
            else RecvWait)
  | RecvWait =>
      p ← wait_poll;
      mret (match p with Pending => RecvParked | Ready (Ok _) => RecvStart | Ready (Err _) => RecvFailed end)
  | RecvParked =>
      w ← gets os_wait;
      mret (match snd (wc_poll_wait w) with Pending => RecvParked | Ready _ => RecvStart end)
  | RecvTake => x ← cell_read; mret (RecvStore x)
  | RecvStore x => state_store HAS_RX;; mret (RecvGot x)
  | RecvGot x => mret (RecvGot x)
  | RecvFailed => mret RecvFailed
  end.

(** [Receiver::close]. *)
Inductive close_pc : Type := CloseSwap | CloseWait (state : Z) | CloseData | CloseDone.
Definition close_step (pc : close_pc) : M Oneshot close_pc :=
  match pc with
  | CloseSwap => state ← state_swap CLOSED; mret (CloseWait state)
  | CloseWait state =>
      wait_close;;
      if has state SENT && negb (has state HAS_TX) then mret CloseData
      else if has state CLOSED then panic (* debug_assert! *)
      else mret CloseDone
  | CloseData => cell_drop;; mret CloseDone
  | CloseDone => mret CloseDone
  end.

Record duo := mkDuo { duo_chan : Oneshot; duo_send : send_pc; duo_recv : recv_pc }.

(** [true]: the sender's next access; [false]: the receiver's. *)
Definition duo_step (who : bool) : M duo unit := fun d =>
  if who then
    match send_step (duo_send d) (duo_chan d) with
    | (o, Val pc) => (mkDuo o pc (duo_recv d), Val tt)
    | (o, _) => (mkDuo o (duo_send d) (duo_recv d), Panic)
    end
  else
    match recv_step (duo_recv d) (duo_chan d) with
    | (o, Val pc) => (mkDuo o (duo_send d) pc, Val tt)
    | (o, _) => (mkDuo o (duo_send d) (duo_recv d), Panic)
    end.
Fixpoint duo_run (l : list bool) : M duo unit :=
  match l with [] => mret tt | who :: l => duo_step who;; duo_run l end.

(** The same with a third party that closes the channel. *)
Inductive actor : Type := ASender | AReceiver | ACloser.
Record trio := mkTrio { trio_chan : Oneshot; trio_send : send_pc; trio_recv : recv_pc; trio_close : close_pc }.
Definition trio_step (who : actor) : M trio unit := fun t =>
  match who with
  | ASender =>
      match send_step (trio_send t) (trio_chan t) with
      | (o, Val pc) => (mkTrio o pc (trio_recv t) (trio_close t), Val tt)
      | (o, _) => (mkTrio o (trio_send t) (trio_recv t) (trio_close t), Panic)
      end
  | AReceiver =>
      match recv_step (trio_recv t) (trio_chan t) with
      | (o, Val pc) => (mkTrio o (trio_send t) pc (trio_close t), Val tt)
      | (o, _) => (mkTrio o (trio_send t) (trio_recv t) (trio_close t), Panic)
      end
  | ACloser =>
      match close_step (trio_close t) (trio_chan t) with
      | (o, Val pc) => (mkTrio o (trio_send t) (trio_recv t) pc, Val tt)
      | (o, _) => (mkTrio o (trio_send t) (trio_recv t) (trio_close t), Panic)
      end
  end.
Fixpoint trio_run (l : list actor) : M trio unit :=
  match l with [] => mret tt | who :: l => trio_step who;; trio_run l end.
Definition trio_start (x : T) (o : Oneshot) : trio := mkTrio o (SendWrite x) RecvStart CloseSwap.

(** A sender that is about to send [x], and a receiver about to be polled. *)
Definition duo_start (x : T) (o : Oneshot) : duo := mkDuo o (SendWrite x) RecvStart.
End Oneshot.
#[global] Arguments Oneshot {WCA} T.
#[global] Arguments RefVtable {WCA} T.
#[global] Arguments duo {WCA} T.
#[global] Arguments trio {WCA} T.
#[global] Arguments send_pc : clear implicits.
#[global] Arguments recv_pc : clear implicits.
