(* ===== verification/OneshotErased.v ===== *)
(** The type-erased receiver of the one-shot channel, and that it is the typed one.

    [into_erased] forgets the type of the message; what is left is the identifier of the
    type and a function that drops the value in the cell.  Everything the erased receiver
    does goes through them. *)
From S2P Require Import Prelude Interfaces TypeInfo Oneshot.

Section Erased.
Context {WCA : WaitCellApi} {T : Type} {AN : Any T} {PC : Postcard T}.

(** [struct ErasedReceiver], [struct ErasedRecvRef]: the channel is the state the operations
    run on, and the receiver a reference was made from is passed with it. *)
Record ErasedReceiver := mkErasedReceiver {
  er_vtable : RefVtable T;
  er_type_id : Z;
  er_drop_data : M (Oneshot T) unit;
}.
Record ErasedRecvRef := mkErasedRecvRef { ref_taken : bool }.

(** [Receiver::into_erased]: the receiver is not dropped. *)
Definition Receiver_into_erased (vtable : RefVtable T) : ErasedReceiver :=
  mkErasedReceiver vtable (type_id_of T) cell_drop.

(** One poll of [RecvErased], [ErasedReceiver::poll_recv_erased]. *)
Definition poll_recv_erased (rx : ErasedReceiver) (fuel : nat) : M (Oneshot T) (poll (result ErasedRecvRef RecvError)) :=
  p ← poll_recv fuel;
  mret (match p with
        | Ready (Ok _) => Ready (Ok (mkErasedRecvRef false))
        | Ready (Err e) => Ready (Err e)
        | Pending => Pending
        end).
Definition RecvErased_poll (rx : ErasedReceiver) (fuel : nat) := poll_recv_erased rx fuel.

(** [Drop for ErasedRecvRef] *)
Definition ErasedRecvRef_drop (rx : ErasedReceiver) (self : ErasedRecvRef) : M (Oneshot T) unit :=
  if ref_taken self then mret tt else er_drop_data rx;; state_store HAS_RX.

(** [ErasedRecvRef::downcast] to the type with the identifier [target]: the reference is
    dropped, with its flag set, or handed back. *)
Definition ErasedRecvRef_downcast (rx : ErasedReceiver) (target : Z) (self : ErasedRecvRef)
    : M (Oneshot T) (result T ErasedRecvRef) :=
  if negb (target =? er_type_id rx) then mret (Err self)
  else
    let self := mkErasedRecvRef true in
    x ← take_value; ErasedRecvRef_drop rx self;; mret (Ok x).

(** One poll of [ErasedReceiver::take_sender]. *)
Fixpoint erased_take_sender_poll (rx : ErasedReceiver) (fuel : nat) (f : TakeSender)
    : M (Oneshot T) (TakeSender * poll (result unit SenderError)) :=
  match fuel with
  | O => out_of_fuel
  | S fuel =>
      match f with
      | TakeLoop =>
          r ← state_cas HAS_RX (Z.lor HAS_RX HAS_TX);
          match r with
          | Ok _ => mret (f, Ready (Ok tt))
          | Err state =>
              if has state SENT then erased_take_sender_poll rx fuel (TakeRecv state)
              else match take_exit state with
                   | Some e => mret (f, Ready (Err e))
                   | None => erased_take_sender_poll rx fuel TakeLoop
                   end
          end
      | TakeRecv state =>
          p ← RecvErased_poll rx fuel;
          match p with
          | Pending => mret (f, Pending)
          | Ready r =>
              match r with Ok r => ErasedRecvRef_drop rx r | Err _ => mret tt end;;
              match take_exit state with
              | Some e => mret (f, Ready (Err e))
              | None => erased_take_sender_poll rx fuel TakeLoop
              end
          end
      end
  end.

(** One poll of [ErasedReceiver::downcast_sender]. *)
Definition downcast_sender_poll (rx : ErasedReceiver) (target : Z) (fuel : nat) (f : TakeSender)
    : M (Oneshot T) (TakeSender * poll (result unit ErasedSenderError)) :=
  if negb (target =? er_type_id rx) then mret (f, Ready (Err WrongType))
  else
    fp ← erased_take_sender_poll rx fuel f;
    match fp with
    | (f, Ready (Ok _)) => rv_clone (er_vtable rx);; mret (f, Ready (Ok tt))
    | (f, Ready (Err e)) => mret (f, Ready (Err (SenderErr e)))
    | (f, Pending) => mret (f, Pending)
    end.

(** [ErasedReceiver::close], [Drop for ErasedReceiver] *)
Definition ErasedReceiver_close (rx : ErasedReceiver) : M (Oneshot T) unit :=
  owned ← Header_close; if owned : bool then er_drop_data rx else mret tt.
Definition ErasedReceiver_drop (rx : ErasedReceiver) : M (Oneshot T) unit := rv_drop (er_vtable rx).

(** *** The erased receiver is the typed one *)

(** A receive that downcasts what it gets, to any type; a reference that is handed back is
    dropped. *)
Definition recv_as (rx : ErasedReceiver) (target : Z) (fuel : nat) : M (Oneshot T) (poll (result (option T) RecvError)) :=
  p ← poll_recv_erased rx fuel;
  match p with
  | Ready (Ok r) =>
      d ← ErasedRecvRef_downcast rx target r;
      match d with
      | Ok x => mret (Ready (Ok (Some x)))
      | Err r => ErasedRecvRef_drop rx r;; mret (Ready (Ok None))
      end
  | Ready (Err e) => mret (Ready (Err e))
  | Pending => mret Pending
  end.

(** Receives the message; the type decides who drops it. *)
Definition typed_recv_as (target : Z) (fuel : nat) : M (Oneshot T) (poll (result (option T) RecvError)) :=
  p ← Receiver_poll_recv fuel;
  match p with
  | Ready (Ok x) =>
      if target =? type_id_of T then mret (Ready (Ok (Some x))) else modify (os_drop x);; mret (Ready (Ok None))
  | Ready (Err e) => mret (Ready (Err e))
  | Pending => mret Pending
  end.
Definition typed_sender_as (vt : RefVtable T) (target : Z) (fuel : nat) (f : TakeSender)
    : M (Oneshot T) (TakeSender * poll (result unit ErasedSenderError)) :=
  if target =? type_id_of T then
    fp ← Receiver_sender_poll vt fuel f;
    mret (fst fp, match snd fp with Ready (Ok _) => Ready (Ok tt) | Ready (Err e) => Ready (Err (SenderErr e)) | Pending => Pending end)
  else mret (f, Ready (Err WrongType)).

(** Dropping a reference does to the channel what receiving and dropping the value does. *)
Lemma ref_drop_recv vt o :
  ErasedRecvRef_drop (Receiver_into_erased vt) (mkErasedRecvRef false) o = (x ← take_value; modify (os_drop x)) o.
Proof.
  unfold ErasedRecvRef_drop, take_value, cell_drop, cell_read, state_store. run_M.
  by destruct o as [st w [x|] n d].
Qed.

Lemma take_sender_equiv vt fuel : forall f o,
  erased_take_sender_poll (Receiver_into_erased vt) fuel f o = take_sender_poll fuel f o.
Proof.
  induction fuel as [|fuel IH]; intros f o; [done|]. destruct f as [|state]; cbn [erased_take_sender_poll take_sender_poll].
  - unfold state_cas. run_M. destruct (os_state o =? HAS_RX); [done|]. run_M.
    destruct (has (os_state o) SENT); [apply IH|]. destruct (take_exit (os_state o)); [done|apply IH].
  - unfold RecvErased_poll, poll_recv_erased, Recv_poll, Receiver_poll_recv. run_M.
    destruct (poll_recv fuel o) as [o1 [[|[[]|e]]| |]]; run_M; try done.
    + pose proof (ref_drop_recv vt o1) as Hr. run_M. rewrite Hr.
      destruct (take_value o1) as [o2 [x| |]]; run_M; try done. destruct (take_exit state); [done|apply IH].
    + destruct (take_exit state); [done|apply IH].
Qed.

(** C24: Erasing the type of a receiver changes nothing: a receive through the erased receiver
    that downcasts to the type of the channel is a receive, and one that downcasts to
    another type receives and drops the message; taking a sender, closing and dropping are
    those of the receiver, a sender of another type being refused. *)
Theorem erased_receiver_typed vt fuel target f o :
  let rx := Receiver_into_erased vt in
  recv_as rx target fuel o = typed_recv_as target fuel o /\
  downcast_sender_poll rx target fuel f o = typed_sender_as vt target fuel f o /\
  ErasedReceiver_close rx o = Receiver_close o /\ ErasedReceiver_drop rx o = Receiver_drop vt o.
Proof.
  cbv zeta. split_and!; [| |done..].
  - unfold recv_as, typed_recv_as, poll_recv_erased, Receiver_poll_recv. run_M.
    destruct (poll_recv fuel o) as [o1 [[|[[]|e]]| |]]; run_M; try done.
    unfold ErasedRecvRef_downcast. cbn [er_type_id Receiver_into_erased]. destruct (target =? type_id_of T); run_M.
    + by destruct (take_value o1) as [o2 [x| |]].
    + pose proof (ref_drop_recv vt o1) as Hr. run_M. rewrite Hr. by destruct (take_value o1) as [o2 [x| |]].
  - unfold downcast_sender_poll, typed_sender_as, Receiver_sender_poll. cbn [er_type_id Receiver_into_erased].
    destruct (target =? type_id_of T); [|done]. run_M. rewrite take_sender_equiv.
    destruct (take_sender_poll fuel f o) as [o1 [[f1 [|[[]|e]]]| |]]; run_M; try done.
    by destruct (rv_clone vt o1) as [o2 [[]| |]].
Qed.
End Erased.
