(* ===== verification/OneshotSpec.v ===== *)
(** The one-shot channel: the behaviour of every call in every phase of a channel's life,
    its reuse, the interleaving of a send with a receive, and the calls that go wrong. *)
From S2P Require Import Prelude Interfaces TypeInfo Oneshot.

Section OneshotSpec.
Context {WCA : WaitCellApi} {WCL : WaitCellLaws} {T : Type} {AN : Any T} {PC : Postcard T}.
Implicit Types (o : Oneshot T) (x : T).

(** ** Phases *)

(** No sender; a sender that has not sent; a value sent and not received; closed, with what
    was left in the cell.  [waiting] is the RX_WAITING bit, [sent] the SENT bit. *)
Inductive os_phase : Type :=
| OIdle (waiting : bool)
| OActive (waiting : bool)
| OSent (waiting : bool) (x : T)
| OClosed (lost : option T) (waiting sent : bool).

Definition bit (b : bool) (mask : Z) : Z := if b then mask else 0.
Definition os_word (ph : os_phase) : Z :=
  match ph with
  | OIdle w => Z.lor HAS_RX (bit w RX_WAITING)
  | OActive w => Z.lor (Z.lor HAS_RX HAS_TX) (bit w RX_WAITING)
  | OSent w _ => Z.lor (Z.lor (Z.lor HAS_RX HAS_TX) SENT) (bit w RX_WAITING)
  | OClosed _ w s => Z.lor (Z.lor CLOSED (bit s SENT)) (bit w RX_WAITING)
  end.
Definition os_content (ph : os_phase) : option T :=
  match ph with OSent _ x => Some x | OClosed lost _ _ => lost | _ => None end.
Definition os_is_closed (ph : os_phase) : bool := match ph with OClosed _ _ _ => true | _ => false end.

Record os_rep o (ph : os_phase) : Prop := {
  or_state : os_state o = os_word ph;
  or_cell : os_cell o = os_content ph;
  or_wait : wc_closed (os_wait o) = os_is_closed ph;
}.

Inductive os_op : Type :=
| OpSender | OpRecv | OpSend (x : T) | OpSendBytes (bs : bytes) | OpDropSender | OpClose.
Inductive os_out : Type :=
| OutUnit | OutSender (r : result unit SenderError) | OutRecv (p : poll (result T RecvError))
| OutSend (r : result unit (Closed T)) | OutDeser (r : result unit DeserSendError).

Definition os_run (vt : RefVtable T) (op : os_op) : M (Oneshot T) os_out :=
  match op with
  | OpSender =>
      fp ← Receiver_sender_poll vt 4 TakeLoop;
      match snd fp with Ready r => mret (OutSender r) | Pending => out_of_fuel end
  | OpRecv => p ← Receiver_poll_recv 2; mret (OutRecv p)
  | OpSend x => r ← Sender_send vt x; mret (OutSend r)
  | OpSendBytes bs => r ← DeserSender_send vt bs; mret (OutDeser r)
  | OpDropSender => Sender_drop vt false;; mret OutUnit
  | OpClose => Receiver_close;; mret OutUnit
  end.

(** What a call returns, the phase after it, and the values the channel drops. *)
Definition os_spec (op : os_op) (ph : os_phase) : option (os_out * os_phase * list T) :=
  match op, ph with
  | OpSender, OIdle false => Some (OutSender (Ok tt), OActive false, [])
  | OpSender, OActive w => Some (OutSender (Err SenderAlreadyActive), OActive w, [])
  | OpSender, OSent _ x => Some (OutSender (Err SenderAlreadyActive), OIdle false, [x])
  | OpSender, OClosed lost w false => Some (OutSender (Err SenderClosed), OClosed lost w false, [])
  | OpRecv, OIdle _ => Some (OutRecv (Ready (Err NoSender)), OIdle true, [])
  | OpRecv, OActive _ => Some (OutRecv Pending, OActive true, [])
  | OpRecv, OSent _ x => Some (OutRecv (Ready (Ok x)), OIdle false, [])
  | OpRecv, OClosed lost _ s => Some (OutRecv (Ready (Err RecvClosed)), OClosed lost true s, [])
  | OpSend x, OActive w => Some (OutSend (Ok tt), OSent w x, [])
  | OpSend x, OClosed None w _ => Some (OutSend (Err (mkClosed x)), OClosed None w true, [])
  | OpSendBytes bs, OActive w =>
      match pc_from_bytes bs with
      | Ok x => Some (OutDeser (Ok tt), OSent w x, [])
      | Err e => Some (OutDeser (Err (Deserialize e (type_name T))), OIdle w, [])
      end
  | OpSendBytes bs, OClosed None w s =>
      match pc_from_bytes bs with
      | Ok x => Some (OutDeser (Err DeserClosed), OClosed None w true, [x])
      | Err e => Some (OutDeser (Err (Deserialize e (type_name T))), OClosed None w s, [])
      end
  | OpDropSender, OActive w => Some (OutUnit, OIdle w, [])
  | OpDropSender, OClosed lost w s => Some (OutUnit, OClosed lost w s, [])
  | OpClose, OIdle _ | OpClose, OActive _ => Some (OutUnit, OClosed None false false, [])
  | OpClose, OSent _ x => Some (OutUnit, OClosed (Some x) false false, [])
  | _, _ => None
  end.

(** The reference counting of a vtable touches nothing else. *)
Definition vt_ok (vt : RefVtable T) : Prop := vt = ARC_VTABLE \/ vt = STATIC_VTABLE.

Ltac os_cases :=
  repeat match goal with
    | H : os_rep _ _ |- _ => destruct H
    | H : vt_ok _ |- _ => destruct H as [->| ->]
    | o : Oneshot T |- _ => destruct o
    | b : bool |- _ => destruct b
    end; cbn in *; simplify_eq.
Ltac os_compute := cbv -[wc_wake wc_poll_wait wc_close wc_closed pc_from_bytes app Z.add Z.sub assert_matches TypeInfo_of type_name].
Ltac os_eval :=
  unfold wp; cbn [os_run]; os_compute; rewrite ?assert_matches_of;
  try match goal with H : pc_from_bytes _ = _ |- _ => rewrite H end;
  os_compute; rewrite ?assert_matches_of; os_compute.

(** Calls that do not wait. *)
Lemma os_ready_wp op vt o ph out ph' d :
  vt_ok vt -> (forall w, (op, ph) <> (OpRecv, OActive w)) -> os_rep o ph -> os_spec op ph = Some (out, ph', d) ->
  wp (os_run vt op) (fun r o' => r = out /\ os_rep o' ph' /\ os_dropped o' = os_dropped o ++ d) o.
Proof.
  intros Hvt Hne Ho Hs. destruct op, ph; cbn in Hs; try (by specialize (Hne waiting));
    repeat (case_match; simplify_eq/=); os_cases; os_eval.
  all: eexists _, _; (split; [reflexivity|]); (split; [reflexivity|]).
  all: split; [split; cbn; rewrite ?wc_close_closed, ?wc_wake_closed; done|cbn; rewrite ?app_nil_r; done].
Qed.

(** A poll before the message was sent: at most one stored wakeup is consumed. *)
Lemma poll_recv_pending o w :
  os_rep o (OActive w) ->
  wp (poll_recv 2) (fun r o' => r = Pending /\ os_rep o' (OActive true) /\ os_dropped o' = os_dropped o) o.
Proof.
  intros Ho. destruct o as [st wait cell strong dropped], Ho as [Hst Hc Hw]. cbn in *. subst st cell.
  assert (Hor : Z.lor (os_word (OActive w)) RX_WAITING = 7) by (by destruct w).
  pose proof (wc_poll_closed_same wait) as Hc1. pose proof (wc_poll_open wait) as Ho1.
  pose proof (wc_poll_consumes wait) as Hn. unfold wp. cbn [poll_recv].
  cbv [mbind M_bind mret M_ret state_fetch_or wait_poll set_os_state set_os_wait Oneshot.os_state Oneshot.os_wait
    Oneshot.os_cell Oneshot.os_strong Oneshot.os_dropped]. cbn [os_word] in Hor. rewrite Hor.
  replace (has (Z.lor (Z.lor HAS_RX HAS_TX) (bit w RX_WAITING)) CLOSED) with false by (by destruct w).
  replace (has (Z.lor (Z.lor HAS_RX HAS_TX) (bit w RX_WAITING)) SENT) with false by (by destruct w).
  replace (has (Z.lor (Z.lor HAS_RX HAS_TX) (bit w RX_WAITING)) HAS_TX) with true by (by destruct w).
  change (has 7 CLOSED) with false. change (has 7 SENT) with false. change (has 7 HAS_TX) with true. cbn [negb].
  destruct (wc_poll_wait wait) as [w1 [|[[]|[]]]]; cbn in Hc1, Ho1, Hn; [|clear Ho1|by destruct Ho1].
  - eexists _, _. split; [reflexivity|]. split; [done|]. split; [|done]. split; [done|done|]. cbn. congruence.
  - specialize (Hn eq_refl). pose proof (wc_poll_closed_same w1) as Hc2.
    destruct (wc_poll_wait w1) as [w2 p2] eqn:Hp. cbn in Hn, Hc2. subst p2.
    eexists _, _. split; [cbv -[wc_poll_wait wc_closed app]; rewrite Hp; reflexivity|]. split; [done|]. split; [|done]. split; [done|done|]. cbn. congruence.
Qed.

Lemma os_wp op vt o ph out ph' d :
  vt_ok vt -> os_rep o ph -> os_spec op ph = Some (out, ph', d) ->
  wp (os_run vt op) (fun r o' => r = out /\ os_rep o' ph' /\ os_dropped o' = os_dropped o ++ d) o.
Proof.
  intros Hvt Ho Hs.
  assert ((exists w, op = OpRecv /\ ph = OActive w) \/ forall w, (op, ph) <> (OpRecv, OActive w)) as [(w & -> & ->)|Hne].
  { destruct op, ph; try (right; done). left. by exists waiting. }
  - cbn in Hs. simplify_eq. apply wp_bind, wp_bind. eapply wp_mono; [by apply (poll_recv_pending _ w)|].
    intros p o' (-> & Ho' & Hd). apply wp_ret, wp_ret. by rewrite app_nil_r.
  - by eapply os_ready_wp.
Qed.

(** C25: The one-shot channel, call by call: a sender is handed out only when there is none, a
    receive waits for the active sender and takes its message exactly once, a send to a
    closed channel gives the message back (deserialized: drops it once), bytes that do not
    decode release the sender.  The specification also records where the code departs from
    its documentation: [sender] on an unreceived message drops the message and fails
    although the channel is free then, and [close] leaks an unreceived message. *)
Theorem oneshot_refines op vt o ph out ph' d :
  vt_ok vt -> os_rep o ph -> os_spec op ph = Some (out, ph', d) ->
  wp (os_run vt op) (fun r o' => r = out /\ os_rep o' ph' /\ os_dropped o' = os_dropped o ++ d) o.
Proof. apply os_wp. Qed.

(** ** Reuse *)

(** One round: take a sender, poll the receiver too early, send, receive. *)
Definition round (vt : RefVtable T) (x : T) : M (Oneshot T) (list os_out) :=
  a ← os_run vt OpSender; b ← os_run vt OpRecv; c ← os_run vt (OpSend x); d ← os_run vt OpRecv; mret [a; b; c; d].
Fixpoint rounds (vt : RefVtable T) (xs : list T) : M (Oneshot T) (list (list os_out)) :=
  match xs with [] => mret [] | x :: xs => l ← round vt x; ls ← rounds vt xs; mret (l :: ls) end.

(** The channel can be reused without end: a new channel carries any list of messages, one
    after the other, each through a fresh sender; every receive waits until the message is
    sent and then returns it, and nothing is dropped. *)
Theorem oneshot_reuse vt xs :
  vt_ok vt ->
  wp (rounds vt xs) (fun r o => os_rep o (OIdle false) /\ os_dropped o = [] /\
    r = (fun x => [OutSender (Ok tt); OutRecv Pending; OutSend (Ok tt); OutRecv (Ready (Ok x))]) <$> xs) Receiver_new.
Proof.
  intros Hvt.
  assert (Hgo : forall o, os_rep o (OIdle false) -> os_dropped o = [] ->
    wp (rounds vt xs) (fun r o => os_rep o (OIdle false) /\ os_dropped o = [] /\
      r = (fun x => [OutSender (Ok tt); OutRecv Pending; OutSend (Ok tt); OutRecv (Ready (Ok x))]) <$> xs) o).
  { induction xs as [|x xs IH]; intros o Ho Hd; [by apply wp_ret|]. cbn [rounds]. apply wp_bind. unfold round.
    apply wp_bind. eapply wp_mono; [by apply (os_wp OpSender vt o (OIdle false))|]. intros a o1 (-> & Ho1 & Hd1).
    apply wp_bind. eapply wp_mono; [by apply (os_wp OpRecv vt o1 (OActive false))|]. intros b o2 (-> & Ho2 & Hd2).
    apply wp_bind. eapply wp_mono; [by apply (os_wp (OpSend x) vt o2 (OActive true))|]. intros c o3 (-> & Ho3 & Hd3).
    apply wp_bind. eapply wp_mono; [by apply (os_wp OpRecv vt o3 (OSent true x))|]. intros d o4 (-> & Ho4 & Hd4).
    apply wp_ret, wp_bind. rewrite Hd3, Hd2, Hd1, Hd in Hd4. cbn in Hd4.
    eapply wp_mono; [by apply IH|]. intros ls o5 (Ho5 & Hd5 & ->). by apply wp_ret. }
  apply Hgo; [|done]. split; [done|done|apply wc_new_closed].
Qed.

(** ** A send and a receive at the same time *)

Definition active_word (w : bool) : Z := os_word (OActive w).
Definition sent_word (w : bool) (x : T) : Z := os_word (OSent w x).
Definition woken o : Prop := snd (wc_poll_wait (os_wait o)) = Ready (Ok tt).

(** The receiver waits, or is about to, so its flag is in the word. *)
Definition rv_waits (pc : recv_pc T) : bool := match pc with RecvWait | RecvParked => true | _ => false end.
Definition rv_before (pc : recv_pc T) : bool := match pc with RecvStart | RecvWait | RecvParked => true | _ => false end.

Inductive duo_inv (x : T) : duo T -> Prop :=
| DiBefore o spc rpc w :
    os_state o = active_word w -> rv_before rpc = true -> (rv_waits rpc = true -> w = true) ->
    spc = SendWrite x /\ os_cell o = None \/ spc = SendFinish /\ os_cell o = Some x ->
    wc_closed (os_wait o) = false -> duo_inv x (mkDuo o spc rpc)
| DiSent o spc rpc w :
    os_state o = sent_word w x -> rv_before rpc = true \/ rpc = RecvTake -> os_cell o = Some x ->
    spc = SendWake \/ (spc = SendDone /\ (rv_waits rpc = true -> woken o)) ->
    wc_closed (os_wait o) = false -> duo_inv x (mkDuo o spc rpc)
| DiTaken o spc rpc :
    os_cell o = None -> rpc = RecvStore x \/ rpc = RecvGot x -> spc = SendWake \/ spc = SendDone ->
    wc_closed (os_wait o) = false -> duo_inv x (mkDuo o spc rpc).

Lemma duo_step_send x d : duo_inv x d -> wp (duo_step true) (fun _ d' => duo_inv x d') d.
Proof.
  intros Hd. destruct Hd as [o spc rpc w Hs Hr Hw [[-> Hc]|[-> Hc]] Hcl|o spc rpc w Hs Hr Hc [->|[-> Hw]] Hcl|o spc rpc Hc Hr [->| ->] Hcl].
  - eexists _, tt. split; [reflexivity|]. eapply DiBefore; cbn; eauto.
  - destruct o as [st wait cell strong dropped]. cbn in Hs, Hc, Hcl. subst st cell.
    destruct w; (eexists _, tt; split; [reflexivity|]).
    + by apply (DiSent x _ _ _ true); cbn; auto.
    + apply (DiSent x _ _ _ false); cbn; auto. right. split; [done|]. intros H. by apply Hw in H.
  - eexists _, tt. split; [reflexivity|]. apply (DiSent x _ _ _ w); cbn; rewrite ?wc_wake_closed; auto.
    right. split; [done|]. intros _. by apply wc_wake_ready.
  - eexists _, tt. split; [reflexivity|]. apply (DiSent x _ _ _ w); cbn; auto.
  - eexists _, tt. split; [reflexivity|]. apply DiTaken; cbn; rewrite ?wc_wake_closed; auto.
  - eexists _, tt. split; [reflexivity|]. apply DiTaken; cbn; auto.
Qed.

Ltac duo_next Hp :=
  eexists _, tt; (split; [cbv -[wc_poll_wait]; rewrite Hp; reflexivity|]).

Lemma duo_step_recv x d : duo_inv x d -> wp (duo_step false) (fun _ d' => duo_inv x d') d.
Proof.
  intros Hd. destruct Hd as [o spc rpc w Hs Hr Hw Hc Hcl|o spc rpc w Hs Hr Hc Hsp Hcl|o spc rpc Hc Hr Hsp Hcl].
  - destruct o as [st wait cell strong dropped]. cbn in Hs, Hc, Hcl. subst st.
    destruct rpc; try done.
    + destruct w; (eexists _, tt; split; [reflexivity|]); apply (DiBefore x _ _ _ true); cbn; auto.
    + rewrite (Hw eq_refl). pose proof (wc_poll_closed_same wait) as H1. pose proof (wc_poll_open wait) as H2.
      destruct (wc_poll_wait wait) as [w1 [|[[]|[]]]] eqn:Hp; cbn in *; [| |by destruct H2];
      duo_next Hp; apply (DiBefore x _ _ _ true); cbn; auto; congruence.
    + pose proof (wc_poll_open wait) as H2.
      destruct (wc_poll_wait wait) as [w1 [|[[]|[]]]] eqn:Hp; cbn in *; [| |by destruct H2];
      duo_next Hp; apply (DiBefore x _ _ _ w); cbn; auto; done.
  - destruct o as [st wait cell strong dropped]. cbn in Hs, Hc, Hcl. subst st cell.
    destruct rpc; try (by destruct Hr).
    + destruct w; (eexists _, tt; split; [reflexivity|]); apply (DiSent x _ _ _ true); cbn; auto;
        (destruct Hsp as [->|[-> ?]]; [by left|by right]).
    + pose proof (wc_poll_closed_same wait) as H1. pose proof (wc_poll_open wait) as H2. unfold woken in Hsp. cbn in Hsp.
      destruct (wc_poll_wait wait) as [w1 [|[[]|[]]]] eqn:Hp; cbn in *; [| |by destruct H2];
      duo_next Hp; apply (DiSent x _ _ _ w); cbn; auto; try congruence;
      (destruct Hsp as [->|[-> Hwk]]; [by left|]); [by specialize (Hwk eq_refl)|by right].
    + pose proof (wc_poll_open wait) as H2. unfold woken in Hsp. cbn in Hsp.
      destruct (wc_poll_wait wait) as [w1 [|[[]|[]]]] eqn:Hp; cbn in *; [| |by destruct H2];
      duo_next Hp; apply (DiSent x _ _ _ w); cbn; auto;
      (destruct Hsp as [->|[-> Hwk]]; [by left|]); [by specialize (Hwk eq_refl)|by right].
    + eexists _, tt. split; [reflexivity|]. apply DiTaken; cbn; auto. destruct Hsp as [->|[-> ?]]; auto.
  - destruct Hr as [->| ->]; (eexists _, tt; split; [reflexivity|]); apply DiTaken; cbn; auto.
Qed.

Lemma duo_step_wp x who d : duo_inv x d -> wp (duo_step who) (fun _ d' => duo_inv x d') d.
Proof. destruct who; [apply duo_step_send|apply duo_step_recv]. Qed.

Lemma duo_run_wp x l d : duo_inv x d -> wp (duo_run l) (fun _ d' => duo_inv x d') d.
Proof.
  revert d. induction l as [|who l IH]; intros d Hd; [by apply wp_ret|]. cbn. apply wp_bind.
  eapply wp_mono; [by apply (duo_step_wp x)|]. intros ? d' Hd'. by apply IH.
Qed.

(** Once the sender is done, four accesses of the receiver get the message. *)
Lemma duo_done_delivers x d :
  duo_inv x d -> duo_send d = SendDone -> wp (duo_run [false; false; false; false]) (fun _ d' => duo_recv d' = RecvGot x) d.
Proof.
  intros Hd Hdone. destruct Hd as [o spc rpc w Hs Hr Hw Hc Hcl|o spc rpc w Hs Hr Hc Hsp Hcl|o spc rpc Hc Hr Hsp Hcl]; cbn in Hdone.
  - by destruct Hc as [[-> _]|[-> _]].
  - destruct o as [st wait cell strong dropped]. cbn in Hs, Hc, Hcl. subst st cell.
    destruct Hsp as [->|[-> Hwk]]; [done|]. unfold woken in Hwk. cbn in Hwk.
    destruct rpc; cbn in Hwk; try (by destruct Hr).
    + destruct w; eexists _, tt; (split; [reflexivity|done]).
    + specialize (Hwk eq_refl). destruct (wc_poll_wait wait) as [w1 p] eqn:Hp. cbn in Hwk. subst p.
      destruct w; unfold wp; cbv -[wc_poll_wait]; rewrite Hp; eexists _, tt; (split; [reflexivity|done]).
    + specialize (Hwk eq_refl). destruct (wc_poll_wait wait) as [w1 p] eqn:Hp. cbn in Hwk. subst p.
      destruct w; unfold wp; cbv -[wc_poll_wait]; rewrite Hp; eexists _, tt; (split; [reflexivity|done]).
    + eexists _, tt; (split; [reflexivity|done]).
  - destruct Hr as [->| ->]; eexists _, tt; (split; [reflexivity|done]).
Qed.

(** However the accesses of a send and of a receive interleave, the receiver never fails,
    never reads the cell before the message is in it and never gets anything but the
    message; and the wakeup is not lost: once the sender is done, wherever the receiver is
    (asleep included), its next four accesses return the message. *)
Theorem oneshot_interleaved_delivers x o w l :
  os_rep o (OActive w) ->
  wp (duo_run l) (fun _ d =>
    duo_recv d <> RecvFailed /\ (forall y, duo_recv d = RecvGot y -> y = x) /\
    (duo_send d = SendDone ->
       wp (duo_run [false; false; false; false]) (fun _ d' => duo_recv d' = RecvGot x) d)) (duo_start x o).
Proof.
  intros [Hst Hc Hw]. cbn in Hc, Hw. eapply wp_mono; [apply (duo_run_wp x)|].
  - apply (DiBefore x _ _ _ w); cbn; auto. done.
  - intros ? d Hd. split_and!; [|intros y Hy|by intros; apply duo_done_delivers].
    + destruct Hd as [???? _ Hr|???? _ [Hr| ->]|??? _ [->| ->]]; try done; intros Hf; cbn in Hf; subst; done.
    + destruct Hd as [???? _ Hr|???? _ [Hr| ->]|??? _ [->| ->]]; cbn in Hy; subst; by simplify_eq/=.
Qed.

(** ** Calls that go wrong *)

Lemma take_sender_spins o : os_state o = Z.lor HAS_RX RX_WAITING ->
  forall fuel, take_sender_poll fuel TakeLoop o = (o, OutOfFuel).
Proof.
  intros Hst. induction fuel as [|fuel IH]; [done|]. cbn [take_sender_poll].
  unfold state_cas at 1. cbv [mbind M_bind]. rewrite Hst. exact IH.
Qed.

(** A receive without a sender leaves its RX_WAITING flag behind, and from then on
    [sender] never returns: its loop has no exit for that state and does not wait, so no
    amount of fuel ends it.  The same happens when a sender is dropped while the receiver
    waits, and then the receiver is not even woken. *)
Theorem sender_never_returns vt o w :
  vt_ok vt ->
  (os_rep o (OIdle w) ->
     wp (os_run vt OpRecv) (fun r o' => r = OutRecv (Ready (Err NoSender)) /\
       forall fuel, snd (Receiver_sender_poll vt fuel TakeLoop o') = OutOfFuel) o) /\
  (os_rep o (OActive true) ->
     wp (os_run vt OpDropSender) (fun _ o' => os_wait o' = os_wait o /\
       forall fuel, snd (Receiver_sender_poll vt fuel TakeLoop o') = OutOfFuel) o).
Proof.
  intros Hvt.
  assert (Hspin : forall o', os_rep o' (OIdle true) -> forall fuel, snd (Receiver_sender_poll vt fuel TakeLoop o') = OutOfFuel).
  { intros o' [Hst _ _] fuel. unfold Receiver_sender_poll. cbv [mbind M_bind].
    by rewrite (take_sender_spins o' Hst fuel). }
  split; intros Ho.
  - eapply wp_mono; [by apply (os_wp OpRecv vt o (OIdle w))|]. intros r o' (-> & Ho' & _). split; [done|]. by apply Hspin.
  - destruct (os_wp OpDropSender vt o (OActive true) OutUnit (OIdle true) [] Hvt Ho eq_refl) as (o' & r & Hrun & _ & Ho' & _).
    exists o', r. split; [done|]. split; [|by apply Hspin].
    destruct Hvt as [->| ->]; cbv in Hrun; by injection Hrun as <- _.
Qed.

(** Closing a channel that holds an unreceived message forgets the message: it is neither
    dropped nor given back.  Closing a closed channel is worse: after a send that failed
    because of the first [close] (which gave its message back), the second [close] takes
    the flags for an unreceived message and drops the cell, whose value is gone. *)
Theorem close_loses_and_double_drops vt o w x :
  vt_ok vt ->
  (os_rep o (OSent w x) ->
     wp (os_run vt OpClose) (fun _ o' => os_cell o' = Some x /\ os_dropped o' = os_dropped o) o) /\
  (os_rep o (OActive w) ->
     wp (os_run vt OpClose;; os_run vt (OpSend x)) (fun r o' => r = OutSend (Err (mkClosed x)) /\
       snd (os_run vt OpClose o') = Panic) o).
Proof.
  intros Hvt. split; intros Ho.
  - eapply wp_mono; [by apply (os_wp OpClose vt o (OSent w x))|]. intros r o' (_ & Ho' & Hd).
    rewrite app_nil_r in Hd. split; [|done]. apply Ho'.
  - apply wp_bind. eapply wp_mono; [by apply (os_wp OpClose vt o (OActive w))|]. intros _ o1 (_ & Ho1 & _).
    eapply wp_mono; [by apply (os_wp (OpSend x) vt o1 (OClosed None false false))|]. intros r o2 (-> & Ho2 & _).
    split; [done|]. destruct o2, Ho2. cbn in *. subst. reflexivity.
Qed.
End OneshotSpec.
