(* ===== verification/OneshotRace.v ===== *)
(** A one-shot channel that is closed while a message is sent and received.

    Three parties run at the same time, an access each at a time: a sender that sends [x],
    a receiver that is polled until it is ready, and [Receiver::close].  The invariant
    says where the message is in every state they can reach. *)
From S2P Require Import Prelude Interfaces TypeInfo Oneshot OneshotSpec.

Section Race.
Context {WCA : WaitCellApi} {WCL : WaitCellLaws} {T : Type} {AN : Any T} {PC : Postcard T}.
Implicit Types (o : Oneshot T) (t : trio T).

(** *** The state words *)

Definition open_word (w : bool) : Z := active_word (T := T) w.
Definition full_word (w : bool) : Z := Z.lor (open_word w) SENT.
Definition shut_word (w : bool) : Z := os_word (T := T) (OClosed None w false).
Definition late_word (w : bool) : Z := os_word (T := T) (OClosed None w true).

(** The closer has not started, or it has set the flag, with nothing to drop. *)
Definition opened (k : close_pc) o : Prop := k = CloseSwap /\ wc_closed (os_wait o) = false.
Definition closing (k : close_pc) o : Prop :=
  match k with
  | CloseWait st => has st SENT && negb (has st HAS_TX) = false /\ has st CLOSED = false /\ wc_closed (os_wait o) = false
  | CloseDone => wc_closed (os_wait o) = true
  | _ => False
  end.
Definition rv_waiting (r : recv_pc T) : bool := match r with RecvFailed => true | _ => rv_before r end.

(** Before the sender has set its flag; after; and once the message is out of the cell. *)
Definition writes (x : T) (spc : send_pc T) o : Prop :=
  spc = SendWrite x /\ os_cell o = None \/ spc = SendFinish /\ os_cell o = Some x.
Definition takes_back (x : T) (spc : send_pc T) o : Prop :=
  spc = SendTakeBack /\ os_cell o = Some x \/ (spc = SendDropTx x \/ spc = SendRefused x) /\ os_cell o = None.
Definition went (spc : send_pc T) : Prop := spc = SendWake \/ spc = SendDone.

Inductive trio_inv (x : T) : trio T -> Prop :=
| TiBefore o spc rpc k w :
    opened k o -> os_state o = open_word w -> rv_before rpc = true -> (rv_waits rpc = true -> w = true) ->
    writes x spc o -> trio_inv x (mkTrio o spc rpc k)
| TiSent o spc rpc k w :
    opened k o -> os_state o = full_word w -> rv_before rpc = true \/ rpc = RecvTake -> os_cell o = Some x ->
    spc = SendWake \/ (spc = SendDone /\ (rv_waits rpc = true -> woken o)) -> trio_inv x (mkTrio o spc rpc k)
| TiTaken o spc rpc k w :
    opened k o -> rpc = RecvStore x /\ os_state o = full_word w \/ rpc = RecvGot x /\ os_state o = HAS_RX ->
    os_cell o = None -> went spc -> trio_inv x (mkTrio o spc rpc k)
| TiShut o spc rpc k w :
    closing k o -> os_state o = shut_word w -> rv_waiting rpc = true -> writes x spc o -> trio_inv x (mkTrio o spc rpc k)
| TiLate o spc rpc k w :
    closing k o -> os_state o = late_word w -> rv_waiting rpc = true -> takes_back x spc o -> trio_inv x (mkTrio o spc rpc k)
| TiShutSent o spc rpc k w :
    closing k o -> os_state o = shut_word w -> rv_waiting rpc = true \/ rpc = RecvTake -> os_cell o = Some x ->
    went spc -> trio_inv x (mkTrio o spc rpc k)
| TiShutTaken o spc rpc k :
    closing k o -> rpc = RecvStore x \/ rpc = RecvGot x -> (exists w, os_state o = shut_word w) \/ os_state o = HAS_RX ->
    os_cell o = None -> went spc -> trio_inv x (mkTrio o spc rpc k).


Lemma opened_same k o o' : wc_closed (os_wait o') = wc_closed (os_wait o) -> opened k o -> opened k o'.
Proof. unfold opened. congruence. Qed.
Lemma closing_same k o o' : wc_closed (os_wait o') = wc_closed (os_wait o) -> closing k o -> closing k o'.
Proof. intros He Hk. destruct k; cbn in *; rewrite ?He; done. Qed.

(** What an access keeps: the invariant, and what was dropped. *)
Definition keeps (x : T) t : unit -> trio T -> Prop :=
  fun _ t' => trio_inv x t' /\ os_dropped (trio_chan t') = os_dropped (trio_chan t).
Ltac run_access := eexists _, tt; split; [reflexivity|]; split; [|done].

(** An access of the closer. *)
Lemma trio_step_close x t : trio_inv x t -> wp (trio_step ACloser) (keeps x t) t.
Proof.
  intros Ht. destruct Ht as [o spc rpc k w [-> Hcl] Hs Hr Hw Hsp|o spc rpc k w [-> Hcl] Hs Hr Hc Hsp|o spc rpc k w [-> Hcl] Hr Hc Hsp
    |o spc rpc k w Hk Hs Hr Hsp|o spc rpc k w Hk Hs Hr Hsp|o spc rpc k w Hk Hs Hr Hc Hsp|o spc rpc k Hk Hr Hs Hc Hsp].
  - run_access. apply (TiShut x _ _ _ _ false); cbn; [|done|by destruct rpc|done]. rewrite Hs. by destruct w.
  - run_access. apply (TiShutSent x _ _ _ _ false); cbn; try done.
    + rewrite Hs. by destruct w.
    + destruct Hr; [left; by destruct rpc|by right].
    + destruct Hsp as [->|[-> _]]; [by left|by right].
  - run_access. apply TiShutTaken; cbn; try done.
    + destruct Hr as [[_ Hs]|[_ Hs]]; rewrite Hs; by destruct w.
    + destruct Hr as [[-> _]|[-> _]]; [by left|by right].
    + left. by exists false.
  - destruct k as [|st| |]; [done| |done|].
    + destruct Hk as (Hd & Hn & _). eexists _, tt. split; [cbn; run_M; by rewrite Hd, Hn|]. split; [|done].
      apply (TiShut x _ _ _ _ w); cbn; try done. apply wc_close_closed.
    + run_access. by apply (TiShut x _ _ _ _ w).
  - destruct k as [|st| |]; [done| |done|].
    + destruct Hk as (Hd & Hn & _). eexists _, tt. split; [cbn; run_M; by rewrite Hd, Hn|]. split; [|done].
      apply (TiLate x _ _ _ _ w); cbn; try done. apply wc_close_closed.
    + run_access. by apply (TiLate x _ _ _ _ w).
  - destruct k as [|st| |]; [done| |done|].
    + destruct Hk as (Hd & Hn & _). eexists _, tt. split; [cbn; run_M; by rewrite Hd, Hn|]. split; [|done].
      apply (TiShutSent x _ _ _ _ w); cbn; try done. apply wc_close_closed.
    + run_access. by apply (TiShutSent x _ _ _ _ w).
  - destruct k as [|st| |]; [done| |done|].
    + destruct Hk as (Hd & Hn & _). eexists _, tt. split; [cbn; run_M; by rewrite Hd, Hn|]. split; [|done].
      apply TiShutTaken; cbn; try done. apply wc_close_closed.
    + run_access. by apply TiShutTaken.
Qed.

(** An access of the sender. *)
Lemma trio_step_send x t : trio_inv x t -> wp (trio_step ASender) (keeps x t) t.
Proof.
  intros Ht. destruct Ht as [o spc rpc k w Hk Hs Hr Hw Hsp|o spc rpc k w Hk Hs Hr Hc Hsp|o spc rpc k w Hk Hr Hc Hsp
    |o spc rpc k w Hk Hs Hr Hsp|o spc rpc k w Hk Hs Hr Hsp|o spc rpc k w Hk Hs Hr Hc Hsp|o spc rpc k Hk Hr Hs Hc Hsp];
    destruct o as [st wait cell strong dropped]; cbn in *.
  - destruct Hsp as [[-> Hc]|[-> Hc]]; cbn in Hc; subst.
    + run_access. apply (TiBefore x _ _ _ _ w); cbn; try done. by right.
    + destruct w; run_access.
      * apply (TiSent x _ _ _ _ true); cbn; auto.
      * apply (TiSent x _ _ _ _ false); cbn; auto. right. split; [done|]. intros Hf. by apply Hw in Hf.
  - subst. destruct Hsp as [->|[-> Hwk]]; run_access.
    + apply (TiSent x _ _ _ _ w); cbn; auto. { eapply opened_same; [|exact Hk]. apply wc_wake_closed. }
      right. split; [done|]. intros _. apply wc_wake_ready. by destruct Hk.
    + apply (TiSent x _ _ _ _ w); cbn; auto.
  - destruct Hsp as [->| ->]; run_access; apply (TiTaken x _ _ _ _ w); cbn; auto; try (by right).
    eapply opened_same; [|exact Hk]. apply wc_wake_closed.
  - destruct Hsp as [[-> Hc]|[-> Hc]]; cbn in Hc; subst.
    + run_access. apply (TiShut x _ _ _ _ w); cbn; try done. by right.
    + destruct w; run_access; [apply (TiLate x _ _ _ _ true)|apply (TiLate x _ _ _ _ false)]; cbn; try done; by left.
  - destruct Hsp as [[-> Hc]|[[->| ->] Hc]]; cbn in Hc; subst.
    + run_access. apply (TiLate x _ _ _ _ w); cbn; try done. right. split; [by left|done].
    + run_access. apply (TiLate x _ _ _ _ w); cbn; try done; [by destruct w|]. right. split; [by right|done].
    + run_access. apply (TiLate x _ _ _ _ w); cbn; try done. right. split; [by right|done].
  - destruct Hsp as [->| ->]; run_access; apply (TiShutSent x _ _ _ _ w); cbn; auto; try (by right).
    eapply closing_same; [|exact Hk]. apply wc_wake_closed.
  - destruct Hsp as [->| ->]; run_access; apply TiShutTaken; cbn; auto; try (by right).
    eapply closing_same; [|exact Hk]. apply wc_wake_closed.
Qed.

(** The receiver polls its cell, or is woken and polls again. *)
Lemma recv_polls (pc : recv_pc T) o : rv_waits pc = true ->
  exists w' pc', recv_step pc o = (set_os_wait w' o, Val pc') /\ wc_closed w' = wc_closed (os_wait o) /\
    rv_waiting pc' = true /\
    (wc_closed (os_wait o) = false -> rv_before pc' = true /\ (woken o -> pc' = RecvStart)) /\
    (wc_closed (os_wait o) = true -> rv_waits pc' = false).
Proof.
  intros Hpc. pose proof (wc_poll_closed (os_wait o)) as H3. pose proof (wc_poll_closed_same (os_wait o)) as H1. pose proof (wc_poll_open (os_wait o)) as H2.
  assert (Hsame : set_os_wait (os_wait o) o = o) by (by destruct o).
  unfold woken. destruct pc; try done; cbn [recv_step]; unfold wait_poll; run_M;
    destruct (wc_poll_wait (os_wait o)) as [w' p] eqn:Hp; cbn in *.
  - exists w'. destruct p as [|[[]|[]]]; eexists; (split; [reflexivity|]); split_and!; try done; intros Hcl; try done; try (by destruct (H2 Hcl)); by specialize (H3 Hcl).
  - exists (os_wait o). rewrite Hsame. destruct p as [|[[]|[]]]; eexists; (split; [reflexivity|]); split_and!; try done; intros Hcl; by specialize (H3 Hcl).
Qed.

(** An access of the receiver's task, by what it does. *)
Lemma recv_access x t o' pc' :
  recv_step (trio_recv t) (trio_chan t) = (o', Val pc') ->
  trio_inv x (mkTrio o' (trio_send t) pc' (trio_close t)) -> os_dropped o' = os_dropped (trio_chan t) ->
  wp (trio_step AReceiver) (keeps x t) t.
Proof. intros H Hi Hd. eexists _, tt. split; [cbn; by rewrite H|]. by split. Qed.

Lemma trio_step_recv x t : trio_inv x t -> wp (trio_step AReceiver) (keeps x t) t.
Proof.
  intros Ht. destruct Ht as [o spc rpc k w Hk Hs Hr Hw Hsp|o spc rpc k w Hk Hs Hr Hc Hsp|o spc rpc k w Hk Hr Hc Hsp
    |o spc rpc k w Hk Hs Hr Hsp|o spc rpc k w Hk Hs Hr Hsp|o spc rpc k w Hk Hs Hr Hc Hsp|o spc rpc k Hk Hr Hs Hc Hsp].
  - destruct (rv_waits rpc) eqn:Hwt.
    + destruct (recv_polls _ o Hwt) as (w' & pc' & Hst & Hcl & _ & Hb & _). destruct (Hb (proj2 Hk)) as [Hb' _].
      eapply recv_access; [exact Hst| |done]. apply (TiBefore x _ _ _ _ w); cbn; auto. by eapply opened_same.
    + destruct rpc; try done. destruct o as [st wait cell strong dropped]. cbn in Hs. subst st.
      eapply recv_access; [reflexivity| |done]. cbn. apply (TiBefore x _ _ _ _ true); cbn; [done|by destruct w|by destruct w|done|done].
  - destruct (rv_waits rpc) eqn:Hwt.
    + destruct (recv_polls _ o Hwt) as (w' & pc' & Hst & Hcl & _ & Hb & _). destruct (Hb (proj2 Hk)) as [Hb' Hwk].
      eapply recv_access; [exact Hst| |done]. apply (TiSent x _ _ _ _ w); cbn; auto; [by eapply opened_same|].
      destruct Hsp as [->|[-> Hwk']]; [by left|]. right. split; [done|]. rewrite (Hwk (Hwk' eq_refl)). done.
    + destruct o as [st wait cell strong dropped]. cbn in Hs, Hc. subst st cell.
      destruct rpc; try (by destruct Hr); (eapply recv_access; [reflexivity| |done]); cbn.
      * apply (TiSent x _ _ _ _ true); cbn; [done|by destruct w|right; by destruct w|done|]. destruct Hsp as [->|[-> _]]; [by left|right]. by destruct w.
      * apply (TiTaken x _ _ _ _ w); cbn; auto. destruct Hsp as [->|[-> _]]; [by left|by right].
  - destruct o as [st wait cell strong dropped]. cbn in Hc. subst cell.
    destruct Hr as [[-> Hs]|[-> Hs]]; (eapply recv_access; [reflexivity| |done]); apply (TiTaken x _ _ _ _ w); cbn in *; auto.
  - destruct (rv_waits rpc) eqn:Hwt.
    + destruct (recv_polls _ o Hwt) as (w' & pc' & Hst & Hcl & Hb & _ & _).
      eapply recv_access; [exact Hst| |done]. apply (TiShut x _ _ _ _ w); cbn; auto. by eapply closing_same.
    + destruct o as [st wait cell strong dropped]. cbn in Hs. subst st. destruct rpc; try done; (eapply recv_access; [reflexivity| |done]); cbn.
      * apply (TiShut x _ _ _ _ true); cbn; [done|by destruct w|by destruct w|done].
      * by apply (TiShut x _ _ _ _ w).
  - destruct (rv_waits rpc) eqn:Hwt.
    + destruct (recv_polls _ o Hwt) as (w' & pc' & Hst & Hcl & Hb & _ & _).
      eapply recv_access; [exact Hst| |done]. apply (TiLate x _ _ _ _ w); cbn; auto. by eapply closing_same.
    + destruct o as [st wait cell strong dropped]. cbn in Hs. subst st. destruct rpc; try done; (eapply recv_access; [reflexivity| |done]); cbn.
      * apply (TiLate x _ _ _ _ true); cbn; [done|by destruct w|by destruct w|done].
      * by apply (TiLate x _ _ _ _ w).
  - destruct (rv_waits rpc) eqn:Hwt.
    + destruct (recv_polls _ o Hwt) as (w' & pc' & Hst & Hcl & Hb & _ & _).
      eapply recv_access; [exact Hst| |done]. apply (TiShutSent x _ _ _ _ w); cbn; auto. by eapply closing_same.
    + destruct o as [st wait cell strong dropped]. cbn in Hs, Hc. subst st cell.
      destruct rpc; try (by destruct Hr); (eapply recv_access; [reflexivity| |done]); cbn.
      * apply (TiShutSent x _ _ _ _ true); cbn; [done|by destruct w|left; by destruct w|done|done].
      * apply TiShutTaken; cbn; auto. left. by exists w.
      * apply (TiShutSent x _ _ _ _ w); cbn; auto.
  - destruct o as [st wait cell strong dropped]. cbn in Hc. subst cell.
    destruct Hr as [->| ->]; (eapply recv_access; [reflexivity| |done]); apply TiShutTaken; cbn in *; auto.
Qed.

Lemma trio_run_wp x l t : trio_inv x t ->
  wp (trio_run l) (fun _ t' => trio_inv x t' /\ os_dropped (trio_chan t') = os_dropped (trio_chan t)) t.
Proof.
  revert t. induction l as [|who l IH]; intros t Ht; [by apply wp_ret|]. cbn. apply wp_bind.
  eapply wp_mono; [destruct who; [by apply (trio_step_send x)|by apply (trio_step_recv x)|by apply (trio_step_close x)]|].
  intros ? t' [Ht' Hd]. eapply wp_mono; [by apply IH|]. intros ? t2 [Ht2 Hd2]. split; [done|congruence].
Qed.

(** *** When everybody else is done *)

(** The sender has returned, and the closer has too or has not started. *)
Definition settled t : Prop :=
  match trio_send t with SendDone | SendRefused _ => True | _ => False end /\
  (trio_close t = CloseSwap \/ trio_close t = CloseDone).
(** Where the message is once the receiver has returned too: received; left in the cell of a
    channel that was closed after the send; given back by the send. *)
Definition ended (x : T) t : Prop :=
  match trio_send t, trio_recv t with
  | SendDone, RecvGot y => y = x /\ os_cell (trio_chan t) = None
  | SendDone, RecvFailed => os_cell (trio_chan t) = Some x /\ trio_close t = CloseDone
  | SendRefused y, RecvFailed => y = x /\ os_cell (trio_chan t) = None /\ trio_close t = CloseDone
  | _, _ => False
  end.
Definition rank (r : recv_pc T) : nat :=
  match r with RecvWait | RecvParked => 4 | RecvStart => 3 | RecvTake => 2 | RecvStore _ => 1 | _ => 0 end.

Lemma rank_ended x t : trio_inv x t -> settled t -> rank (trio_recv t) = 0%nat -> ended x t.
Proof.
  intros Ht [Hd Hk0] Hr0. destruct Ht as [o spc rpc k w Hk Hs Hr Hw Hsp|o spc rpc k w Hk Hs Hr Hc Hsp|o spc rpc k w Hk Hr Hc Hsp
    |o spc rpc k w Hk Hs Hr Hsp|o spc rpc k w Hk Hs Hr Hsp|o spc rpc k w Hk Hs Hr Hc Hsp|o spc rpc k Hk Hr Hs Hc Hsp]; cbn in *.
  - by destruct rpc.
  - destruct Hr as [Hr|Hr]; by destruct rpc.
  - destruct Hr as [[-> _]|[-> _]]; [done|]. by destruct Hsp as [->| ->].
  - by destruct Hsp as [[-> _]|[-> _]].
  - destruct Hk0 as [->|Hk0]; [done|]. destruct Hsp as [[-> _]|[[->| ->] Hc]]; try done. by destruct rpc.
  - destruct Hk0 as [->|Hk0]; [done|]. destruct Hsp as [->| ->]; [done|]. destruct Hr as [Hr|Hr]; by destruct rpc.
  - destruct Hr as [->| ->]; [done|]. by destruct Hsp as [->| ->].
Qed.

Lemma rank_step x t : trio_inv x t -> settled t ->
  wp (trio_step AReceiver) (fun _ t' => settled t' /\ (rank (trio_recv t') <= pred (rank (trio_recv t)))%nat) t.
Proof.
  intros Ht Hset. pose proof Hset as [Hd Hk0].
  assert (Hgo : forall o' pc', recv_step (trio_recv t) (trio_chan t) = (o', Val pc') -> (rank pc' <= pred (rank (trio_recv t)))%nat ->
    wp (trio_step AReceiver) (fun _ t' => settled t' /\ (rank (trio_recv t') <= pred (rank (trio_recv t)))%nat) t).
  { intros o' pc' H Hr. eexists _, tt. split; [cbn; by rewrite H|]. by split. }
  assert (Hpoll : rv_waits (trio_recv t) = true -> woken (trio_chan t) /\ wc_closed (os_wait (trio_chan t)) = false \/ wc_closed (os_wait (trio_chan t)) = true ->
    wp (trio_step AReceiver) (fun _ t' => settled t' /\ (rank (trio_recv t') <= pred (rank (trio_recv t)))%nat) t).
  { intros Hwt Hw. destruct (recv_polls _ (trio_chan t) Hwt) as (w' & pc' & Hst & _ & Hb & Ho & Hc). eapply Hgo; [exact Hst|].
    destruct Hw as [[Hw Hf]|Hw]; [destruct (Ho Hf) as [_ Hst']; rewrite (Hst' Hw); destruct (trio_recv t); cbn in *; done || lia|].
    specialize (Hc Hw). destruct (trio_recv t), pc'; cbn in *; done || lia. }
  destruct Ht as [o spc rpc k w Hk Hs Hr Hw Hsp|o spc rpc k w Hk Hs Hr Hc Hsp|o spc rpc k w Hk Hr Hc Hsp
    |o spc rpc k w Hk Hs Hr Hsp|o spc rpc k w Hk Hs Hr Hsp|o spc rpc k w Hk Hs Hr Hc Hsp|o spc rpc k Hk Hr Hs Hc Hsp]; cbn in *.
  - by destruct Hsp as [[-> _]|[-> _]].
  - destruct Hsp as [->|[-> Hwk]]; [done|]. destruct (rv_waits rpc) eqn:Hwt; [apply Hpoll; [done|left; split; [by apply Hwk|apply Hk]]|].
    destruct o as [st wait cell strong dropped]. cbn in Hs, Hc. subst st cell.
    destruct rpc; try (by destruct Hr); (eapply Hgo; [reflexivity|]); cbn; [by destruct w|done].
  - destruct o as [st wait cell strong dropped]. cbn in Hc. subst cell.
    destruct Hr as [[-> _]|[-> _]]; (eapply Hgo; [reflexivity|]); cbn; lia.
  - by destruct Hsp as [[-> _]|[-> _]].
  - destruct Hk0 as [->|Hk0]; [done|]. subst k. destruct (rv_waits rpc) eqn:Hwt; [apply Hpoll; [done|by right]|].
    destruct o as [st wait cell strong dropped]. cbn in Hs. subst st.
    destruct rpc; try done; (eapply Hgo; [reflexivity|]); cbn; [destruct w; cbv; lia|lia].
  - destruct Hk0 as [->|Hk0]; [done|]. subst k. destruct (rv_waits rpc) eqn:Hwt; [apply Hpoll; [done|by right]|].
    destruct o as [st wait cell strong dropped]. cbn in Hs, Hc. subst st cell.
    destruct rpc; try (by destruct Hr); (eapply Hgo; [reflexivity|]); cbn; [destruct w; cbv; lia|lia|lia].
  - destruct o as [st wait cell strong dropped]. cbn in Hc. subst cell.
    destruct Hr as [->| ->]; (eapply Hgo; [reflexivity|]); cbn; lia.
Qed.

Lemma settled_ends x n t : trio_inv x t -> settled t -> (rank (trio_recv t) <= n)%nat ->
  wp (trio_run (replicate n AReceiver)) (fun _ t' => ended x t') t.
Proof.
  revert t. induction n as [|n IH]; intros t Ht Hs Hr; cbn.
  - apply wp_ret, rank_ended; [done..|lia].
  - destruct (rank_step _ _ Ht Hs) as (t' & [] & Hrun & Hs' & Hr').
    destruct (trio_step_recv _ _ Ht) as (t2 & [] & Hrun2 & Ht' & _). rewrite Hrun in Hrun2. injection Hrun2 as <-.
    apply wp_bind. exists t', tt. split; [done|]. apply IH; [done..|lia].
Qed.
(** C23: A send, a receive and a close of the channel run at the same time, their accesses
    interleaved in any order.  No access reads an empty cell, nothing is dropped, and what
    the receiver gets or the sender gets back is the message.  Once the send has returned,
    and the close too if it has begun, the receiver's task, asleep or not, ends within four
    accesses: the message has been received, or the send has given it back (the close came
    first), or it stays in the cell of the closed channel, undropped. *)
Theorem oneshot_close_race x o w l :
  os_rep o (OActive w) ->
  wp (trio_run l) (fun _ t =>
    os_dropped (trio_chan t) = os_dropped o /\
    (forall y, trio_recv t = RecvGot y \/ trio_send t = SendRefused y -> y = x) /\
    (settled t -> wp (trio_run (replicate 4 AReceiver)) (fun _ t' => ended x t') t)) (trio_start x o).
Proof.
  intros [Hst Hc Hw]. cbn in Hc, Hw. eapply wp_mono; [apply (trio_run_wp x)|].
  - apply (TiBefore x _ _ _ _ w); [done|exact Hst|done|done|by left].
  - intros ? t [Ht Hd]. split_and!; [exact Hd| |intros Hs; apply settled_ends; [done..|by destruct (trio_recv t); cbn; lia]].
    intros y Hy. destruct Ht as [o1 spc rpc k w1 _ _ Hr _ Hsp|o1 spc rpc k w1 _ _ Hr _ Hsp|o1 spc rpc k w1 _ Hr _ Hsp
      |o1 spc rpc k w1 _ _ Hr Hsp|o1 spc rpc k w1 _ _ Hr Hsp|o1 spc rpc k w1 _ _ Hr _ Hsp|o1 spc rpc k _ Hr _ _ Hsp]; cbn in Hy;
      unfold writes, takes_back, went in Hsp; destruct Hy as [-> | ->]; naive_solver.
Qed.
End Race.
