(* ===== verification/Machine.v ===== *)
(** The interface state machine of [calliope/src/lib.rs], which runs the connection
    table over a wire.

    [Machine::run] is an endless loop around awaits.  [run_step] is one uninterrupted
    stretch of it, from one place where the future may be suspended, or where the loop
    starts over, to the next; [run_poll] is one poll of the future.  The wire is an
    interface: the class [Wire]. *)
From Stdlib Require Import String.
From S2P Require Import Prelude Interfaces Errors Core Pipe BiDi Message ConnTable.

(** [trait Wire]; each future is polled once per call. *)
Class Wire (F : Type) := {
  Wi : Type;
  WireError : Type;
  wire_recv : Wi -> Wi * poll (result bytes WireError);
  wire_send : F -> Wi -> Wi * poll (result unit WireError);
}.

(** [enum InterfaceErrorKind] *)
Inductive InterfaceErrorKind (E : Type) : Type :=
| Send (e : E)
| RecvKind (e : E)
| Proto (msg : string).
Arguments Send {E} e.
Arguments RecvKind {E} e.
Arguments Proto {E} msg.

(** [struct InterfaceError] *)
Record InterfaceError (E : Type) := mkInterfaceError {
  ie_kind : InterfaceErrorKind E;
  ie_ctx : option string;
}.
Arguments mkInterfaceError {E} ie_kind ie_ctx.
Arguments ie_kind {E} i.
Arguments ie_ctx {E} i.

(** [InterfaceError::send], [recv], [with_context], [kind] *)
Definition InterfaceError_send {E} (error : E) : InterfaceError E := mkInterfaceError (Send error) None.
Definition InterfaceError_recv {E} (error : E) : InterfaceError E := mkInterfaceError (RecvKind error) None.
Definition with_context {E} (self : InterfaceError E) (ctx : string) : InterfaceError E :=
  mkInterfaceError (ie_kind self) (Some ctx).
Definition kind {E} (self : InterfaceError E) : InterfaceErrorKind E := ie_kind self.

Definition DEFAULT_MAX_CONNS : Z := 512.

Section Machine.
Context {PU : PackUsize} {IA : IndexAlloc} {WCA : WaitCellApi} {WQA : WaitQueueApi}.
Context {SC : SerChannel Reset} {RS : ResponseSender} {Hello : Type}.
Context {PH : Postcard Header} {W : Wire (Frame_out (Hello := Hello))}.
Variable MAX_CONNS : Z.
(** [Registry::connect]. *)
Variable registry : Identity -> bytes -> result Chan Rejection.

(** The channel of connect requests: [mpsc::TrickyPipe<OutboundConnect>]. *)
Definition Conns : Type := Pipe (OutboundConnect Hello) unit.

(** [struct Machine] *)
Record Machine := mkMachine {
  wire : Wi;
  conn_table : ConnTable;
  conns_rx : Conns;
}.
Definition set_wire (w : Wi) (m : Machine) : Machine := mkMachine w (conn_table m) (conns_rx m).
Definition set_conn_table (t : ConnTable) (m : Machine) : Machine := mkMachine (wire m) t (conns_rx m).
Definition set_conns_rx (p : Conns) (m : Machine) : Machine := mkMachine (wire m) (conn_table m) p.

Definition on_table {A} (f : M ConnTable A) : M Machine A := zoom conn_table set_conn_table f.
Definition on_conns {A} (f : M Conns A) : M Machine A := zoom conns_rx set_conns_rx f.
Definition on_wire {A} (f : Wi -> Wi * A) : M Machine A :=
  zoom wire set_wire (fun w => match f w with (w', a) => (w', Val a) end).

(** *** [Machine::run] *)

(** Where the future of [run] stands: at the [select_biased!], sending a frame (with the
    context of the error if that fails), or processing an inbound frame (with the state of
    the send it may be in).  Each carries the loop's [conns_remaining]. *)
Inductive run_state : Type :=
| RunSelect (conns_remaining : bool)
| RunSend (conns_remaining : bool) (ctx : option string) (f : Frame_out (Hello := Hello))
| RunProcess (conns_remaining : bool) (frame : InboundFrame) (fut : SendFut).

Inductive run_result : Type :=
| Continue (st : run_state)
| Yield (st : run_state)
| Return (error : InterfaceError WireError).

Definition ctx_response : string := "while sending inbound frame response (ACK/NAK)".
Definition ctx_connect : string := "while sending local-initiated CONNECT".

(** The body of the loop once a buffer came in. *)
Definition run_inbound (conns_remaining : bool) (buf : bytes) : M Machine run_result :=
  match from_bytes buf with
  | Err _ => mret (Continue (RunSelect conns_remaining))
  | Ok frame =>
      if decide (link_id (header frame) = INTERFACE) then panic (* todo! *)
      else mret (Continue (RunProcess conns_remaining frame sc_send_start))
  end.

(** The body of the loop once a local connect request came in. *)
Definition run_connect (conns_remaining : bool) (conn : OutboundConnect Hello) : M Machine run_result :=
  f ← on_table (start_connecting MAX_CONNS conn);
  match f with
  | Some frame => mret (Continue (RunSend conns_remaining (Some ctx_connect) frame))
  | None => mret (Continue (RunSelect conns_remaining))
  end.

(** The biased select: the wire, then the sockets, then the connect requests. *)
Definition run_select (conns_remaining : bool) : M Machine run_result :=
  buf ← on_wire wire_recv;
  match buf with
  | Ready (Err e) => mret (Return (InterfaceError_recv e))
  | Ready (Ok buf) => run_inbound conns_remaining buf
  | Pending =>
      frame ← on_table (next_outbound (Hello := Hello));
      match frame with
      | Ready frame => mret (Continue (RunSend conns_remaining None frame))
      | Pending =>
          if conns_remaining then
            conn ← on_conns Receiver_poll_recv;
            match conn with
            | Pending => mret (Yield (RunSelect conns_remaining))
            | Ready (Ok conn) => run_connect conns_remaining conn
            | Ready (Err _) => mret (Continue (RunSelect false))
            end
          else mret (Yield (RunSelect conns_remaining))
      end
  end.

Definition send_error (ctx : option string) (e : WireError) : InterfaceError WireError :=
  match ctx with Some ctx => with_context (InterfaceError_send e) ctx | None => InterfaceError_send e end.

Definition run_step (st : run_state) : M Machine run_result :=
  match st with
  | RunSelect conns_remaining => run_select conns_remaining
  | RunSend conns_remaining ctx f =>
      r ← on_wire (wire_send f);
      mret match r with
           | Pending => Yield st
           | Ready (Ok _) => Continue (RunSelect conns_remaining)
           | Ready (Err e) => Return (send_error ctx e)
           end
  | RunProcess conns_remaining frame fut =>
      fp ← on_table (process_inbound (Hello := Hello) MAX_CONNS registry frame fut);
      mret match snd fp with
           | Pending => Yield (RunProcess conns_remaining frame (fst fp))
           | Ready None => Continue (RunSelect conns_remaining)
           | Ready (Some rsp) => Continue (RunSend conns_remaining (Some ctx_response) rsp)
           end
  end.

(** One poll of the future of [run], started with [RunSelect true]. *)
Fixpoint run_poll (fuel : nat) (st : run_state) : M Machine (run_state * poll (InterfaceError WireError)) :=
  match fuel with
  | O => out_of_fuel
  | S fuel =>
      r ← run_step st;
      match r with
      | Continue st => run_poll fuel st
      | Yield st => mret (st, Pending)
      | Return e => mret (st, Ready e)
      end
  end.

(** *** [Interface::new] *)

(** The pipe of connect requests gives a sender for the interface, and its only receiver
    for the machine; the handle itself is dropped at the end. *)
Definition Interface_new (w : Wi) : M Conns Machine :=
  TrickyPipe_sender;;
  rx ← TrickyPipe_receiver;
  expect rx;;
  TrickyPipe_drop;;
  gets (mkMachine w (ConnTable.new MAX_CONNS)).

End Machine.
#[global] Arguments Machine {IA WCA WQA SC RS Hello W}.
