(* ===== verification/MachineSpec.v ===== *)
(** The interface state machine over its whole life, and a message on its whole way.

    [machine_ok] is the invariant of a machine (its table is well formed, its channel of
    connect requests is in a good state), [sys_step] one step of the running machine or of
    its environment.  The second part follows one message from the local channel of one
    interface, over its frame, to the local channel of the other. *)
From Stdlib Require Import String.
From S2P Require Import Prelude Interfaces Errors Core CoreWord CoreQueue Pipe PipeSpec PipeSession BiDi Message ConnTable ConnTableSpec Machine.

Section MachineSpec.
Context {PU : PackUsize} {PUL : PackUsizeLaws}.
Context {IA : IndexAlloc} {IAL : IndexAllocLaws}.
Context {WCA : WaitCellApi} {WCL : WaitCellLaws} {WQA : WaitQueueApi} {WQL : WaitQueueLaws}.
Context {SC : SerChannel Reset} {SCL : SerChannelLaws Reset} {RS : ResponseSender} {Hello : Type}.
Context {PH : Postcard Header} {W : Wire (Frame_out (Hello := Hello))}.
Variable MAX_CONNS : Z.
Hypothesis MAX_CONNS_range : 0 <= MAX_CONNS < u16_mod - 1.
Variable registry : Identity -> bytes -> result Chan Rejection.
(** The registry answers with channels in a good state. *)
Hypothesis registry_ok : forall identity bs c, registry identity bs = Ok c -> sc_inv c.
(** [serde] refuses a zero for a [NonZeroU16]: decoded headers carry identifiers. *)
Hypothesis header_ids : forall bs h rest, pc_take_from_bytes bs = Ok (h, rest) -> frame_ids h.

Implicit Types (m : Machine (Hello := Hello)) (st : run_state (Hello := Hello)).

(** *** Frames *)

Lemma from_bytes_header bs f :
  from_bytes bs = Ok f -> exists rest, pc_take_from_bytes bs = Ok (header f, rest).
Proof.
  unfold from_bytes. destruct (pc_take_from_bytes bs) as [[h rest]|e]; [|done]. intros H. exists rest. f_equal.
  destruct (has_body h); cbn in H; [by simplify_eq|]. case_bool_decide; cbn in H; by simplify_eq.
Qed.

Lemma not_interface (h : Header) : link_id h <> INTERFACE.
Proof. by destruct h. Qed.

(** ** The invariant *)

Definition conns_ok (p : Conns (Hello := Hello)) : Prop :=
  exists v vals, prep p v vals /\ Forall (fun oc => sc_inv (oc_channel oc)) vals.

Definition machine_ok m : Prop := table_ok MAX_CONNS (conn_table m) /\ conns_ok (conns_rx m).

Definition state_ok st : Prop :=
  match st with RunProcess _ frame _ => frame_ids (header frame) | _ => True end.
Definition result_ok (r : run_result (Hello := Hello)) : Prop :=
  match r with Continue st | Yield st => state_ok st | Return _ => True end.

Lemma on_table_wp {A} (f : M ConnTable A) (Q : A -> Machine -> Prop) m :
  wp f (fun a t => Q a (set_conn_table t m)) (conn_table m) -> wp (on_table f) Q m.
Proof. apply wp_zoom. Qed.
Lemma on_conns_wp {A} (f : M (Conns (Hello := Hello)) A) (Q : A -> Machine -> Prop) m :
  wp f (fun a p => Q a (set_conns_rx p m)) (conns_rx m) -> wp (on_conns f) Q m.
Proof. apply wp_zoom. Qed.
Lemma on_wire_wp {A} (f : Wi -> Wi * A) (Q : A -> Machine -> Prop) m :
  Q (snd (f (wire m))) (set_wire (fst (f (wire m))) m) -> wp (on_wire f) Q m.
Proof. intros H. apply wp_zoom. unfold wp. destruct (f (wire m)) as [w a]. by exists w, a. Qed.

Lemma table_event_wp {A} ev (f : M ConnTable A) t (g : A -> unit) :
  table_step MAX_CONNS ev = (a ← f; mret (g a)) -> table_ok MAX_CONNS t -> event_ok (Hello := Hello) ev ->
  wp f (fun _ t' => table_ok MAX_CONNS t') t.
Proof.
  intros Hev Ht Hok. destruct (table_step_ok MAX_CONNS MAX_CONNS_range ev t Ht Hok) as (t' & u & Hrun & Ht').
  rewrite Hev in Hrun. apply bind_inv in Hrun as (t1 & a & Hf & Hg). unfold mret, M_ret in Hg. simplify_eq.
  by exists t', a.
Qed.

Lemma recv_conn_wp (p : Conns (Hello := Hello)) :
  conns_ok p ->
  wp Receiver_poll_recv (fun r p' => conns_ok p' /\
    match r with Ready (Ok oc) => sc_inv (oc_channel oc) | _ => True end) p.
Proof.
  intros (v & vals & Hp & Hf). eapply wp_mono; [by apply Receiver_poll_recv_wp|]. cbn. intros r p' (_ & H).
  assert (Hsame : r = nothing_async v /\ prep p' v vals ->
    conns_ok p' /\ match r with Ready (Ok oc) => sc_inv (oc_channel oc) | _ => True end).
  { intros [-> Hp']. split; [by exists v, vals|]. unfold nothing_async. by destruct (v_tx_closed v). }
  destruct vals as [|oc vals]; [by apply Hsame|]. destruct (v_delivered v <? LAST_POS); [|by apply Hsame].
  destruct H as [-> Hp']. apply Forall_cons in Hf as [Hoc Hf]. split; [by eexists _, vals|done].
Qed.

Lemma run_select_ok remaining m :
  machine_ok m -> wp (run_select MAX_CONNS remaining) (fun r m' => machine_ok m' /\ result_ok r) m.
Proof.
  intros [Ht Hc]. apply wp_bind, on_wire_wp. destruct (wire_recv (wire m)) as [w [|[buf|e]]]; cbn.
  - apply wp_bind, on_table_wp. eapply wp_mono.
    { by eapply (table_event_wp TOutbound _ _ (fun _ => tt)). }
    cbn. intros [|frame] t Ht'; [|by apply wp_ret].
    destruct remaining; [|by apply wp_ret]. apply wp_bind, on_conns_wp.
    eapply wp_mono; [by apply recv_conn_wp|]. cbn. intros [|[oc|[]]] p [Hp Hoc]; try by apply wp_ret.
    apply wp_bind, on_table_wp. eapply wp_mono.
    { by eapply (table_event_wp (TConnect oc) _ _ (fun _ => tt)). }
    cbn. intros [frame|] t2 Ht2; by apply wp_ret.
  - unfold run_inbound. destruct (from_bytes buf) as [frame|e] eqn:Hf; [|by apply wp_ret].
    rewrite decide_False by apply not_interface. apply wp_ret. split; [done|].
    apply from_bytes_header in Hf as [rest Hf]. by eapply header_ids.
  - by apply wp_ret.
Qed.

Lemma run_step_ok st m :
  machine_ok m -> state_ok st ->
  wp (run_step MAX_CONNS registry st) (fun r m' => machine_ok m' /\ result_ok r) m.
Proof.
  intros [Ht Hc] Hst. destruct st as [remaining|remaining ctx f|remaining frame fut]; cbn [run_step].
  - by apply run_select_ok.
  - apply wp_bind, on_wire_wp. destruct (wire_send f (wire m)) as [w [|[[]|e]]]; by apply wp_ret.
  - apply wp_bind, on_table_wp. eapply wp_mono.
    { by eapply (table_event_wp (TInbound registry frame fut) _ _ (fun _ => tt)). }
    cbn. intros [fut' [|[rsp|]]] t Ht'; by apply wp_ret.
Qed.

(** ** The running machine and its environment *)

(** The machine runs to its next stop; when [run] returned an error it is called again.
    In between, the tasks at the other ends use the channels of the table's connections
    and the channel of connect requests. *)
Inductive sys_step : relation (run_state * Machine) :=
| SysRun st m m' st' :
    run_step MAX_CONNS registry st m = (m', Val (Continue st')) -> sys_step (st, m) (st', m')
| SysPoll st m m' st' :
    run_step MAX_CONNS registry st m = (m', Val (Yield st')) -> sys_step (st, m) (st', m')
| SysAgain st m m' e :
    run_step MAX_CONNS registry st m = (m', Val (Return e)) -> sys_step (st, m) (RunSelect true, m')
| SysTouch st m i c t u :
    1 <= i -> sc_inv c -> table_step (Hello := Hello) MAX_CONNS (TTouch i c) (conn_table m) = (t, Val u) ->
    sys_step (st, m) (st, set_conn_table t m)
| SysConnect st m p : conns_ok p -> sys_step (st, m) (st, set_conns_rx p m).

Definition sys_ok (s : run_state (Hello := Hello) * Machine) : Prop := state_ok s.1 /\ machine_ok s.2.

Lemma sys_step_ok s s' : sys_step s s' -> sys_ok s -> sys_ok s'.
Proof.
  intros Hs [Hst Hm]. destruct Hs as [st m m' st' H|st m m' st' H|st m m' e H|st m i c t u Hi Hc H|st m p Hp]; unfold sys_ok in *; cbn [fst snd] in *;
    try (destruct (run_step_ok st m Hm Hst) as (m1 & r & Hrun & Hm1 & Hr); rewrite H in Hrun; by simplify_eq).
  - destruct Hm as [Ht Hcn]. split; [done|]. split; [|done]. cbn.
    destruct (table_step_ok MAX_CONNS MAX_CONNS_range (TTouch (Hello := Hello) i c) _ Ht (conj Hi Hc)) as (t' & u' & Hrun & Ht').
    rewrite Hrun in H. by injection H as <- <-.
  - by destruct Hm.
Qed.

(** C12: The interface state machine never panics.  Started on a new table, with any wire
    (whatever bytes it delivers, whatever errors it returns, whenever it is ready), any
    registry and any use of the channels by the local tasks, every stretch of
    [Machine::run] ends, in particular its [todo!] for frames that address the interface
    itself is never reached, and the machine is left in a good state to go on or to be
    run again. *)
Theorem machine_never_panics w p st m :
  conns_ok p -> rtc sys_step (RunSelect true, mkMachine w (ConnTable.new MAX_CONNS) p) (st, m) ->
  wp (run_step MAX_CONNS registry st) (fun _ m' => machine_ok m') m.
Proof.
  intros Hp Hsteps. assert (Hok : sys_ok (st, m)).
  { eapply (rtc_invariant sys_step sys_ok); [|intros a b Hab Ha; by eapply sys_step_ok|exact Hsteps].
    split; [done|]. split; [|done]. exists ∅. split; [by apply new_trep|].
    split; [intros i s; by rewrite lookup_empty|done]. }
  destruct Hok as [Hst Hm]. eapply wp_mono; [by apply run_step_ok|]. by intros r m' [Hm' _].
Qed.

(** [Machine::run] ends only when the wire fails: it returns an error of [Wire::recv]
    as such, or an error of [Wire::send] with the context of the frame it was sending.
    Undecodable frames, unknown connections, full tables, failed channels and the end of
    the connect requests never end it. *)
Theorem run_ends_on_wire_errors st m m' error :
  run_step MAX_CONNS registry st m = (m', Val (Return error)) ->
  (exists remaining e, st = RunSelect remaining /\ snd (wire_recv (wire m)) = Ready (Err e) /\
     error = InterfaceError_recv e) \/
  (exists remaining ctx f e, st = RunSend remaining ctx f /\ snd (wire_send f (wire m)) = Ready (Err e) /\
     kind error = Send e /\ ie_ctx error = ctx).
Proof.
  destruct st as [remaining|remaining ctx f|remaining frame fut]; cbn [run_step].
  - unfold run_select. intros (m1 & r & Hw & H)%bind_inv. unfold on_wire, zoom in Hw.
    destruct (wire_recv (wire m)) as [w [|[buf|e]]] eqn:Hr; simplify_eq.
    + apply bind_inv in H as (m2 & [|fr] & _ & H); [|by cbv in H].
      destruct remaining; [|by cbv in H]. apply bind_inv in H as (m3 & [|[oc|[]]] & _ & H); try by cbv in H.
      unfold run_connect in H. by apply bind_inv in H as (m4 & [fr|] & _ & H).
    + unfold run_inbound in H. destruct (from_bytes buf) as [fr|]; [|by cbv in H].
      by rewrite decide_False in H by apply not_interface.
    + left. unfold mret, M_ret in H. simplify_eq. exists remaining, e. by rewrite ?Hr.
  - intros (m1 & r & Hw & H)%bind_inv. unfold on_wire, zoom in Hw.
    destruct (wire_send f (wire m)) as [w r'] eqn:Hr. simplify_eq. unfold mret, M_ret in H.
    destruct r as [|[u|e]]; simplify_eq. right. exists remaining, ctx, f, e. rewrite Hr. by destruct ctx.
  - intros (m1 & r & _ & H)%bind_inv. unfold mret, M_ret in H. by destruct r as [? [|[f|]]].
Qed.

(** The select of [Machine::run] is biased: a buffer from the wire is taken before any
    socket is polled, and a socket that speaks before any connect request is taken; once
    the connect requests ended they are not polled again. *)
Theorem run_select_order remaining m :
  (forall w r, wire_recv (wire m) = (w, Ready r) ->
     conn_table (fst (run_select MAX_CONNS remaining m)) = conn_table m /\
     conns_rx (fst (run_select MAX_CONNS remaining m)) = conns_rx m) /\
  (forall w t f, wire_recv (wire m) = (w, Pending) ->
     next_outbound (Hello := Hello) (conn_table m) = (t, Val (Ready f)) ->
     run_select MAX_CONNS remaining m = (mkMachine w t (conns_rx m), Val (Continue (RunSend remaining None f)))) /\
  (remaining = false -> conns_rx (fst (run_select MAX_CONNS remaining m)) = conns_rx m).
Proof.
  unfold run_select. split_and!.
  - intros w r Hw. unfold on_wire. cbv [mbind M_bind zoom]. rewrite Hw. destruct r as [buf|e]; [|done].
    unfold run_inbound. destruct (from_bytes buf) as [fr|]; [|done].
    by rewrite decide_False by apply not_interface.
  - intros w t f Hw Ht. unfold on_wire, on_table. cbv [mbind M_bind zoom]. rewrite Hw. cbn. by rewrite Ht.
  - intros ->. unfold on_wire, on_table. cbv [mbind M_bind zoom].
    destruct (wire_recv (wire m)) as [w [|[buf|e]]]; [| |done].
    + cbn. destruct (next_outbound (conn_table m)) as [t [[|f]| |]]; done.
    + unfold run_inbound. destruct (from_bytes buf) as [fr|]; [|done].
      by rewrite decide_False by apply not_interface.
Qed.
End MachineSpec.
