(* ===== verification/Display.v ===== *)
(** What the program prints: the [fmt] implementations of identifiers, resets and errors.

    [Display] is the trait of that name, for a formatter without options; the hexadecimal
    formats take the width a formatter asks for, with zeros in front ([{:04x}] is
    [LowerHex 4]).  The theorems say that what is printed tells values apart, and that the
    conversions between error types keep the message. *)
From Stdlib Require Import String Ascii.
From S2P Require Import Prelude Text Interfaces Errors Message Machine.
Local Open Scope string_scope.

Class Display (A : Type) := display : A -> string.

(** ** Identifiers *)

(** [UpperHex] and [LowerHex] of [Id] hand the formatter on to the number. *)
Definition Id_UpperHex (width : nat) (i : Id) : string := hex_u16 true width i.
Definition Id_LowerHex (width : nat) (i : Id) : string := hex_u16 false width i.
Definition Id_Display (i : Id) : string := Id_LowerHex 4 i.
Definition Id_Debug (i : Id) : string := "Id(" ++ Id_LowerHex 4 i ++ ")".

(** Those of [LinkId] write their own widths; a missing identifier is written as zero. *)
Definition or_zero (i : option Id) : Z := default 0 i.
Definition LinkId_UpperHex (l : LinkId) : string :=
  hex_u16 true 4 (or_zero (link_remote l)) ++ ":" ++ hex_u16 true 4 (or_zero (link_local l)).
Definition LinkId_LowerHex (l : LinkId) : string :=
  hex_u16 false 4 (or_zero (link_remote l)) ++ ":" ++ hex_u16 false 4 (or_zero (link_local l)).
#[export] Instance LinkId_Display : Display LinkId := LinkId_LowerHex.

(** ** Errors of the protocol *)

#[export] Instance DecodeErrorKind_Display : Display DecodeErrorKind := fun self =>
  match self with
  | UnexpectedEnd => "hit the end of the buffer, but expected more data"
  | BadVarint => "found a varint that didn't terminate, is the usize too big for this platform?"
  | BadBool => "found a bool that wasn't 0 or 1"
  | BadChar => "found an invalid unicode character"
  | BadUtf8 => "tried to parse invalid UTF-8"
  | BadOption => "found an Option discriminant that wasn't 0 or 1"
  | BadEnum => "found an enum discriminant that was > u32::max_value()"
  | BadEncoding => "the original data was not well encoded"
  | BadCrc => "bad CRC while deserializing"
  | SerdeCustom => "Serde deserializer error"
  | UnknownKind => "unknown error"
  end.

#[export] Instance DecodeError_Display : Display DecodeError := fun self =>
  match self with
  | DecodeBody err => "error decoding frame body: " ++ display err
  | DecodeHeader err => "error decoding frame header: " ++ display err
  | UnexpectedTrailingData => "unexpected trailing body data in a frame type without a body"
  end.

#[export] Instance Reset_Display : Display Reset := fun self =>
  match self with
  | YouDoneGoofed err => "you done goofed! received a bad frame: " ++ display err
  | NoSuchConn => "no such connection exists"
  | YesSuchConn => "connection already exists"
  | GoAway => "the peer is shutting down this interface, go away!"
  | BecauseISaidSo => "because i said so"
  end.

(** ** Errors of the machine and of the channels, for printable errors [E] *)

Section Errors.
Context {E : Type} {DE : Display E} {DP : Display PostcardError}.

#[export] Instance InterfaceErrorKind_Display : Display (InterfaceErrorKind E) := fun self =>
  match self with
  | Send e => "wire send error: " ++ display e
  | RecvKind e => "wire receive error: " ++ display e
  | Proto e => "protocol error: " ++ e
  end.

#[export] Instance InterfaceError_Display : Display (InterfaceError E) := fun self =>
  display (ie_kind self) ++ match ie_ctx self with Some ctx => " (" ++ ctx ++ ")" | None => "" end.

#[export] Instance SendError_Display {T} : Display (SendError E T) := fun self =>
  match self with
  | SendDisconnected _ => "the receiver has been dropped"
  | SendErrorWith _ error => display error
  end.

#[export] Instance TrySendError_Display {T} : Display (TrySendError E T) := fun self =>
  match self with
  | TrySendDisconnected _ => "the receiver has been dropped"
  | TrySendFull _ => "the channel is currently at capacity"
  | TrySendErrorWith _ error => display error
  end.

#[export] Instance SerSendError_Display : Display (SerSendError E) := fun self =>
  match self with
  | SerSendDisconnected => "the receiver has been dropped"
  | SerSendErrorWith error => display error
  | SerSendDeserialize error => "error deserializing message: " ++ display error
  end.

#[export] Instance SerTrySendError_Display : Display (SerTrySendError E) := fun self =>
  match self with
  | SerTrySendDisconnected => "the receiver has been dropped"
  | SerTrySendErrorWith error => display error
  | SerTrySendFull => "the channel is currently at capacity"
  | SerTrySendDeserialize error => "error deserializing message: " ++ display error
  end.

(** The conversions between the error types do not change what is printed. *)
Theorem conversions_keep_message :
  (forall e : SendError E unit, display (from_send_error e) = display e) /\
  (forall e : TrySendError E unit, display (from_try_send_error e) = display e) /\
  (forall e : SerSendError E, display (from_ser_send_error e) = display e) /\
  (forall T N (e : SendError E T) (message : N), display (SendErr.with_message e message) = display e) /\
  (forall T N (e : TrySendError E T) (message : N), display (TrySendErr.with_message e message) = display e).
Proof. split_and!; intros; by destruct e. Qed.
End Errors.

(** ** What is printed tells values apart *)

Definition link_ids (l : LinkId) : Prop :=
  (forall i, link_local l = Some i -> is_id i) /\ (forall i, link_remote l = Some i -> is_id i).

Lemma or_zero_inj i i' :
  (forall j, i = Some j -> is_id j) -> (forall j, i' = Some j -> is_id j) -> or_zero i = or_zero i' -> i = i'.
Proof.
  unfold or_zero, is_id. destruct i as [i|], i' as [i'|]; cbn; intros H H' He; subst; try done;
    [specialize (H _ eq_refl)|specialize (H' _ eq_refl)]; lia.
Qed.
Lemma or_zero_range i : (forall j, i = Some j -> is_id j) -> 0 <= or_zero i < u16_mod.
Proof. destruct i as [i|]; cbn; [|done]. intros H. specialize (H i eq_refl). unfold is_id in H. lia. Qed.

(** The log names connections without ambiguity: an identifier prints as four digits that give
    its value, a link as nine characters, and two links that print alike are the same. *)
Theorem LinkId_display_injective l l' :
  link_ids l -> link_ids l' -> String.length (display l) = 9%nat /\ (display l = display l' -> l = l').
Proof.
  intros [Hl Hr] [Hl' Hr']. unfold display, LinkId_Display, LinkId_LowerHex.
  destruct (hex_u16_four false _ (or_zero_range _ Hr)) as [N1 V1], (hex_u16_four false _ (or_zero_range _ Hl)) as [N2 V2],
    (hex_u16_four false _ (or_zero_range _ Hr')) as [N3 V3], (hex_u16_four false _ (or_zero_range _ Hl')) as [N4 V4]. split.
  - rewrite !append_length. cbn [String.length]. by rewrite N1, N2.
  - intros [Er El]%append_inj; [|congruence]. apply append_inj in El as [_ El]; [|done]. 
    assert (link_remote l = link_remote l') by (apply or_zero_inj; [done..|congruence]).
    assert (link_local l = link_local l') by (apply or_zero_inj; [done..|congruence]). destruct l, l'. cbn in *. by subst.
Qed.

Lemma kind_display_injective (k k' : DecodeErrorKind) : display k = display k' -> k = k'.
Proof. destruct k, k'; done. Qed.

(** Two reasons for a reset that print alike are the same reason. *)
Theorem Reset_display_injective (r r' : Reset) : display r = display r' -> r = r'.
Proof.
  assert (Happ : forall p s s' : string, p ++ s = p ++ s' -> s = s') by (intros p s s' H; by apply append_inj in H as [_ H]).
  assert (Herr : forall e e' : DecodeError, display e = display e' -> e = e').
  { intros [k|k|] [k'|k'|] H; try done; apply Happ, kind_display_injective in H; by subst. }
  destruct r as [|e| | |], r' as [|e'| | |]; intros H; try done. by apply Happ, Herr in H as ->.
Qed.
