(* ===== verification/Debug.v ===== *)
(** What [{:?}] prints of the channels: the [fmt::Debug] implementations of [tricky-pipe].

    [DebugStruct] and [DebugTuple] are the standard library's builders, for a formatter that
    was not asked for the alternate form.  Where a value lies in memory, the addresses of
    functions and what [maitake_sync] prints of a [WaitCell] are parameters.

    A pattern [let Self { ptr, vtable } = self] binds references, so [{ptr:p}] prints where
    the field lies and not what it points to: the address a handle prints is its own. *)
From Stdlib Require Import String.
From S2P Require Import Prelude Text Interfaces TypeInfo SerBox Oneshot Errors Core CoreWord CoreQueue Pipe PipeSpec PipeSession BiDi.
Local Open Scope string_scope.
Local Open Scope Z_scope.

Class Debug (A : Type) := debug : A -> string.

(** ** The builders of [core::fmt] *)

Record DebugStruct := mkDebugStruct { ds_out : string; ds_has_fields : bool }.
Definition debug_struct (name : string) : DebugStruct := mkDebugStruct name false.
Definition field (name value : string) (f : DebugStruct) : DebugStruct :=
  mkDebugStruct (ds_out f ++ (if ds_has_fields f then ", " else " { ") ++ name ++ ": " ++ value) true.
Definition finish (f : DebugStruct) : string := if ds_has_fields f then ds_out f ++ " }" else ds_out f.
Definition finish_non_exhaustive (f : DebugStruct) : string :=
  ds_out f ++ (if ds_has_fields f then ", .. }" else " { .. }").

Record DebugTuple := mkDebugTuple { dt_out : string; dt_has_fields : bool }.
Definition debug_tuple (name : string) : DebugTuple := mkDebugTuple name false.
Definition tuple_field (value : string) (f : DebugTuple) : DebugTuple :=
  mkDebugTuple (dt_out f ++ (if dt_has_fields f then ", " else "(") ++ value) true.
Definition tuple_finish (f : DebugTuple) : string := if dt_has_fields f then dt_out f ++ ")" else dt_out f.

(** ** Errors *)

Section Errors.
Context {E T : Type} {DE : Debug E}.

#[export] Instance SendError_Debug : Debug (SendError E T) := fun self =>
  match self with
  | SendDisconnected _ => tuple_finish (debug_tuple "SendError::Closed")
  | SendErrorWith _ error => finish_non_exhaustive (field "error" (debug error) (debug_struct "SendError::Error"))
  end.
#[export] Instance TrySendError_Debug : Debug (TrySendError E T) := fun self =>
  match self with
  | TrySendDisconnected _ => tuple_finish (debug_tuple "TrySendError::Closed")
  | TrySendFull _ => tuple_finish (debug_tuple "TrySendError::Full")
  | TrySendErrorWith _ error => finish_non_exhaustive (field "error" (debug error) (debug_struct "TrySendError::Error"))
  end.
End Errors.

(** ** Handles of a channel *)

Section Handles.
Context {PU : PackUsize} {IA : IndexAlloc} {WCA : WaitCellApi} {WQA : WaitQueueApi}.

(** Where the fields of a handle lie. *)
Record PipeAt := mkPipeAt { ptr_at : Z; vtable_at : Z }.

(** [core_at]: where the reservation keeps its reference to the core. *)
Definition Reservation_Debug (core_at : Z) (self : Reservation) : string :=
  finish (field "idx" (decimal (idx self)) (field "core" (alternate_pointer core_at) (debug_struct "Reservation"))).
Definition Permit_Debug (core_at : Z) (self : Permit) : string :=
  tuple_finish (tuple_field (Reservation_Debug core_at (permit_pipe self)) (debug_tuple "Permit")).
Definition SerRecvRef_Debug (core_at vtable_at : Z) (self : SerRecvRef) : string :=
  finish (field "vtable" (pointer vtable_at)
    (field "res" (Reservation_Debug core_at (srr_res self)) (debug_struct "SerRecvRef"))).
(** [type_name] is that of the vtable of the permit. *)
Definition ErasedPermit_Debug (core_at : Z) (type_name : string) (self : ErasedPermit) : string :=
  finish (field "type" type_name (field "res" (Reservation_Debug core_at (ep_res self)) (debug_struct "ErasedPermit"))).

Section OnPipe.
Context {T E : Type} {AN : Any T}.

(** [ErasedPipe::fmt_into]; [TypedPipe::fmt_into] is the same function. *)
Definition ErasedPipe_fmt_into (self : PipeAt) (f : DebugStruct) : M (Pipe T E) string :=
  let f := field "ptr" (alternate_pointer (ptr_at self)) f in
  let f := field "vtable" (alternate_pointer (vtable_at self)) f in
  let f := field "type" (type_name T) f in
  capacity ← on_core (gets capacity);
  let f := field "capacity" (decimal capacity) f in
  len ← on_core len;
  let f := field "len" (decimal len) f in
  mret (finish f).
Definition TypedPipe_fmt_into (self : PipeAt) (f : DebugStruct) : M (Pipe T E) string := ErasedPipe_fmt_into self f.

Definition Receiver_Debug (self : PipeAt) : M (Pipe T E) string := TypedPipe_fmt_into self (debug_struct "Receiver").
Definition SerReceiver_Debug (self : PipeAt) : M (Pipe T E) string := ErasedPipe_fmt_into self (debug_struct "SerReceiver").
Definition DeserSender_Debug (self : PipeAt) : M (Pipe T E) string := ErasedPipe_fmt_into self (debug_struct "DeserSender").
Definition Sender_Debug (self : PipeAt) : M (Pipe T E) string := TypedPipe_fmt_into self (debug_struct "Sender").
Definition ErasedSender_Debug (self : PipeAt) : M (Pipe T E) string := ErasedPipe_fmt_into self (debug_struct "ErasedSender").
End OnPipe.

(** *** Bidirectional channels: the sender and the receiver, then the flags *)

Section OnBiDi.
Context {In Out E : Type} {AI : Any In} {AO : Any Out}.

Definition bidi_fields (tx rx : string) (f : DebugStruct) : M (BiDi In Out E) string :=
  rx_error ← gets seen_rx_error;
  tx_error ← gets seen_tx_error;
  mret (finish (field "seen_tx_error" (bool_text tx_error) (field "seen_rx_error" (bool_text rx_error)
    (field "rx" rx (field "tx" tx f))))).
Definition BiDi_Debug (tx_at rx_at : PipeAt) : M (BiDi In Out E) string :=
  tx ← on_tx (Sender_Debug tx_at); rx ← on_rx (Receiver_Debug rx_at); bidi_fields tx rx (debug_struct "BiDi").
Definition SerBiDi_Debug (tx_at rx_at : PipeAt) : M (BiDi In Out E) string :=
  tx ← on_tx (DeserSender_Debug tx_at); rx ← on_rx (SerReceiver_Debug rx_at); bidi_fields tx rx (debug_struct "SerBiDi").
End OnBiDi.
End Handles.

(** ** The shared box *)

Section SerBoxes.
Context {WCA : WaitCellApi} {DW : Debug WaitCell} {T : Type}.

Definition SerBox_Debug : M (SerBox T) string := access (
  state ← gets sb_state;
  sharer_ready ← gets sb_sharer_ready;
  typeinfo ← gets sb_typeinfo;
  mret (finish (field "data" ("UnsafeCell<MaybeUninit<" ++ TypeInfo_name typeinfo ++ ">>")
    (field "sharer_ready" (debug sharer_ready) (field "state" (alternate_binary_u8 6 state) (debug_struct "SerBox")))))).
Definition Sharer_Debug (drop_shared : Z) : M (SerBox T) string :=
  shared ← SerBox_Debug;
  mret (finish (field "drop_shared" (pointer drop_shared) (field "shared" shared (debug_struct "Sharer")))).
Definition Consumer_Debug (drop_shared vtable_at : Z) : M (SerBox T) string :=
  shared ← SerBox_Debug;
  mret (finish (field "vtable" (pointer vtable_at) (field "drop_shared" (pointer drop_shared)
    (field "shared" shared (debug_struct "Consumer"))))).
End SerBoxes.

(** ** The one-shot channel *)

Section Oneshots.
Context {WCA : WaitCellApi} {DW : Debug WaitCell} {T : Type} {AN : Any T}.

(** The derived implementations of [Header], [RefVtable] (two functions) and [AtomicU8]. *)
Definition Header_Debug : M (Oneshot T) string :=
  state ← gets os_state;
  wait ← gets os_wait;
  mret (finish (field "wait" (debug wait) (field "state" (decimal state) (debug_struct "Header")))).
Definition RefVtable_Debug (drop clone : Z) : string :=
  finish (field "clone" (pointer clone) (field "drop" (pointer drop) (debug_struct "RefVtable"))).

Definition Oneshot_Debug : M (Oneshot T) string :=
  head ← Header_Debug;
  mret (finish (field "cell" ("UnsafeCell<" ++ type_name T ++ ">") (field "head" head (debug_struct "Oneshot")))).
(** [chan]: the address of the channel, this time. *)
Definition oneshot_Receiver_Debug (chan : Z) : string :=
  finish (field "chan" (pointer chan) (debug_struct "oneshot::Receiver")).
Definition ErasedReceiver_Debug (chan : Z) : string :=
  finish (field "chan" (pointer chan) (debug_struct "oneshot::ErasedReceiver")).
Definition oneshot_Sender_Debug (drop clone : Z) (sent : bool) : string :=
  finish (field "sent" (bool_text sent) (field "vtable" (RefVtable_Debug drop clone) (debug_struct "oneshot::Sender"))).
Definition oneshot_DeserSender_Debug (typeinfo : TypeInfo) (drop clone : Z) (sent : bool) : M (Oneshot T) string :=
  head ← Header_Debug;
  mret (finish (field "sent" (bool_text sent) (field "vtable" (RefVtable_Debug drop clone)
    (field "head" head (field "type" (TypeInfo_Debug typeinfo) (debug_struct "oneshot::DeserSender")))))).
End Oneshots.

(** ** What is printed *)

Lemma run_inj {S A} (s : S) (x y : A) : (s, Val x) = (s, Val y) -> x = y.
Proof. congruence. Qed.
Lemma append_assoc (s t u : string) : ((s ++ t) ++ u = s ++ (t ++ u))%string.
Proof. induction s as [|c s IH]; [done|]. exact (f_equal (String c) IH). Qed.

(** An error is printed without the message it gives back. *)
Theorem debug_hides_message {E T N : Type} {DE : Debug E} (message : N) :
  (forall e : SendError E T, debug (SendErr.with_message e message) = debug e) /\
  (forall e : TrySendError E T, debug (TrySendErr.with_message e message) = debug e).
Proof. split; intros e; by destruct e. Qed.

Section PrintedHandles.
Context {PU : PackUsize} {IA : IndexAlloc} {WCA : WaitCellApi} {WQA : WaitQueueApi}.

Lemma len_zero {E} (c : Core E) : len c = (c, Val 0).
Proof.
  unfold len, enqueue_pos_load, dequeue_pos_load. cbn [len_loop]. run_M. by rewrite Z.eqb_refl, Z.compare_refl.
Qed.

(** The text of a handle of a channel of [T] with [capacity] slots. *)
Definition handle_text (T : Type) `{Any T} (name : string) (at_ : PipeAt) (capacity : Z) : string :=
  name ++ " { ptr: " ++ alternate_pointer (ptr_at at_) ++ ", vtable: " ++ alternate_pointer (vtable_at at_) ++
  ", type: " ++ type_name T ++ ", capacity: " ++ decimal capacity ++ ", len: 0 }".

(** Printing a handle leaves its channel as it is.  Whatever is in the channel, the length
    that is printed is zero: [Core::len] takes both ends of the queue from one word. *)
Theorem fmt_into_prints {T E} `{Any T} name at_ (p : Pipe T E) :
  ErasedPipe_fmt_into at_ (debug_struct name) p = (p, Val (handle_text T name at_ (capacity (core p)))).
Proof.
  unfold ErasedPipe_fmt_into, on_core, zoom, gets, mret, mbind, M_ret, M_bind. cbn beta iota zeta. rewrite len_zero, !set_core_same.
  unfold handle_text, finish, field, debug_struct. cbn [ds_has_fields ds_out]. by rewrite !append_assoc.
Qed.

(** A bidirectional channel is printed as its sender and its receiver, which do not tell what
    is queued, and the two flags, which tell what its [wait] has reported. *)
Theorem BiDi_prints {In Out E} `{Any In, Any Out} tx_at rx_at (b : BiDi In Out E) :
  BiDi_Debug tx_at rx_at b = (b, Val ("BiDi { tx: " ++ handle_text Out "Sender" tx_at (capacity (core (bd_tx b))) ++
    ", rx: " ++ handle_text In "Receiver" rx_at (capacity (core (bd_rx b))) ++
    ", seen_rx_error: " ++ bool_text (seen_rx_error b) ++ ", seen_tx_error: " ++ bool_text (seen_tx_error b) ++ " }")).
Proof.
  unfold BiDi_Debug, bidi_fields, on_tx, on_rx, zoom, Sender_Debug, Receiver_Debug, TypedPipe_fmt_into, gets, mret, mbind, M_ret, M_bind.
  rewrite fmt_into_prints. cbn [set_bd_tx bd_rx]. rewrite fmt_into_prints. destruct b. cbn.
  unfold finish, field, debug_struct. cbn [ds_has_fields ds_out]. by rewrite !append_assoc.
Qed.
End PrintedHandles.

(** The flags of a box are printed as four binary digits, and tell its state. *)
Definition flag_digits (state : Z) : string := alternate_binary_u8 6 state.
Lemma flag_states state : 0 <= state < 8 ->
  state = 0 \/ state = 1 \/ state = 2 \/ state = 3 \/ state = 4 \/ state = 5 \/ state = 6 \/ state = 7.
Proof. lia. Qed.
Lemma flag_digits_length state : 0 <= state < 8 -> String.length (flag_digits state) = 6%nat.
Proof. intros Hs%flag_states. by destruct_or! Hs; subst. Qed.
Lemma flag_digits_inj state state' :
  0 <= state < 8 -> 0 <= state' < 8 -> flag_digits state = flag_digits state' -> state = state'.
Proof. intros Hs%flag_states Hs'%flag_states. by destruct_or! Hs; destruct_or! Hs'; subst. Qed.

Section PrintedBoxes.
Context {WCA : WaitCellApi} {DW : Debug WaitCell} {T : Type}.

Lemma SerBox_prints (b : SerBox T) :
  SerBox_Debug b = (b, if sb_freed b then Panic else Val ("SerBox { state: " ++ flag_digits (sb_state b) ++
    ", sharer_ready: " ++ debug (sb_sharer_ready b) ++ ", data: UnsafeCell<MaybeUninit<" ++ TypeInfo_name (sb_typeinfo b) ++ ">> }")%string).
Proof.
  unfold SerBox_Debug, access, flag_digits. run_M. destruct (sb_freed b); [done|].
  unfold finish, field, debug_struct. cbn [ds_has_fields ds_out]. by rewrite !append_assoc.
Qed.

(** Two boxes that print alike are in the same state: who holds them, and if there is data. *)
Theorem SerBox_state_printed (b b' : SerBox T) s :
  0 <= sb_state b < 8 -> 0 <= sb_state b' < 8 ->
  SerBox_Debug b = (b, Val s) -> SerBox_Debug b' = (b', Val s) -> sb_state b = sb_state b'.
Proof.
  intros Hb Hb'. rewrite !SerBox_prints. destruct (sb_freed b), (sb_freed b'); intros H H'; try discriminate.
  apply run_inj in H as <-, H' as H'.
  apply append_inj in H' as [_ H']; [|done]. apply append_inj in H' as [He _]; [symmetry; by apply flag_digits_inj|by rewrite !flag_digits_length].
Qed.
End PrintedBoxes.

(** A box with its data, and a one-shot channel with a message. *)
Module ExampleTexts.
Import Concrete ExampleTypes.
#[local] Instance WaitCell_Debug : Debug WaitCell := fun _ => "WaitCell"%string.

Example shared_box :
  snd (Sharer_Debug 4096 (mkSerBox SHARED (TypeInfo_of Z) wc_new (Some 7) false [])) =
  Val ("Sharer { shared: SerBox { state: 0b0111, sharer_ready: WaitCell, data: UnsafeCell<MaybeUninit<u8>> }, " ++
    "drop_shared: 0x1000 }")%string.
Proof. vm_compute. reflexivity. Qed.
Example sent_oneshot :
  snd (Oneshot_Debug (mkOneshot (Z.lor HAS_RX SENT) wc_new (Some 7) 1 [])) =
  Val "Oneshot { head: Header { state: 9, wait: WaitCell }, cell: UnsafeCell<u8> }"%string.
Proof. vm_compute. reflexivity. Qed.
End ExampleTexts.
