(* ===== verification/EndToEnd.v ===== *)
(** A message on its whole way: put into a local channel by a client of one interface,
    serialized, framed, sent over a wire, received and decoded by the interface at the
    other end, deserialized, and queued for the peer of the connection. *)
From S2P Require Import Prelude Interfaces Errors Core CoreWord CoreQueue Pipe PipeSpec PipeSession BiDi Message ConnTable ConnTableSpec Machine.

(** ** A wire of byte strings

    What was not yet received, and what was sent; sending encodes the frame, as the wires
    of the test suite do. *)
Section ByteWire.
Context {D C : Type} {PH : Postcard Header} {BD : Body D} {BC : Body C}.

#[export] Instance byte_wire : Wire (OutboundFrame D C) := {
  Wi := (list bytes * list bytes)%type;
  WireError := PostcardError;
  wire_recv w := match w with
                 | ([], sent) => (([], sent), Pending)
                 | (b :: incoming, sent) => ((incoming, sent), Ready (Ok b))
                 end;
  wire_send f w := match frame_to_vec f with
                   | Ok b => ((fst w, snd w ++ [b]), Ready (Ok tt))
                   | Err e => (w, Ready (Err e))
                   end;
}.
End ByteWire.

(** A message that was serialized when it was received from its channel. *)
#[export] Instance body_serialized : Body (result bytes PostcardError) := {
  body_to_vec r := r;
  body_to_slice r buf :=
    match r with
    | Ok b => if decide (length b <= length buf)%nat then (b ++ drop (length b) buf, Ok (length b))
              else (buf, Err (OtherPostcardError 0))
    | Err e => (buf, Err e)
    end;
}.

Section EndToEnd.
Context {PU : PackUsize} {PUL : PackUsizeLaws}.
Context {IA : IndexAlloc} {IAL : IndexAllocLaws}.
Context {WCA : WaitCellApi} {WCL : WaitCellLaws} {WQA : WaitQueueApi} {WQL : WaitQueueLaws}.
(** Messages [T] travel from [a] to [b], messages [U] from [b] to [a]. *)
Context {T U : Type} {PT : Postcard T} {PTL : PostcardLaws T} {PU' : Postcard U}.
Context {RS : ResponseSender} {Hello : Type} {BH : Body Hello}.
Context {PH : Postcard Header} {PHL : PostcardLaws Header}.
Variables (tidT tidU : TypeId).
Variables (MAX_CONNS : Z) (registry_a : Identity -> bytes -> result (BiDi T U Reset) Rejection)
  (registry_b : Identity -> bytes -> result (BiDi U T Reset) Rejection).
Hypothesis MAX_CONNS_range : 0 <= MAX_CONNS < u16_mod - 1.

Definition chan_a : SerChannel Reset := SerBiDi_channel (In := T) (Out := U) tidT tidU.
Definition chan_a_laws : SerChannelLaws Reset (SC := chan_a) := SerBiDi_channel_laws tidT tidU.
Definition chan_b : SerChannel Reset := SerBiDi_channel (In := U) (Out := T) tidU tidT.
Definition chan_b_laws : SerChannelLaws Reset (SC := chan_b) := SerBiDi_channel_laws tidU tidT.

(** An established connection on either side. *)
Definition open_a (remote : Id) (c : BiDi T U Reset) : Socket (SC := chan_a) := mkSocket (SC := chan_a) (Open remote) c.
Definition open_b (remote : Id) (c : BiDi U T Reset) : Socket (SC := chan_b) := mkSocket (SC := chan_b) (Open remote) c.

(** The first socket of a table whose local channel holds a message speaks. *)
Lemma next_outbound_message t m i j c vt vr outs x ins :
  trep (SC := chan_a) MAX_CONNS t m -> chan_ok (SCL := chan_a_laws) m -> dead_index t = None ->
  m !! i = Some (open_a j c) -> quiet (SC := chan_a) m 0 i ->
  brep c vt vr outs (x :: ins) -> v_delivered vr < LAST_POS ->
  wp (next_outbound (SC := chan_a) (Hello := Hello)) (fun r t' =>
    r = Ready (frame_data j i (pc_to_allocvec x)) /\
    exists m' c' vr', trep (SC := chan_a) MAX_CONNS t' m' /\ m' !! i = Some (open_a j c') /\
      brep c' vt vr' outs ins) t.
Proof.
  intros Hrep Hok Hd Hm Hq [Ht Hr] Hlt.
  assert (Hpoll : exists c' vr', sc_poll_recv (SerChannel := chan_a) c = (c', Val (Ready (Ok (pc_to_allocvec x)))) /\ brep c' vt vr' outs ins).
  { destruct (ser_poll_recv_wp tidT _ _ _ Hr) as (p & r & Hrun & v' & vals' & Hp & H).
    destruct (Z.ltb_spec (v_delivered vr) LAST_POS); [|lia]. destruct H as [-> ->].
    exists (set_bd_rx p c), v'. split; [|by split]. cbn. unfold on_rx, zoom. by rewrite Hrun. }
  destruct Hpoll as (c' & vr' & Hpoll & Hb').
  pose proof (trep_dom _ _ _ _ _ Hrep Hm) as Hi.
  eapply wp_mono; [apply (next_outbound_wp (SCL := chan_a_laws) MAX_CONNS MAX_CONNS_range t m Hrep Hok); by rewrite Hd|].
  intros r t' (m' & Hrep' & _ & _ & _ & Hpost). unfold cleaned in Hpost. rewrite Hd in Hpost.
  destruct r as [|f].
  - destruct Hpost as (Hq' & _). specialize (Hq' i j c ltac:(lia) Hm). by rewrite Hpoll in Hq'.
  - destruct Hpost as (i' & j' & c1 & c1' & y & -> & Hm1 & Hq' & Hpoll' & Hy).
    pose proof (trep_dom _ _ _ _ _ Hrep Hm1) as Hi'.
    assert (i' = i) as ->.
    { destruct (Z.lt_trichotomy i' i) as [Hlti|[Heq|Hgt]]; [|done|].
      - specialize (Hq i' j' c1 ltac:(lia) Hm1). by rewrite Hpoll' in Hq.
      - specialize (Hq' i j c ltac:(lia) Hm). by rewrite Hpoll in Hq'. }
    rewrite Hm in Hm1. injection Hm1 as <- <-. rewrite Hpoll in Hpoll'. injection Hpoll' as <- <-. destruct Hy as [-> _].
    assert (Hone : poll_one (SC := chan_a) (open_a j c) = open_a j c') by (unfold poll_one, open_a; by rewrite Hpoll).
    split; [done|]. eexists _, c', vr'. split; [exact Hrep'|]. split; [|done].
    rewrite polled_lookup, Hm, <- Hone. cbn. by rewrite decide_True by lia.
Qed.

(** A data frame for an established connection with room. *)
Lemma process_data_message t m i j c vt vr outs ins x bs :
  trep (SC := chan_b) MAX_CONNS t m -> chan_ok (SCL := chan_b_laws) m -> m !! j = Some (open_b i c) ->
  brep c vt vr outs ins -> v_rx_closed vt = false -> ~ all_used vt -> pc_from_bytes bs = Ok x ->
  wp (process_data (SC := chan_b) (Hello := Hello) i j bs ReserveStart) (fun r t' => snd r = Ready None /\
    exists m' c' vt', trep (SC := chan_b) MAX_CONNS t' m' /\ m' !! j = Some (open_b i c') /\
      brep c' vt' vr (outs ++ [x]) ins) t.
Proof.
  intros Hrep Hok Hm [Ht Hr] Hcl Hfree Hx.
  assert (Hsend : exists c' vt' f, sc_send (SerChannel := chan_b) bs ReserveStart c = (c', Val (f, Ready (Ok tt))) /\
    brep c' vt' vr (outs ++ [x]) ins).
  { destruct (DeserSender_send_poll_free tidT _ _ _ _ _ Ht Hcl Hfree Hx) as (p & [f r] & Hrun & Hf & v' & Hp).
    cbn in Hf. subst r. exists (set_bd_tx p c), v', f. split; [|by split]. cbn.
    cbv [on_tx zoom]. by rewrite Hrun. }
  destruct Hsend as (c' & vt' & f & Hsend & Hb').
  pose proof (trep_dom _ _ _ _ _ Hrep Hm) as Hj.
  eapply wp_mono; [apply (process_data_wp (SC := chan_b) (SCL := chan_b_laws) MAX_CONNS MAX_CONNS_range t m i j bs ReserveStart Hrep Hok); lia|].
  intros [f' r] t' (m' & Hrep' & _ & Hpost). unfold data_post in Hpost. rewrite Hm in Hpost. unfold open_b in Hpost. rewrite Z.eqb_refl in Hpost.
  destruct Hpost as (c1 & p & Hs & Hp). rewrite Hsend in Hs. injection Hs as <- <- <-. cbn in Hp. destruct Hp as (-> & -> & _).
  split; [done|]. eexists _, c', vt'. split; [exact Hrep'|]. by rewrite lookup_insert_eq.
Qed.

Notation MachineA := (Machine (SC := chan_a) (Hello := Hello)).
Notation MachineB := (Machine (SC := chan_b) (Hello := Hello)).

(** Two stretches of a running machine. *)
Definition two_steps {SC : SerChannel Reset} (registry : Identity -> bytes -> result Chan Rejection)
    (st : run_state (Hello := Hello)) : M (Machine (SC := SC) (Hello := Hello)) (run_result (Hello := Hello)) :=
  r ← run_step MAX_CONNS registry st;
  match r with Continue st => run_step MAX_CONNS registry st | r => mret r end.

(** C13: A message reaches its peer.  Interface [a] has an established connection [i] whose local
    channel holds the messages [x :: ins] and has delivered fewer than 1023 so far (a pipe
    delivers no more than 1023 over its life: C9); no inbound frame is pending, no socket
    before it has anything to say, and the table has no entry of a dead connection to
    remove.  Interface [b] has the other end of the connection, whose channel is open and
    has room.  Then two stretches of the machine of [a] put one frame on the wire, [x]
    leaves the local channel, and two stretches of the machine of [b], given that frame,
    queue exactly [x], last, in the channel of the connection there, answer nothing, and
    leave both machines ready for the next frame. *)
Theorem message_end_to_end (ta : ConnTable (SC := chan_a)) ma conns_a ca vta vra outs_a x ins sent_a remaining_a
    (tb : ConnTable (SC := chan_b)) mb conns_b cb vtb vrb outs ins_b sent_b remaining_b i j hdr b :
  trep (SC := chan_a) MAX_CONNS ta ma -> chan_ok (SCL := chan_a_laws) ma -> dead_index ta = None ->
  ma !! i = Some (open_a j ca) -> quiet (SC := chan_a) ma 0 i -> brep ca vta vra outs_a (x :: ins) ->
  v_delivered vra < LAST_POS ->
  trep (SC := chan_b) MAX_CONNS tb mb -> chan_ok (SCL := chan_b_laws) mb ->
  mb !! j = Some (open_b i cb) -> brep cb vtb vrb outs ins_b -> v_rx_closed vtb = false -> ~ all_used vtb ->
  pc_to_allocvec (Data i j) = Ok hdr -> pc_to_allocvec x = Ok b ->
  wp (two_steps (SC := chan_a) registry_a (RunSelect remaining_a))
     (fun r a' => r = Continue (RunSelect remaining_a) /\ wire a' = ([], sent_a ++ [hdr ++ b]) /\
        (exists ma' ca' vra', trep (SC := chan_a) MAX_CONNS (conn_table a') ma' /\ ma' !! i = Some (open_a j ca') /\
           brep ca' vta vra' outs_a ins) /\
        wp (two_steps (SC := chan_b) registry_b (RunSelect remaining_b))
           (fun r b' => r = Continue (RunSelect remaining_b) /\ wire b' = ([], sent_b) /\
              exists mb' cb' vtb', trep (SC := chan_b) MAX_CONNS (conn_table b') mb' /\
                mb' !! j = Some (open_b i cb') /\ brep cb' vtb' vrb (outs ++ [x]) ins_b)
           (mkMachine (SC := chan_b) ([hdr ++ b], sent_b) tb conns_b))
     (mkMachine (SC := chan_a) ([], sent_a) ta conns_a).
Proof.
  intros Hta Hoka Hda Hma Hqa Hca Hlt Htb Hokb Hmb Hcb Hcl Hfree Hh Hb.
  apply wp_bind. cbn [run_step]. unfold run_select.
  apply wp_bind, wp_zoom. exists ([], sent_a), Pending. split; [done|].
  apply wp_bind, wp_zoom. eapply wp_mono; [by eapply next_outbound_message|].
  intros r ta' (-> & ma' & ca' & vra' & Hta' & Hma' & Hca'). apply wp_ret. cbn [run_step].
  apply wp_bind, wp_zoom.
  assert (Hvec : frame_to_vec (frame_data (C := Hello) j i (pc_to_allocvec x)) = Ok (hdr ++ b)).
  { unfold frame_to_vec. cbn. rewrite Hh, Hb. done. }
  eexists (_, _), (Ready (Ok tt)). split; [cbn; rewrite Hvec; done|]. apply wp_ret.
  split; [done|]. split; [done|]. split; [by exists ma', ca', vra'|].
  apply wp_bind. cbn [run_step]. unfold run_select.
  apply wp_bind, wp_zoom. eexists ([], sent_b), (Ready (Ok _)). split; [done|].
  assert (Hfrom : from_bytes (hdr ++ b) = Ok (mkFrame (Data i j) b)).
  { unfold from_bytes. rewrite (pc_take_round_trip _ _ _ Hh). cbn.
    by rewrite length_app, Nat.add_sub, drop_app_length. }
  unfold run_inbound. rewrite Hfrom. rewrite decide_False by done.
  apply wp_ret. cbn [run_step]. unfold process_inbound. cbn [header body].
  apply wp_bind, wp_zoom. eapply wp_mono; [by eapply process_data_message, (pc_round_trip x b)|].
  intros [fb r] tb' (Hr & mb' & cb' & vtb' & Htb' & Hmb' & Hcb'). cbn in Hr. subst r. apply wp_ret. split; [done|]. split; [done|].
  by exists mb', cb', vtb'.
Qed.
End EndToEnd.
