(* ===== verification/Link.v ===== *)
(** The protocol between two interfaces.

    [plink] is what the protocol is about: at each end, which identifiers are taken and what
    their connections know of the peer ([None] while connecting, [Some j] when open to the
    peer's identifier [j]), and the headers on the way in each direction, in order.  Its
    steps are the abstract specification of the connection table for connections that are
    set up, used and refused.

    What holds of every state the protocol reaches is [plink_ok].  [LinkSpec] shows that two
    running interfaces, joined by a wire in each direction, implement it. *)
From S2P Require Import Prelude Interfaces Errors BiDi Message ConnTable ConnTableSpec.

(** ** The protocol *)

Abbreviation ends := (gmap Id (option Id)).

(** One end: its connections, and the headers that are on their way to it. *)
Record side := mkSide { sd_ends : ends; sd_in : list Header }.
Definition plink : Type := side * side.
Definition swap {A : Type} (l : A * A) : A * A := (l.2, l.1).

(** What the end on the left does. *)
Inductive pstep : plink -> plink -> Prop :=
| PConnect m q m' q' i identity :
    m !! i = None -> pstep (mkSide m q, mkSide m' q') (mkSide (<[i := None]> m) q, mkSide m' (q' ++ [Connect i identity]))
| PSend m q m' q' i j :
    m !! i = Some (Some j) -> pstep (mkSide m q, mkSide m' q') (mkSide m q, mkSide m' (q' ++ [Data i j]))
| PAccept m q m' q' l identity j :
    m !! j = None ->
    pstep (mkSide m (Connect l identity :: q), mkSide m' q') (mkSide (<[j := Some l]> m) q, mkSide m' (q' ++ [Ack j l]))
| PReject m q m' q' l identity reason :
    pstep (mkSide m (Connect l identity :: q), mkSide m' q') (mkSide m q, mkSide m' (q' ++ [Reject l reason]))
| PDeliver m q s' l i :
    m !! i = Some (Some l) -> pstep (mkSide m (Data l i :: q), s') (mkSide m q, s')
| POpen m q s' l i :
    m !! i = Some None -> pstep (mkSide m (Ack l i :: q), s') (mkSide (<[i := Some l]> m) q, s')
| PRefused m q s' i reason :
    m !! i = Some None -> pstep (mkSide m (Reject i reason :: q), s') (mkSide (delete i m) q, s').

Definition plink_step (l l' : plink) : Prop := pstep l l' \/ pstep (swap l) (swap l').
Definition plink_start : plink := (mkSide ∅ [], mkSide ∅ []).

(** The receiver of the header [h] knows what to do with it. *)
Definition expected (m : ends) (h : Header) : Prop :=
  match h with
  | Connect _ _ => True
  | Data l i => m !! i = Some (Some l)
  | Ack _ i | Reject i _ => m !! i = Some None
  | HReset _ _ => False
  end.

(** ** The invariant *)

(** The answers to the request of [i] on the way to its end, and its requests on the way to
    the other end. *)
Definition answers (i : Id) (h : Header) : nat :=
  match h with Ack _ k | Reject k _ => if decide (k = i) then 1 else 0 | _ => 0 end.
Definition asks (i : Id) (h : Header) : nat :=
  match h with Connect k _ => if decide (k = i) then 1 else 0 | _ => 0 end.
Fixpoint count (f : Header -> nat) (q : list Header) : nat := match q with [] => 0 | h :: q => f h + count f q end.

(** What holds of the left end:
    - a connection that is being set up has exactly one message under way, its request or
      the answer; no other identifier has one;
    - an ACK on the way to it was sent by a connection that is open to its identifier;
    - the peer of an open connection is open to it, or will be by an ACK on its way;
    - data on the way to it is for a connection that is open to the sender, or that an ACK
      ahead of the data will open to it; and the sender is open to that connection;
    - and no reset is on the way. *)
Record half_ok (s s' : side) : Prop := {
  ho_setup i : (count (asks i) (sd_in s') + count (answers i) (sd_in s) = if decide (sd_ends s !! i = Some None) then 1 else 0)%nat;
  ho_ack i j : Ack j i ∈ sd_in s -> sd_ends s' !! j = Some (Some i);
  ho_open i j : sd_ends s !! i = Some (Some j) ->
    sd_ends s' !! j = Some (Some i) \/ (sd_ends s' !! j = Some None /\ Ack i j ∈ sd_in s');
  ho_data pre post l i : sd_in s = pre ++ Data l i :: post ->
    sd_ends s !! i = Some (Some l) \/ (sd_ends s !! i = Some None /\ Ack l i ∈ pre);
  ho_from l i : Data l i ∈ sd_in s -> sd_ends s' !! l = Some (Some i);
  ho_reset i reason : HReset i reason ∉ sd_in s;
}.
Definition plink_ok (l : plink) : Prop := half_ok l.1 l.2 /\ half_ok l.2 l.1.

Lemma count_app f q q' : count f (q ++ q') = (count f q + count f q')%nat.
Proof. induction q; cbn; lia. Qed.
Lemma count_in f q h : h ∈ q -> (f h <= count f q)%nat.
Proof. induction 1 as [|h h' q _ IH]; cbn; lia. Qed.

(** A header at the end of a queue comes behind everything that was there. *)
Lemma snoc_split (q : list Header) h pre x post :
  q ++ [h] = pre ++ x :: post -> (post = [] /\ q = pre /\ h = x) \/ exists post', post = post' ++ [h] /\ q = pre ++ x :: post'.
Proof.
  intros H. destruct post as [|y post _] using rev_ind.
  - left. apply app_inj_tail in H as [-> ->]. done.
  - right. exists post. rewrite app_comm_cons, app_assoc in H. apply app_inj_tail in H as [-> ->]. done.
Qed.

(** Splits the halves of the invariant, before and after. *)
Ltac halves :=
  match goal with H : plink_ok _ |- _ => destruct H as [[H1 H2 H3 H4 H6 H5] [K1 K2 K3 K4 K6 K5]] end;
  split; (split; cbn [sd_ends sd_in fst snd] in *).
Ltac setup H k := specialize (H k); rewrite ?count_app, ?lookup_insert, ?lookup_delete in *; cbn [count asks answers] in *;
  repeat case_decide; simplify_map_eq; try congruence; try lia.
Ltac snoc H := apply snoc_split in H as [(-> & -> & H)|(post' & -> & ->)].

Lemma connect_ok m q m' q' i identity :
  m !! i = None -> plink_ok (mkSide m q, mkSide m' q') ->
  plink_ok (mkSide (<[i := None]> m) q, mkSide m' (q' ++ [Connect i identity])).
Proof.
  intros Hi Hok. halves.
  - intros k. setup H1 k.
  - intros k j Hin. by apply H2.
  - intros k j Hk. destruct (decide (i = k)) as [<-|]; simplify_map_eq. destruct (H3 _ _ Hk) as [?|[? ?]]; [by left|right].
    split; [done|]. apply elem_of_app. by left.
  - intros pre post l k Hq. destruct (H4 _ _ _ _ Hq) as [Hk|[Hk ?]]; [left|right; split; [|done]];
      by rewrite lookup_insert_ne by congruence.
  - done.
  - done.
  - intros k. setup K1 k.
  - intros k j [Hin|[=]%list_elem_of_singleton]%elem_of_app. rewrite lookup_insert_ne; [by apply K2|].
    intros <-. apply K2 in Hin. congruence.
  - intros k j Hk. destruct (K3 _ _ Hk) as [Hj|[Hj ?]]; [left|right; split; [|done]]; by rewrite lookup_insert_ne by congruence.
  - intros pre post l k Hq. snoc Hq; [done|]. by eapply K4.
  - intros l k [Hin|[=]%list_elem_of_singleton]%elem_of_app. rewrite lookup_insert_ne; [by apply K6|].
    intros <-. apply K6 in Hin. congruence.
  - intros k reason [Hin|[=]%list_elem_of_singleton]%elem_of_app. by eapply K5.
Qed.

Lemma send_ok m q m' q' i j :
  m !! i = Some (Some j) -> plink_ok (mkSide m q, mkSide m' q') -> plink_ok (mkSide m q, mkSide m' (q' ++ [Data i j])).
Proof.
  intros Hi Hok. halves.
  - intros k. setup H1 k.
  - intros k j' Hin. by apply H2.
  - intros k j' Hk. destruct (H3 _ _ Hk) as [?|[? ?]]; [by left|right]. split; [done|]. apply elem_of_app. by left.
  - done.
  - done.
  - done.
  - intros k. setup K1 k.
  - intros k j' [Hin|[=]%list_elem_of_singleton]%elem_of_app. by apply K2.
  - done.
  - intros pre post l k Hq. snoc Hq; [|by eapply K4]. injection Hq as <- <-. by apply H3.
  - intros l k [Hin|[= -> ->]%list_elem_of_singleton]%elem_of_app; [by apply K6|done].
  - intros k reason [Hin|[=]%list_elem_of_singleton]%elem_of_app. by eapply K5.
Qed.

(** A request on the way: its connection is being set up, and nothing else is under way. *)
Lemma asked m q m' q' l identity :
  plink_ok (mkSide m (Connect l identity :: q), mkSide m' q') -> m' !! l = Some None.
Proof. intros [_ [K1 _ _ _ _ _]]. cbn in *. specialize (K1 l). cbn in K1. repeat case_decide; congruence || lia. Qed.

(** An answer on the way, likewise; there is no second one. *)
Lemma answered_once m q s' i h :
  plink_ok (mkSide m (h :: q), s') -> answers i h = 1%nat -> m !! i = Some None /\ forall h', h' ∈ q -> answers i h' = 0%nat.
Proof.
  intros [[H1 _ _ _ _ _] _] Hh. cbn in *. specialize (H1 i). cbn in H1. rewrite Hh in H1. case_decide; [|lia].
  split; [done|]. intros h' Hin. pose proof (count_in (answers i) _ _ Hin). lia.
Qed.

Lemma accept_ok m q m' q' l identity j :
  m !! j = None -> plink_ok (mkSide m (Connect l identity :: q), mkSide m' q') ->
  plink_ok (mkSide (<[j := Some l]> m) q, mkSide m' (q' ++ [Ack j l])).
Proof.
  intros Hj Hok. pose proof (asked _ _ _ _ _ _ Hok) as Hl. halves.
  - intros k. setup H1 k.
  - intros k j' Hin. apply H2. by right.
  - intros k j' Hk. destruct (decide (j = k)) as [<-|]; simplify_map_eq.
    + right. split; [done|]. apply elem_of_app. right. by left.
    + destruct (H3 _ _ Hk) as [?|[? ?]]; [by left|right]. split; [done|]. apply elem_of_app. by left.
  - intros pre post l' k ->. destruct (H4 (Connect l identity :: pre) post l' k eq_refl) as [Hk|[Hk Hin]]; [left|right; split];
      rewrite ?lookup_insert_ne by congruence; [done..|]. by apply elem_of_cons in Hin as [[=]|].
  - intros l' k Hin. apply H6. by right.
  - intros k reason Hin. apply (H5 k reason). by right.
  - intros k. setup K1 k.
  - intros k j' [Hin|[= -> ->]%list_elem_of_singleton]%elem_of_app; [|by simplify_map_eq]. pose proof (K2 _ _ Hin).
    by rewrite lookup_insert_ne by congruence.
  - intros k j' Hk. destruct (K3 _ _ Hk) as [?|[? Hin]]; [left|right; split]; rewrite ?lookup_insert_ne by congruence; [done..|].
    by apply elem_of_cons in Hin as [[=]|].
  - intros pre post l' k Hq. snoc Hq; [done|]. by eapply K4.
  - intros l' k [Hin|[=]%list_elem_of_singleton]%elem_of_app. pose proof (K6 _ _ Hin). by rewrite lookup_insert_ne by congruence.
  - intros k reason [Hin|[=]%list_elem_of_singleton]%elem_of_app. by eapply K5.
Qed.

Lemma reject_ok m q m' q' l identity reason :
  plink_ok (mkSide m (Connect l identity :: q), mkSide m' q') -> plink_ok (mkSide m q, mkSide m' (q' ++ [Reject l reason])).
Proof.
  intros Hok. halves.
  - intros k. setup H1 k.
  - intros k j' Hin. apply H2. by right.
  - intros k j' Hk. destruct (H3 _ _ Hk) as [?|[? ?]]; [by left|right]. split; [done|]. apply elem_of_app. by left.
  - intros pre post l' k ->. destruct (H4 (Connect l identity :: pre) post l' k eq_refl) as [Hk|[Hk Hin]]; [by left|right; split; [done|]].
    by apply elem_of_cons in Hin as [[=]|].
  - intros l' k Hin. apply H6. by right.
  - intros k reason' Hin. apply (H5 k reason'). by right.
  - intros k. setup K1 k.
  - intros k j' [Hin|[=]%list_elem_of_singleton]%elem_of_app. by apply K2.
  - intros k j' Hk. destruct (K3 _ _ Hk) as [?|[? Hin]]; [by left|right; split; [done|]]. by apply elem_of_cons in Hin as [[=]|].
  - intros pre post l' k Hq. snoc Hq; [done|]. by eapply K4.
  - intros l' k [Hin|[=]%list_elem_of_singleton]%elem_of_app. by apply K6.
  - intros k reason' [Hin|[=]%list_elem_of_singleton]%elem_of_app. by eapply K5.
Qed.

Lemma deliver_ok m q s' l i : plink_ok (mkSide m (Data l i :: q), s') -> plink_ok (mkSide m q, s').
Proof.
  intros Hok. destruct s' as [m' q']. halves.
  - intros k. setup H1 k.
  - intros k j' Hin. apply H2. by right.
  - done.
  - intros pre post l' k ->. destruct (H4 (Data l i :: pre) post l' k eq_refl) as [Hk|[Hk Hin]]; [by left|right; split; [done|]].
    by apply elem_of_cons in Hin as [[=]|].
  - intros l' k Hin. apply H6. by right.
  - intros k reason' Hin. apply (H5 k reason'). by right.
  - intros k. setup K1 k.
  - done.
  - intros k j' Hk. destruct (K3 _ _ Hk) as [?|[? Hin]]; [by left|right; split; [done|]]. by apply elem_of_cons in Hin as [[=]|].
  - done.
  - done.
  - done.
Qed.

Lemma open_ok m q s' l i :
  plink_ok (mkSide m (Ack l i :: q), s') -> plink_ok (mkSide (<[i := Some l]> m) q, s').
Proof.
  intros Hok. destruct s' as [m' q'].
  destruct (answered_once _ _ _ i _ Hok) as [Hi Hnone]; [cbn; by rewrite decide_True|].
  assert (Hno : forall l', Ack l' i ∉ q) by (intros l' Hin; specialize (Hnone _ Hin); cbn in Hnone; by rewrite decide_True in Hnone).
  halves.
  - intros k. setup H1 k.
  - intros k j' Hin. apply H2. by right.
  - intros k j' Hk. destruct (decide (i = k)) as [<-|]; simplify_map_eq; [|by apply H3]. left. apply H2. by left.
  - intros pre post l' k ->. destruct (H4 (Ack l i :: pre) post l' k eq_refl) as [Hk|[Hk Hin]].
    + left. by rewrite lookup_insert_ne by congruence.
    + apply elem_of_cons in Hin as [[= -> ->]|Hin]; [left; by simplify_map_eq|right]. split; [|done].
      rewrite lookup_insert_ne; [done|]. intros <-. apply (Hno l'), elem_of_app. by left.
  - intros l' k Hin. apply H6. by right.
  - intros k reason' Hin. apply (H5 k reason'). by right.
  - intros k. setup K1 k.
  - intros k j' Hin. pose proof (K2 _ _ Hin). by rewrite lookup_insert_ne by congruence.
  - intros k j' Hk. destruct (K3 _ _ Hk) as [?|[? Hin]]; [left; by rewrite lookup_insert_ne by congruence|].
    apply elem_of_cons in Hin as [[= -> ->]|Hin]; [left; by simplify_map_eq|right]. split; [|done].
    rewrite lookup_insert_ne; [done|]. intros <-. by apply (Hno k).
  - done.
  - intros l' k Hin. pose proof (K6 _ _ Hin). by rewrite lookup_insert_ne by congruence.
  - done.
Qed.

Lemma refused_ok m q s' i reason :
  plink_ok (mkSide m (Reject i reason :: q), s') -> plink_ok (mkSide (delete i m) q, s').
Proof.
  intros Hok. destruct s' as [m' q'].
  destruct (answered_once _ _ _ i _ Hok) as [Hi Hnone]; [cbn; by rewrite decide_True|].
  assert (Hno : forall l', Ack l' i ∉ q) by (intros l' Hin; specialize (Hnone _ Hin); cbn in Hnone; by rewrite decide_True in Hnone).
  halves.
  - intros k. setup H1 k.
  - intros k j' Hin. apply H2. by right.
  - intros k j' Hk. apply lookup_delete_Some in Hk as [_ Hk]. by apply H3.
  - intros pre post l' k ->. destruct (H4 (Reject i reason :: pre) post l' k eq_refl) as [Hk|[Hk Hin]];
      (apply elem_of_cons in Hin as [[=]|Hin] || idtac).
    + left. by rewrite lookup_delete_ne by congruence.
    + right. split; [|done]. rewrite lookup_delete_ne; [done|]. intros <-. apply (Hno l'), elem_of_app. by left.
  - intros l' k Hin. apply H6. by right.
  - intros k reason' Hin. apply (H5 k reason'). by right.
  - intros k. setup K1 k.
  - intros k j' Hin. pose proof (K2 _ _ Hin). by rewrite lookup_delete_ne by congruence.
  - intros k j' Hk. destruct (K3 _ _ Hk) as [?|[? Hin]]; [left; by rewrite lookup_delete_ne by congruence|].
    apply elem_of_cons in Hin as [[=]|Hin]. right. split; [|done].
    rewrite lookup_delete_ne; [done|]. intros <-. by apply (Hno k).
  - done.
  - intros l' k Hin. pose proof (K6 _ _ Hin). by rewrite lookup_delete_ne by congruence.
  - done.
Qed.

Lemma pstep_ok l l' : pstep l l' -> plink_ok l -> plink_ok l'.
Proof.
  intros Hs Hok. destruct Hs; [by eapply connect_ok|by eapply send_ok|by eapply accept_ok|by eapply reject_ok
    |by eapply deliver_ok|by eapply open_ok|by eapply refused_ok].
Qed.

Lemma swap_ok l : plink_ok l -> plink_ok (swap l).
Proof. by intros [? ?]. Qed.

Lemma plink_step_ok l l' : plink_step l l' -> plink_ok l -> plink_ok l'.
Proof.
  intros [H|H] Hok; [by eapply pstep_ok|]. apply pstep_ok in H; [|by apply swap_ok]. apply swap_ok in H. by destruct l'.
Qed.

Lemma start_ok : plink_ok plink_start.
Proof.
  split; (split; cbn; [intros i; by rewrite decide_False by (by rewrite lookup_empty)|intros i j Hin; by apply not_elem_of_nil in Hin
    |intros i j; by rewrite lookup_empty|intros [] ? ? ? [=]|intros l i Hin; by apply not_elem_of_nil in Hin|intros i r; apply not_elem_of_nil]).
Qed.

(** The next header is always one its receiver expects. *)
Lemma head_expected m h q s' : plink_ok (mkSide m (h :: q), s') -> expected m h.
Proof.
  intros Hok. destruct h as [l identity|l i|l i|i reason|i reason]; cbn; [done| | | |].
  - destruct Hok as [[_ _ _ H4 _ _] _]. cbn in *. destruct (H4 [] q l i eq_refl) as [?|[_ Hin]]; [done|]. by apply not_elem_of_nil in Hin.
  - apply (answered_once _ _ _ i _ Hok). cbn. by rewrite decide_True.
  - apply (answered_once _ _ _ i _ Hok). cbn. by rewrite decide_True.
  - destruct Hok as [[_ _ _ _ _ H5] _]. destruct (H5 i reason). by left.
Qed.
