(* ===== verification/LinkSpec.v ===== *)
(** Two running interfaces, joined by a wire in each direction, implement the protocol of
    [Link].

    A [node] is an interface: where its [Machine::run] stands, and its machine.  The steps of
    a link ([link_step]) are the stretches of [Machine::run] on either side, the frames'
    travel from one wire buffer to the other, and the local tasks' use of the channels.
    [link_rep] relates a link to the protocol's state; the simulation is [lstep_sim]. *)
From S2P Require Import Prelude Interfaces Errors Core CoreWord CoreQueue Pipe PipeSpec BiDi Message ConnTable ConnTableSpec Machine MachineSpec EndToEnd Link.

Section LinkSpec.
Context {PU : PackUsize} {PUL : PackUsizeLaws}.
Context {IA : IndexAlloc} {IAL : IndexAllocLaws}.
Context {WCA : WaitCellApi} {WCL : WaitCellLaws} {WQA : WaitQueueApi} {WQL : WaitQueueLaws}.
Context {SC : SerChannel Reset} {SCL : SerChannelLaws Reset} {RS : ResponseSender}.
Context {Hello : Type} {BH : Body Hello}.
Context {PH : Postcard Header} {PHL : PostcardLaws Header}.
Variable MAX_CONNS : Z.
Hypothesis MAX_CONNS_range : 0 <= MAX_CONNS < u16_mod - 1.
(** [serde] refuses a zero for a [NonZeroU16]: decoded headers carry identifiers. *)
Hypothesis header_ids : forall bs h rest, pc_take_from_bytes bs = Ok (h, rest) -> frame_ids h.

Definition Registry : Type := Identity -> bytes -> result Chan Rejection.
(** A registry answers with channels in a good state. *)
Definition registry_good (registry : Registry) : Prop :=
  forall identity bs c, registry identity bs = Ok c -> sc_inv c.

Notation RState := (run_state (Hello := Hello)).
Notation Mach := (Machine (Hello := Hello) (W := byte_wire)).
Definition node : Type := RState * Mach.
Definition link : Type := node * node.

(** ** The link *)

(** What the local tasks owe while connections are set up and used: the ones that wait for
    a connection stay, and the channels in use are not closed and take their messages. *)
Definition served (n : node) : Prop :=
  let t := conn_table n.2 in
  match n.1 with
  | RunSelect _ => forall i remote c e,
      conns t !! i = Some (Occupied (mkSocket (Open remote) c)) -> snd (sc_poll_recv c) <> Val (Ready (Err e))
  | RunSend _ _ _ => True
  | RunProcess _ f fut =>
      match header f with
      | Data _ i => forall s fut' e,
          conns t !! to_index i = Some (Occupied s) -> snd (sc_send (body f) fut (sock_channel s)) <> Val (fut', Ready (Err e))
      | Ack _ i => forall rsp c,
          conns t !! to_index i = Some (Occupied (mkSocket (Connecting rsp) c)) -> rsp_send rsp (Ok tt) = true
      | _ => True
      end
  end.

(** What the surroundings of the interface on the left do: a frame travels, a local task uses
    a channel, the channel of requests changes. *)
Inductive env_step : link -> link -> Prop :=
| EnvWire st m inc frame sent st' m' inc' sent' :
    wire m = (inc, frame :: sent) -> wire m' = (inc', sent') ->
    env_step ((st, m), (st', m')) ((st, set_wire (W := byte_wire) (inc, sent) m), (st', set_wire (W := byte_wire) (inc' ++ [frame], sent') m'))
| EnvTouch st m i c t u b :
    1 <= i -> sc_inv c -> table_step (Hello := Hello) MAX_CONNS (TTouch i c) (conn_table m) = (t, Val u) ->
    env_step ((st, m), b) ((st, set_conn_table t m), b)
| EnvConns st m p b : conns_ok p -> env_step ((st, m), b) ((st, set_conns_rx p m), b).

(** What the interface on the left and its surroundings do. *)
Inductive lstep (registry : Registry) : link -> link -> Prop :=
| LRun st m st' m' b :
    served (st, m) -> run_step MAX_CONNS registry st m = (m', Val (Continue st')) -> lstep registry ((st, m), b) ((st', m'), b)
| LPoll st m st' m' b :
    served (st, m) -> run_step MAX_CONNS registry st m = (m', Val (Yield st')) -> lstep registry ((st, m), b) ((st', m'), b)
| LEnv l l' : env_step l l' -> lstep registry l l'.

Definition link_step (registry_a registry_b : Registry) (l l' : link) : Prop :=
  lstep registry_a l l' \/ lstep registry_b (swap l) (swap l').

Definition node_new (p : Conns (Hello := Hello)) : node :=
  (RunSelect true, mkMachine (W := byte_wire) ([], []) (new MAX_CONNS) p).
Definition link_start (pa pb : Conns (Hello := Hello)) : link := (node_new pa, node_new pb).

(** ** What a link stands for *)

Definition end_of (s : Socket) : option Id := match sock_state s with Open j => Some j | Connecting _ => None end.
(** The header an interface has in hand, and the one it is about to put on the wire. *)
Definition in_hand (st : RState) : list Header := match st with RunProcess _ f _ => [header f] | _ => [] end.
Definition about_to_send (st : RState) : list Header := match st with RunSend _ _ f => [header f] | _ => [] end.
Definition carries (b : bytes) (h : Header) : Prop := exists bs, from_bytes b = Ok (mkFrame h bs).

(** A frame that only carries a body if its header says so. *)
Definition plain (f : Frame_out (Hello := Hello)) : Prop := has_body (header f) = true \/ body f = Empty.

(** The table has the connections [e], and [d] is its dead one. *)
Record node_rep (n : node) (e : ends) (d : option Id) : Prop := {
  nr_table : exists m, trep MAX_CONNS (conn_table n.2) m /\ chan_ok m /\ e = end_of <$> m;
  nr_dead : dead_index (conn_table n.2) = d;
  nr_conns : conns_ok (conns_rx n.2);
  nr_state : state_ok n.1;
  nr_plain : forall remaining ctx f, n.1 = RunSend remaining ctx f -> plain f;
  nr_dead_id : forall i, d = Some i -> 1 <= i;
}.

(** The wires of [n] carry these headers: still to be received, and sent. *)
Definition wires (n : node) (inc out : list Header) : Prop :=
  Forall2 carries (fst (wire n.2)) inc /\ Forall2 carries (snd (wire n.2)) out.

(** The headers on the way to each side. *)
Definition queues_rep (l : link) (qa qb : list Header) : Prop :=
  exists ia oa ib ob, wires l.1 ia oa /\ wires l.2 ib ob /\
    qa = in_hand l.1.1 ++ ia ++ ob ++ about_to_send l.2.1 /\
    qb = in_hand l.2.1 ++ ib ++ oa ++ about_to_send l.1.1.

Definition link_rep (l : link) (p : plink) : Prop :=
  node_rep l.1 (sd_ends p.1) None /\ node_rep l.2 (sd_ends p.2) None /\ queues_rep l (sd_in p.1) (sd_in p.2).

Lemma link_rep_swap l p : link_rep l p -> link_rep (swap l) (swap p).
Proof. intros (Ha & Hb & ia & oa & ib & ob & H). split_and!; [done..|]. exists ib, ob, ia, oa. tauto. Qed.

Lemma start_rep pa pb : conns_ok pa -> conns_ok pb -> link_rep (link_start pa pb) plink_start.
Proof.
  intros Ha Hb.
  assert (Hn : forall p, conns_ok p -> node_rep (node_new p) ∅ None).
  { intros p Hp. split; cbn; try done. exists ∅. split_and!; [by apply new_trep|by intros i s; rewrite lookup_empty|].
    by rewrite fmap_empty. }
  split_and!; [by apply Hn..|]. by exists [], [], [], [].
Qed.

(** ** Frames on the wire *)

(** A sent frame carries its header. *)
Lemma sent_carries (f : Frame_out (Hello := Hello)) b : plain f -> frame_to_vec f = Ok b -> carries b (header f).
Proof.
  unfold frame_to_vec, carries, from_bytes. intros Hp Hf. destruct (pc_to_allocvec (header f)) as [h|e] eqn:Hh; [|done].
  destruct (data_to_vec (body f)) as [d|e] eqn:Hd; [|done]. injection Hf as <-. rewrite (pc_take_round_trip _ _ _ Hh).
  destruct (has_body (header f)) eqn:Hb; cbn; [by eexists|]. destruct Hp as [|Hp]; [congruence|].
  rewrite Hp in Hd. injection Hd as <-. by eexists.
Qed.

Lemma carries_ids b f : from_bytes b = Ok f -> frame_ids (header f).
Proof. intros [rest H]%from_bytes_header. by eapply header_ids. Qed.

(** ** The simulation *)

Lemma ends_insert (m : gmap Id Socket) (i : Id) (s : Socket) : end_of <$> <[i := s]> m = <[i := end_of s]> (end_of <$> m).
Proof. apply fmap_insert. Qed.
(** A channel operation does not change what the connection knows of its peer. *)
Lemma ends_channel (m : gmap Id Socket) (i : Id) s c c' : m !! i = Some (mkSocket s c) -> end_of <$> <[i := mkSocket s c']> m = end_of <$> m.
Proof.
  intros Hm. rewrite ends_insert. apply insert_id. rewrite lookup_fmap, Hm. done.
Qed.
Lemma ends_states (m m' : gmap Id Socket) : same_states m m' -> end_of <$> m' = end_of <$> m.
Proof.
  intros H. apply map_eq. intros i. rewrite !lookup_fmap. specialize (H i). unfold end_of.
  destruct (m !! i), (m' !! i); cbn in *; try done. by injection H as ->.
Qed.
Lemma ends_open (m : gmap Id Socket) (i l : Id) : (end_of <$> m) !! i = Some (Some l) -> exists c, m !! i = Some (mkSocket (Open l) c).
Proof.
  rewrite lookup_fmap. destruct (m !! i) as [[[r|rsp] c]|]; cbn; try done. intros [= ->]. by exists c.
Qed.
Lemma ends_connecting (m : gmap Id Socket) (i : Id) : (end_of <$> m) !! i = Some None -> exists rsp c, m !! i = Some (mkSocket (Connecting rsp) c).
Proof.
  rewrite lookup_fmap. destruct (m !! i) as [[[r|rsp] c]|]; cbn; try done. intros _. by exists rsp, c.
Qed.
(** The protocol's state, given what is fixed while the interface on the left runs (the
    other one, its end, its wires) and what is not. *)
Definition seen (b : node) (eb : ends) (ib ob : list Header) (st : RState) (ia oa : list Header) (e : ends) : plink :=
  (mkSide e (in_hand st ++ ia ++ ob ++ about_to_send b.1), mkSide eb (in_hand b.1 ++ ib ++ oa ++ about_to_send st)).

Lemma seen_rep b eb ib ob st m ia oa e :
  node_rep b eb None -> wires b ib ob -> node_rep (st, m) e None -> wires (st, m) ia oa -> link_rep ((st, m), b) (seen b eb ib ob st ia oa e).
Proof. intros Hb Hwb Ha Hwa. split_and!; [done..|]. by exists ia, oa, ib, ob. Qed.

Lemma link_rep_inv st m b p :
  link_rep ((st, m), b) p -> exists eb ib ob ia oa e,
    node_rep b eb None /\ wires b ib ob /\ node_rep (st, m) e None /\ wires (st, m) ia oa /\ p = seen b eb ib ob st ia oa e.
Proof.
  intros (Ha & Hb & ia & oa & ib & ob & Hwa & Hwb & Hqa & Hqb). destruct p as [[ea qa] [eb qb]]. cbn in *. subst.
  by exists eb, ib, ob, ia, oa, ea.
Qed.

(** What follows a stretch of [run]: what the link stands for is the same, or one step of
    the protocol further. *)
Definition run_post (b : node) (p : plink) (r : run_result (Hello := Hello)) (m' : Mach) : Prop :=
  match r with
  | Continue st' | Yield st' => exists p', (p' = p \/ pstep p p') /\ link_rep ((st', m'), b) p'
  | Return _ => True
  end.

Lemma snoc_queue (l1 l2 l3 : list Header) h : l1 ++ l2 ++ l3 ++ [h] = (l1 ++ l2 ++ l3 ++ []) ++ [h].
Proof. by rewrite app_nil_r, <- !app_assoc. Qed.

Lemma connect_sim b eb ib ob ia oa remaining m e (oc : OutboundConnect Hello) :
  node_rep b eb None -> wires b ib ob -> node_rep (RunSelect remaining, m) e None -> wires (RunSelect remaining, m) ia oa ->
  sc_inv (oc_channel oc) ->
  wp (run_connect MAX_CONNS remaining oc) (run_post b (seen b eb ib ob (RunSelect remaining) ia oa e)) m.
Proof.
  intros Hb Hwb [(t & Hrep & Hok & ->) Hd Hc _ _] Hwa Hoc. cbn in *. apply wp_bind, on_table_wp.
  eapply wp_mono; [by apply wp_fst, start_connecting_wp|]. cbn. intros r t' [H ->].
  pose proof (keeps_dead_connect MAX_CONNS oc (conn_table m)) as Hd'. rewrite Hd in Hd'.
  destruct H as [(_ & -> & Hrep' & _)|(_ & i & Hi & Hn & -> & Hrep' & _)]; apply wp_ret.
  - eexists. split; [by left|]. apply seen_rep; [done..| |done]. split; cbn; try done. by exists t.
  - exists (seen b eb ib ob (RunSend remaining (Some ctx_connect) (frame_connect i (oc_identity oc) (oc_hello oc))) ia oa
      (<[i := None]> (end_of <$> t))). split.
    + right. unfold seen. cbn. rewrite snoc_queue. constructor. by rewrite lookup_fmap, Hn.
    + apply seen_rep; [done..| |done]. split; cbn; try done.
      * eexists. split; [exact Hrep'|]. split; [by apply chan_ok_insert|]. by rewrite ends_insert.
      * intros ? ? ? [= <- <- <-]. by left.
Qed.

Lemma select_sim b eb ib ob ia oa remaining m e :
  node_rep b eb None -> wires b ib ob -> node_rep (RunSelect remaining, m) e None -> wires (RunSelect remaining, m) ia oa ->
  served (RunSelect remaining, m) ->
  wp (run_select MAX_CONNS remaining) (run_post b (seen b eb ib ob (RunSelect remaining) ia oa e)) m.
Proof.
  intros Hb Hwb Ha Hwa Hsv. assert (Ha' := Ha). destruct Ha' as [(t & Hrep & Hok & ->) Hd Hc Hst Hpl]. cbn in *.
  assert (Hwa' := Hwa). destruct Hwa' as [Hin Hout]. cbn in *.
  apply wp_bind, on_wire_wp. destruct (wire m) as [inc out] eqn:Hw. cbn in *.
  destruct Hin as [|buf h inc ia [bs Hbuf] Hin]; cbn.
  - apply wp_bind, on_table_wp. cbn. eapply wp_mono; [apply next_outbound_wp; [done..|by rewrite Hd]|].
    unfold cleaned. rewrite Hd. cbn. intros r t' (m' & Hrep' & Hok' & Hst' & _ & Hpost).
    assert (Hn : forall st, state_ok st -> (forall remaining ctx f, st = RunSend remaining ctx f -> plain f) ->
      dead_index t' = None -> forall m1, conn_table m1 = t' -> conns_ok (conns_rx m1) -> node_rep (st, m1) (end_of <$> t) None).
    { intros st Hs1 Hs2 Hd1 m1 <- Hc1. split; cbn; [|done..]. exists m'. split_and!; [done..|]. by rewrite (ends_states t m'). }
    destruct r as [|f].
    + destruct Hpost as (_ & Hd' & _).
      assert (Hsame : forall rem m1, conn_table m1 = t' -> wire m1 = ([], out) -> conns_ok (conns_rx m1) ->
        link_rep ((RunSelect rem, m1), b) (seen b eb ib ob (RunSelect remaining) [] oa (end_of <$> t))).
      { intros rem m1 H1 H2 H3. apply (seen_rep b eb ib ob (RunSelect rem)); [done..|by apply Hn|]. split; cbn; by rewrite H2. }
      destruct remaining; [|apply wp_ret; eexists; split; [by left|]; by apply Hsame].
      apply wp_bind, on_conns_wp. eapply wp_mono; [by apply recv_conn_wp|]. cbn.
      intros [|[oc|[]]] q [Hq Hoc]; try (apply wp_ret; eexists; split; [by left|]; by apply Hsame).
      apply connect_sim; [done..|by apply Hn|by split|done].
    + destruct Hpost as (i & remote & c & c' & x & _ & Hm & _ & Hpoll & Hx). apply wp_ret.
      destruct x as [data|err]; [destruct Hx as [-> Hd']|].
      * exists (seen b eb ib ob (RunSend remaining None (frame_data remote i data)) [] oa (end_of <$> t)). split.
        -- right. unfold seen. cbn. rewrite snoc_queue. constructor. by rewrite lookup_fmap, Hm.
        -- apply seen_rep; [done..| |by split]. apply Hn; try done. intros ? ? ? [= <- <- <-]. by left.
      * exfalso. assert (Ho : conns (conn_table m) !! to_index i = Some (Occupied (mkSocket (Open remote) c))).
        { pose proof (trep_dom _ _ _ _ _ Hrep Hm) as [Hi _]. destruct Hrep as (free & k & Hwf). by apply (tw_occupied _ _ _ _ _ Hwf). }
        apply (Hsv _ _ _ err Ho). by rewrite Hpoll.
  - unfold run_inbound. rewrite Hbuf. rewrite decide_False by apply not_interface. apply wp_ret.
    eexists. split; [by left|]. apply (seen_rep b eb ib ob (RunProcess remaining (mkFrame h bs) sc_send_start) _ ia oa).
    + done.
    + done.
    + split; cbn; try done; [by exists t|]. by apply (carries_ids buf (mkFrame h bs)).
    + by split.
Qed.
Lemma send_sim b eb ib ob ia oa remaining ctx f m e :
  node_rep b eb None -> wires b ib ob -> node_rep (RunSend remaining ctx f, m) e None -> wires (RunSend remaining ctx f, m) ia oa ->
  forall registry, wp (run_step MAX_CONNS registry (RunSend remaining ctx f))
    (run_post b (seen b eb ib ob (RunSend remaining ctx f) ia oa e)) m.
Proof.
  intros Hb Hwb Ha Hwa registry. destruct Ha as [Ht Hd Hc Hst Hpl]. destruct Hwa as [Hin Hout]. cbn in *.
  apply wp_bind, on_wire_wp. cbn. destruct (frame_to_vec f) as [v|err] eqn:Hv; cbn; apply wp_ret; [|done].
  eexists. split; [by left|].
  replace (seen b eb ib ob (RunSend remaining ctx f) ia oa e) with (seen b eb ib ob (RunSelect remaining) ia (oa ++ [header f]) e).
  - apply seen_rep; [done..| |].
    + by split.
    + split; [done|]. cbn. apply Forall2_app; [done|]. constructor; [|done]. apply sent_carries; [by eapply Hpl|done].
  - unfold seen. cbn. by rewrite <- !app_assoc.
Qed.

Lemma process_sim b eb ib ob ia oa remaining f fut m e registry :
  node_rep b eb None -> wires b ib ob -> node_rep (RunProcess remaining f fut, m) e None -> wires (RunProcess remaining f fut, m) ia oa ->
  served (RunProcess remaining f fut, m) -> registry_good registry ->
  plink_ok (seen b eb ib ob (RunProcess remaining f fut) ia oa e) ->
  wp (run_step MAX_CONNS registry (RunProcess remaining f fut))
    (run_post b (seen b eb ib ob (RunProcess remaining f fut) ia oa e)) m.
Proof.
  intros Hb Hwb [(t & Hrep & Hok & ->) Hd Hc Hst _] Hwa Hsv Hreg Hpok.
  pose proof (head_expected _ _ _ _ Hpok) as Hexp. cbn [fst snd state_ok served] in *.
  assert (Ho : forall i s, t !! i = Some s -> conns (conn_table m) !! to_index i = Some (Occupied s)).
  { intros i s Hm. pose proof (trep_dom _ _ _ _ _ Hrep Hm) as [Hi _]. destruct Hrep as (free & k & Hwf).
    by apply (tw_occupied _ _ _ _ _ Hwf). }
  cbn [run_step]. apply wp_bind, on_table_wp. eapply wp_mono; [by apply wp_fst, process_inbound_wp|].
  cbn. intros [fut' r] t' [(t1 & Hrep1 & Hok1 & Hpost) ->].
  pose proof (keeps_dead_inbound (Hello := Hello) MAX_CONNS registry f fut (conn_table m)) as Hd'. rewrite Hd in Hd'.
  set (t' := fst _) in *. apply wp_ret. cbn [snd fst].
  assert (Hnr : forall st, state_ok st -> (forall remaining ctx f, st = RunSend remaining ctx f -> plain f) ->
    node_rep (st, set_conn_table t' m) (end_of <$> t1) None) by (intros st H1 H2; split; [by exists t1|done..]).
  assert (Hgo : forall st e',
    (seen b eb ib ob st ia oa e' = seen b eb ib ob (RunProcess remaining f fut) ia oa (end_of <$> t) \/
     pstep (seen b eb ib ob (RunProcess remaining f fut) ia oa (end_of <$> t)) (seen b eb ib ob st ia oa e')) ->
    e' = end_of <$> t1 -> state_ok st -> (forall remaining ctx f, st = RunSend remaining ctx f -> plain f) ->
    exists p', (p' = seen b eb ib ob (RunProcess remaining f fut) ia oa (end_of <$> t) \/
                pstep (seen b eb ib ob (RunProcess remaining f fut) ia oa (end_of <$> t)) p') /\
               link_rep ((st, set_conn_table t' m), b) p').
  { intros st e' Hs -> H1 H2. eexists. split; [exact Hs|]. apply seen_rep; [done..|by apply Hnr|done]. }
  destruct f as [h bs]. unfold inbound_post in Hpost. cbn [header body] in *.
  destruct h as [l identity|l i|l i|i reason|i reason]; cbn [expected snd] in *.
  - destruct (registry identity bs) as [c|reason].
    + destruct Hpost as (o & -> & [(_ & -> & -> & _)|(_ & i & _ & _ & Hn & -> & -> & _)]).
      * eapply Hgo; [|done|done|intros ? ? ? [= <- <- <-]; by right]. right. unfold seen. cbn. rewrite snoc_queue. constructor.
      * eapply Hgo; [|by rewrite ends_insert|done|intros ? ? ? [= <- <- <-]; by right]. right. unfold seen. cbn. rewrite snoc_queue.
        constructor. by rewrite lookup_fmap, Hn.
    + destruct Hpost as (-> & -> & _). eapply Hgo; [|done|done|intros ? ? ? [= <- <- <-]; by right].
      right. unfold seen. cbn. rewrite snoc_queue. constructor.
  - assert (Hexp' := Hexp). apply ends_open in Hexp as [c Hm]. unfold data_post in Hpost. cbn [snd fst] in Hpost.
    rewrite Hm, Z.eqb_refl in Hpost. destruct Hpost as (c' & q & Hsend & Hq). destruct q as [|[[]|err]].
    + destruct Hq as (-> & -> & _). eapply Hgo; [by left|by rewrite (ends_channel _ _ _ _ _ Hm)|done|done].
    + destruct Hq as (-> & -> & _). eapply Hgo; [|by rewrite (ends_channel _ _ _ _ _ Hm)|done|done].
      right. unfold seen. cbn. by constructor.
    + exfalso. apply (Hsv _ fut' err (Ho _ _ Hm)). cbn. by rewrite Hsend.
  - destruct Hpost as (o & -> & Hpost). pose proof (ends_connecting _ _ Hexp) as (rsp & c & Hm).
    unfold ack_post in Hpost. rewrite Hm in Hpost. destruct Hpost as (-> & _ & ->).
    rewrite (Hsv _ _ (Ho _ _ Hm)). eapply Hgo; [|by rewrite ends_insert|done|done].
    right. unfold seen. cbn. by constructor.
  - destruct Hpost as (-> & -> & _). eapply Hgo; [|by rewrite fmap_delete|done|done].
    right. unfold seen. cbn. by constructor.
  - done.
Qed.

Lemma step_sim st m b p registry :
  link_rep ((st, m), b) p -> plink_ok p -> served (st, m) -> registry_good registry ->
  wp (run_step MAX_CONNS registry st) (run_post b p) m.
Proof.
  intros (eb & ib & ob & ia & oa & e & Hb & Hwb & Ha & Hwa & ->)%link_rep_inv Hpok Hsv Hreg.
  destruct st as [remaining|remaining ctx f|remaining frame fut]; [by apply select_sim|by apply send_sim|by apply process_sim].
Qed.

(** The surroundings change neither the connections nor the queues. *)
Lemma env_rep l l' e d e' d' qa qb :
  env_step l l' -> node_rep l.1 e d -> node_rep l.2 e' d' -> queues_rep l qa qb ->
  node_rep l'.1 e d /\ node_rep l'.2 e' d' /\ queues_rep l' qa qb.
Proof.
  intros Hs [Ht Hd Hc Hst Hpl] Hb (ia & oa & ib & ob & [Hin Hout] & Hwb & Hqa & Hqb).
  destruct Hs as [st m inc frame sent st' m' inc' sent' Hw Hw'|st m i c t u b Hi Hc' Hrun|st m q b Hq]; cbn [fst snd] in *.
  - destruct Hb as [Ht' Hd' Hc' Hst' Hpl'], Hwb as [Hin' Hout']. cbn in *. rewrite Hw in *. rewrite Hw' in *. cbn in *.
    apply Forall2_cons_inv_l in Hout as (h & oa1 & Hh & Hout & ->).
    split; [by split|]. split; [by split|]. exists ia, oa1, (ib ++ [h]), ob. split_and!.
    + by split.
    + split; [|done]. apply Forall2_app; [done|by constructor].
    + done.
    + by rewrite Hqb, <- !app_assoc.
  - destruct Ht as (t0 & Hrep & Hok & He). split; [|split; [done|by exists ia, oa, ib, ob]]. split; cbn in *; try done.
    + pose proof (get_mut_spec _ _ _ _ Hrep Hi) as Hget. apply bind_inv in Hrun as (t1 & eo & Heo & Hrun).
      unfold get_mut, gets in Heo. injection Heo as <- <-. destruct (conns (conn_table m) !! to_index i) as [[| |s]|] eqn:Hs;
        cbn in Hget; try (injection Hrun as <- <-; by exists t0).
      injection Hrun as <- <-. exists (<[i := mkSocket (sock_state s) c]> t0). split; [by apply (put_socket_trep MAX_CONNS MAX_CONNS_range (conn_table m) t0 i s)|].
      split; [by apply chan_ok_insert|]. destruct s as [s c0]. rewrite He. symmetry. by apply (ends_channel _ _ s c0 c).
    + rewrite <- Hd. apply bind_inv in Hrun as (t1 & eo & Heo & Hrun). unfold get_mut, gets in Heo. injection Heo as <- <-.
      by destruct (conns (conn_table m) !! to_index i) as [[| |s]|]; injection Hrun as <- <-.
  - split; [by split|]. split; [done|]. by exists ia, oa, ib, ob.
Qed.

(** Every step of the left interface and its surroundings is a step of the protocol, or none. *)
Lemma lstep_sim registry l l' p :
  lstep registry l l' -> registry_good registry -> link_rep l p -> plink_ok p ->
  exists p', (p' = p \/ pstep p p') /\ link_rep l' p'.
Proof.
  intros Hs Hreg Hrep Hpok. destruct Hs as [st m st' m' b Hsv Hrun|st m st' m' b Hsv Hrun|l l' Henv].
  1,2: destruct (step_sim _ _ _ _ _ Hrep Hpok Hsv Hreg) as (m1 & r & Hrun' & Hpost); rewrite Hrun in Hrun'; by injection Hrun' as <- <-.
  exists p. split; [by left|]. destruct Hrep as (Ha & Hb & Hq). by apply (env_rep l).
Qed.

Context (registry_a registry_b : Registry).
Hypothesis registry_a_ok : registry_good registry_a.
Hypothesis registry_b_ok : registry_good registry_b.

Lemma link_step_sim l l' p :
  link_step registry_a registry_b l l' -> link_rep l p -> plink_ok p -> exists p', rtc plink_step p p' /\ link_rep l' p'.
Proof.
  intros [Hs|Hs] Hrep Hpok.
  - destruct (lstep_sim _ _ _ _ Hs registry_a_ok Hrep Hpok) as (p' & [->|Hp] & Hrep'); [by exists p|].
    exists p'. split; [|done]. apply rtc_once. by left.
  - destruct (lstep_sim _ _ _ _ Hs registry_b_ok (link_rep_swap _ _ Hrep) (swap_ok _ Hpok)) as (p' & Hp & Hrep').
    exists (swap p'). apply link_rep_swap in Hrep'. destruct l', p, p'. split; [|done].
    destruct Hp as [[= <- <-]|Hp]; [done|]. apply rtc_once. by right.
Qed.

Lemma rtc_plink_ok p p' : rtc plink_step p p' -> plink_ok p -> plink_ok p'.
Proof.
  intros H Hp. eapply (rtc_invariant plink_step plink_ok); [exact Hp|intros ? ? ? ?; by eapply plink_step_ok|exact H].
Qed.

Lemma link_refines pa pb l :
  conns_ok pa -> conns_ok pb -> rtc (link_step registry_a registry_b) (link_start pa pb) l ->
  exists p, rtc plink_step plink_start p /\ link_rep l p.
Proof.
  intros Ha Hb. revert l. apply (rtc_ind_r (fun l => exists p, rtc plink_step plink_start p /\ link_rep l p)).
  - exists plink_start. split; [done|by apply start_rep].
  - intros l l' _ Hs (p & Hp & Hrep). destruct (link_step_sim _ _ _ Hs Hrep) as (p' & Hp' & Hrep').
    { by eapply rtc_plink_ok, start_ok. }
    exists p'. split; [by etrans|done].
Qed.
(** ** What the protocol gives *)

Lemma plink_reached p : rtc plink_step plink_start p -> plink_ok p.
Proof. intros H. by eapply rtc_plink_ok, start_ok. Qed.

(** What the table of an interface holds for an identifier. *)
Definition sock_at (n : node) (i : Id) : option State :=
  conns (conn_table n.2) !! to_index i ≫= fun e => sock_state <$> socket e.

Lemma sock_at_ends n e d i : node_rep n e d -> 1 <= i ->
  e !! i = (fun s => match s with Open j => Some j | Connecting _ => None end) <$> sock_at n i.
Proof.
  intros [(m & Hrep & _ & ->) _ _ _ _] Hi. pose proof (get_mut_spec _ _ _ _ Hrep Hi) as Hget. unfold sock_at.
  rewrite lookup_fmap, <- Hget. by destruct (conns (conn_table n.2) !! to_index i) as [[| |[[]]]|].
Qed.
Lemma ends_ids n e d i x : node_rep n e d -> e !! i = Some x -> 1 <= i.
Proof.
  intros [(m & Hrep & _ & ->) _ _ _ _]. rewrite lookup_fmap. intros (s & Hs & _)%fmap_Some.
  by destruct (trep_dom _ _ _ _ _ Hrep Hs).
Qed.
Lemma sock_at_open n e d i j : node_rep n e d -> e !! i = Some (Some j) -> sock_at n i = Some (Open j).
Proof.
  intros Hn He. pose proof (ends_ids _ _ _ _ _ Hn He) as Hi. rewrite (sock_at_ends _ _ _ _ Hn Hi) in He.
  destruct (sock_at n i) as [[|]|]; cbn in He; congruence.
Qed.
Lemma sock_at_connecting n e d i : node_rep n e d -> e !! i = Some None -> exists rsp, sock_at n i = Some (Connecting rsp).
Proof.
  intros Hn He. pose proof (ends_ids _ _ _ _ _ Hn He) as Hi. rewrite (sock_at_ends _ _ _ _ Hn Hi) in He.
  destruct (sock_at n i) as [[|rsp]|]; cbn in He; try congruence. by exists rsp.
Qed.

(** The frame that the interface [n] handles is one it expects, from [n'], and the one it is
    about to send is not a reset. *)
Definition frames_ok (n n' : node) : Prop :=
  match n.1 with
  | RunSelect _ => True
  | RunSend _ _ f => forall i reason, header f <> HReset i reason
  | RunProcess _ f _ =>
      match header f with
      | Connect l _ => exists rsp, sock_at n' l = Some (Connecting rsp)
      | Data l i => sock_at n i = Some (Open l) /\ sock_at n' l = Some (Open i)
      | Ack l i => (exists rsp, sock_at n i = Some (Connecting rsp)) /\ sock_at n' l = Some (Open i)
      | Reject i _ => exists rsp, sock_at n i = Some (Connecting rsp)
      | HReset _ _ => False
      end
  end.

Lemma rep_frames_ok a b p : link_rep (a, b) p -> plink_ok p -> frames_ok a b.
Proof.
  destruct a as [st m]. intros (eb & ib & ob & ia & oa & e & Hb & _ & Ha & _ & ->)%link_rep_inv Hok.
  unfold frames_ok. destruct st as [remaining|remaining ctx f|remaining f fut]; cbn [fst]; [done|..].
  - intros i reason Hf. destruct Hok as [_ [_ _ _ _ _ Hr]]. apply (Hr i reason). cbn. rewrite Hf, !elem_of_app.
    do 3 right. by left.
  - pose proof (head_expected _ _ _ _ Hok) as Hexp. destruct (header f) as [l identity|l i|l i|i reason|i reason] eqn:Hf; cbn in Hexp.
    + unfold seen in Hok. cbn in Hok. rewrite Hf in Hok. apply asked in Hok. by apply (sock_at_connecting b eb None).
    + split; [by apply (sock_at_open _ e None)|]. apply (sock_at_open _ eb None); [done|]. destruct Hok as [[_ _ _ _ Hfr _] _].
      apply Hfr. cbn. rewrite Hf. by left.
    + split; [by apply (sock_at_connecting _ e None)|]. apply (sock_at_open _ eb None); [done|]. destruct Hok as [[_ Hack _ _ _ _] _].
      apply Hack. cbn. rewrite Hf. by left.
    + by apply (sock_at_connecting _ e None).
    + done.
Qed.

(** Two running interfaces, joined by a wire in each direction, implement the connection
    protocol: whatever the order of their stretches of [Machine::run], of the frames'
    travel and of the local tasks' use of the channels, every state they reach stands for a
    state of the protocol, whose steps are requests, answers and messages handled in the
    order they were sent (while the local tasks keep their channels and serve them). *)
Theorem link_refines_protocol pa pb l :
  conns_ok pa -> conns_ok pb -> rtc (link_step registry_a registry_b) (link_start pa pb) l ->
  exists p, rtc plink_step plink_start p /\ link_rep l p.
Proof. apply link_refines. Qed.

(** As long as the local tasks keep their side ([served]: the callers that wait for a
    connection stay, and the channels in use are neither closed nor refuse a message), every
    frame finds what it is for.  In every state two joined interfaces reach, a data frame
    that one of them handles is for a connection open to its sender's, which is open to it;
    an ACK is for a connection that waits for it and comes from one open to that connection;
    a rejection is for a connection that waits for it.  So the remaining causes of resets,
    data or an ACK whose identifiers do not match the table's, do not arise, and no reset is
    sent. *)
Theorem link_frames_expected pa pb a b :
  conns_ok pa -> conns_ok pb -> rtc (link_step registry_a registry_b) (link_start pa pb) (a, b) ->
  frames_ok a b /\ frames_ok b a.
Proof.
  intros Ha Hb (p & Hp & Hrep)%link_refines; [|done..]. apply plink_reached in Hp. split; [by eapply rep_frames_ok|].
  eapply rep_frames_ok, swap_ok, Hp. by apply (link_rep_swap (a, b)).
Qed.

(** The tables agree.  Whenever two joined interfaces have no frame in hand and none on the
    wire, the connections of one are exactly those of the other: [i] here is open to [j]
    there if and only if [j] there is open to [i] here, and none waits to be set up.  (While
    the local tasks keep their side, [served]; for links whose connections end, see
    [LinkEndsSpec].) *)
Theorem link_agrees_when_idle pa pb a b i j :
  conns_ok pa -> conns_ok pb -> rtc (link_step registry_a registry_b) (link_start pa pb) (a, b) ->
  (exists ra rb, a.1 = RunSelect ra /\ b.1 = RunSelect rb) -> wire a.2 = ([], []) -> wire b.2 = ([], []) ->
  1 <= i -> 1 <= j ->
  (sock_at a i = Some (Open j) <-> sock_at b j = Some (Open i)) /\
  (forall rsp, sock_at a i <> Some (Connecting rsp)) /\ (forall rsp, sock_at b j <> Some (Connecting rsp)).
Proof.
  intros Hpa Hpb (p & Hp%plink_reached & Ha & Hb & ia & oa & ib & ob & [H1 H2] & [H3 H4] & Hqa & Hqb)%link_refines (ra & rb & Hsa & Hsb) Hwa Hwb Hi Hj; [|done..].
  cbn [fst snd] in *. rewrite Hwa in *. rewrite Hwb in *. rewrite Hsa in *. rewrite Hsb in *. cbn in *.
  apply Forall2_nil_inv_l in H1 as ->, H2 as ->, H3 as ->, H4 as ->. destruct p as [[ea qa] [eb qb]]. cbn in *. subst qa qb.
  destruct Hp as [[A1 _ A3 _ _ _] [B1 _ B3 _ _ _]]. cbn in *.
  pose proof (sock_at_ends _ _ _ i Ha Hi) as Hai. pose proof (sock_at_ends _ _ _ j Hb Hj) as Hbj.
  specialize (A1 i). specialize (B1 j). specialize (A3 i j). specialize (B3 j i). rewrite Hai, Hbj in *. split_and!.
  - split; intros Hs.
    + destruct (A3 ltac:(by rewrite Hs)) as [H|[_ H]]; [|by apply not_elem_of_nil in H].
      destruct (sock_at b j) as [[]|]; cbn in H; congruence.
    + destruct (B3 ltac:(by rewrite Hs)) as [H|[_ H]]; [|by apply not_elem_of_nil in H].
      destruct (sock_at a i) as [[]|]; cbn in H; congruence.
  - intros rsp Hs. rewrite Hs in A1. by rewrite decide_True in A1.
  - intros rsp Hs. rewrite Hs in B1. by rewrite decide_True in B1.
Qed.
End LinkSpec.
