(* ===== verification/LinkEnds.v ===== *)
(** The protocol between two interfaces whose connections end.

    To the state of [Link] comes, at each end, the identifier of a connection that was ended
    and whose entry the table has yet to remove ([ConnTable::dead_index]).  The steps are
    those of [Link], and: a local client ends a connection; the entry of a dead connection
    is removed; data finds the connection it is for gone, or its channel closed; a reset
    arrives.

    An identifier is taken for a new connection only when it is [fresh]: nothing at the other
    end and nothing on the way refers to the connection that had it before.  The code does
    not wait for that: [LinkExamples.late_data_ends_the_new_connection] is what follows.  The
    invariant [elink_ok] says what holds as long as it happens to be so. *)
From S2P Require Import Prelude Interfaces Errors BiDi Message ConnTable ConnTableSpec Link.

(** ** The protocol *)

Record eside := mkESide { es_ends : ends; es_dead : option Id; es_in : list Header }.
Definition elink : Type := eside * eside.

(** A reset for the connection [i] is on the way. *)
Definition reset_to (i : Id) (q : list Header) : Prop := exists reason, HReset i reason ∈ q.

(** Something takes [i] at the end [s] and [j] at the end [s'] for two ends of a connection. *)
Definition refers (s s' : eside) (i j : Id) : Prop :=
  es_ends s !! i = Some (Some j) \/ es_ends s' !! j = Some (Some i) \/
  Data i j ∈ es_in s' \/ Ack i j ∈ es_in s' \/ Data j i ∈ es_in s \/ Ack j i ∈ es_in s.

(** No trace is left of a connection [i] of the end [s]. *)
Definition fresh (s s' : eside) (i : Id) : Prop :=
  es_ends s !! i = None /\ (forall j, ~ refers s s' i j) /\ ~ reset_to i (es_in s) /\ es_dead s <> Some i.

(** What the end on the left does. *)
Inductive estep : elink -> elink -> Prop :=
| EConnect m d q m' d' q' i identity :
    fresh (mkESide m d q) (mkESide m' d' q') i ->
    estep (mkESide m d q, mkESide m' d' q') (mkESide (<[i := None]> m) d q, mkESide m' d' (q' ++ [Connect i identity]))
| ESend m d q m' d' q' i j :
    m !! i = Some (Some j) ->
    estep (mkESide m d q, mkESide m' d' q') (mkESide m d q, mkESide m' d' (q' ++ [Data i j]))
| EEnd m q m' d' q' i j reason :
    m !! i = Some (Some j) ->
    estep (mkESide m None q, mkESide m' d' q') (mkESide m (Some i) q, mkESide m' d' (q' ++ [HReset j reason]))
| ECleanup m i q s' : estep (mkESide m (Some i) q, s') (mkESide (delete i m) None q, s')
| EAccept m d q m' d' q' l identity j :
    fresh (mkESide m d (Connect l identity :: q)) (mkESide m' d' q') j ->
    estep (mkESide m d (Connect l identity :: q), mkESide m' d' q') (mkESide (<[j := Some l]> m) d q, mkESide m' d' (q' ++ [Ack j l]))
| EReject m d q m' d' q' l identity reason :
    estep (mkESide m d (Connect l identity :: q), mkESide m' d' q') (mkESide m d q, mkESide m' d' (q' ++ [Reject l reason]))
| EDeliver m d q s' l i :
    m !! i = Some (Some l) -> estep (mkESide m d (Data l i :: q), s') (mkESide m d q, s')
| EUndeliverable m d q m' d' q' l i reason :
    m !! i = Some (Some l) ->
    estep (mkESide m d (Data l i :: q), mkESide m' d' q') (mkESide (delete i m) d q, mkESide m' d' (q' ++ [HReset l reason]))
| EStale m d q m' d' q' l i reason :
    m !! i = None ->
    estep (mkESide m d (Data l i :: q), mkESide m' d' q') (mkESide m d q, mkESide m' d' (q' ++ [HReset l reason]))
| EOpen m d q s' l i :
    m !! i = Some None -> estep (mkESide m d (Ack l i :: q), s') (mkESide (<[i := Some l]> m) d q, s')
| ERefused m d q s' i reason :
    m !! i = Some None -> estep (mkESide m d (Reject i reason :: q), s') (mkESide (delete i m) d q, s')
| EReset m d q s' i reason :
    m !! i <> Some None -> estep (mkESide m d (HReset i reason :: q), s') (mkESide (delete i m) d q, s').

Definition elink_step (l l' : elink) : Prop := estep l l' \/ estep (swap l) (swap l').
Definition elink_start : elink := (mkESide ∅ None [], mkESide ∅ None []).

(** The receiver of the header [h] knows what to do with it: data is for a connection that is
    open to its sender, or one that is gone; an answer is for a connection that waits; a
    reset is for a connection whose peer is gone or dead. *)
Definition eexpected (s s' : eside) (h : Header) : Prop :=
  match h with
  | Connect l _ => es_ends s' !! l = Some None
  | Data l i => es_ends s !! i = Some (Some l) \/ es_ends s !! i = None
  | Ack _ i | Reject i _ => es_ends s !! i = Some None
  | HReset i _ => es_ends s !! i <> Some None /\ forall l, es_ends s' !! l = Some (Some i) -> es_dead s' = Some l
  end.

(** ** The invariant *)

(** An ACK is ahead of everything else in the queue that is for its connection; its sender
    is open to the connection ([P]), or has sent a reset behind the ACK. *)
Definition acks_first (P : Id -> Id -> Prop) (q : list Header) : Prop :=
  forall pre l i post, q = pre ++ Ack l i :: post ->
    ~ reset_to i pre /\ (forall l', Data l' i ∉ pre) /\ (P l i \/ reset_to i post).

(** What holds of the left end:
    - a connection that is being set up has exactly one message under way;
    - the identifier [i] belongs to one connection at a time;
    - nothing refers to a connection that was not accepted yet, and no reset is for it;
    - an ACK is ahead of everything else its sender sends to the connection; the sender is
      open to it, or has sent a reset behind it; no reset is on the way to the sender;
    - a reset on the way means that the connection it comes from is gone, or dead;
    - the peer of an open connection is open to it, or will be by an ACK on its way, unless
      a reset is on the way, or the connection is dead itself;
    - a dead connection has sent its reset, and the reset is on the way or was received;
    - a dead connection is not one that is being set up. *)
Record ehalf_ok (s s' : eside) : Prop := {
  eh_setup i : (count (asks i) (es_in s') + count (answers i) (es_in s) = if decide (es_ends s !! i = Some None) then 1 else 0)%nat;
  eh_unique i j j' : refers s s' i j -> refers s s' i j' -> j = j';
  eh_virgin i : es_ends s !! i = Some None ->
    (exists l, Ack l i ∈ es_in s) \/ ((forall j, ~ refers s s' i j) /\ ~ reset_to i (es_in s));
  eh_first : acks_first (fun l i => es_ends s' !! l = Some (Some i)) (es_in s);
  eh_ack l i : Ack l i ∈ es_in s -> ~ reset_to l (es_in s');
  eh_reset i l : reset_to i (es_in s) -> es_ends s' !! l = Some (Some i) -> es_dead s' = Some l;
  eh_open i l : es_ends s !! i = Some (Some l) ->
    es_ends s' !! l = Some (Some i) \/ (es_ends s' !! l = Some None /\ Ack i l ∈ es_in s') \/
    reset_to i (es_in s) \/ es_dead s = Some i;
  eh_dead i l : es_dead s' = Some l -> es_ends s' !! l = Some (Some i) ->
    reset_to i (es_in s) \/ (es_ends s !! i <> Some (Some l) /\ Ack l i ∉ es_in s);
  eh_alive i : es_dead s = Some i -> es_ends s !! i <> Some None;
}.
Definition elink_ok (l : elink) : Prop := ehalf_ok l.1 l.2 /\ ehalf_ok l.2 l.1.

(** *** Helpers *)

Lemma refers_swap s s' i j : refers s s' i j <-> refers s' s j i.
Proof. unfold refers. tauto. Qed.
Lemma reset_to_app i q q' : reset_to i (q ++ q') <-> reset_to i q \/ reset_to i q'.
Proof. unfold reset_to. set_solver. Qed.
Lemma reset_to_cons i h q : reset_to i (h :: q) <-> (exists reason, h = HReset i reason) \/ reset_to i q.
Proof. unfold reset_to. set_solver. Qed.
Lemma reset_to_nil i : reset_to i [] <-> False.
Proof. unfold reset_to. set_solver. Qed.
Lemma elem_of_snoc (x h : Header) q : x ∈ q ++ [h] <-> x ∈ q \/ x = h.
Proof. set_solver. Qed.

Lemma first_weaken (P P' : Id -> Id -> Prop) q :
  acks_first P q -> (forall l i, Ack l i ∈ q -> P l i -> P' l i \/ reset_to i q) -> acks_first P' q.
Proof.
  intros H HP pre l i post Hq. destruct (H _ _ _ _ Hq) as (Hr & Hd & [HPl|Hpost]); split_and!; try done; [|by right].
  destruct (HP l i) as [|Hin]; [rewrite Hq; set_solver|done|by left|]. rewrite Hq, reset_to_app, reset_to_cons in Hin.
  destruct Hin as [|[[? [=]]|]]; [done|by right].
Qed.
Lemma first_push P q h : acks_first P q -> (forall l i, h <> Ack l i) -> acks_first P (q ++ [h]).
Proof.
  intros H Hh pre l i post Hq. snoc Hq; [by destruct (Hh l i)|].
  destruct (H _ _ _ _ eq_refl) as (Hr & Hd & [|]); split_and!; try done; [by left|]. right. apply reset_to_app. by left.
Qed.
Lemma first_push_ack (P : Id -> Id -> Prop) q l i :
  acks_first P q -> ~ reset_to i q -> (forall l', Data l' i ∉ q) -> P l i -> acks_first P (q ++ [Ack l i]).
Proof.
  intros H Hr Hd HP pre l0 i0 post Hq. snoc Hq; [injection Hq as <- <-; by split_and!; [..|left]|].
  destruct (H _ _ _ _ eq_refl) as (Hr' & Hd' & [|]); split_and!; try done; [by left|]. right. apply reset_to_app. by left.
Qed.
Lemma first_pop P q h : acks_first P (h :: q) -> acks_first P q.
Proof.
  intros H pre l i post ->. destruct (H (h :: pre) l i post eq_refl) as (Hr & Hd & ?). split_and!; [..|done].
  - intros Hin. apply Hr, reset_to_cons. by right.
  - intros l' Hin. apply (Hd l'). by right.
Qed.
(** Nothing else for the connection comes in before the ACK that it waits for. *)
Lemma first_head P q h l i : acks_first P (h :: q) -> Ack l i ∈ q -> (forall l', h <> Data l' i) /\ (forall r, h <> HReset i r).
Proof.
  intros H (pre & post & ->)%list_elem_of_split. destruct (H (h :: pre) l i post eq_refl) as (Hr & Hd & _). split.
  - intros l' ->. apply (Hd l'). by left.
  - intros r ->. apply Hr. exists r. by left.
Qed.

(** An answer on the way is for a connection that waits; and only one is. *)
Lemma acked (m : ends) q n l i :
  (n + count (answers i) q = if decide (m !! i = Some None) then 1 else 0)%nat -> Ack l i ∈ q -> m !! i = Some None.
Proof.
  intros Hn Hin%(count_in (answers i)). cbn in Hin. rewrite decide_True in Hin by done. case_decide; [done|lia].
Qed.

(** The steps, on the parts of the invariant. *)
Ltac ehalves :=
  match goal with H : elink_ok _ |- _ => destruct H as [[H1 H2 H3 H4 H5 H6 H7 H8 H9] [K1 K2 K3 K4 K5 K6 K7 K8 K9]] end;
  unfold refers, reset_to in *; cbn [es_ends es_dead es_in fst snd] in *;
  repeat match goal with H : context [_ ∈ _ :: _] |- _ => setoid_rewrite elem_of_cons in H end;
  split; (split; unfold refers, reset_to; cbn [es_ends es_dead es_in fst snd];
    repeat setoid_rewrite elem_of_snoc; repeat setoid_rewrite elem_of_cons).
(** The parts of the invariant that follow from themselves. *)
Tactic Notation "part" ident(H) :=
  clear -H;
  lazymatch goal with
  | G : ?P |- ?P => exact G
  | G : _ |- acks_first _ _ => first [exact G | eapply first_pop; exact G | apply first_push; [exact G|done]]
  | G : _ |- forall _, @eq nat _ _ => let k := fresh in intros k; setup G k; fail
  | G : _ |- _ => repeat setoid_rewrite lookup_insert_Some; repeat setoid_rewrite lookup_delete_Some; naive_solver
  end.

Lemma esend_ok m d q m' d' q' i j :
  m !! i = Some (Some j) -> elink_ok (mkESide m d q, mkESide m' d' q') ->
  elink_ok (mkESide m d q, mkESide m' d' (q' ++ [Data i j])).
Proof.
  intros Hi Hok. ehalves;
    [part H1 |  |  | part H4 | part H5 | part H6 | part H7 | part H8 | part H9
    |part K1 |  |  | part K4 | part K5 | part K6 | part K7 | part K8 | part K9].
  - clear -H2 Hi. naive_solver.
  - clear -H3 Hi. naive_solver.
  - clear -K2 Hi. naive_solver.
  - clear -K3 Hi. naive_solver.
Qed.

Lemma eend_ok m q m' d' q' i j reason :
  m !! i = Some (Some j) -> elink_ok (mkESide m None q, mkESide m' d' q') ->
  elink_ok (mkESide m (Some i) q, mkESide m' d' (q' ++ [HReset j reason])).
Proof.
  intros Hi Hok. ehalves;
    [part H1 | part H2 | part H3 | part H4 |  | part H6 | part H7 | part H8 | 
    |part K1 | part K2 |  | part K4 | part K5 |  | part K7 |  | part K9].
  - intros l k Hk [r [Hr|[= -> _]]]; [by apply (H5 _ _ Hk); exists r|]. pose proof (acked _ _ _ _ _ (H1 k) Hk).
    assert (k = i) as -> by (eapply K2; eauto). congruence.
  - intros ? [= <-]. congruence.
  - clear -K3 Hi. naive_solver.
  - intros k l [r [Hr|[= <- _]]] Hl; [by pose proof (K6 k l (ex_intro _ r Hr) Hl)|]. f_equal. eapply K2; eauto.
  - intros k l [= ->] Hl. left. exists reason. right. naive_solver.
Qed.

Lemma ecleanup_ok m i q s' : elink_ok (mkESide m (Some i) q, s') -> elink_ok (mkESide (delete i m) None q, s').
Proof.
  intros Hok. destruct s' as [m' d' q']. ehalves;
    [ | part H2 | part H3 | part H4 | part H5 | part H6 | part H7 | part H8 | part H9
    |part K1 | part K2 | part K3 |  | part K5 | part K6 |  | part K8 | part K9].
  - intros k. pose proof (H9 i eq_refl). setup H1 k.
  - eapply first_weaken; [exact K4|]. intros l k Hk Hl. cbn in *. destruct (decide (l = i)) as [->|]; [right|left; by rewrite lookup_delete_ne].
    destruct (K8 k i eq_refl Hl) as [?|[_ ?]]; done.
  - intros k l Hk. destruct (decide (l = i)) as [->|]; [|rewrite lookup_delete_ne by done; auto].
    destruct (K7 _ _ Hk) as [Hl|[[Hl _]|?]]; [|by destruct (H9 i)|auto]. destruct (K8 k i eq_refl Hl) as [?|[? _]]; [auto|done].
Qed.

Lemma edeliver_ok m d q s' l i :
  elink_ok (mkESide m d (Data l i :: q), s') -> elink_ok (mkESide m d q, s').
Proof.
  intros Hok. destruct s' as [m' d' q']. ehalves;
    [part H1 | part H2 | part H3 | part H4 | part H5 | part H6 | part H7 | part H8 | part H9
    |part K1 | part K2 | part K3 | part K4 | part K5 | part K6 | part K7 | part K8 | part K9].
Qed.

Lemma estale_ok m d q m' d' q' l i reason :
  m !! i = None -> elink_ok (mkESide m d (Data l i :: q), mkESide m' d' q') ->
  elink_ok (mkESide m d q, mkESide m' d' (q' ++ [HReset l reason])).
Proof.
  intros Hi Hok. ehalves;
    [part H1 | part H2 | part H3 | part H4 |  | part H6 | part H7 | part H8 | part H9
    |part K1 | part K2 | part K3 | part K4 | part K5 |  | part K7 | part K8 | part K9].
  - intros l0 k Hk [r [Hr|[= -> _]]]; [by apply (H5 l0 k (or_intror Hk)); exists r|].
    pose proof (acked _ _ _ _ _ (H1 k) (list_elem_of_further _ _ _ Hk)). assert (k = i) as -> by (eapply K2; eauto 10). congruence.
  - intros k l0 [r [Hr|[= <- _]]] Hl; [by apply (K6 k l0); [exists r|]|].
    assert (l0 = i) as -> by (eapply K2; eauto 10). congruence.
Qed.

Lemma eundeliverable_ok m d q m' d' q' l i reason :
  m !! i = Some (Some l) -> elink_ok (mkESide m d (Data l i :: q), mkESide m' d' q') ->
  elink_ok (mkESide (delete i m) d q, mkESide m' d' (q' ++ [HReset l reason])).
Proof.
  intros Hi Hok. ehalves;
    [ | part H2 | part H3 | part H4 |  | part H6 | part H7 | part H8 | part H9
    |part K1 | part K2 | part K3 |  | part K5 |  |  | part K8 | part K9].
  - intros k. setup H1 k.
  - intros l0 k Hk [r [Hr|[= -> _]]]; [by apply (H5 l0 k (or_intror Hk)); exists r|].
    pose proof (acked _ _ _ _ _ (H1 k) (list_elem_of_further _ _ _ Hk)). assert (k = i) as -> by (eapply K2; eauto 10). congruence.
  - eapply first_weaken; [apply first_push; [exact K4|done]|]. intros l0 k Hk Hl. cbn in *.
    destruct (decide (l0 = i)) as [->|]; [right|left; by rewrite lookup_delete_ne]. apply reset_to_app. right. exists reason. rewrite Hi in Hl.
    injection Hl as ->. by left.
  - intros k l0 [r [Hr|[= <- _]]] [Hne Hl]%lookup_delete_Some; [by apply (K6 k l0); [exists r|]|].
    assert (l0 = i) as -> by (eapply K2; eauto 10). congruence.
  - intros k l0 Hk. destruct (decide (l0 = i)) as [->|].
    + right. right. left. exists reason. right. f_equal. symmetry. eapply (H2 i); eauto 10.
    + rewrite lookup_delete_ne by done. clear -K7 Hk. naive_solver.
Qed.

Lemma eopen_ok m d q s' l i :
  elink_ok (mkESide m d (Ack l i :: q), s') -> elink_ok (mkESide (<[i := Some l]> m) d q, s').
Proof.
  intros Hok. destruct s' as [m' d' q'].
  assert (Hi : m !! i = Some None).
  { destruct Hok as [[H1 _ _ _ _ _ _ _ _] _]. by eapply acked; [apply (H1 i)|left]. }
  assert (Hno : forall l', Ack l' i ∉ q).
  { intros l' Hin%(count_in (answers i)). destruct Hok as [[H1 _ _ _ _ _ _ _ _] _]. specialize (H1 i). cbn in *.
    rewrite !decide_True in * by done. lia. }
  ehalves;
    [part H1 | part H2 | part H3 | part H4 | part H5 | part H6 |  | part H8 | part H9
    |part K1 | part K2 | part K3 |  | part K5 |  |  |  | part K9].
  - intros k l0 [[<- [= <-]]|[Hne Hk]]%lookup_insert_Some; [|clear -H7 Hk; naive_solver].
    destruct (H4 [] l i q eq_refl) as (_ & _ & [?|?]); auto.
  - eapply first_weaken; [exact K4|]. intros l0 k Hk Hl. cbn in *. left. rewrite lookup_insert_ne; [done|congruence].
  - intros k l0 Hr [[<- [= <-]]|[_ Hl]]%lookup_insert_Some; [|by eapply K6]. destruct (H5 l i); [by left|done].
  - intros k l0 Hk. destruct (decide (i = l0)) as [<-|].
    + destruct (K7 _ _ Hk) as [?|[[_ [[= ->]|Hin]]|?]]; [congruence|left; by simplify_map_eq|by destruct (Hno k)|auto].
    + rewrite lookup_insert_ne by done. clear -K7 Hk n. naive_solver.
  - intros k l0 -> [[<- [= <-]]|[_ Hl]]%lookup_insert_Some; [|by apply K8]. by destruct (H9 i).
Qed.

Lemma erefused_ok m d q s' i reason :
  elink_ok (mkESide m d (Reject i reason :: q), s') -> elink_ok (mkESide (delete i m) d q, s').
Proof.
  intros Hok. destruct s' as [m' d' q'].
  assert (Hi : m !! i = Some None /\ forall l', Ack l' i ∉ q).
  { destruct Hok as [[H1 _ _ _ _ _ _ _ _] _]. specialize (H1 i). cbn in H1. rewrite (decide_True (P := i = i)) in H1 by done.
    case_decide; [|lia]. split; [done|]. intros l' Hin%(count_in (answers i)). cbn in Hin. rewrite decide_True in Hin by done. lia. }
  destruct Hi as [Hi Hno]. ehalves;
    [part H1 | part H2 | part H3 | part H4 | part H5 | part H6 | part H7 | part H8 | part H9
    |part K1 | part K2 | part K3 |  | part K5 | part K6 |  | part K8 | part K9].
  - eapply first_weaken; [exact K4|]. intros l0 k Hk Hl. cbn in *. left. rewrite lookup_delete_ne; [done|congruence].
  - intros k l0 Hk. destruct (decide (l0 = i)) as [->|].
    + destruct (K7 _ _ Hk) as [?|[[_ [[=]|Hin]]|?]]; [congruence|by destruct (Hno k)|auto].
    + rewrite lookup_delete_ne by done. clear -K7 Hk n. naive_solver.
Qed.

Lemma ereset_ok m d q s' i reason :
  m !! i <> Some None -> elink_ok (mkESide m d (HReset i reason :: q), s') -> elink_ok (mkESide (delete i m) d q, s').
Proof.
  intros Hi Hok. destruct s' as [m' d' q'].
  assert (Hno : forall l', Ack l' i ∉ q).
  { destruct Hok as [[H1 _ _ _ _ _ _ _ _] _]. intros l' Hin. apply Hi. eapply acked; [apply (H1 i)|]. by right. }
  ehalves;
    [ | part H2 | part H3 | part H4 | part H5 | part H6 | part H7 |  | part H9
    |part K1 | part K2 | part K3 |  | part K5 | part K6 |  | part K8 | part K9].
  - intros k. setup H1 k.
  - intros k l Hd Hl. destruct (decide (k = i)) as [->|]; [|rewrite lookup_delete_ne by done; clear -H8 Hd Hl n; naive_solver].
    right. rewrite lookup_delete. split; [by rewrite decide_True by done|done].
  - eapply first_weaken; [exact K4|]. intros l0 k Hk Hl. cbn in *. left. rewrite lookup_delete_ne; [done|]. intros ->.
    apply (K5 _ _ Hk). exists reason. by left.
  - intros k l0 Hk. destruct (decide (l0 = i)) as [->|]; [|rewrite lookup_delete_ne by done; clear -K7 Hk n; naive_solver].
    do 3 right. eapply H6; [|done]. exists reason. by left.
Qed.

Lemma econnect_ok m d q m' d' q' i identity :
  fresh (mkESide m d q) (mkESide m' d' q') i -> elink_ok (mkESide m d q, mkESide m' d' q') ->
  elink_ok (mkESide (<[i := None]> m) d q, mkESide m' d' (q' ++ [Connect i identity])).
Proof.
  intros (Hi & Hn & Hr & Hd) Hok. unfold refers, reset_to in Hn, Hr. cbn in Hi, Hn, Hr, Hd. ehalves;
    [ | part H2 |  | part H4 | part H5 | part H6 | part H7 | part H8 | 
    |part K1 | part K2 | part K3 |  | part K5 | part K6 |  | part K8 | part K9].
  - intros k. setup H1 k.
  - intros k [[<- _]|[Hne Hk]]%lookup_insert_Some; setoid_rewrite lookup_insert_Some; [right; clear -Hn Hr; naive_solver|].
    clear -H3 Hk Hne. naive_solver.
  - setoid_rewrite lookup_insert_Some. clear -H9 Hd. naive_solver.
  - eapply first_weaken; [apply first_push; [exact K4|done]|]. intros l0 k Hk Hl. cbn in *. left. rewrite lookup_insert_ne; [done|congruence].
  - intros k l0 Hk. destruct (decide (i = l0)) as [->|]; [|rewrite lookup_insert_ne by done; clear -K7 Hk n; naive_solver].
    destruct (Hn k). auto.
Qed.

Lemma ereject_ok m d q m' d' q' l identity reason :
  elink_ok (mkESide m d (Connect l identity :: q), mkESide m' d' q') ->
  elink_ok (mkESide m d q, mkESide m' d' (q' ++ [Reject l reason])).
Proof.
  intros Hok. ehalves;
    [part H1 | part H2 | part H3 | part H4 | part H5 | part H6 | part H7 | part H8 | part H9
    |part K1 | part K2 | part K3 | part K4 | part K5 | part K6 | part K7 | part K8 | part K9].
Qed.

Lemma eaccept_ok m d q m' d' q' l identity j :
  fresh (mkESide m d (Connect l identity :: q)) (mkESide m' d' q') j ->
  elink_ok (mkESide m d (Connect l identity :: q), mkESide m' d' q') ->
  elink_ok (mkESide (<[j := Some l]> m) d q, mkESide m' d' (q' ++ [Ack j l])).
Proof.
  intros (Hj & Hn & Hr & Hd) Hok. cbn in Hj, Hd.
  assert (Hl : m' !! l = Some None /\ forall j', Ack j' l ∉ q').
  { destruct Hok as [_ [K1 _ _ _ _ _ _ _ _]]. specialize (K1 l). cbn in K1. rewrite (decide_True (P := l = l)) in K1 by done.
    case_decide; [|lia]. split; [done|]. intros j' Hin%(count_in (answers l)). cbn in Hin. rewrite decide_True in Hin by done. lia. }
  destruct Hl as [Hl Hno].
  assert (Hv : (forall j', ~ refers (mkESide m' d' q') (mkESide m d (Connect l identity :: q)) l j') /\ ~ reset_to l q').
  { destruct Hok as [_ [_ _ K3 _ _ _ _ _ _]]. destruct (K3 l Hl) as [[j' ?]|?]; [by destruct (Hno j')|done]. }
  destruct Hv as [Hv Hrl].
  assert (Hrefs : forall i0 j0, refers (mkESide (<[j := Some l]> m) d q) (mkESide m' d' (q' ++ [Ack j l])) i0 j0 ->
    refers (mkESide m d (Connect l identity :: q)) (mkESide m' d' q') i0 j0 \/ (i0 = j /\ j0 = l)).
  { unfold refers. cbn. intros i0 j0. rewrite !elem_of_snoc, !elem_of_cons, lookup_insert_Some. naive_solver. }
  assert (Hu : forall i0 j0 j', refers (mkESide (<[j := Some l]> m) d q) (mkESide m' d' (q' ++ [Ack j l])) i0 j0 ->
    refers (mkESide (<[j := Some l]> m) d q) (mkESide m' d' (q' ++ [Ack j l])) i0 j' -> j0 = j').
  { intros i0 j0 j' [H|[-> ->]]%Hrefs [H'|[? ->]]%Hrefs; subst; try done; [|by destruct (Hn j0)|by destruct (Hn j')].
    destruct Hok as [Hok _]. by eapply (eh_unique _ _ Hok). }
  assert (Hu' : forall i0 j0 j', refers (mkESide m' d' (q' ++ [Ack j l])) (mkESide (<[j := Some l]> m) d q) i0 j0 ->
    refers (mkESide m' d' (q' ++ [Ack j l])) (mkESide (<[j := Some l]> m) d q) i0 j' -> j0 = j').
  { intros i0 j0 j' H%refers_swap%Hrefs H'%refers_swap%Hrefs. destruct H as [H%refers_swap|[-> ->]], H' as [H'%refers_swap|[-> ?]]; subst;
      try done; [|by destruct (Hv j0)|by destruct (Hv j')]. destruct Hok as [_ Hok]. by eapply (eh_unique _ _ Hok). }
  unfold refers, reset_to in Hn, Hr, Hv, Hrl, Hu, Hu'. cbn in Hn, Hr, Hv, Hrl, Hu, Hu'. ehalves;
    [ |  | part H3 | part H4 | part H5 | part H6 |  |  | part H9
    |part K1 |  |  |  |  |  |  |  | part K9].
  - intros k. setup H1 k.
  - clear -Hu. intros k a b Ha Hb. apply (Hu k a b); rewrite !elem_of_snoc; done.
  - intros k l0 [[<- [= <-]]|[Hne Hk]]%lookup_insert_Some; [right; left; auto|]. clear -H7 Hk Hne. naive_solver.
  - setoid_rewrite lookup_insert_Some. clear -H8 Hn. naive_solver.
  - clear -Hu'. intros k a b Ha Hb. apply (Hu' k a b); rewrite !elem_of_snoc; done.
  - intros k Hk. destruct (decide (k = l)) as [->|Hne]; [left; exists j; by right|]. destruct (K3 k Hk) as [[j' ?]|[Hk' ?]].
    + left. exists j'. by left.
    + right. split; [|clear -H; naive_solver]. intros j' H'. apply (Hk' j'). revert H'. rewrite !lookup_insert_Some.
      clear -Hne. naive_solver.
  - eapply first_push_ack.
    + eapply first_weaken; [exact K4|]. intros l0 k Hk Hl0. cbn in *. left. rewrite lookup_insert_ne; [done|congruence].
    + intros [r Hr']. by apply Hrl; exists r.
    + intros l' Hin. apply (Hv l'). auto 10.
    + by simplify_map_eq.
  - intros l0 k [Hk|[= -> ->]] Hr'; [clear -K5 Hk Hr'; naive_solver|]. apply Hr. destruct Hr' as [r ?]. exists r. by right.
  - intros k l0 [r [Hr'|[=]]] [[<- [= <-]]|[_ ?]]%lookup_insert_Some; [by destruct Hrl; exists r|]. eapply K6; [by exists r|done].
  - intros k l0 Hk. destruct (decide (j = l0)) as [->|]; [|rewrite lookup_insert_ne by done; clear -K7 Hk n; naive_solver].
    destruct (Hn k). auto.
  - setoid_rewrite lookup_insert_Some. clear -K8 Hd. naive_solver.
Qed.

Lemma estep_ok l l' : estep l l' -> elink_ok l -> elink_ok l'.
Proof.
  intros Hs Hok. destruct Hs; [by eapply econnect_ok|by eapply esend_ok|by eapply eend_ok|by eapply ecleanup_ok|by eapply eaccept_ok
    |by eapply ereject_ok|by eapply edeliver_ok|by eapply eundeliverable_ok|by eapply estale_ok|by eapply eopen_ok|by eapply erefused_ok
    |by eapply ereset_ok].
Qed.

Lemma eswap_ok l : elink_ok l -> elink_ok (swap l).
Proof. by intros [? ?]. Qed.

Lemma elink_step_ok l l' : elink_step l l' -> elink_ok l -> elink_ok l'.
Proof.
  intros [H|H] Hok; [by eapply estep_ok|]. apply estep_ok in H; [|by apply eswap_ok]. apply eswap_ok in H. by destruct l'.
Qed.

Lemma estart_ok : elink_ok elink_start.
Proof.
  assert (H : ehalf_ok (mkESide ∅ None []) (mkESide ∅ None [])).
  { split; unfold refers, reset_to; cbn; try done; intros; rewrite ?lookup_empty, ?elem_of_nil in *;
      try (by destruct_or?; rewrite ?lookup_empty, ?elem_of_nil in *).
    - intros [] ? ? ? [=]. }
  by split.
Qed.

(** Data and resets for a connection that waits do not come in before its ACK. *)
Lemma waits_first s s' i h q : ehalf_ok s s' -> es_ends s !! i = Some None -> es_in s = h :: q ->
  (forall l, h <> Data l i) /\ (forall r, h <> HReset i r).
Proof.
  intros Hok Hi Hq. pose proof (eh_first _ _ Hok) as Hf. destruct (eh_virgin _ _ Hok _ Hi) as [[l Hl]|[Hn Hr]]; rewrite Hq in *.
  - apply elem_of_cons in Hl as [<-|Hl]; [done|]. by eapply first_head.
  - split; [intros l ->; apply (Hn l)|intros r ->; apply Hr; exists r; by left].
    unfold refers. rewrite Hq. do 4 right. left. by left.
Qed.

(** The next header is always one its receiver expects. *)
Lemma ehead_expected m d h q s' : elink_ok (mkESide m d (h :: q), s') -> eexpected (mkESide m d (h :: q)) s' h.
Proof.
  intros [Hok Hok']. destruct h as [l identity|l i|l i|i reason|i reason]; cbn.
  - pose proof (eh_setup _ _ Hok' l) as H. cbn in H. rewrite (decide_True (P := l = l)) in H by done. case_decide; [done|lia].
  - destruct (m !! i) as [[l'|]|] eqn:Hi; [left|exfalso|by right].
    + f_equal. f_equal. eapply (eh_unique _ _ Hok i); unfold refers; cbn; [by left|]. do 4 right. left. by left.
    + destruct (waits_first _ _ i (Data l i) q Hok Hi eq_refl) as [H _]. by apply (H l).
  - eapply acked; [apply (eh_setup _ _ Hok i)|]. by left.
  - pose proof (eh_setup _ _ Hok i) as H. cbn in H. rewrite (decide_True (P := i = i)) in H by done. case_decide; [done|lia].
  - split.
    + intros Hi. destruct (waits_first _ _ i (HReset i reason) q Hok Hi eq_refl) as [_ H]. by apply (H reason).
    + intros l. apply (eh_reset _ _ Hok). exists reason. by left.
Qed.
