(* ===== verification/LinkEndsSpec.v ===== *)
(** Two running interfaces whose connections may end implement the protocol of [LinkEnds], as
    long as no identifier is taken again too early.

    The steps of a link are those of [LinkSpec], but the local tasks may close the channels
    they use at any time, and the channels may refuse messages; only the tasks that wait for
    a connection still have to stay.  In return, an identifier may only be taken when nothing
    refers to it any more ([unused]). *)
From S2P Require Import Prelude Interfaces Errors Core CoreWord CoreQueue Pipe PipeSpec BiDi Message ConnTable ConnTableSpec Machine MachineSpec EndToEnd Link LinkSpec LinkEnds.

Section LinkEndsSpec.
Context {PU : PackUsize} {PUL : PackUsizeLaws}.
Context {IA : IndexAlloc} {IAL : IndexAllocLaws}.
Context {WCA : WaitCellApi} {WCL : WaitCellLaws} {WQA : WaitQueueApi} {WQL : WaitQueueLaws}.
Context {SC : SerChannel Reset} {SCL : SerChannelLaws Reset} {RS : ResponseSender}.
Context {Hello : Type} {BH : Body Hello}.
Context {PH : Postcard Header} {PHL : PostcardLaws Header}.
Variable MAX_CONNS : Z.
Hypothesis MAX_CONNS_range : 0 <= MAX_CONNS < u16_mod - 1.
Hypothesis header_ids : forall bs h rest, pc_take_from_bytes bs = Ok (h, rest) -> frame_ids h.

Notation RState := (run_state (Hello := Hello)).
Notation Mach := (Machine (Hello := Hello) (W := byte_wire)).
Notation node := (LinkSpec.node (Hello := Hello)).
Notation link := (LinkSpec.link (Hello := Hello)).
Notation node_rep := (LinkSpec.node_rep MAX_CONNS).

(** ** The link *)

(** The tasks that wait for a connection stay. *)
Definition patient (n : node) : Prop :=
  match n.1 with
  | RunProcess _ f _ =>
      match header f with
      | Ack _ i => forall rsp c,
          conns (conn_table n.2) !! to_index i = Some (Occupied (mkSocket (Connecting rsp) c)) -> rsp_send rsp (Ok tt) = true
      | _ => True
      end
  | _ => True
  end.

(** The headers of the frames on the way from [b] to [a], in order. *)
Definition header_of (buf : bytes) : option Header := match from_bytes buf with Ok f => Some (header f) | Err _ => None end.
Definition incoming (a b : node) : list Header :=
  in_hand a.1 ++ omap header_of (fst (wire a.2)) ++ omap header_of (snd (wire b.2)) ++ about_to_send b.1.

(** A header that the end with the connection [i] has sent in its name, or will receive for it. *)
Definition sent_by (i : Id) (h : Header) : bool := match h with Data l _ | Ack l _ => l =? i | _ => false end.
Definition meant_for (i : Id) (h : Header) : bool := match h with Data _ k | Ack _ k | HReset k _ => k =? i | _ => false end.
Definition entry_open_to (i : Id) (e : Entry) : bool := match e with Occupied (mkSocket (Open j) _) => j =? i | _ => false end.

(** At the other end [b] and on the way nothing refers to a connection [i] of [a]. *)
Definition unused (a b : node) (i : Id) : bool :=
  negb (existsb (entry_open_to i) (conns (conn_table b.2))) && negb (existsb (sent_by i) (incoming b a)) &&
  negb (existsb (meant_for i) (incoming a b)).

(** The identifier that was just taken, if the interface comes to send this frame. *)
Definition taken (st : RState) : option Id :=
  match st with
  | RunSend _ _ f => match header f with Connect i _ | Ack i _ => Some i | _ => None end
  | _ => None
  end.
Definition taken_in_time (a b : node) (st' : RState) (m' : Mach) : Prop :=
  forall i, taken st' = Some i -> unused a b i = true /\ dead_index (conn_table m') <> Some i.

(** What the interface on the left and its surroundings do. *)
Inductive elstep (registry : Registry) : link -> link -> Prop :=
| ElRun st m st' m' b :
    patient (st, m) -> run_step MAX_CONNS registry st m = (m', Val (Continue st')) -> taken_in_time (st, m) b st' m' ->
    elstep registry ((st, m), b) ((st', m'), b)
| ElPoll st m st' m' b :
    patient (st, m) -> run_step MAX_CONNS registry st m = (m', Val (Yield st')) -> elstep registry ((st, m), b) ((st', m'), b)
| ElEnv l l' : env_step MAX_CONNS l l' -> elstep registry l l'.

Definition elink_steps (registry_a registry_b : Registry) (l l' : link) : Prop :=
  elstep registry_a l l' \/ elstep registry_b (swap l) (swap l').

Definition elink_rep (l : link) (p : elink) : Prop :=
  node_rep l.1 (es_ends p.1) (es_dead p.1) /\ node_rep l.2 (es_ends p.2) (es_dead p.2) /\ queues_rep l (es_in p.1) (es_in p.2).

Lemma elink_rep_swap l p : elink_rep l p -> elink_rep (swap l) (swap p).
Proof. intros (Ha & Hb & ia & oa & ib & ob & H). split_and!; [done..|]. exists ib, ob, ia, oa. tauto. Qed.

(** ** What the link stands for *)

Lemma omap_carries bufs hs : Forall2 carries bufs hs -> omap header_of bufs = hs.
Proof. induction 1 as [|buf h bufs hs [bs Hb] _ IH]; [done|]. cbn. unfold header_of at 1. rewrite Hb. cbn. by f_equal. Qed.

Lemma incoming_queue a b qa qb : queues_rep (a, b) qa qb -> incoming a b = qa /\ incoming b a = qb.
Proof.
  intros (ia & oa & ib & ob & [H1 H2] & [H3 H4] & -> & ->). unfold incoming. cbn [fst snd] in *.
  by rewrite (omap_carries _ _ H1), (omap_carries _ _ H2), (omap_carries _ _ H3), (omap_carries _ _ H4).
Qed.

Lemma existsb_false {A} (f : A -> bool) l x : negb (existsb f l) = true -> x ∈ l -> f x = false.
Proof.
  intros H Hx. destruct (f x) eqn:Hf; [|done]. exfalso. revert H. rewrite negb_true_iff, <- not_true_iff_false, existsb_exists. intros [].
  exists x. by rewrite <- list_elem_of_In.
Qed.

(** An unused identifier is fresh in the protocol. *)
Lemma unused_fresh a b ea d qa eb db qb i d0 :
  unused a b i = true -> node_rep b eb db -> queues_rep (a, b) qa qb -> ea !! i = None -> d <> Some i ->
  fresh (mkESide ea d qa) (mkESide eb d0 qb) i.
Proof.
  unfold unused. rewrite !andb_true_iff. intros [[Hb Hs] Hm] Hrep [Ha1 Ha2]%incoming_queue Hi Hd. rewrite Ha1 in Hm. rewrite Ha2 in Hs.
  assert (Heb : forall j, eb !! j <> Some (Some i)).
  { intros j Hj. pose proof (sock_at_open _ _ _ _ _ _ Hrep Hj) as Hsock. unfold sock_at in Hsock.
    destruct (conns (conn_table b.2) !! to_index j) as [[| |[s c]]|] eqn:He; try done. cbn in Hsock. injection Hsock as ->.
    pose proof (existsb_false _ _ _ Hb (list_elem_of_lookup_2 _ _ _ He)) as H. cbn in H. lia. }
  split; [done|]. split; [|split; [|done]]; cbn.
  - intros j [H|[H|[H|[H|[H|H]]]]]; cbn in H; [congruence|by apply Heb in H|..].
    + apply (existsb_false _ _ _ Hs) in H. cbn in H. lia.
    + apply (existsb_false _ _ _ Hs) in H. cbn in H. lia.
    + apply (existsb_false _ _ _ Hm) in H. cbn in H. lia.
    + apply (existsb_false _ _ _ Hm) in H. cbn in H. lia.
  - intros [r H]. apply (existsb_false _ _ _ Hm) in H. cbn in H. lia.
Qed.

(** ** The simulation *)

Definition eseen (b : node) (eb : ends) (db : option Id) (ib ob : list Header) (st : RState) (ia oa : list Header)
    (e : ends) (d : option Id) : elink :=
  (mkESide e d (in_hand st ++ ia ++ ob ++ about_to_send b.1), mkESide eb db (in_hand b.1 ++ ib ++ oa ++ about_to_send st)).

Lemma eseen_rep b eb db ib ob st m ia oa e d :
  node_rep b eb db -> wires b ib ob -> node_rep (st, m) e d -> wires (st, m) ia oa ->
  elink_rep ((st, m), b) (eseen b eb db ib ob st ia oa e d).
Proof. intros Hb Hwb Ha Hwa. split_and!; [done..|]. by exists ia, oa, ib, ob. Qed.

Lemma elink_rep_inv st m b p :
  elink_rep ((st, m), b) p -> exists eb db ib ob ia oa e d,
    node_rep b eb db /\ wires b ib ob /\ node_rep (st, m) e d /\ wires (st, m) ia oa /\ p = eseen b eb db ib ob st ia oa e d.
Proof.
  intros (Ha & Hb & ia & oa & ib & ob & Hwa & Hwb & Hqa & Hqb). destruct p as [[ea da qa] [eb db qb]]. cbn in *. subst.
  by exists eb, db, ib, ob, ia, oa, ea, da.
Qed.

(** What follows a stretch of [run]: what the link stands for is some steps of the protocol
    further, if the identifier that was taken was unused. *)
Definition erun_post (a b : node) (p : elink) (r : run_result (Hello := Hello)) (m' : Mach) : Prop :=
  match r with
  | Continue st' => taken_in_time a b st' m' -> exists p', rtc estep p p' /\ elink_rep ((st', m'), b) p'
  | Yield st' => exists p', rtc estep p p' /\ elink_rep ((st', m'), b) p'
  | Return _ => True
  end.

(** The table once the entry of the dead connection is removed. *)
Lemma cleanup_sim (t : ConnTable) (m : gmap Id Socket) q s' :
  rtc estep (mkESide (end_of <$> m) (dead_index t) q, s') (mkESide (end_of <$> cleaned t m) None q, s').
Proof.
  unfold cleaned. destruct (dead_index t) as [i|]; [|done]. rewrite fmap_delete. apply rtc_once. constructor.
Qed.

Lemma connect_esim a b eb db ib ob ia oa remaining m e p (oc : OutboundConnect Hello) :
  node_rep b eb db -> wires b ib ob -> node_rep (RunSelect remaining, m) e None -> wires (RunSelect remaining, m) ia oa ->
  sc_inv (oc_channel oc) -> queues_rep (a, b) (ia ++ ob ++ about_to_send b.1) (in_hand b.1 ++ ib ++ oa ++ []) ->
  rtc estep p (eseen b eb db ib ob (RunSelect remaining) ia oa e None) ->
  wp (run_connect MAX_CONNS remaining oc) (erun_post a b p) m.
Proof.
  intros Hb Hwb [(t & Hrep & Hok & ->) Hd Hc _ _] Hwa Hoc Hq Hp. cbn in *. apply wp_bind, on_table_wp.
  eapply wp_mono; [by apply wp_fst, start_connecting_wp|]. cbn. intros r t' [H ->].
  pose proof (keeps_dead_connect MAX_CONNS oc (conn_table m)) as Hd'. rewrite Hd in Hd'.
  destruct H as [(_ & -> & Hrep' & _)|(_ & i & Hi & Hn & -> & Hrep' & _)]; apply wp_ret; intros Hin.
  - eexists. split; [exact Hp|]. apply eseen_rep; [done..| |done]. split; cbn; try done. by exists t.
  - destruct (Hin i eq_refl) as [Hu _].
    exists (eseen b eb db ib ob (RunSend remaining (Some ctx_connect) (frame_connect i (oc_identity oc) (oc_hello oc))) ia oa
      (<[i := None]> (end_of <$> t)) None). split.
    + eapply rtc_r; [exact Hp|]. unfold eseen. cbn. rewrite snoc_queue. constructor.
      eapply unused_fresh; [done..|by rewrite lookup_fmap, Hn|done].
    + apply eseen_rep; [done..| |done]. split; cbn; try done.
      * eexists. split; [exact Hrep'|]. split; [by apply chan_ok_insert|]. by rewrite ends_insert.
      * intros ? ? ? [= <- <- <-]. by left.
Qed.

Lemma select_esim b eb db ib ob ia oa remaining m e d :
  node_rep b eb db -> wires b ib ob -> node_rep (RunSelect remaining, m) e d -> wires (RunSelect remaining, m) ia oa ->
  wp (run_select MAX_CONNS remaining)
    (erun_post (RunSelect remaining, m) b (eseen b eb db ib ob (RunSelect remaining) ia oa e d)) m.
Proof.
  intros Hb Hwb Ha Hwa. assert (Ha' := Ha). destruct Ha' as [(t & Hrep & Hok & ->) Hd Hc Hst Hpl Hdi]. cbn in *.
  assert (Hq : queues_rep ((RunSelect remaining, m), b) (ia ++ ob ++ about_to_send b.1) (in_hand b.1 ++ ib ++ oa ++ []))
    by (by exists ia, oa, ib, ob).
  assert (Hwa' := Hwa). destruct Hwa' as [Hin Hout]. cbn in *.
  apply wp_bind, on_wire_wp. destruct (wire m) as [inc out] eqn:Hw. cbn in *.
  destruct Hin as [|buf h inc ia [bs Hbuf] Hin]; cbn.
  - apply wp_bind, on_table_wp. cbn. eapply wp_mono; [apply next_outbound_wp; [done..|by rewrite Hd]|].
    intros r t' (m' & Hrep' & Hok' & Hst' & _ & Hpost).
    set (ec := end_of <$> cleaned (conn_table m) t) in *.
    assert (Hec : end_of <$> m' = ec) by (by apply ends_states).
    assert (Hclean : rtc estep (eseen b eb db ib ob (RunSelect remaining) [] oa (end_of <$> t) d)
      (eseen b eb db ib ob (RunSelect remaining) [] oa ec None)) by (unfold eseen; rewrite <- Hd; apply cleanup_sim).
    assert (Hn : forall st d1 m1, state_ok st -> (forall remaining ctx f, st = RunSend remaining ctx f -> plain f) ->
      dead_index t' = d1 -> (forall i, d1 = Some i -> 1 <= i) -> conn_table m1 = t' -> conns_ok (conns_rx m1) -> node_rep (st, m1) ec d1).
    { intros st d1 m1 Hs1 Hs2 Hd1 Hdi1 <- Hc1. split; cbn; [|done..]. by exists m'. }
    destruct r as [|f].
    + destruct Hpost as (_ & Hd' & _).
      assert (Hsame : forall rem m1, conn_table m1 = t' -> wire m1 = ([], out) -> conns_ok (conns_rx m1) ->
        elink_rep ((RunSelect rem, m1), b) (eseen b eb db ib ob (RunSelect remaining) [] oa ec None)).
      { intros rem m1 H1 H2 H3. apply (eseen_rep b eb db ib ob (RunSelect rem)); [done..|by apply Hn|]. split; cbn; by rewrite H2. }
      destruct remaining; [|apply wp_ret; eexists; split; [exact Hclean|]; by apply Hsame].
      apply wp_bind, on_conns_wp. eapply wp_mono; [by apply recv_conn_wp|]. cbn.
      intros [|[oc|[]]] q [Hq' Hoc]; try (apply wp_ret; try intros _; eexists; split; [exact Hclean|]; by apply Hsame).
      apply (connect_esim _ b eb db ib ob [] oa true _ ec); [done|done|by apply Hn|by split|done|done|done].
    + destruct Hpost as (i & remote & c & c' & x & _ & Hm & _ & Hpoll & Hx). apply wp_ret. intros _.
      assert (Hi : ec !! i = Some (Some remote)) by (unfold ec; by rewrite lookup_fmap, Hm).
      assert (Hi1 : 1 <= i).
      { rewrite <- Hec in Hi. apply lookup_fmap_Some in Hi as (s & _ & Hs). by destruct (trep_dom _ _ _ _ _ Hrep' Hs). }
      destruct x as [data|err]; destruct Hx as [-> Hd'].
      * exists (eseen b eb db ib ob (RunSend remaining None (frame_data remote i data)) [] oa ec None). split.
        -- eapply rtc_r; [exact Hclean|]. unfold eseen. cbn. rewrite snoc_queue. by constructor.
        -- apply eseen_rep; [done..| |by split]. apply Hn; try done. intros ? ? ? [= <- <- <-]. by left.
      * exists (eseen b eb db ib ob (RunSend remaining None (frame_reset remote (close_reset err))) [] oa ec (Some i)). split.
        -- eapply rtc_r; [exact Hclean|]. unfold eseen. cbn. rewrite snoc_queue. by constructor.
        -- apply eseen_rep; [done..| |by split]. apply Hn; try done; [intros ? ? ? [= <- <- <-]; by right|by intros ? [= <-]].
  - unfold run_inbound. rewrite Hbuf. rewrite decide_False by apply not_interface. apply wp_ret. intros _.
    eexists. split; [done|]. apply (eseen_rep b eb db ib ob (RunProcess remaining (mkFrame h bs) sc_send_start) _ ia oa).
    + done.
    + done.
    + split; cbn; try done; [by exists t|]. by apply (carries_ids header_ids buf (mkFrame h bs)).
    + by split.
Qed.

Lemma send_esim b eb db ib ob ia oa remaining ctx f m e d registry :
  node_rep b eb db -> wires b ib ob -> node_rep (RunSend remaining ctx f, m) e d -> wires (RunSend remaining ctx f, m) ia oa ->
  wp (run_step MAX_CONNS registry (RunSend remaining ctx f))
    (erun_post (RunSend remaining ctx f, m) b (eseen b eb db ib ob (RunSend remaining ctx f) ia oa e d)) m.
Proof.
  intros Hb Hwb [Ht Hd Hc Hst Hpl Hdi] [Hin Hout]. cbn in *.
  apply wp_bind, on_wire_wp. cbn. destruct (frame_to_vec f) as [v|err] eqn:Hv; cbn; apply wp_ret; [|done]. intros _.
  exists (eseen b eb db ib ob (RunSelect remaining) ia (oa ++ [header f]) e d). split.
  - unfold eseen. cbn. by rewrite app_nil_r.
  - apply eseen_rep; [done..| |].
    + by split.
    + split; [done|]. cbn. apply Forall2_app; [done|]. constructor; [|done]. apply sent_carries; [by eapply Hpl|done].
Qed.

(** A state that is the one before, or one step of the protocol further. *)
Lemma eseen_goes (l : link) p p' : p' = p \/ estep p p' -> elink_rep l p' -> exists p', rtc estep p p' /\ elink_rep l p'.
Proof. intros [->|Hs] Hl; [by exists p|]. exists p'. split; [by apply rtc_once|done]. Qed.

Lemma process_esim b eb db ib ob ia oa remaining f fut m e d registry :
  node_rep b eb db -> wires b ib ob -> node_rep (RunProcess remaining f fut, m) e d -> wires (RunProcess remaining f fut, m) ia oa ->
  patient (RunProcess remaining f fut, m) -> registry_good registry ->
  elink_ok (eseen b eb db ib ob (RunProcess remaining f fut) ia oa e d) ->
  wp (run_step MAX_CONNS registry (RunProcess remaining f fut))
    (erun_post (RunProcess remaining f fut, m) b (eseen b eb db ib ob (RunProcess remaining f fut) ia oa e d)) m.
Proof.
  intros Hb Hwb [(t & Hrep & Hok & ->) Hd Hc Hst _ Hdi] Hwa Hpt Hreg Hpok.
  assert (Hq : queues_rep ((RunProcess remaining f fut, m), b) (header f :: ia ++ ob ++ about_to_send b.1) (in_hand b.1 ++ ib ++ oa ++ []))
    by (by exists ia, oa, ib, ob).
  pose proof (ehead_expected _ _ _ _ _ Hpok) as Hexp. cbn [fst snd state_ok patient] in *.
  assert (Ho : forall i s, t !! i = Some s -> conns (conn_table m) !! to_index i = Some (Occupied s)).
  { intros i s Hm. pose proof (trep_dom _ _ _ _ _ Hrep Hm) as [Hi _]. destruct Hrep as (free & k & Hwf).
    by apply (tw_occupied _ _ _ _ _ Hwf). }
  cbn [run_step]. apply wp_bind, on_table_wp. eapply wp_mono; [by apply wp_fst, process_inbound_wp|].
  cbn. intros [fut' r] t' [(t1 & Hrep1 & Hok1 & Hpost) ->].
  pose proof (keeps_dead_inbound (Hello := Hello) MAX_CONNS registry f fut (conn_table m)) as Hd'. rewrite Hd in Hd'.
  set (t' := fst (process_inbound (Hello := Hello) MAX_CONNS registry f fut (conn_table m))) in *. apply wp_ret. cbn [snd fst].
  assert (Hnr : forall st, state_ok st -> (forall remaining ctx f, st = RunSend remaining ctx f -> plain f) ->
    node_rep (st, set_conn_table t' m) (end_of <$> t1) d) by (intros st H1 H2; split; [by exists t1|done..]).
  set (p := eseen b eb db ib ob (RunProcess remaining f fut) ia oa (end_of <$> t) d) in *.
  assert (Hgo : forall st e',
    (eseen b eb db ib ob st ia oa e' d = p \/ estep p (eseen b eb db ib ob st ia oa e' d)) ->
    e' = end_of <$> t1 -> state_ok st -> (forall remaining ctx f, st = RunSend remaining ctx f -> plain f) ->
    exists p', rtc estep p p' /\ elink_rep ((st, set_conn_table t' m), b) p')
    by (intros st e' Hs -> H1 H2; eapply eseen_goes; [exact Hs|by apply eseen_rep; [done..|apply Hnr|]]).
  destruct f as [h bs]. unfold inbound_post in Hpost. cbn [header body] in *. subst p.
  destruct h as [l identity|l i|l i|i reason|i reason]; cbn [eexpected snd es_ends] in *.
  - destruct (registry identity bs) as [c|reason].
    + destruct Hpost as (o & -> & [(_ & -> & -> & _)|(_ & i & _ & _ & Hn & -> & -> & _)]); intros Hin.
      * eapply Hgo; [|done|done|intros ? ? ? [= <- <- <-]; by right]. right. unfold eseen. cbn. rewrite snoc_queue. constructor.
      * destruct (Hin i eq_refl) as [Hu Hdd]. cbn in Hdd. rewrite Hd' in Hdd.
        eapply Hgo; [|by rewrite ends_insert|done|intros ? ? ? [= <- <- <-]; by right]. right. unfold eseen. cbn. rewrite snoc_queue.
        constructor. eapply unused_fresh; [done..|by rewrite lookup_fmap, Hn|done].
    + destruct Hpost as (-> & -> & _). intros _. eapply Hgo; [|done|done|intros ? ? ? [= <- <- <-]; by right].
      right. unfold eseen. cbn. rewrite snoc_queue. constructor.
  - unfold data_post in Hpost. cbn [snd fst] in Hpost. destruct Hexp as [Hi|Hi].
    + assert (Hi' := Hi). apply ends_open in Hi as [c Hm]. rewrite Hm, Z.eqb_refl in Hpost.
      destruct Hpost as (c' & q & Hsend & Hq'). destruct q as [|[[]|err]].
      * destruct Hq' as (-> & -> & _). eapply Hgo; [by left|by rewrite (ends_channel _ _ _ _ _ Hm)|done|done].
      * destruct Hq' as (-> & -> & _). intros _. eapply Hgo; [|by rewrite (ends_channel _ _ _ _ _ Hm)|done|done].
        right. unfold eseen. cbn. by constructor.
      * destruct Hq' as (-> & -> & _). intros _. eapply Hgo; [|by rewrite fmap_delete|done|intros ? ? ? [= <- <- <-]; by right].
        right. unfold eseen. cbn. rewrite snoc_queue. by constructor.
    + assert (Hm : t !! i = None) by (revert Hi; rewrite lookup_fmap; by destruct (t !! i)).
      rewrite Hm in Hpost. destruct Hpost as (-> & -> & _). intros _.
      eapply Hgo; [|done|done|intros ? ? ? [= <- <- <-]; by right]. right. unfold eseen. cbn. rewrite snoc_queue. by constructor.
  - destruct Hpost as (o & -> & Hpost). pose proof (ends_connecting _ _ Hexp) as (rsp & c & Hm).
    unfold ack_post in Hpost. rewrite Hm in Hpost. destruct Hpost as (-> & _ & ->).
    rewrite (Hpt _ _ (Ho _ _ Hm)). intros _. eapply Hgo; [|by rewrite ends_insert|done|done].
    right. unfold eseen. cbn. by constructor.
  - destruct Hpost as (-> & -> & _). intros _. eapply Hgo; [|by rewrite fmap_delete|done|done].
    right. unfold eseen. cbn. by constructor.
  - destruct Hpost as (-> & -> & _). intros _. eapply Hgo; [|by rewrite fmap_delete|done|done].
    right. unfold eseen. cbn. constructor. tauto.
Qed.

(** Every step of the left interface and its surroundings is some steps of the protocol. *)
Lemma elstep_sim registry l l' p :
  elstep registry l l' -> registry_good registry -> elink_rep l p -> elink_ok p ->
  exists p', rtc estep p p' /\ elink_rep l' p'.
Proof.
  assert (Hstep : forall st m b, patient (st, m) -> registry_good registry -> elink_rep ((st, m), b) p -> elink_ok p ->
    wp (run_step MAX_CONNS registry st) (erun_post (st, m) b p) m).
  { intros st m b Hpt Hreg (eb & db & ib & ob & ia & oa & e & d & Hb & Hwb & Ha & Hwa & ->)%elink_rep_inv Hok.
    destruct st as [remaining|remaining ctx f|remaining f fut]; [by apply select_esim|by apply send_esim|by apply process_esim]. }
  intros Hs Hreg Hrep Hok. destruct Hs as [st m st' m' b Hpt Hrun Htaken|st m st' m' b Hpt Hrun|l l' Henv].
  - destruct (Hstep _ _ _ Hpt Hreg Hrep Hok) as (m1 & r & Hrun' & Hpost). rewrite Hrun in Hrun'. injection Hrun' as <- <-.
    by apply Hpost.
  - destruct (Hstep _ _ _ Hpt Hreg Hrep Hok) as (m1 & r & Hrun' & Hpost). rewrite Hrun in Hrun'. injection Hrun' as <- <-.
    exact Hpost.
  - exists p. split; [done|]. destruct Hrep as (Ha & Hb & Hq). by apply (env_rep _ MAX_CONNS_range l).
Qed.

Context (registry_a registry_b : Registry).
Hypothesis registry_a_ok : registry_good registry_a.
Hypothesis registry_b_ok : registry_good registry_b.

Lemma rtc_estep_ok p p' : rtc estep p p' -> elink_ok p -> elink_ok p'.
Proof. intros H Hp. eapply (rtc_invariant estep elink_ok); [exact Hp|intros ? ? ? ?; by eapply estep_ok|exact H]. Qed.
Lemma rtc_left p p' : rtc estep p p' -> rtc elink_step p p'.
Proof. intros H. induction H; [done|]. eapply rtc_l; [by left|done]. Qed.
Lemma rtc_right p p' : rtc estep p p' -> rtc elink_step (swap p) (swap p').
Proof. intros H. induction H as [|x y z Hs _ IH]; [done|]. eapply rtc_l; [|exact IH]. right. by destruct x, y. Qed.

Lemma elink_refines pa pb l :
  conns_ok pa -> conns_ok pb -> rtc (elink_steps registry_a registry_b) (link_start MAX_CONNS pa pb) l ->
  exists p, rtc elink_step elink_start p /\ elink_ok p /\ elink_rep l p.
Proof.
  intros Ha Hb. revert l. apply (rtc_ind_r (fun l => exists p, rtc elink_step elink_start p /\ elink_ok p /\ elink_rep l p)).
  - exists elink_start. split_and!; [done|apply estart_ok|].
    destruct (start_rep MAX_CONNS MAX_CONNS_range pa pb Ha Hb) as (H1 & H2 & H3). by split_and!.
  - intros l l' _ [Hs|Hs] (p & Hp & Hok & Hrep).
    + destruct (elstep_sim _ _ _ _ Hs registry_a_ok Hrep Hok) as (p' & Hp' & Hrep'). exists p'.
      split_and!; [|by eapply rtc_estep_ok|done]. etrans; [exact Hp|by apply rtc_left].
    + destruct (elstep_sim _ _ _ _ Hs registry_b_ok (elink_rep_swap _ _ Hrep) (eswap_ok _ Hok)) as (p' & Hp' & Hrep').
      exists (swap p'). split_and!.
      * etrans; [exact Hp|]. apply rtc_right in Hp'. by destruct p.
      * apply eswap_ok. eapply rtc_estep_ok; [exact Hp'|by apply eswap_ok].
      * apply elink_rep_swap in Hrep'. by destruct l'.
Qed.
(** ** What the protocol gives *)

(** The interface [n] knows what to do with the frame it handles, from [n']. *)
Definition eframes_ok (n n' : node) : Prop :=
  match n.1 with
  | RunProcess _ f _ =>
      match header f with
      | Connect l _ => exists rsp, sock_at n' l = Some (Connecting rsp)
      | Data l i => sock_at n i = Some (Open l) \/ sock_at n i = None
      | Ack _ i | Reject i _ => exists rsp, sock_at n i = Some (Connecting rsp)
      | HReset i _ =>
          (forall rsp, sock_at n i <> Some (Connecting rsp)) /\
          forall l, 1 <= l -> sock_at n' l = Some (Open i) -> dead_index (conn_table n'.2) = Some l
      end
  | _ => True
  end.

Lemma rep_eframes_ok a b p : elink_rep (a, b) p -> elink_ok p -> eframes_ok a b.
Proof.
  destruct a as [st m]. intros (eb & db & ib & ob & ia & oa & e & d & Hb & _ & Ha & _ & ->)%elink_rep_inv Hok.
  unfold eframes_ok. destruct st as [remaining|remaining ctx f|remaining f fut]; cbn [fst]; [done..|].
  pose proof (nr_state _ _ _ _ Ha) as Hst. cbn in Hst.
  pose proof (ehead_expected _ _ _ _ _ Hok) as Hexp. destruct (header f) as [l identity|l i|l i|i reason|i reason]; cbn in Hexp, Hst.
  - by apply (sock_at_connecting MAX_CONNS b eb db).
  - destruct Hexp as [Hi|Hi]; [left; by apply (sock_at_open MAX_CONNS _ e d)|right].
    rewrite (sock_at_ends _ _ _ _ i Ha) in Hi by tauto. by destruct (sock_at _ i).
  - by apply (sock_at_connecting MAX_CONNS _ e d).
  - by apply (sock_at_connecting MAX_CONNS _ e d).
  - destruct Hexp as [Hi Hl]. split.
    + intros rsp Hs. apply Hi. rewrite (sock_at_ends _ _ _ _ i Ha) by tauto. by rewrite Hs.
    + intros l Hl1 Hs. rewrite (nr_dead _ _ _ _ Hb). apply Hl. by rewrite (sock_at_ends _ _ _ _ l Hb), Hs.
Qed.

(** One half of the agreement. *)
Lemma idle_agrees a b p i j ra rb :
  elink_ok p -> elink_rep (a, b) p -> a.1 = RunSelect ra -> b.1 = RunSelect rb -> wire a.2 = ([], []) -> wire b.2 = ([], []) ->
  dead_index (conn_table a.2) = None -> 1 <= i -> 1 <= j ->
  (sock_at a i = Some (Open j) -> sock_at b j = Some (Open i)) /\ (forall rsp, sock_at a i <> Some (Connecting rsp)).
Proof.
  intros Hok (Ha & Hb & [Hqa Hqb]%incoming_queue) Hsa Hsb Hwa Hwb Hd Hi Hj.
  unfold incoming in Hqa, Hqb. rewrite Hwa, Hwb, Hsa, Hsb in *. cbn [fst snd in_hand about_to_send omap list_omap app] in *.
  destruct p as [[ea da qa] [eb db qb]]. cbn in *. subst qa qb. destruct Hok as [Hok _].
  pose proof (sock_at_ends _ _ _ _ i Ha Hi) as Hai. pose proof (sock_at_ends _ _ _ _ j Hb Hj) as Hbj. split.
  - intros Hs. rewrite Hs in Hai. rewrite (nr_dead _ _ _ _ Ha) in Hd.
    destruct (eh_open _ _ Hok i j Hai) as [H|[[_ H]|[[r H]|H]]]; cbn in H; [|by apply not_elem_of_nil in H..|congruence].
    rewrite Hbj in H. destruct (sock_at b j) as [[]|]; cbn in H; congruence.
  - intros rsp Hs. rewrite Hs in Hai. pose proof (eh_setup _ _ Hok i) as H. cbn in H. rewrite Hai in H. by rewrite decide_True in H.
Qed.

(** C15: Resets end what has ended.  In every state two joined interfaces reach, with connections
    that are set up, used, refused and ended by either side, a reset that an interface handles
    is for a connection whose peer is gone or about to be removed, and never for one that
    waits to be set up; a data frame is for a connection open to its sender's, or for one that is
    gone; answers are for connections that wait.  (Identifiers are taken again when nothing refers
    to them any more, and the tasks that wait for a connection stay.) *)
Theorem ending_link_frames_expected pa pb a b :
  conns_ok pa -> conns_ok pb -> rtc (elink_steps registry_a registry_b) (link_start MAX_CONNS pa pb) (a, b) ->
  eframes_ok a b /\ eframes_ok b a.
Proof.
  intros Ha Hb (p & _ & Hok & Hrep)%elink_refines; [|done..]. split; [by eapply rep_eframes_ok|].
  eapply rep_eframes_ok, eswap_ok, Hok. by apply (elink_rep_swap (a, b)).
Qed.

(** C14: The tables agree in the end.  Whenever two joined interfaces have no frame in hand, none
    on the wire and no entry of a dead connection, the connections of one are exactly those
    of the other, however many were ended by either side before: [i] here is open to [j]
    there if and only if [j] there is open to [i] here, and none waits to be set up.  (Under the
    same conditions.) *)
Theorem ending_link_agrees_when_idle pa pb a b i j :
  conns_ok pa -> conns_ok pb -> rtc (elink_steps registry_a registry_b) (link_start MAX_CONNS pa pb) (a, b) ->
  (exists ra rb, a.1 = RunSelect ra /\ b.1 = RunSelect rb) -> wire a.2 = ([], []) -> wire b.2 = ([], []) ->
  dead_index (conn_table a.2) = None -> dead_index (conn_table b.2) = None ->
  1 <= i -> 1 <= j ->
  (sock_at a i = Some (Open j) <-> sock_at b j = Some (Open i)) /\
  (forall rsp, sock_at a i <> Some (Connecting rsp)) /\ (forall rsp, sock_at b j <> Some (Connecting rsp)).
Proof.
  intros Hpa Hpb (p & _ & Hok & Hrep)%elink_refines (ra & rb & Hsa & Hsb) Hwa Hwb Hda Hdb Hi Hj; [|done..].
  assert (Hrep' := elink_rep_swap _ _ Hrep).
  pose proof (idle_agrees a b p i j ra rb Hok Hrep Hsa Hsb Hwa Hwb Hda Hi Hj) as (H1 & H2).
  pose proof (idle_agrees b a (swap p) j i rb ra (eswap_ok _ Hok) Hrep' Hsb Hsa Hwb Hwa Hdb Hj Hi) as (H3 & H4).
  by split_and!.
Qed.
End LinkEndsSpec.
