(* ===== verification/LeakCheck.v ===== *)
(** The leak checker of the test shim: [tricky-pipe/src/loom.rs], as it is compiled for tests
    without loom.

    A [Registry] remembers, by weak references, every value a test has wrapped in a [Track];
    each thread has at most one registry, in a thread local, which [thread::spawn] hands on.
    [Builder::check] runs a test and panics if a wrapped value outlives it.

    The state is the memory behind the [Arc]s and the thread locals.  A reference count that
    falls to zero runs the destructor; the registries' own counts have no effect and are left
    out.  What is traced, and the message of the panic, is recorded in [w_trace]. *)
From Stdlib Require Import Ascii.
From stdpp Require Import gmap strings.
From S2P Require Import Prelude Text.
Local Open Scope string_scope.
Local Open Scope Z_scope.

(** [a + b] on [usize] in a debug build. *)
Definition usize_checked_add (a b : Z) : option Z := if a + b <? usize_mod then Some (a + b) else None.

(** ** The registry *)

(** [struct TrackData], [struct RegistryInner] *)
Record TrackData := mkTrackData { was_leaked : bool; type_name : string; location : string; id : Z }.
Record RegistryInner := mkRegistryInner { tracks : list nat; next_id : Z; next_thread_num : Z; thread_name : string }.

Inductive event : Type :=
| StartedTracking (id : Z) (type : string) (location : string)
| DroppedAll (id : Z) (type : string) (location : string)
| Panicked (message : string).

(** Registries with the poisoned flag of their mutex; tracked data with the number of strong
    references; the thread local [REGISTRY] of each thread; the next free address. *)
Record world := mkWorld {
  w_registries : gmap nat (RegistryInner * bool);
  w_data : gmap nat (TrackData * Z);
  w_current : gmap nat nat;
  w_next : nat;
  w_trace : list event;
}.
Definition set_registries rs (w : world) := mkWorld rs (w_data w) (w_current w) (w_next w) (w_trace w).
Definition set_data ds (w : world) := mkWorld (w_registries w) ds (w_current w) (w_next w) (w_trace w).
Definition set_current c (w : world) := mkWorld (w_registries w) (w_data w) c (w_next w) (w_trace w).
Definition set_next n (w : world) := mkWorld (w_registries w) (w_data w) (w_current w) n (w_trace w).
Definition trace (e : event) (w : world) := mkWorld (w_registries w) (w_data w) (w_current w) (w_next w) (w_trace w ++ [e]).

(** A fresh address. *)
Definition alloc : M world nat :=
  a ← gets w_next; modify (set_next (S a));; mret a.

(** [Mutex::lock]: runs [m] with the registry [r] locked.  A panic poisons the mutex, and
    locking a poisoned mutex is an error. *)
Definition locked {A} (r : nat) (m : M (RegistryInner * world) A) : M world (result A unit) := fun w =>
  match w_registries w !! r with
  | None => (w, Panic)
  | Some (inner, true) => (w, Val (Err tt))
  | Some (inner, false) =>
      match m (inner, w) with
      | ((inner', w'), o) =>
          let unlock poisoned := set_registries (<[r := (inner', poisoned)]> (w_registries w')) w' in
          match o with
          | Val a => (unlock false, Val (Ok a))
          | Panic => (unlock true, Panic)
          | OutOfFuel => (unlock true, OutOfFuel)
          end
      end
  end.
Definition on_inner {A} (m : M RegistryInner A) : M (RegistryInner * world) A := zoom fst (fun i s => (i, snd s)) m.
Definition on_world {A} (m : M world A) : M (RegistryInner * world) A := zoom snd (fun w s => (fst s, w)) m.
(** [unwrap] of what [lock] returns. *)
Definition unwrap {A} (r : result A unit) : M world A := match r with Ok a => mret a | Err _ => panic end.

Definition set_tracks ts (i : RegistryInner) := mkRegistryInner ts (next_id i) (next_thread_num i) (thread_name i).
Definition set_next_id n (i : RegistryInner) := mkRegistryInner (tracks i) n (next_thread_num i) (thread_name i).
Definition set_next_thread_num n (i : RegistryInner) := mkRegistryInner (tracks i) (next_id i) n (thread_name i).

(** [Registry::next_thread_name] *)
Definition next_thread_name (r : nat) : M world (option (string * Z)) :=
  x ← locked r (on_inner (
    n ← gets next_thread_num;
    n ← expect (usize_checked_add n 1);
    modify (set_next_thread_num n);;
    name ← gets thread_name;
    mret (name +:+ ":" +:+ decimal n, n)));
  mret (result_ok x).

(** [Registry::new], on a thread with this name. *)
Definition Registry_new (name : option string) : M world nat :=
  r ← alloc;
  modify (fun w => set_registries (<[r := (mkRegistryInner [] 0 0 (default "test" name), false)]> (w_registries w)) w);;
  mret r.

(** [Registry::current], on the thread [t] *)
Definition Registry_current (t : nat) : M world (option nat) := gets (fun w => w_current w !! t).

(** [Registry::set_default], on the thread [t]: the [Unset] guard holds what was there before. *)
Definition Registry_set_default (t r : nat) : M world (option nat) :=
  unset ← gets (fun w => w_current w !! t);
  modify (fun w => set_current (<[t := r]> (w_current w)) w);;
  mret unset.
(** [Drop for Unset] *)
Definition Unset_drop (t : nat) (unset : option nat) : M world unit :=
  modify (fun w => set_current (partial_alter (fun _ => unset) t (w_current w)) w).

(** [Registry::insert], called from [location] with the type of this name *)
Definition Registry_insert (r : nat) (type_name location : string) : M world nat :=
  x ← locked r (
    id ← on_inner (gets next_id);
    n ← expect (usize_checked_add id 1);
    on_inner (modify (set_next_id n));;
    data ← on_world alloc;
    on_world (modify (fun w => set_data (<[data := (mkTrackData false type_name location id, 1)]> (w_data w)) w));;
    on_world (modify (trace (StartedTracking id type_name location)));;
    on_inner (modify (fun i => set_tracks (tracks i ++ [data]) i));;
    mret data);
  unwrap x.

(** [Registry::start_tracking] *)
Definition start_tracking (t : nat) (type_name location : string) : M world (option nat) :=
  c ← Registry_current t;
  match c with
  | Some r => data ← Registry_insert r type_name location; mret (Some data)
  | None => mret None
  end.

(** [Drop for TrackData] *)
Definition TrackData_drop (data : TrackData) : M world unit :=
  if was_leaked data then mret tt
  else modify (trace (DroppedAll (id data) (type_name data) (location data))).

(** One strong reference to [data] less. *)
Definition Arc_drop (d : nat) : M world unit :=
  x ← gets (fun w => w_data w !! d);
  match x with
  | None => panic
  | Some (data, n) =>
      if n =? 1 then modify (fun w => set_data (base.delete d (w_data w)) w);; TrackData_drop data
      else modify (fun w => set_data (<[d := (data, n - 1)]> (w_data w)) w)
  end.

(** The closure of [check]: the line for one allocation, if it is still referenced.  The
    reference that [upgrade] makes is gone again at the end. *)
Definition leak_line (data : TrackData) : string :=
  " - id " +:+ decimal (id data) +:+ ", " +:+ type_name data +:+ " allocated at " +:+ location data.
Definition leaked_at (d : nat) : M world (option string) :=
  x ← gets (fun w => w_data w !! d);
  match x with
  | None => mret None
  | Some (mkTrackData _ type_name location id, n) =>
      modify (fun w => set_data (<[d := (mkTrackData true type_name location id, n)]> (w_data w)) w);;
      mret (Some (leak_line (mkTrackData true type_name location id)))
  end.
Fixpoint collect_leaked (ds : list nat) : M world (list string) :=
  match ds with
  | [] => mret []
  | d :: ds => x ← leaked_at d; xs ← collect_leaked ds; mret (match x with Some s => s :: xs | None => xs end)
  end.

Definition newline : string := String "010"%char "".
Definition leak_report (leaked : list string) : string :=
  "the following allocations were leaked:" +:+ newline +:+ "  " +:+ String.concat (newline +:+ "  ") leaked.

(** [Registry::check] *)
Definition Registry_check (r : nat) : M world unit :=
  x ← locked r (ds ← on_inner (gets tracks); on_world (collect_leaked ds));
  leaked ← unwrap x;
  match leaked with
  | [] => mret tt
  | _ => modify (trace (Panicked (leak_report leaked)));; panic
  end.

(** ** Tracked values *)

Section Track.
Context {T : Type}.

(** [struct Track<T>] *)
Record Track := mkTrack { value : T; track : option nat }.

(** [Track::new], on the thread [t] and called from [location]; [name] is [type_name::<T>()]. *)
Definition Track_new (t : nat) (name location : string) (v : T) : M world Track :=
  d ← start_tracking t name location; mret (mkTrack v d).
Definition Track_get_ref (x : Track) : T := value x.
(** What is written through [get_mut] *)
Definition Track_get_mut (x : Track) (v : T) : Track := mkTrack v (track x).
Definition Track_drop (x : Track) : M world unit := match track x with Some d => Arc_drop d | None => mret tt end.
Definition Track_into_inner (x : Track) : M world T := Track_drop x;; mret (value x).

(** ** Programs

    A test is what its threads do, in order.  [st_values] are the tracked values it holds,
    [st_guards] the guards in the closures of its threads. *)
Record test_state := mkTest { st_world : world; st_values : gmap nat Track; st_guards : gmap nat (option nat) }.
Definition set_world w (s : test_state) := mkTest w (st_values s) (st_guards s).
Definition set_values v (s : test_state) := mkTest (st_world s) v (st_guards s).
Definition set_guards g (s : test_state) := mkTest (st_world s) (st_values s) g.
Definition in_world {A} (m : M world A) : M test_state A := zoom st_world set_world m.

(** [thread::spawn]: the new thread [t'] begins with its registry and its name; it ends with
    the drop of the guard. *)
Definition spawn (t t' : nat) : M test_state (option (string * Z)) :=
  track ← in_world (Registry_current t);
  name ← match track with Some r => in_world (next_thread_name r) | None => mret None end;
  match track with
  | Some r => u ← in_world (Registry_set_default t' r); modify (fun s => set_guards (<[t' := u]> (st_guards s)) s)
  | None => mret tt
  end;;
  mret name.
Definition thread_end (t : nat) : M test_state unit :=
  u ← gets (fun s => st_guards s !! t);
  match u with
  | Some u => modify (fun s => set_guards (base.delete t (st_guards s)) s);; in_world (Unset_drop t u)
  | None => mret tt
  end.

Inductive command : Type :=
| CNew (t k : nat) (name location : string) (v : T)
| CDrop (k : nat)
| CIntoInner (k : nat)
| CSetRef (k : nat) (v : T)
| CSpawn (t t' : nat)
| CEnd (t : nat).

(** A name that is not free, or stands for nothing, makes a command do nothing. *)
Definition do_command (c : command) : M test_state unit :=
  match c with
  | CNew t k name location v =>
      o ← gets (fun s => st_values s !! k);
      match o with
      | Some _ => mret tt
      | None => x ← in_world (Track_new t name location v); modify (fun s => set_values (<[k := x]> (st_values s)) s)
      end
  | CDrop k =>
      o ← gets (fun s => st_values s !! k);
      match o with
      | None => mret tt
      | Some x => modify (fun s => set_values (base.delete k (st_values s)) s);; in_world (Track_drop x)
      end
  | CIntoInner k =>
      o ← gets (fun s => st_values s !! k);
      match o with
      | None => mret tt
      | Some x => modify (fun s => set_values (base.delete k (st_values s)) s);; in_world (Track_into_inner x);; mret tt
      end
  | CSetRef k v => modify (fun s => set_values (alter (fun x => Track_get_mut x v) k (st_values s)) s)
  | CSpawn t t' =>
      g ← gets (fun s => st_guards s !! t');
      match g with Some _ => mret tt | None => spawn t t';; mret tt end
  | CEnd t => thread_end t
  end.
Fixpoint run_commands (cs : list command) : M test_state unit :=
  match cs with [] => mret tt | c :: cs => do_command c;; run_commands cs end.

(** A guard is dropped when its scope ends, by a panic too. *)
Definition finally {S A} (m : M S A) (g : M S unit) : M S A := fun s =>
  match m s with (s', o) => match g s' with (s'', Val _) => (s'', o) | (s'', Panic) => (s'', Panic) | (s'', OutOfFuel) => (s'', OutOfFuel) end end.

(** [Builder::check], on the thread [t] with this name *)
Definition Builder_check (t : nat) (name : option string) (f : M test_state unit) : M test_state unit :=
  registry ← in_world (Registry_new name);
  tracking ← in_world (Registry_set_default t registry);
  finally (f;; in_world (Registry_check registry)) (in_world (Unset_drop t tracking)).
(** [loom::model], after the subscriber for the log is set up. *)
Definition model (t : nat) (name : option string) (f : M test_state unit) : M test_state unit := Builder_check t name f.
End Track.
#[global] Arguments Track : clear implicits.
#[global] Arguments test_state : clear implicits.
#[global] Arguments command : clear implicits.

(** ** Cells

    The rest of the shim that the crate is built with outside of loom: a cell is used through
    a pointer to its contents, which lie at the cell's own address. *)
Section Cells.
Context {Mem : Type}.

(** [core::cell::UnsafeCell], and its [get] *)
Definition UnsafeCell : Type := nat.
Definition UnsafeCell_get (c : UnsafeCell) : nat := c.

(** [struct MutPtr<T>] *)
Record MutPtr := mkMutPtr { ptr : nat }.

(** [trait CellWith] *)
Class CellWith (C : Type) := {
  cell_with {R} (c : C) (f : nat -> M Mem R) : M Mem R;
  cell_with_mut {R} (c : C) (f : nat -> M Mem R) : M Mem R;
  cell_get_mut (c : C) : MutPtr;
}.
#[export] Instance UnsafeCell_CellWith : CellWith UnsafeCell := {|
  cell_with _ c f := f (UnsafeCell_get c);
  cell_with_mut _ c f := f (UnsafeCell_get c);
  cell_get_mut c := mkMutPtr (UnsafeCell_get c);
|}.

(** [MutPtr::deref]: the place that is read and written through the reference; [MutPtr::with] *)
Definition MutPtr_deref (p : MutPtr) : nat := ptr p.
Definition MutPtr_with {R} (p : MutPtr) (f : nat -> M Mem R) : M Mem R := f (ptr p).

(** The ways to get at a cell do not differ. *)
Lemma cell_ways {R} (c : UnsafeCell) (f : nat -> M Mem R) :
  cell_with c f = cell_with_mut c f /\ MutPtr_with (cell_get_mut c) f = cell_with_mut c f /\
  f (MutPtr_deref (cell_get_mut c)) = cell_with_mut c f.
Proof. done. Qed.
End Cells.
