(* ===== verification/LeakCheckSpec.v ===== *)
(** The leak checker finds exactly the leaks: a checked test panics if and only if a tracked
    value outlives it, whichever of its threads made the value, and the message names each
    such value. *)
From stdpp Require Import gmap strings.
From S2P Require Import Prelude LeakCheck.

Section LeakCheckSpec.
Context {T : Type}.
Implicit Types (s : test_state T) (w : world) (x : Track T).

(** The value [k] of the test is tracked by the data at [d]. *)
Definition tracked (values : gmap nat (Track T)) (k d : nat) : Prop := exists x, values !! k = Some x /\ track x = Some d.

(** The registry [r] is the only one a thread has; it has made at most [n] entries and names;
    the allocations in memory are those of the tracked values, one reference each, and all of
    them are in the registry's list. *)
Record checked (r : nat) (n : Z) s : Prop := {
  ck_inner : exists inner, w_registries (st_world s) !! r = Some (inner, false) /\
    0 <= next_id inner <= n /\ 0 <= next_thread_num inner <= n /\
    forall d, is_Some (w_data (st_world s) !! d) -> d ∈ tracks inner;
  ck_current t r' : w_current (st_world s) !! t = Some r' -> r' = r;
  ck_guards t r' : st_guards s !! t = Some (Some r') -> r' = r;
  ck_counts d data c : w_data (st_world s) !! d = Some (data, c) -> c = 1;
  ck_fresh d : is_Some (w_data (st_world s) !! d) -> (d < w_next (st_world s))%nat;
  ck_values d : is_Some (w_data (st_world s) !! d) <-> exists k, tracked (st_values s) k d;
  ck_owner k k' d : tracked (st_values s) k d -> tracked (st_values s) k' d -> k = k';
}.

(** ** Memory *)

Lemma locked_wp {A} r (m : M (RegistryInner * world) A) inner w (Q : result A unit -> world -> Prop) :
  w_registries w !! r = Some (inner, false) ->
  wp m (fun a p => Q (Ok a) (set_registries (<[r := (fst p, false)]> (w_registries (snd p))) (snd p))) (inner, w) ->
  wp (locked r m) Q w.
Proof.
  intros Hr ([inner' w'] & a & Hm & HQ). unfold wp, locked. rewrite Hr, Hm. eexists _, _. split; [done|exact HQ].
Qed.

Lemma in_world_wp {A} (m : M world A) (Q : A -> test_state T -> Prop) s :
  wp m (fun a w => Q a (set_world w s)) (st_world s) -> wp (in_world m) Q s.
Proof. apply wp_zoom. Qed.

Ltac steps := repeat first [apply wp_bind | apply wp_zoom | apply wp_gets | apply wp_modify | apply wp_ret].

(** ** The commands *)

Lemma checked_mono r n n' s : checked r n s -> n <= n' -> checked r n' s.
Proof. intros [(inner & ? & ? & ? & ?) ? ? ? ? ? ?] Hn. split; try done. exists inner. split_and!; (done || lia). Qed.

(** What happens elsewhere: nothing that the invariant is about changes. *)
Lemma checked_ext r n s s' :
  w_registries (st_world s') = w_registries (st_world s) -> w_data (st_world s') = w_data (st_world s) ->
  w_current (st_world s') = w_current (st_world s) -> w_next (st_world s') = w_next (st_world s) ->
  (forall k d, tracked (st_values s') k d <-> tracked (st_values s) k d) -> st_guards s' = st_guards s -> checked r n s -> checked r n s'.
Proof.
  intros H1 H2 H3 H4 H5 H6 []. split; rewrite ?H1, ?H2, ?H3, ?H4, ?H6; try done.
  - intros d. rewrite ck_values0. by setoid_rewrite H5.
  - intros k k' d. rewrite !H5. apply ck_owner0.
Qed.

Lemma tracked_insert vs k k' d x :
  tracked (<[k := x]> vs) k' d <-> (k' = k /\ track x = Some d) \/ (k' <> k /\ tracked vs k' d).
Proof. unfold tracked. setoid_rewrite lookup_insert_Some. naive_solver. Qed.
Lemma tracked_delete vs k k' d : tracked (base.delete k vs) k' d <-> k' <> k /\ tracked vs k' d.
Proof. unfold tracked. setoid_rewrite lookup_delete_Some. naive_solver. Qed.

Lemma new_ok r n s t k name loc v :
  checked r n s -> n + 1 < usize_mod -> wp (do_command (CNew t k name loc v)) (fun _ s' => checked r (n + 1) s') s.
Proof.
  intros Hc Hn. cbn [do_command]. steps. destruct (st_values s !! k) as [x|] eqn:Hk.
  { steps. apply (checked_mono _ n); [done|lia]. }
  apply wp_bind, in_world_wp. unfold Track_new, start_tracking, Registry_current. steps.
  destruct (w_current (st_world s) !! t) as [r'|] eqn:Ht; cbn [mret].
  - assert (r' = r) as -> by (by eapply ck_current). destruct Hc as [(inner & Hr & Hid & Hnum & Hin) Hcur Hg Hcnt Hfr Hval Hown].
    unfold Registry_insert. steps. eapply locked_wp; [exact Hr|]. unfold on_inner, on_world, alloc. steps. cbn [fst snd].
    unfold expect, usize_checked_add. rewrite (proj2 (Z.ltb_lt _ _)) by lia. steps. cbn [fst snd]. unfold unwrap. steps.
    set (d := w_next (st_world s)). assert (Hd : w_data (st_world s) !! d = None).
    { destruct (w_data (st_world s) !! d) eqn:Hd; [|done]. specialize (Hfr d ltac:(by eexists)). unfold d in Hfr. lia. }
    assert (Hnt : forall k', ~ tracked (st_values s) k' d) by (intros k' Hk'; assert (H : is_Some (w_data (st_world s) !! d)) by (apply Hval; by exists k');
      rewrite Hd in H; by destruct H).
    split; cbn.
    + eexists. split; [by rewrite lookup_insert_eq|]. cbn. split_and!; [lia..|]. intros d' Hd'. apply elem_of_app.
      destruct (decide (d' = d)) as [->|]; [right; by apply list_elem_of_singleton|left]. apply Hin. by rewrite lookup_insert_ne in Hd'.
    + done.
    + done.
    + intros d' data c. rewrite lookup_insert_Some. naive_solver.
    + intros d' Hd'. destruct (decide (d' = d)) as [->|]; [lia|]. rewrite lookup_insert_ne in Hd' by done. apply Hfr in Hd'. lia.
    + intros d'. setoid_rewrite tracked_insert. cbn. destruct (decide (d = d')) as [<-|Hne].
      * rewrite lookup_insert_eq. split; [|by eexists]. intros _. exists k. by left.
      * rewrite lookup_insert_ne by done. rewrite Hval. split.
        -- intros [k' Hk']. exists k'. right. split; [|done]. intros ->. destruct Hk' as (x & Hx & _). congruence.
        -- intros [k' [[_ [= ->]]|[_ ?]]]; [done|by exists k'].
    + intros k1 k2 d'. rewrite !tracked_insert. cbn. intros [[-> [= <-]]|[Hk1 Ht1]] [[-> H2]|[Hk2 Ht2]]; try done; try (by simplify_eq).
      * by apply Hnt in Ht2.
      * injection H2 as <-. by apply Hnt in Ht1.
      * by eapply Hown.
  - steps. apply (checked_mono _ n); [|lia]. eapply checked_ext; [..|exact Hc]; cbn; try done. intros k' d. rewrite tracked_insert.
    cbn. split; [by intros [[_ [=]]|[_ ?]]|]. intros Hk'. right. split; [|done]. intros ->. destruct Hk' as (x & Hx & _). congruence.
Qed.

(** The end of a tracked value frees its allocation. *)
Lemma drop_checked r n s k x :
  checked r n s -> st_values s !! k = Some x ->
  wp (modify (fun s => set_values (base.delete k (st_values s)) s);; in_world (Track_drop x)) (fun _ s' => checked r n s') s.
Proof.
  intros Hc Hk. steps. unfold Track_drop. destruct (track x) as [d|] eqn:Hx.
  - assert (Htr : tracked (st_values s) k d) by (by exists x). unfold Arc_drop. steps. cbn.
    destruct (proj2 (ck_values _ _ _ Hc d) ltac:(by exists k)) as [[data c] Hd]. rewrite Hd.
    rewrite (ck_counts _ _ _ Hc _ _ _ Hd). cbn. steps.
    assert (Hw : forall w, w_registries w = w_registries (st_world s) -> w_data w = base.delete d (w_data (st_world s)) ->
      w_current w = w_current (st_world s) -> w_next w = w_next (st_world s) ->
      checked r n (set_world w (set_values (base.delete k (st_values s)) s))).
    { intros w H1 H2 H3 H4. destruct Hc as [(inner & Hr & Hid & Hnum & Hin) Hcur Hg Hcnt Hfr Hval Hown].
      split; cbn; rewrite ?H1, ?H2, ?H3, ?H4; try done.
      - exists inner. split_and!; try done; try lia. intros d' Hd'. apply Hin. destruct Hd' as [? Hd'].
        apply lookup_delete_Some in Hd' as [_ Hd']. by eexists.
      - intros d' data' c' [_ Hd']%lookup_delete_Some. by eapply Hcnt.
      - intros d' [? [_ Hd']%lookup_delete_Some]. apply Hfr. by eexists.
      - intros d'. setoid_rewrite tracked_delete. destruct (decide (d = d')) as [<-|Hne].
        + rewrite lookup_delete_eq. split; [by intros []|]. intros [k' [Hk' Ht']]. destruct Hk'. by eapply Hown.
        + rewrite lookup_delete_ne by done. rewrite Hval. split; intros [k' Hk'].
          * exists k'. split; [|done]. intros ->. destruct Hk' as (x' & Hx' & Ht'). congruence.
          * exists k'. tauto.
      - intros k1 k2 d'. rewrite !tracked_delete. intros [_ ?] [_ ?]. by eapply Hown. }
    unfold TrackData_drop. destruct (was_leaked data); steps; by apply Hw.
  - steps. eapply checked_ext; [..|exact Hc]; cbn; try done. intros k' d. rewrite tracked_delete. split; [tauto|].
    intros Hk'. split; [|done]. intros ->. destruct Hk' as (x' & Hx' & Ht'). congruence.
Qed.
Lemma into_inner_ok r n s k x :
  checked r n s -> st_values s !! k = Some x ->
  wp (modify (fun s => set_values (base.delete k (st_values s)) s);; in_world (Track_into_inner x);; mret tt)
     (fun _ s' => checked r n s') s.
Proof.
  intros Hc Hk. destruct (drop_checked _ _ _ _ _ Hc Hk) as (s' & [] & Hrun & Hc'). exists s', tt. split; [|done].
  revert Hrun. unfold Track_into_inner, in_world. run_M. destruct (Track_drop x (st_world s)) as [w [[]| |]]; intros H; by inversion H.
Qed.

Lemma set_ref_ok r n s k v : checked r n s -> wp (do_command (CSetRef k v)) (fun _ s' => checked r n s') s.
Proof.
  intros Hc. cbn. steps. eapply checked_ext; [..|exact Hc]; cbn; try done. intros k' d. unfold tracked.
  destruct (decide (k = k')) as [<-|Hne]; [rewrite lookup_alter_eq|by rewrite lookup_alter_ne].
  destruct (st_values s !! k) as [x|]; cbn; naive_solver.
Qed.

Lemma spawn_ok r n s t t' :
  checked r n s -> n + 1 < usize_mod -> wp (do_command (CSpawn t t')) (fun _ s' => checked r (n + 1) s') s.
Proof.
  intros Hc Hn. cbn [do_command]. steps. destruct (st_guards s !! t') as [u|] eqn:Hu.
  { steps. apply (checked_mono _ n); [done|lia]. }
  unfold spawn, Registry_current. steps. destruct (w_current (st_world s) !! t) as [r'|] eqn:Ht; [|steps; cbn; apply (checked_mono _ n); [by destruct s|lia]].
  assert (r' = r) as -> by (by eapply ck_current). destruct Hc as [(inner & Hr & Hid & Hnum & Hin) Hcur Hg Hcnt Hfr Hval Hown].
  unfold next_thread_name. steps. eapply locked_wp; [exact Hr|]. unfold on_inner. steps. cbn [fst snd].
  unfold expect, usize_checked_add. rewrite (proj2 (Z.ltb_lt _ _)) by lia. unfold Registry_set_default. steps. split; cbn.
  - eexists. split; [by rewrite lookup_insert_eq|]. cbn. split_and!; (done || lia).
  - intros t0 r0. rewrite lookup_insert_Some. naive_solver.
  - intros t0 r0. rewrite lookup_insert_Some. naive_solver.
  - done.
  - done.
  - done.
  - done.
Qed.

Lemma end_ok r n s t : checked r n s -> wp (do_command (CEnd t)) (fun _ s' => checked r n s') s.
Proof.
  intros Hc. cbn [do_command]. unfold thread_end. steps. destruct (st_guards s !! t) as [u|] eqn:Hu; steps; [|done].
  destruct Hc as [Hi Hcur Hg Hcnt Hfr Hval Hown]. unfold Unset_drop. steps. split; cbn; try done.
  - intros t0 r0. destruct (decide (t = t0)) as [<-|]; [rewrite lookup_partial_alter_eq|rewrite lookup_partial_alter_ne by done; by apply Hcur].
    intros ->. by eapply Hg.
  - intros t0 r0 [_ ?]%lookup_delete_Some. by eapply Hg.
Qed.

Lemma command_ok r n s c : checked r n s -> n + 1 < usize_mod -> wp (do_command c) (fun _ s' => checked r (n + 1) s') s.
Proof.
  intros Hc Hn. destruct c as [t k name loc v|k|k|k v|t t'|t]; [by apply new_ok| | | |by apply spawn_ok|].
  1,2: cbn [do_command]; steps; destruct (st_values s !! k) as [x|] eqn:Hk;
    [|steps; apply (checked_mono _ n); [done|lia]].
  - eapply wp_mono; [by eapply drop_checked|]. intros [] s' Hs'. apply (checked_mono _ n); [done|lia].
  - eapply wp_mono; [by eapply into_inner_ok|]. intros [] s' Hs'. apply (checked_mono _ n); [done|lia].
  - eapply wp_mono; [by apply set_ref_ok|]. intros [] s' Hs'. apply (checked_mono _ n); [done|lia].
  - eapply wp_mono; [by apply end_ok|]. intros [] s' Hs'. apply (checked_mono _ n); [done|lia].
Qed.

Lemma commands_ok r cs : forall n s, checked r n s -> n + Z.of_nat (length cs) < usize_mod ->
  wp (run_commands cs) (fun _ s' => checked r (n + Z.of_nat (length cs)) s') s.
Proof.
  induction cs as [|c cs IH]; intros n s Hc Hn; cbn [run_commands length] in *.
  - apply wp_ret. by rewrite Z.add_0_r.
  - apply wp_bind. eapply wp_mono; [apply (command_ok r n s c); [done|lia]|]. cbn. intros [] s' Hs'.
    eapply wp_mono; [apply (IH (n + 1)); [done|lia]|]. intros [] s'' Hs''. by replace (n + Z.of_nat (S (length cs))) with (n + 1 + Z.of_nat (length cs)) by lia.
Qed.

(** ** The check *)

(** The lines for the allocations of the list [ds] that are still there. *)
Definition lines (data : gmap nat (TrackData * Z)) (ds : list nat) : list string :=
  omap (fun d => (fun p => leak_line p.1) <$> data !! d) ds.

Lemma collect_run ds : forall w, exists w', collect_leaked ds w = (w', Val (lines (w_data w) ds)) /\
  w_current w' = w_current w /\ w_registries w' = w_registries w /\ w_trace w' = w_trace w /\
  forall d, leak_line ∘ fst <$> w_data w' !! d = leak_line ∘ fst <$> w_data w !! d.
Proof.
  induction ds as [|d ds IH]; intros w; [by exists w|]. cbn [collect_leaked]. unfold leaked_at, lines. run_M.
  destruct (w_data w !! d) as [[[leaked ty loc i] c]|] eqn:Hd; cbn.
  - set (w1 := set_data _ w). destruct (IH w1) as (w' & Hrun & Hc & Hr & Htr & Hl). rewrite Hrun. exists w'.
    assert (H1 : forall d', leak_line ∘ fst <$> w_data w1 !! d' = leak_line ∘ fst <$> w_data w !! d').
    { intros d'. unfold w1. cbn. destruct (decide (d = d')) as [<-|]; [|by rewrite lookup_insert_ne]. rewrite lookup_insert_eq, Hd. done. }
    split_and!; try done; [|intros d'; by rewrite Hl, H1]. do 3 f_equal. unfold lines. apply list_omap_ext, Forall2_same_length_lookup_2; [done|].
    intros j x y Hx Hy. rewrite Hx in Hy. injection Hy as <-. apply H1.
  - destruct (IH w) as (w' & Hrun & H). rewrite Hrun. by exists w'.
Qed.
(** What the check reports: the allocations of the tracked values that are left. *)
Definition reports s (leaked : list string) : Prop :=
  forall line, line ∈ leaked <->
    exists k d data c, tracked (st_values s) k d /\ w_data (st_world s) !! d = Some (data, c) /\ line = leak_line data.

Lemma reports_same s w' leaked :
  (forall d, leak_line ∘ fst <$> w_data w' !! d = leak_line ∘ fst <$> w_data (st_world s) !! d) ->
  reports s leaked -> reports (set_world w' s) leaked.
Proof.
  intros Hd H line. unfold reports in H. rewrite H. cbn. split; intros (k & d & data & c & Ht & Hx & ->); specialize (Hd d); rewrite Hx in Hd; cbn in Hd.
  - apply fmap_Some in Hd as ([data' c'] & Hx' & He). by exists k, d, data', c'.
  - apply eq_sym, fmap_Some in Hd as ([data' c'] & Hx' & He). by exists k, d, data', c'.
Qed.

Lemma check_run r n s :
  checked r n s -> exists w' o leaked, Registry_check r (st_world s) = (w', o) /\ w_current w' = w_current (st_world s) /\
    (forall d, leak_line ∘ fst <$> w_data w' !! d = leak_line ∘ fst <$> w_data (st_world s) !! d) /\ reports s leaked /\
    ((o = Val tt /\ leaked = []) \/ (o = Panic /\ leaked <> [] /\ last (w_trace w') = Some (Panicked (leak_report leaked)))).
Proof.
  intros [(inner & Hr & _ & _ & Hin) _ _ _ _ Hval _].
  destruct (collect_run (tracks inner) (st_world s)) as (w' & Hrun & Hc & Hreg & Htr & Hl).
  set (leaked := lines (w_data (st_world s)) (tracks inner)) in *.
  assert (Hrep : reports s leaked).
  { intros line. unfold leaked, lines. rewrite list_elem_of_omap. split.
    - intros (d & _ & ([data c] & Hd & ->)%fmap_Some). destruct (proj1 (Hval d) ltac:(by eexists)) as [k Hk]. by exists k, d, data, c.
    - intros (k & d & data & c & Hk & Hd & ->). exists d. rewrite Hd. split; [|done]. apply Hin. by eexists. }
  unfold Registry_check, locked, on_inner, on_world. run_M. rewrite Hr. cbn. rewrite Hrun. cbn.
  clearbody leaked. destruct leaked as [|line ls].
  - eexists _, _, []. split; [done|]. split_and!; try done. by left.
  - eexists _, _, (line :: ls). split; [done|]. split_and!; try done. right. split_and!; try done. cbn. by rewrite last_snoc.
Qed.

(** A test on a thread that never had a registry. *)
Definition test_start : test_state T := mkTest (mkWorld ∅ ∅ ∅ 0 []) ∅ ∅.

(** Its state once [Builder::check] has made the registry. *)
Definition start_of (t : nat) (name : option string) : test_state T :=
  mkTest (mkWorld {[0%nat := (mkRegistryInner [] 0 0 (default "test"%string name), false)]} ∅ {[t := 0%nat]} 1 []) ∅ ∅.
Lemma start_checked t name : checked 0 0 (start_of t name).
Proof.
  split; cbn.
  - eexists. split; [by rewrite lookup_singleton_eq|]. cbn. split_and!; try done. intros d [? Hd]. by rewrite lookup_empty in Hd.
  - intros t' r'. rewrite lookup_singleton_Some. naive_solver.
  - intros t' r'. by rewrite lookup_empty.
  - intros d data c. by rewrite lookup_empty.
  - intros d [? Hd]. by rewrite lookup_empty in Hd.
  - intros d. rewrite lookup_empty. split; [by intros []|]. intros (k & x & Hx & _). by rewrite lookup_empty in Hx.
  - intros k k' d (x & Hx & _). by rewrite lookup_empty in Hx.
Qed.

(** The parts of a run of [Builder::check]. *)
Lemma builder_run t name cs s1 w' o :
  run_commands cs (start_of t name) = (s1, Val tt) -> Registry_check 0 (st_world s1) = (w', o) ->
  Builder_check t name (run_commands cs) test_start =
    (set_world (set_current (partial_alter (fun _ => None) t (w_current w')) w') s1, o).
Proof.
  intros Hcs Hchk. unfold Builder_check, Registry_new, Registry_set_default, Unset_drop, alloc, in_world, finally.
  unfold test_start. run_M. unfold set_world, set_registries, set_current, set_next. cbn. rewrite lookup_empty.
  rewrite !insert_empty. fold (start_of t name). rewrite Hcs. cbn. rewrite Hchk. destruct o as [[]| |]; done.
Qed.

(** C38: The leak checker is exact.  Whatever a test does with tracked values, on any number of
    threads: [Builder::check] panics if and only if a value tracked by its registry was not
    dropped or unwrapped, the message has a line for exactly those, and either way the
    thread has no registry any more. *)
Theorem leak_check_exact t name cs s o :
  Z.of_nat (length cs) < usize_mod -> Builder_check t name (run_commands cs) test_start = (s, o) ->
  w_current (st_world s) !! t = None /\
  ((o = Val tt /\ forall k d, ~ tracked (st_values s) k d) \/
   (o = Panic /\ exists k d leaked, tracked (st_values s) k d /\
    last (w_trace (st_world s)) = Some (Panicked (leak_report leaked)) /\ reports s leaked)).
Proof.
  intros Hn Hrun. assert (Hc : checked 0 0 (start_of t name)) by apply start_checked.
  destruct (commands_ok 0 cs 0 _ Hc ltac:(lia)) as (s1 & [] & Hcs & Hc1).
  destruct (check_run _ _ _ Hc1) as (w' & o' & leaked & Hchk & Hcur & Hl & Hrep & Ho).
  rewrite (builder_run _ _ _ _ _ _ Hcs Hchk) in Hrun. injection Hrun as <- <-. split; [cbn; by rewrite lookup_partial_alter_eq|].
  assert (Hrep' := reports_same _ _ _ Hl Hrep). destruct Ho as [[-> ->]|(-> & Hne & Hlast)]; [left|right]; (split; [done|]).
  - intros k d Hk. cbn in Hk. destruct (proj2 (ck_values _ _ _ Hc1 d) ltac:(by exists k)) as [[data c] Hd].
    specialize (Hrep (leak_line data)). apply (not_elem_of_nil (leak_line data)), Hrep. by exists k, d, data, c.
  - destruct leaked as [|line leaked]; [done|]. destruct (proj1 (Hrep line) ltac:(by left)) as (k & d & _ & _ & Hk & _).
    by exists k, d, (line :: leaked).
Qed.
End LeakCheckSpec.
