(* ===== verification/Connector.v ===== *)
(** The connector of [calliope/src/client.rs], and the handle of an interface that makes
    connectors ([calliope/src/lib.rs]).

    A connector owns a shared box for hello messages, the receiver of a one-shot channel for
    answers, and a sender of the channel of connect requests.  All three are shared with the
    interface: their memory is the state here, and the interface uses it through the handles
    in the connect request.  [connect_poll] is one poll of the future of
    [Connector::connect], [connect_drop] its cancellation. *)
From S2P Require Import Prelude Interfaces TypeInfo WaitMap Errors Core SerBox Oneshot Pipe BiDi Message ReqRsp ConnTable Machine.

(** [enum ConnectError] *)
Inductive ConnectError : Type :=
| InterfaceDead
| Nak (rejection : Rejection).

Section Connector.
Context {PU : PackUsize} {IA : IndexAlloc} {WCA : WaitCellApi} {WQA : WaitQueueApi}.
Context {SC : SerChannel Reset} {RS : ResponseSender} {Hello : Type}.
(** [S::Hello], the client's end of a connection ([Connection<S>]), and how the box and the
    one-shot channel were allocated. *)
Context {HelloMsg : Type} {AN : Any HelloMsg} {PC : Postcard HelloMsg} {C : Type}.
Variable drop_shared : M (SerBox HelloMsg) unit.
Variable vt : RefVtable (result unit Rejection).
(** The consumer of the box and the sender of the one-shot channel, as handles. *)
Variable hello_handle : Hello.
Variable rsp_handle : Rsp.

(** [struct Connector<S>], and what its connects let go of: hello messages that were never
    shared, and ends of connections. *)
Inductive Let : Type := LetHello (hello : HelloMsg) | LetServer (c : Chan) | LetClient (c : C).
Record Connector := mkConnector {
  hello_sharer : SerBox HelloMsg;
  rsp : Oneshot (result unit Rejection);
  tx : Conns (Hello := Hello);
  let_go : list Let;
}.
Definition set_hello_sharer (b : SerBox HelloMsg) (c : Connector) : Connector := mkConnector b (rsp c) (tx c) (let_go c).
Definition set_rsp (o : Oneshot (result unit Rejection)) (c : Connector) : Connector := mkConnector (hello_sharer c) o (tx c) (let_go c).
Definition set_tx (p : Conns) (c : Connector) : Connector := mkConnector (hello_sharer c) (rsp c) p (let_go c).
Definition drops (l : list Let) (c : Connector) : Connector := mkConnector (hello_sharer c) (rsp c) (tx c) (let_go c ++ l).

Definition on_hello {A} (m : M (SerBox HelloMsg) A) : M Connector A := zoom hello_sharer set_hello_sharer m.
Definition on_rsp {A} (m : M (Oneshot (result unit Rejection)) A) : M Connector A := zoom rsp set_rsp m.
Definition on_conn_tx {A} (m : M Conns A) : M Connector A := zoom tx set_tx m.

(** *** [Interface] *)

(** [Interface::connector_with] and [Interface::connector]: an interface is a sender of the
    channel of connect requests, which the connector gets a clone of. *)
Definition connector_with (hello : SerBox HelloMsg) (receiver : Oneshot (result unit Rejection)) : M Conns Connector :=
  Sender_clone (ARC_VTABLE 0);; gets (fun p => mkConnector hello receiver p []).
(** [serbox::Sharer::new] *)
Definition Sharer_new : outcome (SerBox HelloMsg) :=
  match sharer SerBox_new with (b, Val _) => Val b | (_, Panic) => Panic | (_, OutOfFuel) => OutOfFuel end.
Definition connector : M Conns Connector :=
  match Sharer_new with Val b => connector_with b Receiver_new | _ => panic end.

(** *** [Connector::connect] *)

(** The arguments of a call. *)
Record ConnectArgs := mkConnectArgs {
  ca_identity : Identity;
  ca_hello : HelloMsg;
  ca_srv_chan : Chan;
  ca_client_chan : C;
}.

(** Where the future stands: waiting for room in the channel of requests, for the box, for
    the sender of the one-shot channel, or for the answer. *)
Inductive ConnectState : Type :=
| ConnReserve (f : ReserveFuture)
| ConnShare (permit : Permit)
| ConnSender (permit : Permit) (f : TakeSender)
| ConnRecv
| ConnEnd.

(** What the answer means to the caller. *)
Definition connect_result (client_chan : C) (r : result (result unit Rejection) Oneshot.RecvError) : result C ConnectError :=
  match r with
  | Err _ => Err InterfaceDead
  | Ok (Err nak) => Err (Nak nak)
  | Ok (Ok _) => Ok client_chan
  end.

(** One poll of the future, started with [ConnReserve ReserveStart]. *)
Fixpoint connect_poll (fuel : nat) (args : ConnectArgs) (st : ConnectState)
    : M Connector (ConnectState * poll (result C ConnectError)) :=
  match fuel with
  | O => out_of_fuel
  | S fuel =>
      match st with
      | ConnReserve f =>
          fp ← on_conn_tx (Sender_reserve_poll 5 f);
          match snd fp with
          | Pending => mret (ConnReserve (fst fp), Pending)
          | Ready (Err _) =>
              modify (drops [LetClient (ca_client_chan args); LetServer (ca_srv_chan args); LetHello (ca_hello args)]);;
              mret (ConnEnd, Ready (Err InterfaceDead))
          | Ready (Ok permit) => connect_poll fuel args (ConnShare permit)
          end
      | ConnShare permit =>
          p ← on_hello (Sharer_share_poll 3 (ca_hello args));
          match p with
          | Pending => mret (ConnShare permit, Pending)
          | Ready _ => connect_poll fuel args (ConnSender permit TakeLoop)
          end
      | ConnSender permit f =>
          fp ← on_rsp (Receiver_sender_poll vt fuel f);
          match snd fp with
          | Pending => mret (ConnSender permit (fst fp), Pending)
          | Ready (Err _) => panic (* unwrap *)
          | Ready (Ok _) =>
              on_conn_tx (Permit_send permit (mkOutboundConnect (ca_identity args) hello_handle (ca_srv_chan args) rsp_handle));;
              connect_poll fuel args ConnRecv
          end
      | ConnRecv =>
          p ← on_rsp (Oneshot.Recv_poll 2);
          match p with
          | Pending => mret (ConnRecv, Pending)
          | Ready r =>
              let res := connect_result (ca_client_chan args) r in
              (if result_is_ok res then mret tt else modify (drops [LetClient (ca_client_chan args)]));;
              mret (ConnEnd, Ready res)
          end
      | ConnEnd => panic (* polled after completion *)
      end
  end.

(** The future is dropped before its end: what it holds goes in reverse order. *)
Definition connect_drop (args : ConnectArgs) (st : ConnectState) : M Connector unit :=
  match st with
  | ConnReserve _ => modify (drops [LetClient (ca_client_chan args); LetServer (ca_srv_chan args); LetHello (ca_hello args)])
  | ConnShare permit =>
      modify (drops [LetHello (ca_hello args)]);; on_conn_tx (Permit_drop permit);;
      modify (drops [LetClient (ca_client_chan args); LetServer (ca_srv_chan args)])
  | ConnSender permit _ =>
      on_hello (Consumer_drop drop_shared);; on_conn_tx (Permit_drop permit);;
      modify (drops [LetClient (ca_client_chan args); LetServer (ca_srv_chan args)])
  | ConnRecv => modify (drops [LetClient (ca_client_chan args)])
  | ConnEnd => mret tt
  end.

(** *** The interface's handles *)

(** What the interface does with the handles of a request: it sends an answer, drops the
    sender instead, or drops the hello message (after it was written to the wire). *)
Definition iface_answer (r : result unit Rejection) : M Connector bool :=
  x ← on_rsp (Sender_send vt r); mret (result_is_ok x).
Definition iface_drop_sender : M Connector unit := on_rsp (Oneshot.Sender_drop vt false).
Definition iface_hello : M Connector (result bytes PostcardError) := on_hello Consumer_to_vec.
Definition iface_drop_hello : M Connector unit := on_hello (Consumer_drop drop_shared).
End Connector.
#[global] Arguments Connector {IA WCA WQA SC RS} Hello HelloMsg C.

(** *** [Connector::connect_req_rsp] *)
Section ConnectReqRsp.
Context {PU : PackUsize} {IA : IndexAlloc} {WCA : WaitCellApi} {WQA : WaitQueueApi}.
Context {Req Rsp : Type} {WMA : WaitMapApi Rsp}.
(** The answer of [connect], mapped. *)
Definition connect_req_rsp_result (r : result (ReqRsp.Connection (Req := Req) (Rsp := Rsp)) ConnectError)
    : result (Client (Req := Req) (Rsp := Rsp)) ConnectError := result_map Client_new r.
End ConnectReqRsp.

(** *** [Channels] *)
Section Channels.
Context {PU : PackUsize} {IA : IndexAlloc} {WCA : WaitCellApi} {WQA : WaitQueueApi}.
(** [S::ServerMsg] and [S::ClientMsg] *)
Context {In Out : Type}.

(** [struct Channels<S>]: its two ends are views of the same two pipes, the one the client
    sends on and the one it receives on. *)
Record Channels := mkChannels { s2c : Pipe Out Reset; c2s : Pipe In Reset }.
Definition client_chan (ch : Channels) : BiDi In Out Reset := from_pair (s2c ch) (c2s ch).
Definition srv_chan (ch : Channels) : BiDi Out In Reset := from_pair (c2s ch) (s2c ch).
(** The first hands out a sender and a serializing receiver, the second a receiver and a
    deserializing sender; the handles that made them are dropped at the end of [new]. *)
Definition channel_out : M (Pipe Out Reset) unit :=
  r ← TrickyPipe_ser_receiver; expect r;; TrickyPipe_sender;; TrickyPipe_drop.
Definition channel_in : M (Pipe In Reset) unit :=
  TrickyPipe_deser_sender;; r ← TrickyPipe_receiver; expect r;; TrickyPipe_drop.
(** [Channels::new] *)
Definition Channels_new (capacity : Z) : outcome Channels :=
  match TrickyPipe_new capacity, TrickyPipe_new capacity with
  | Val s2c, Val c2s =>
      match channel_out s2c, channel_in c2s with
      | (s2c, Val _), (c2s, Val _) => Val (mkChannels s2c c2s)
      | _, _ => Panic
      end
  | _, _ => Panic
  end.
End Channels.
