(* ===== verification/ConnectorSpec.v ===== *)
(** What the connector promises: whatever connects are made, waited for, left unanswered and
    given up, and however the interface goes about its side, each connect returns what
    became of its own request, and every call ends but for two cases that the code leaves
    open: a connect after one that was given up while it waited for its answer panics, and
    a connect after one the interface dropped unanswered never ends.

    [sys] is a connector with the future that runs on it, and the handles the interface has;
    [sys_step] is a call of either side; [history] is what the theorems say about the past.
    The last part shows the ways out of the contract on their own. *)
From S2P Require Import Prelude Interfaces TypeInfo WaitMap Errors Core CoreWord CoreQueue SerBox SerBoxSpec Oneshot OneshotSpec Pipe PipeSpec PipeSession BiDi Message ReqRsp ConnTable Machine Connector.

Section ConnectorSpec.
Context {PU : PackUsize} {PUL : PackUsizeLaws}.
Context {IA : IndexAlloc} {IAL : IndexAllocLaws}.
Context {WCA : WaitCellApi} {WCL : WaitCellLaws} {WQA : WaitQueueApi} {WQL : WaitQueueLaws}.
Context {SC : SerChannel Reset} {RS : ResponseSender} {Hello : Type}.
Context {HelloMsg : Type} {AN : Any HelloMsg} {PC : Postcard HelloMsg} {C : Type}.
Variable drop_shared : M (SerBox HelloMsg) unit.
Variable vt : RefVtable (result unit Rejection).
Hypothesis vt_fine : vt_ok vt.
Variable hello_handle : Hello.
Variable rsp_handle : Rsp.
Notation Conn := (Connector Hello HelloMsg C).
Notation Args := (ConnectArgs (HelloMsg := HelloMsg) (C := C)).
Notation poll_it := (connect_poll vt hello_handle rsp_handle 8).
Implicit Types (c : Conn) (args : Args) (st : ConnectState) (x : HelloMsg).

(** ** The two shared objects, one call at a time *)

Lemma share_free_wp n b x :
  box_rep b PSharer ->
  wp (Sharer_share_poll (S n) x) (fun r b' => r = Ready tt /\ box_rep b' (PShared x)) b.
Proof. intros [Hw (Hs & Ht & Hd & Hf)]. destruct b. cbn in *. subst. by eexists _, _. Qed.

(** The box while its sharer lives. *)
Definition box_held b (held : bool) : Prop := if held then exists x, box_rep b (PShared x) else box_rep b PSharer.

Lemma share_wp b held x :
  box_held b held ->
  wp (Sharer_share_poll 3 x) (fun r b' => match r with
    | Pending => held = true /\ box_held b' true
    | Ready _ => held = false /\ box_rep b' (PShared x) end) b.
Proof.
  destruct held; [intros [y Hb]|intros Hb].
  - eapply wp_mono; [by apply (share_poll_blocked b y x)|]. intros r b' (-> & Hb' & _). split; [done|by exists y].
  - eapply wp_mono; [by apply share_free_wp|]. by intros r b' [-> Hb'].
Qed.

Lemma consumer_gone_wp b x :
  box_rep b (PShared x) -> wp (Consumer_drop drop_shared) (fun _ b' => box_rep b' PSharer /\ sb_dropped b' = sb_dropped b ++ [x]) b.
Proof.
  intros [Hw (Hs & Ht & Hd & Hf)]. destruct b. cbn in *. subst. unfold wp. box_compute. eexists _, _. split; [reflexivity|]. cbn.
  split; [|done]. split; [cbn; by rewrite wc_wake_closed|done].
Qed.

Notation OS := (Oneshot (result unit Rejection)).
Lemma sender_idle_wp n (o : OS) :
  os_rep o (OIdle false) ->
  wp (Receiver_sender_poll vt (S n) TakeLoop) (fun fp o' => fp = (TakeLoop, Ready (Ok tt)) /\ os_rep o' (OActive false)) o.
Proof.
  intros [Hs Hc Hw]. destruct o. cbn in *. subst.
  by destruct vt_fine as [->| ->]; (eexists _, _; split; [reflexivity|]); (split; [done|]).
Qed.

Lemma recv_early_wp (o : OS) w :
  os_rep o (OActive w) -> wp (Oneshot.Recv_poll 2) (fun r o' => r = Pending /\ os_rep o' (OActive true)) o.
Proof.
  intros Ho. apply wp_bind. eapply wp_mono; [by apply (poll_recv_pending o w)|]. intros r o' (-> & Ho' & _). by apply wp_ret.
Qed.

Lemma recv_answer_wp (o : OS) w r :
  os_rep o (OSent w r) -> wp (Oneshot.Recv_poll 2) (fun p o' => p = Ready (Ok r) /\ os_rep o' (OIdle false)) o.
Proof.
  intros [Hs Hc Hw]. destruct o. cbn in *. subst. by destruct w; (eexists _, _; split; [reflexivity|]).
Qed.

Lemma recv_unanswered_wp (o : OS) w :
  os_rep o (OIdle w) -> wp (Oneshot.Recv_poll 2) (fun p o' => p = Ready (Err NoSender) /\ os_rep o' (OIdle true)) o.
Proof.
  intros [Hs Hc Hw]. destruct o. cbn in *. subst. by destruct w; (eexists _, _; split; [reflexivity|]).
Qed.

(** Dropping the sender unanswered leaves the flag of the waiting receiver, and does not
    wake it. *)
Lemma unanswered_wp (o : OS) :
  os_rep o (OActive true) ->
  wp (Oneshot.Sender_drop vt false) (fun _ o' => os_rep o' (OIdle true) /\ os_wait o' = os_wait o) o.
Proof.
  intros [Hs Hc Hw]. destruct o as [st wait cell n l]. cbn in Hs, Hc, Hw. subst.
  by destruct vt_fine as [->| ->]; (eexists _, _; split; [reflexivity|]).
Qed.

(** Sending an answer wakes the task that waits for it. *)
Lemma answer_wp (o : OS) r :
  os_rep o (OActive true) ->
  wp (Sender_send vt r) (fun res o' => res = Ok tt /\ os_rep o' (OSent true r) /\ woken o') o.
Proof.
  intros [Hs Hc Hw]. destruct o as [st wait cell n l]. cbn in Hs, Hc, Hw. subst.
  destruct vt_fine as [->| ->]; (eexists _, _; split; [reflexivity|]); (split; [done|]); (split; [|by apply wc_wake_ready]);
    by split; cbn; rewrite ?wc_wake_closed.
Qed.

(** ** The connector as a system *)

(** What the future on the connector holds of the channel of requests. *)
Definition holds_permit (st : ConnectState) (i : Z) : Prop :=
  match st with ConnShare (mkPermit (mkReservation j)) => i = j | _ => False end.
Definition pipe_ok (p : Conns (Hello := Hello)) (task : option (Args * ConnectState)) : Prop :=
  exists v vals, prep p v vals /\ forall args st i, task = Some (args, st) -> holds_permit st i -> i ∈ v_held v.

(** What became of the request of a connect: not sent, sent, dropped by the interface
    without an answer, or answered. *)
Inductive fate : Type := NotSent | Sent | Unanswered | Answered (r : result unit Rejection).

(** What happened so far: the number of the last connect and the fate of its request,
    whether a connect was given up while it waited for its answer, whether the interface
    dropped a request without an answer, and the connects that ended. *)
Record history := mkHistory {
  h_no : nat;
  h_fate : fate;
  h_gave_up : bool;
  h_unanswered : bool;
  h_log : list (Args * fate * result C ConnectError);
}.
Definition history_start : history := mkHistory 0 NotSent false false [].
Definition next_connect (g : history) : history := mkHistory (S (h_no g)) NotSent (h_gave_up g) (h_unanswered g) (h_log g).
Definition request_sent (g : history) : history := mkHistory (h_no g) Sent (h_gave_up g) (h_unanswered g) (h_log g).
Definition connect_ended args (r : result C ConnectError) (g : history) : history :=
  mkHistory (h_no g) (h_fate g) (h_gave_up g) (h_unanswered g) (h_log g ++ [(args, h_fate g, r)]).
Definition is_recv st : bool := match st with ConnRecv => true | _ => false end.
Definition gives_up st (g : history) : history :=
  mkHistory (h_no g) (h_fate g) (h_gave_up g || is_recv st) (h_unanswered g) (h_log g).
(** The interface is done with request [k]; it may not be that of the last connect. *)
Definition settled (k : nat) (f : fate) (g : history) : history :=
  mkHistory (h_no g) (if (k =? h_no g)%nat then f else h_fate g) (h_gave_up g)
    (h_unanswered g || match f with Unanswered => true | _ => false end) (h_log g).

(** [sys_hello]: the interface has the consumer; [sys_rsp]: it has the sender, that of the
    request with this number. *)
Record sys := mkSys {
  sys_conn : Conn;
  sys_task : option (Args * ConnectState);
  sys_hello : bool;
  sys_rsp : option nat;
  sys_past : history;
}.

(** The request is sent in this poll: the interface gets its handles. *)
Definition sends (st st' : ConnectState) : bool := negb (is_recv st) && is_recv st'.
Definition polled_to c args st' (sent : bool) (hh : bool) (hr : option nat) g : sys :=
  if sent then mkSys c (Some (args, st')) true (Some (h_no g)) (request_sent g) else mkSys c (Some (args, st')) hh hr g.

Inductive sys_step : relation sys :=
| StConnect c args hh hr g :
    sys_step (mkSys c None hh hr g) (mkSys c (Some (args, ConnReserve ReserveStart)) hh hr (next_connect g))
| StPoll c args st hh hr g c' st' :
    poll_it args st c = (c', Val (st', Pending)) ->
    sys_step (mkSys c (Some (args, st)) hh hr g) (polled_to c' args st' (sends st st') hh hr g)
| StReturn c args st hh hr g c' st' r :
    poll_it args st c = (c', Val (st', Ready r)) ->
    sys_step (mkSys c (Some (args, st)) hh hr g) (mkSys c' None hh hr (connect_ended args r g))
| StGiveUp c args st hh hr g c' u :
    connect_drop drop_shared args st c = (c', Val u) ->
    sys_step (mkSys c (Some (args, st)) hh hr g) (mkSys c' None hh hr (gives_up st g))
| StAnswer c t hh k g r c' b :
    iface_answer vt r c = (c', Val b) -> sys_step (mkSys c t hh (Some k) g) (mkSys c' t hh None (settled k (Answered r) g))
| StUnanswered c t hh k g c' u :
    iface_drop_sender vt c = (c', Val u) -> sys_step (mkSys c t hh (Some k) g) (mkSys c' t hh None (settled k Unanswered g))
| StHelloGone c t hr g c' u :
    iface_drop_hello drop_shared c = (c', Val u) -> sys_step (mkSys c t true hr g) (mkSys c' t false hr g)
| StRequests c t hh hr g p :   (* other connectors and the interface use the channel *)
    pipe_ok p t -> sys_step (mkSys c t hh hr g) (mkSys (set_tx p c) t hh hr g).

Definition sys_start c : sys := mkSys c None false None history_start.

(** A new connector on a channel in a good state. *)
Definition fresh c : Prop :=
  box_rep (hello_sharer c) PSharer /\ os_rep (rsp c) (OIdle false) /\ exists v vals, prep (tx c) v vals.

(** ** The invariant *)

(** The one-shot channel while no connect waits on it: free, unless an earlier request was
    dropped without an answer (its flag for a waiting receiver stays) or a connect was given
    up while it waited (its sender is still out, or the answer lies there unreceived). *)
Definition rest_ok (o : OS) (hr : option nat) (g : history) : Prop :=
  if h_unanswered g then hr = None /\ os_rep o (OIdle true)
  else if h_gave_up g then match hr with Some _ => os_rep o (OActive true) | None => exists r, os_rep o (OSent true r) end
  else hr = None /\ os_rep o (OIdle false).

Definition task_ok (task : option (Args * ConnectState)) (o : OS) (hr : option nat) (g : history) : Prop :=
  match task with
  | None => rest_ok o hr g /\ forall k, hr = Some k -> (k <= h_no g)%nat
  | Some (_, ConnReserve _) | Some (_, ConnShare _) =>
      rest_ok o hr g /\ h_fate g = NotSent /\ forall k, hr = Some k -> (k < h_no g)%nat
  | Some (_, ConnRecv) =>
      h_gave_up g = false /\
      match hr with
      | Some k => k = h_no g /\ h_fate g = Sent /\ h_unanswered g = false /\ os_rep o (OActive true)
      | None => if h_unanswered g then h_fate g = Unanswered /\ os_rep o (OIdle true)
                else exists r, h_fate g = Answered r /\ os_rep o (OSent true r) /\ woken o
      end
  | Some _ => False
  end.

(** The result of a connect, from the fate of its request. *)
Definition fate_result args (f : fate) (res : result C ConnectError) : Prop :=
  match f with
  | Answered (Ok _) => res = Ok (ca_client_chan args)
  | Answered (Err nak) => res = Err (Nak nak)
  | NotSent | Unanswered => res = Err InterfaceDead
  | Sent => False
  end.
Definition answered (e : Args * fate * result C ConnectError) : Prop := fate_result (fst (fst e)) (snd (fst e)) (snd e).

Record sys_ok (s : sys) : Prop := {
  so_pipe : pipe_ok (tx (sys_conn s)) (sys_task s);
  so_box : box_held (hello_sharer (sys_conn s)) (sys_hello s);
  so_task : task_ok (sys_task s) (rsp (sys_conn s)) (sys_rsp s) (sys_past s);
  so_log : Forall answered (h_log (sys_past s));
}.

Lemma on_hello_wp {A} (m : M (SerBox HelloMsg) A) (Q : A -> Conn -> Prop) c :
  wp m (fun a b => Q a (set_hello_sharer b c)) (hello_sharer c) -> wp (on_hello m) Q c.
Proof. apply wp_zoom. Qed.
Lemma on_rsp_wp {A} (m : M OS A) (Q : A -> Conn -> Prop) c :
  wp m (fun a o => Q a (set_rsp o c)) (rsp c) -> wp (on_rsp m) Q c.
Proof. apply wp_zoom. Qed.
Lemma on_conn_tx_wp {A} (m : M (Conns (Hello := Hello)) A) (Q : A -> Conn -> Prop) c :
  wp m (fun a p => Q a (set_tx p c)) (tx c) -> wp (on_conn_tx m) Q c.
Proof. apply wp_zoom. Qed.

(** The request. *)
Definition request_of args : OutboundConnect Hello :=
  mkOutboundConnect (ca_identity args) hello_handle (ca_srv_chan args) rsp_handle.

(** From the sender on: the request is sent if the channel is open, and the connect waits. *)
Lemma poll_send_wp n args i c v vals :
  prep (tx c) v vals -> i ∈ v_held v -> os_rep (rsp c) (OIdle false) ->
  wp (connect_poll vt hello_handle rsp_handle (S (S n)) args (ConnSender (mkPermit (mkReservation i)) TakeLoop)) (fun sp c' =>
    sp = (ConnRecv, Pending) /\ os_rep (rsp c') (OActive true) /\ hello_sharer c' = hello_sharer c /\
    (if v_rx_closed v then prep (tx c') v vals
     else prep (tx c') (upd_queue (v_delivered v) (v_queued v ++ [i]) (v_held v ∖ {[i]}) v) (vals ++ [request_of args]))) c.
Proof.
  intros Hp Hi Ho. cbn [connect_poll]. apply wp_bind, on_rsp_wp. eapply wp_mono; [by apply sender_idle_wp|].
  intros fp o1 [-> Ho1]. cbn. apply wp_bind, on_conn_tx_wp. eapply Permit_send_wp; [exact Hp|done|]. intros p1 _ _ Hp1.
  apply wp_bind, on_rsp_wp. eapply wp_mono; [by apply (recv_early_wp _ false)|]. intros r o2 [-> Ho2]. by apply wp_ret.
Qed.

Lemma poll_share_wp n args i c v vals held :
  prep (tx c) v vals -> i ∈ v_held v -> os_rep (rsp c) (OIdle false) -> box_held (hello_sharer c) held ->
  wp (connect_poll vt hello_handle rsp_handle (S (S (S n))) args (ConnShare (mkPermit (mkReservation i)))) (fun sp c' =>
    (sp = (ConnShare (mkPermit (mkReservation i)), Pending) /\ held = true /\ box_held (hello_sharer c') true /\
       rsp c' = rsp c /\ tx c' = tx c) \/
    (sp = (ConnRecv, Pending) /\ held = false /\ box_rep (hello_sharer c') (PShared (ca_hello args)) /\
       os_rep (rsp c') (OActive true) /\
       if v_rx_closed v then prep (tx c') v vals
       else prep (tx c') (upd_queue (v_delivered v) (v_queued v ++ [i]) (v_held v ∖ {[i]}) v) (vals ++ [request_of args]))) c.
Proof.
  intros Hp Hi Ho Hb. set (k := S (S n)). cbn [connect_poll]. apply wp_bind, on_hello_wp.
  eapply wp_mono; [by apply share_wp|]. intros [|[]] b [-> Hb'].
  - apply wp_ret. by left.
  - eapply wp_mono; [by apply (poll_send_wp n args i _ v vals)|]. cbn. intros sp c' (-> & Ho' & Hb2 & Hp').
    right. by rewrite Hb2.
Qed.

(** The whole first poll, with a free box and room in the channel. *)
Lemma connect_first_poll_wp c args v vals :
  box_rep (hello_sharer c) PSharer -> os_rep (rsp c) (OIdle false) ->
  prep (tx c) v vals -> v_rx_closed v = false -> ~ all_used v ->
  wp (poll_it args (ConnReserve ReserveStart)) (fun sp c1 => sp = (ConnRecv, Pending) /\
    box_rep (hello_sharer c1) (PShared (ca_hello args)) /\ os_rep (rsp c1) (OActive true) /\
    exists v', prep (tx c1) v' (vals ++ [request_of args]) /\ v_delivered v' = v_delivered v) c.
Proof.
  intros Hb Ho Hp Hcl Hfree. cbn [connect_poll]. apply wp_bind, on_conn_tx_wp. eapply Sender_reserve_free_wp; [exact Hp|done..|].
  intros i p1 _ _ Hp1. cbn. eapply wp_mono.
  { eapply (poll_share_wp 4 args i _ _ _ false); [exact Hp1|cbn; set_solver|exact Ho|exact Hb]. }
  cbn. intros sp c1 [(_ & [=] & _)|(-> & _ & Hb1 & Ho1 & Hp2)]. rewrite Hcl in Hp2. split_and!; try done.
  by eexists.
Qed.

Lemma shared_vec b x : box_rep b (PShared x) -> Consumer_to_vec b = (b, Val (pc_to_allocvec x)).
Proof. intros [_ (Hs & Ht & Hd & Hf)]. destruct b. cbn in *. subst. by box_compute. Qed.

(** The poll after the answer. *)
Lemma answered_poll_wp n c args r :
  os_rep (rsp c) (OSent true r) ->
  wp (connect_poll vt hello_handle rsp_handle (S n) args ConnRecv) (fun sp c' =>
    sp = (ConnEnd, Ready (connect_result (ca_client_chan args) (Ok r))) /\
    hello_sharer c' = hello_sharer c /\ os_rep (rsp c') (OIdle false) /\ tx c' = tx c) c.
Proof.
  intros Ho. cbn [connect_poll]. apply wp_bind, on_rsp_wp. eapply wp_mono; [by eapply (recv_answer_wp _ true r)|].
  intros x o' [-> Ho']. apply wp_bind. by destruct r as [[]|nak]; [apply wp_ret|apply wp_modify]; apply wp_ret.
Qed.

(** The poll after the interface dropped the request. *)
Lemma unanswered_poll_wp n c args :
  os_rep (rsp c) (OIdle true) ->
  wp (connect_poll vt hello_handle rsp_handle (S n) args ConnRecv) (fun sp c' =>
    sp = (ConnEnd, Ready (Err InterfaceDead)) /\
    hello_sharer c' = hello_sharer c /\ os_rep (rsp c') (OIdle true) /\ tx c' = tx c) c.
Proof.
  intros Ho. cbn [connect_poll]. apply wp_bind, on_rsp_wp. eapply wp_mono; [by apply (recv_unanswered_wp _ true)|].
  intros x o' [-> Ho']. apply wp_bind, wp_modify, wp_ret. by split_and!.
Qed.

(** *** Up to the sender *)

Definition pipe_good c : Prop := exists v vals, prep (tx c) v vals.

(** A poll that ends before the connect asks for the sender. *)
Definition stays c (held : bool) (sp : ConnectState * poll (result C ConnectError)) c' : Prop :=
  rsp c' = rsp c /\ box_held (hello_sharer c') held /\
  match sp with
  | (ConnReserve _, Pending) => pipe_good c'
  | (ConnShare (mkPermit (mkReservation i)), Pending) => exists v vals, prep (tx c') v vals /\ i ∈ v_held v
  | (_, Ready r) => r = Err InterfaceDead /\ pipe_good c'
  | _ => False
  end.

(** A poll that gets to it, with a place in the channel of requests and the hello in the
    box: from there on it is a poll of the sender, with [k] of two units of fuel left. *)
Definition gets_to_sender args st c c' i : Prop :=
  rsp c' = rsp c /\ box_rep (hello_sharer c') (PShared (ca_hello args)) /\
  (exists v vals, prep (tx c') v vals /\ i ∈ v_held v) /\
  (forall fuel, (fuel < 2)%nat -> snd (connect_poll vt hello_handle rsp_handle fuel args st c) = OutOfFuel) /\
  exists k, forall n, connect_poll vt hello_handle rsp_handle (2 + n) args st c =
    connect_poll vt hello_handle rsp_handle (k + n) args (ConnSender (mkPermit (mkReservation i)) TakeLoop) c'.

Lemma from_share args i c v vals held :
  prep (tx c) v vals -> i ∈ v_held v -> box_held (hello_sharer c) held ->
  let st := ConnShare (mkPermit (mkReservation i)) in
  (exists c', (forall n, connect_poll vt hello_handle rsp_handle (S n) args st c = (c', Val (st, Pending))) /\ stays c held (st, Pending) c') \/
  (held = false /\ exists c', rsp c' = rsp c /\ box_rep (hello_sharer c') (PShared (ca_hello args)) /\ prep (tx c') v vals /\
    forall n, connect_poll vt hello_handle rsp_handle (S n) args st c =
      connect_poll vt hello_handle rsp_handle n args (ConnSender (mkPermit (mkReservation i)) TakeLoop) c').
Proof.
  intros Hp Hi Hb st. destruct (share_wp _ _ (ca_hello args) Hb) as (b & p & Hrun & H).
  assert (Hrun' : on_hello (Sharer_share_poll 3 (ca_hello args)) c = (set_hello_sharer b c, Val p)).
  { unfold on_hello, zoom. by rewrite Hrun. }
  destruct p as [|[]]; destruct H as [-> Hb'].
  - left. exists (set_hello_sharer b c). split.
    + intros n. subst st. cbn [connect_poll]. by rewrite (bind_val _ _ _ _ _ Hrun').
    + split; [done|]. split; [exact Hb'|]. by exists v, vals.
  - right. split; [done|]. exists (set_hello_sharer b c). split_and!; [done..|]. intros n. subst st.
    cbn [connect_poll]. by rewrite (bind_val _ _ _ _ _ Hrun').
Qed.

Definition before_sender st : Prop := match st with ConnReserve _ | ConnShare _ => True | _ => False end.

(** A connect that has no sender yet stays where it is, ends, or gets to the sender. *)
Lemma up_to_sender args st c held v vals :
  prep (tx c) v vals -> (forall i, holds_permit st i -> i ∈ v_held v) -> box_held (hello_sharer c) held -> before_sender st ->
  (exists sp c', poll_it args st c = (c', Val sp) /\ stays c held sp c') \/
  (held = false /\ exists c' i, gets_to_sender args st c c' i).
Proof.
  intros Hp Hheld Hb Hst. destruct st as [f|[[i]]|p f| |]; try done.
  - assert (Hres : wp (on_conn_tx (Sender_reserve_poll 5 f)) (fun fp c' => rsp c' = rsp c /\ hello_sharer c' = hello_sharer c /\
      match snd fp with
      | Ready (Ok (mkPermit (mkReservation i))) => exists v', prep (tx c') v' vals /\ i ∈ v_held v'
      | _ => prep (tx c') v vals
      end) c).
    { apply on_conn_tx_wp. eapply Sender_reserve_poll_wp; [exact Hp|]. intros p [f' [|[[[i]]|e]]] H; cbn [fst snd] in *;
        (split; [done|]; split; [done|]); [by destruct H| |by destruct H as (_ & _ & H)].
      destruct H as (_ & _ & _ & H). eexists. split; [exact H|]. cbn. set_solver. }
    destruct Hres as (c1 & [f' r] & Hrun & Hr & Hh & H). cbn [snd] in H.
    destruct r as [|[[[i]]|e]].
    + left. eexists _, c1. split; [cbn [connect_poll]; by rewrite (bind_val _ _ _ _ _ Hrun)|].
      split; [done|]. rewrite Hh. split; [done|]. by exists v, vals.
    + destruct H as (v' & Hp' & Hi). rewrite <- Hh in Hb.
      destruct (from_share args i c1 v' vals held Hp' Hi Hb) as [(c' & H & Hr1 & Hb1 & Hp1)|(-> & c' & Hr1 & Hb1 & Hp1 & H)].
      * left. eexists _, c'. split; [cbn [connect_poll]; rewrite (bind_val _ _ _ _ _ Hrun); exact (H 6%nat)|].
        split; [by rewrite Hr1|]. by split.
      * right. split; [done|]. exists c', i. split; [by rewrite Hr1|]. split; [done|]. split; [by eexists _, _|]. split.
        -- intros [|[|]] Hf; [done| |lia]. cbn [connect_poll]. by rewrite (bind_val _ _ _ _ _ Hrun).
        -- exists O. intros n. cbn [connect_poll Nat.add]. rewrite (bind_val _ _ _ _ _ Hrun). apply H.
    + left. eexists _, _. split; [cbn [connect_poll]; by rewrite (bind_val _ _ _ _ _ Hrun)|].
      split; [done|]. cbn. rewrite Hh. split; [done|]. split; [done|]. by exists v, vals.
  - destruct (from_share args i c v vals held Hp (Hheld i eq_refl) Hb) as [(c' & H & Hs)|(-> & c' & Hr1 & Hb1 & Hp1 & H)].
    + left. eexists _, c'. split; [apply H|done].
    + right. split; [done|]. exists c', i. split; [done|]. split; [done|]. split; [exists v, vals; split; [done|by apply Hheld]|]. split.
      * intros [|[|]] Hf; [done| |lia]. by rewrite H.
      * exists 1%nat. intros n. apply (H (S n)).
Qed.

(** *** At the sender *)

(** The sender of an abandoned request is still out, or its answer unreceived: the [unwrap]
    of [connect] panics. *)
Lemma sender_taken args permit k c :
  os_rep (rsp c) (OActive true) \/ (exists r, os_rep (rsp c) (OSent true r)) ->
  snd (connect_poll vt hello_handle rsp_handle (4 + k) args (ConnSender permit TakeLoop) c) = Panic.
Proof.
  intros Ho.
  assert (H : exists f, wp (Receiver_sender_poll vt (3 + k) TakeLoop) (fun fp _ => fp = (f, Ready (Err SenderAlreadyActive))) (rsp c)).
  { destruct Ho as [[Hs Hc Hw]|[r [Hs Hc Hw]]]; destruct (rsp c); cbn in *; subst; eexists _, _, _; (split; [reflexivity|done]). }
  destruct H as (f & o & fp & Hrun & ->). cbn [connect_poll Nat.add]. apply wp_then, on_rsp_wp.
  eexists _, _. split; [exact Hrun|done].
Qed.

(** The flag of an unanswered request is still there: [sender] never returns. *)
Lemma sender_hangs args permit fuel c :
  os_rep (rsp c) (OIdle true) -> snd (connect_poll vt hello_handle rsp_handle fuel args (ConnSender permit TakeLoop) c) = OutOfFuel.
Proof.
  intros [Hs _ _]. destruct fuel as [|fuel]; [done|]. cbn [connect_poll]. unfold on_rsp, zoom, Receiver_sender_poll.
  cbv [mbind M_bind]. by rewrite (take_sender_spins (rsp c) Hs).
Qed.

(** *** Every step keeps the invariant *)

(** One poll of a connect, from any state of the system. *)
Definition polled (s : sys) args st (sp : ConnectState * poll (result C ConnectError)) c' : Prop :=
  match snd sp with
  | Pending => sys_ok (polled_to c' args (fst sp) (sends st (fst sp)) (sys_hello s) (sys_rsp s) (sys_past s))
  | Ready r => sys_ok (mkSys c' None (sys_hello s) (sys_rsp s) (connect_ended args r (sys_past s)))
  end.
Definition poll_ends (s : sys) args st : Prop :=
  match poll_it args st (sys_conn s) with
  | (c', Val sp) => polled s args st sp c'
  | (_, Panic) => h_gave_up (sys_past s) = true /\ h_unanswered (sys_past s) = false
  | (_, OutOfFuel) => h_unanswered (sys_past s) = true /\
      forall fuel, snd (connect_poll vt hello_handle rsp_handle fuel args st (sys_conn s)) = OutOfFuel
  end.
Lemma wp_ends s args st : wp (poll_it args st) (polled s args st) (sys_conn s) -> poll_ends s args st.
Proof. intros (c' & sp & Hrun & H). unfold poll_ends. by rewrite Hrun. Qed.

Lemma pipe_ok_none (p : Conns (Hello := Hello)) v vals : prep p v vals -> pipe_ok p None.
Proof. intros Hp. by exists v, vals. Qed.
Lemma pipe_ok_free (p : Conns (Hello := Hello)) v vals args st :
  prep p v vals -> match st with ConnShare _ => False | _ => True end -> pipe_ok p (Some (args, st)).
Proof. intros Hp H. exists v, vals. split; [done|]. intros ? ? i [= <- <-] Hi. by destruct st. Qed.

Lemma log_snoc (l : list (Args * fate * result C ConnectError)) args f r :
  Forall answered l -> fate_result args f r -> Forall answered (l ++ [(args, f, r)]).
Proof. intros Hl Hr. apply Forall_app_2; [done|]. by constructor. Qed.

Lemma before_task_ok args st o hr g :
  before_sender st -> task_ok (Some (args, st)) o hr g ->
  rest_ok o hr g /\ h_fate g = NotSent /\ forall k, hr = Some k -> (k < h_no g)%nat.
Proof. by destruct st. Qed.

(** The poll that stays before the sender. *)
Lemma stays_ok s args st sp c' :
  sys_ok s -> sys_task s = Some (args, st) -> before_sender st -> stays (sys_conn s) (sys_hello s) sp c' -> polled s args st sp c'.
Proof.
  intros [_ _ Ht Hl] Htask Hst (Hr & Hb & Hsp). rewrite Htask in Ht. apply before_task_ok in Ht as (Ho & Hf & Hk); [|done].
  unfold polled. destruct sp as [st' [|r]]; cbn [fst snd] in *.
  - replace (sends st st') with false by (by destruct st, st').
    destruct st' as [f|[[i]]|p f| |]; try done; (split; cbn; [|done|by rewrite Hr|done]).
    + destruct Hsp as (v & vals & Hp). by eapply pipe_ok_free.
    + destruct Hsp as (v & vals & Hp & Hi). exists v, vals. split; [done|]. intros ? ? j [= <- <-]. cbn. by intros ->.
  - assert (r = Err InterfaceDead /\ pipe_good c') as [-> (v & vals & Hp)] by (by destruct st' as [|[[]]| | |]).
    split; cbn; [by eapply pipe_ok_none|done| |]; [rewrite Hr|apply log_snoc; [done|by rewrite Hf]].
    split; [done|]. intros k H. specialize (Hk k H). lia.
Qed.

(** The poll that gets to the sender. *)
Lemma sender_ok s args st c1 i :
  sys_ok s -> sys_task s = Some (args, st) -> before_sender st -> gets_to_sender args st (sys_conn s) c1 i -> poll_ends s args st.
Proof.
  intros [_ _ Ht Hl] Htask Hst (Hr & Hb & (v & vals & Hp & Hi) & Hlow & k & Hrun). rewrite Htask in Ht.
  apply before_task_ok in Ht as (Ho & Hf & Hk); [|done]. unfold rest_ok in Ho. rewrite <- Hr in Ho.
  destruct (h_unanswered (sys_past s)) eqn:Hu; [|destruct (h_gave_up (sys_past s)) eqn:Hg].
  - assert (Hall : forall fuel, snd (connect_poll vt hello_handle rsp_handle fuel args st (sys_conn s)) = OutOfFuel).
    { intros [|[|n]]; [apply Hlow; lia..|]. change (S (S n)) with (2 + n)%nat. rewrite Hrun. apply sender_hangs, Ho. }
    unfold poll_ends. specialize (Hall 8%nat) as H8. destruct (poll_it args st (sys_conn s)) as [c' []]; cbn in H8; try done.
  - unfold poll_ends. assert (H8 : snd (poll_it args st (sys_conn s)) = Panic).
    { change 8%nat with (2 + 6)%nat. rewrite Hrun. replace (k + 6)%nat with (4 + (k + 2))%nat by lia. apply sender_taken.
      destruct (sys_rsp s); [by left|by right]. }
    destruct (poll_it args st (sys_conn s)) as [c' []]; cbn in H8; try done.
  - destruct Ho as [Hhr Ho]. apply wp_ends. destruct (poll_send_wp (k + 4) args i c1 v vals Hp Hi Ho) as (c' & sp & Hs & -> & Ho' & Hb' & Hp').
    exists c', (ConnRecv, Pending). split.
    { change 8%nat with (2 + 6)%nat. rewrite Hrun. replace (k + 6)%nat with (S (S (k + 4))) by lia. exact Hs. }
    unfold polled. cbn. replace (sends st ConnRecv) with true by (by destruct st). split; cbn; [|rewrite Hb'; by eexists|by split_and!|done].
    destruct (v_rx_closed v); by eapply pipe_ok_free.
Qed.

(** The poll of a connect that waits for its answer. *)
Lemma waits_ok s args : sys_ok s -> sys_task s = Some (args, ConnRecv) -> poll_ends s args ConnRecv.
Proof.
  intros [(v & vals & Hp & _) Hb Ht Hl] Htask. rewrite Htask in Ht. destruct Ht as [Hg Ho]. apply wp_ends. unfold polled.
  destruct (sys_rsp s) as [n|]; [|destruct (h_unanswered (sys_past s)) eqn:Hu].
  - destruct Ho as (-> & Hf & Hu & Ho). cbn [connect_poll]. apply wp_bind, on_rsp_wp.
    eapply wp_mono; [by apply (recv_early_wp _ true)|]. intros r o [-> Ho']. apply wp_ret.
    split; cbn; [by eapply pipe_ok_free|done|by split_and!|done].
  - destruct Ho as [Hf Ho]. eapply wp_mono; [by apply (unanswered_poll_wp 7)|]. intros sp c' (-> & Hb' & Ho' & Hp').
    split; cbn; rewrite ?Hb', ?Hp'; [by eapply pipe_ok_none|done| |apply log_snoc; [done|by rewrite Hf]].
    unfold rest_ok. cbn. by rewrite Hu.
  - destruct Ho as (r & Hf & Ho & _). eapply wp_mono; [by eapply (answered_poll_wp 7)|]. intros sp c' (-> & Hb' & Ho' & Hp').
    split; cbn; rewrite ?Hb', ?Hp'; [by eapply pipe_ok_none|done| |apply log_snoc; [done|by rewrite Hf; destruct r as [[]|]]].
    unfold rest_ok. cbn. by rewrite Hu, Hg.
Qed.

Lemma connect_poll_ok s args st : sys_ok s -> sys_task s = Some (args, st) -> poll_ends s args st.
Proof.
  intros Hs Htask. assert (st = ConnRecv \/ before_sender st) as [->|Hst].
  { pose proof (so_task _ Hs) as Ht. rewrite Htask in Ht. destruct st; cbn in *; auto; done. }
  - by apply waits_ok.
  - destruct (so_pipe _ Hs) as (v & vals & Hp & Hheld).
    destruct (up_to_sender args st (sys_conn s) (sys_hello s) v vals Hp) as [(sp & c' & Hrun & Hsp)|(_ & c' & i & H)];
      [intros i Hi; by eapply Hheld|apply Hs|done|apply wp_ends|by eapply sender_ok].
    exists c', sp. split; [exact Hrun|]. by eapply stays_ok.
Qed.

(** What the interface holds, whatever the task does. *)
Lemma sender_out t o k g : task_ok t o (Some k) g ->
  os_rep o (OActive true) /\ h_unanswered g = false /\ (k <= h_no g)%nat.
Proof.
  unfold task_ok, rest_ok. destruct t as [[args []]|]; [| |done| |done|];
    destruct (h_unanswered g), (h_gave_up g); naive_solver lia.
Qed.

(** The interface settles the request: an answer that lies in the channel, or the flag left. *)
Lemma settled_ok t o k g f :
  task_ok t o (Some k) g ->
  forall o', match f with Answered r => os_rep o' (OSent true r) /\ woken o' | Unanswered => os_rep o' (OIdle true) | _ => False end ->
  task_ok t o' None (settled k f g).
Proof.
  intros Ht o' Ho'. assert (Hlt : (k < h_no g)%nat -> h_fate (settled k f g) = h_fate g).
  { intros Hk. cbn. by rewrite (proj2 (Nat.eqb_neq _ _)) by lia. }
  assert (Hu : h_unanswered (settled k f g) = match f with Unanswered => true | _ => false end).
  { apply sender_out in Ht as (_ & Hu & _). cbn. by rewrite Hu. }
  assert (Hrest : h_gave_up g = true \/ f = Unanswered -> rest_ok o' None (settled k f g)).
  { unfold rest_ok. rewrite Hu. destruct f as [| | |r]; [done|done|by intros _|]. intros [Hg|]; [|done]. cbn. rewrite Hg. eexists. apply Ho'. }
  assert (Hclean : rest_ok o (Some k) g -> h_gave_up g = true).
  { unfold rest_ok. destruct (h_unanswered g), (h_gave_up g); try done; by intros []. }
  assert (Heq : k = h_no g -> h_fate (settled k f g) = f) by (intros ->; cbn; by rewrite Nat.eqb_refl).
  unfold task_ok in *. destruct t as [[args []]|]; try done.
  - destruct Ht as (Hr & Hf & Hk). split; [auto|]. split; [by rewrite Hlt; [|apply Hk]|done].
  - destruct Ht as (Hr & Hf & Hk). split; [auto|]. split; [by rewrite Hlt; [|apply Hk]|done].
  - destruct Ht as (Hg & Hk & _). split; [done|]. rewrite Hu, (Heq Hk). destruct f; try done. by eexists.
  - destruct Ht as [Hr _]. split; [auto|done].
Qed.

Lemma give_up_ok c args st hh hr g :
  sys_ok (mkSys c (Some (args, st)) hh hr g) ->
  wp (connect_drop drop_shared args st) (fun _ c' => sys_ok (mkSys c' None hh hr (gives_up st g))) c.
Proof.
  intros [(v & vals & Hp & Hheld) Hb Ht Hl]. cbn [sys_conn sys_task sys_hello sys_rsp sys_past] in *.
  assert (Hgo : before_sender st -> task_ok None (rsp c) hr (gives_up st g)).
  { intros Hst. apply before_task_ok in Ht as (Hr & _ & Hk); [|done]. unfold task_ok, rest_ok in *.
    replace (h_gave_up (gives_up st g)) with (h_gave_up g) by (destruct st; cbn; try done; by rewrite orb_false_r).
    split; [exact Hr|]. intros k H. specialize (Hk k H). cbn. lia. }
  destruct st as [f|[[i]]|p f| |]; try done; cbn [connect_drop].
  - apply wp_modify. split; cbn; [by eapply pipe_ok_none|done|by apply Hgo|done].
  - apply wp_bind, wp_modify, wp_bind, on_conn_tx_wp. eapply Reservation_drop_wp; [exact Hp|by eapply Hheld|].
    intros p' Hp' _ _ _. apply wp_modify. split; cbn; [by eapply pipe_ok_none|done|by apply Hgo|done].
  - apply wp_modify. split; cbn; [by eapply pipe_ok_none|done| |done]. destruct Ht as [_ Ho]. unfold rest_ok. cbn.
    rewrite orb_true_r. destruct hr as [k|].
    + destruct Ho as (-> & _ & -> & Ho). split; [done|]. intros k [= <-]. lia.
    + destruct (h_unanswered g); [by destruct Ho|]. destruct Ho as (r & _ & Ho & _). split; [by exists r|done].
Qed.

Lemma iface_answer_ok c t hh k g r :
  sys_ok (mkSys c t hh (Some k) g) ->
  wp (iface_answer vt r) (fun b c' => b = true /\ woken (rsp c') /\ sys_ok (mkSys c' t hh None (settled k (Answered r) g))) c.
Proof.
  intros [Hp Hb Ht Hl]. cbn in *. destruct (sender_out _ _ _ _ Ht) as (Ho & _).
  apply wp_bind, on_rsp_wp. eapply wp_mono; [by apply answer_wp|]. intros res o (-> & Ho' & Hw). apply wp_ret.
  split; [done|]. split; [done|]. split; cbn; [done|done|by eapply settled_ok|done].
Qed.

Lemma iface_drop_sender_ok c t hh k g :
  sys_ok (mkSys c t hh (Some k) g) ->
  wp (iface_drop_sender vt) (fun _ c' => sys_ok (mkSys c' t hh None (settled k Unanswered g))) c.
Proof.
  intros [Hp Hb Ht Hl]. cbn in *. destruct (sender_out _ _ _ _ Ht) as (Ho & _).
  apply on_rsp_wp. eapply wp_mono; [by apply unanswered_wp|]. intros _ o (Ho' & _).
  split; cbn; [done|done|by eapply settled_ok|done].
Qed.

Lemma iface_drop_hello_ok c t hr g :
  sys_ok (mkSys c t true hr g) ->
  wp (iface_drop_hello drop_shared) (fun _ c' => sys_ok (mkSys c' t false hr g)) c.
Proof.
  intros [Hp [x Hb] Ht Hl]. cbn in *. apply on_hello_wp. eapply wp_mono; [by apply (consumer_gone_wp _ x)|].
  intros _ b [Hb' _]. by split.
Qed.

(** A call that was made is the one a lemma speaks of. *)
Lemma wp_this {A} (m : M Conn A) (Q : A -> Conn -> Prop) c c' a : wp m Q c -> m c = (c', Val a) -> Q a c'.
Proof. intros (c1 & x & -> & H) [= -> ->]. exact H. Qed.

Lemma connector_step_ok s s' : sys_step s s' -> sys_ok s -> sys_ok s'.
Proof.
  intros Hstep Hs. destruct Hstep as [c args hh hr g|c args st hh hr g c' st' H|c args st hh hr g c' st' r H
    |c args st hh hr g c' u H|c t hh k g r c' b H|c t hh k g c' u H|c t hr g c' u H|c t hh hr g p Hp].
  - destruct Hs as [(v & vals & Hp & _) Hb [Ho Hk] Hl]. cbn in *. split; cbn; [by eapply pipe_ok_free|done| |done].
    split; [done|]. split; [done|]. intros k H. specialize (Hk k H). lia.
  - pose proof (connect_poll_ok _ args st Hs eq_refl) as Hok. unfold poll_ends in Hok. cbn [sys_conn] in Hok. by rewrite H in Hok.
  - pose proof (connect_poll_ok _ args st Hs eq_refl) as Hok. unfold poll_ends in Hok. cbn [sys_conn] in Hok. by rewrite H in Hok.
  - exact (wp_this _ _ _ _ _ (give_up_ok _ _ _ _ _ _ Hs) H).
  - apply (wp_this _ _ _ _ _ (iface_answer_ok _ _ _ _ _ r Hs) H).
  - exact (wp_this _ _ _ _ _ (iface_drop_sender_ok _ _ _ _ _ Hs) H).
  - exact (wp_this _ _ _ _ _ (iface_drop_hello_ok _ _ _ _ Hs) H).
  - by destruct Hs.
Qed.

Lemma connector_reach_ok c s : fresh c -> rtc sys_step (sys_start c) s -> sys_ok s.
Proof.
  intros (Hb & Ho & v & vals & Hp) Hsteps.
  eapply (rtc_invariant sys_step sys_ok); [|intros a b Hab Ha; by eapply connector_step_ok|exact Hsteps].
  split; cbn; [by eapply pipe_ok_none|done|done|constructor].
Qed.

(** ** Properties *)

(** C18: What ends and what does not.  Connects are made, polled, answered, left unanswered (the
    interface drops the response sender, as it does when the peer resets the connection
    before acknowledging it) and given up at any await point, and others use the channel
    of requests, its end included.  A poll of [connect] always ends, with two exceptions
    that stem from the code: it panics (at the [unwrap] of the sender) only after some
    connect on this connector was given up while it waited for its answer, and it never
    ends only after the interface dropped some request unanswered, and then no number of
    iterations ends it.  Giving a connect up always ends, and so do the interface's answer,
    which always reaches the connector, its dropping of the sender, and of the hello
    message. *)
Theorem connector_outcomes c s :
  fresh c -> rtc sys_step (sys_start c) s ->
  (forall args st, sys_task s = Some (args, st) ->
     match snd (poll_it args st (sys_conn s)) with
     | Val _ => True
     | Panic => h_gave_up (sys_past s) = true /\ h_unanswered (sys_past s) = false
     | OutOfFuel => h_unanswered (sys_past s) = true /\
         forall fuel, snd (connect_poll vt hello_handle rsp_handle fuel args st (sys_conn s)) = OutOfFuel
     end /\
     wp (connect_drop drop_shared args st) (fun _ _ => True) (sys_conn s)) /\
  (sys_rsp s <> None -> (forall r, wp (iface_answer vt r) (fun b _ => b = true) (sys_conn s)) /\
     wp (iface_drop_sender vt) (fun _ _ => True) (sys_conn s)) /\
  (sys_hello s = true -> wp (iface_drop_hello drop_shared) (fun _ _ => True) (sys_conn s)).
Proof.
  intros Hc Hsteps. pose proof (connector_reach_ok _ _ Hc Hsteps) as Hs. destruct s as [c1 t hh hr g].
  cbn [sys_conn sys_task sys_hello sys_rsp sys_past]. split_and!.
  - intros args st ->. pose proof (connect_poll_ok _ args st Hs eq_refl) as Hok. unfold poll_ends in Hok. cbn [sys_conn sys_past] in Hok.
    split; [by destruct (poll_it args st c1) as [c' []]|]. eapply wp_mono; [by eapply give_up_ok|done].
  - destruct hr as [k|]; [|done]. intros _. split.
    + intros r. eapply wp_mono; [by eapply iface_answer_ok|]. by intros b c' [-> _].
    + eapply wp_mono; [by eapply iface_drop_sender_ok|done].
  - intros ->. eapply wp_mono; [by eapply iface_drop_hello_ok|done].
Qed.

(** C19: Every connect gets its own answer, in every history with cancelled waits and unanswered
    requests.  A connect that ended returned its own end of the connection if the interface
    answered its request with [Ok], [Nak] with the rejection if it answered with one, and
    [InterfaceDead] if its request was not sent or the interface dropped it without an
    answer; it does not return while its request is with the interface.  (The response
    senders are told apart by the number of the request, so an answer to a request that
    was given up is not taken for one to a later connect.) *)
Theorem connector_own_answers c s args f res :
  fresh c -> rtc sys_step (sys_start c) s -> (args, f, res) ∈ h_log (sys_past s) ->
  match f with
  | NotSent | Unanswered => res = Err InterfaceDead
  | Sent => False
  | Answered (Ok _) => res = Ok (ca_client_chan args)
  | Answered (Err nak) => res = Err (Nak nak)
  end.
Proof.
  intros Hc Hsteps Hin. pose proof (so_log _ (connector_reach_ok _ _ Hc Hsteps)) as Hl. rewrite Forall_forall in Hl.
  by specialize (Hl _ Hin).
Qed.

(** C29: Progress.  On a connector no connect of which was given up while it waited for its
    answer, and no request of which the interface dropped unanswered (after either the
    next connect panics or never returns: C18), a connect whose hello box is free and whose
    channel of requests is open and has room sends its request with the first poll, last in
    the queue, with the hello message in the box for the interface to serialize; the answer
    of the interface wakes the task, and the next poll returns it and leaves the connector
    ready for the next connect. *)
Theorem connect_makes_progress c s args v vals r :
  fresh c -> rtc sys_step (sys_start c) s -> sys_task s = None -> sys_hello s = false ->
  h_gave_up (sys_past s) = false -> h_unanswered (sys_past s) = false ->
  prep (tx (sys_conn s)) v vals -> v_rx_closed v = false -> ~ all_used v ->
  wp (sp ← poll_it args (ConnReserve ReserveStart); p ← gets tx; bs ← iface_hello; iface_drop_hello drop_shared;;
      iface_answer vt r;; woke ← gets (fun c => snd (wc_poll_wait (os_wait (rsp c))));
      sp' ← poll_it args (fst sp); mret (snd sp, p, bs, woke, snd sp'))
    (fun out c' => exists v' p, prep p v' (vals ++ [request_of args]) /\
       out = (Pending, p, pc_to_allocvec (ca_hello args), Ready (Ok tt), Ready (connect_result (ca_client_chan args) (Ok r))) /\
       box_rep (hello_sharer c') PSharer /\ os_rep (rsp c') (OIdle false)) (sys_conn s).
Proof.
  intros Hc Hsteps Ht Hh Hg Hu Hp Hcl Hfree. destruct (connector_reach_ok _ _ Hc Hsteps) as [_ Hb Ho _].
  destruct s as [c0 t hh hr g]. cbn [sys_conn sys_task sys_hello sys_rsp sys_past] in *. subst t hh. destruct Ho as [Ho _].
  unfold rest_ok in Ho. rewrite Hu, Hg in Ho. destruct Ho as [-> Ho].
  apply wp_bind. eapply wp_mono; [by eapply (connect_first_poll_wp c0 args v vals)|].
  intros sp c1 (-> & Hb1 & Ho1 & v1 & Hp1 & _). apply wp_bind, wp_gets, wp_bind, on_hello_wp.
  eexists _, _. split; [by apply shared_vec|]. apply wp_bind, on_hello_wp. eapply wp_mono; [by eapply consumer_gone_wp|].
  intros _ b [Hb2 _]. apply wp_bind, wp_bind, on_rsp_wp. eapply wp_mono; [by apply answer_wp|].
  intros res o (-> & Ho2 & Hw). apply wp_ret, wp_bind, wp_gets, wp_bind.
  eapply wp_mono; [by eapply (answered_poll_wp 7)|]. intros sp c2 (-> & Hb3 & Ho3 & _). apply wp_ret.
  exists v1, (tx c1). split; [done|]. split; [cbn; by rewrite Hw|]. by rewrite Hb3.
Qed.

(** ** Ways out of the contract *)

(** A connect on a free box and an open channel with room gets as far as the sender. *)
Lemma connect_to_sender n c args v vals (r : outcome (ConnectState * poll (result C ConnectError))) :
  box_rep (hello_sharer c) PSharer -> prep (tx c) v vals -> v_rx_closed v = false -> ~ all_used v ->
  (forall c' permit, rsp c' = rsp c ->
     snd (connect_poll vt hello_handle rsp_handle n args (ConnSender permit TakeLoop) c') = r) ->
  snd (connect_poll vt hello_handle rsp_handle (S (S n)) args (ConnReserve ReserveStart) c) = r.
Proof.
  intros Hb Hp Hcl Hfree H. remember n as k eqn:Hk. cbn [connect_poll]. apply wp_then, on_conn_tx_wp.
  eapply Sender_reserve_free_wp; [exact Hp|done..|]. intros i p1 _ _ _. cbn [fst snd connect_poll].
  apply wp_then, on_hello_wp. eapply wp_mono; [by apply share_free_wp|]. intros x b [-> _]. by apply H.
Qed.

(** A connect given up while it waits for its answer ruins the connector: the sender it
    took stays out (or its answer stays unreceived), so the next connect that gets its turn
    finds the one-shot channel taken and panics in its [unwrap], whether the interface has
    answered by then or not. *)
Theorem connect_after_cancel_panics c s args args' v vals :
  fresh c -> rtc sys_step (sys_start c) s -> sys_task s = Some (args, ConnRecv) -> sys_hello s = false ->
  h_unanswered (sys_past s) = false ->
  prep (tx (sys_conn s)) v vals -> v_rx_closed v = false -> ~ all_used v ->
  wp (connect_drop drop_shared args ConnRecv) (fun _ c' =>
    snd (connect_poll vt hello_handle rsp_handle 8 args' (ConnReserve ReserveStart) c') = Panic) (sys_conn s).
Proof.
  intros Hc Hsteps Ht Hh Hu Hp Hcl Hfree. destruct (connector_reach_ok _ _ Hc Hsteps) as [_ Hb Ho _].
  rewrite Hh in Hb. rewrite Ht in Ho. destruct Ho as [_ Ho]. rewrite Hu in Ho.
  apply wp_modify. eapply (connect_to_sender 6); [done..|]. intros c' permit Hr. apply (sender_taken args' permit 2 c').
  rewrite Hr. destruct (sys_rsp s); [left; apply Ho|right]. destruct Ho as (r & _ & Ho & _). by exists r.
Qed.

(** C16: An unanswered request ends the connector.  A request that the interface drops without an
    answer (it does when the peer resets the connection before it acknowledged it) leaves
    the connect asleep: nothing wakes its task.  If it is polled all the same it reports a
    dead interface, and from then on a connect on this connector, with room for its request
    and a free hello box, never returns from its first poll, however many iterations it is
    given: [sender] spins on the flag that the receive left behind. *)
Theorem unanswered_connect_hangs c s args args' v vals :
  fresh c -> rtc sys_step (sys_start c) s -> sys_task s = Some (args, ConnRecv) -> sys_hello s = false -> sys_rsp s <> None ->
  prep (tx (sys_conn s)) v vals -> v_rx_closed v = false -> ~ all_used v ->
  wp (iface_drop_sender vt) (fun _ c' => os_wait (rsp c') = os_wait (rsp (sys_conn s)) /\
    wp (poll_it args ConnRecv) (fun sp c2 => snd sp = Ready (Err InterfaceDead) /\
      forall fuel, snd (connect_poll vt hello_handle rsp_handle fuel args' (ConnReserve ReserveStart) c2) = OutOfFuel) c') (sys_conn s).
Proof.
  intros Hc Hsteps Ht Hh Hr Hp Hcl Hfree. destruct (connector_reach_ok _ _ Hc Hsteps) as [_ Hb Ho _].
  rewrite Hh in Hb. rewrite Ht in Ho. destruct (sys_rsp s) as [k|]; [|done]. destruct (sender_out _ _ _ _ Ho) as (Ho1 & _).
  apply on_rsp_wp. eapply wp_mono; [by apply unanswered_wp|]. intros _ o (Ho2 & Hw). split; [done|].
  eapply wp_mono; [by apply (unanswered_poll_wp 7)|]. intros sp c2 (-> & Hb2 & Ho3 & Hp2). split; [done|].
  cbn in Hb2, Hp2. rewrite <- Hb2 in Hb. rewrite <- Hp2 in Hp.
  intros [|[|n]]; [done|cbn [connect_poll]; apply wp_then, on_conn_tx_wp; by eapply Sender_reserve_free_wp|].
  eapply connect_to_sender; [done..|]. intros c' permit Hr'. apply sender_hangs. by rewrite Hr'.
Qed.

(** A request is lost when the interface goes away between the reservation of its place
    and the sending: the connect waits for an answer although no request is in the channel,
    and neither the hello message nor the sender were dropped, so the next connect would
    wait for the box for ever. *)
Theorem request_lost_on_close c s args i v vals :
  fresh c -> rtc sys_step (sys_start c) s -> sys_task s = Some (args, ConnShare (mkPermit (mkReservation i))) ->
  sys_hello s = false -> h_gave_up (sys_past s) = false -> h_unanswered (sys_past s) = false ->
  prep (tx (sys_conn s)) v vals -> i ∈ v_held v -> v_rx_closed v = true ->
  wp (poll_it args (ConnShare (mkPermit (mkReservation i)))) (fun sp c' => sp = (ConnRecv, Pending) /\
    prep (tx c') v vals /\ os_rep (rsp c') (OActive true) /\ box_rep (hello_sharer c') (PShared (ca_hello args))) (sys_conn s).
Proof.
  intros Hc Hsteps Ht Hh Hg Hu Hp Hi Hcl. destruct (connector_reach_ok _ _ Hc Hsteps) as [_ Hb Ho _]. rewrite Hh in Hb. rewrite Ht in Ho.
  destruct Ho as [Ho _]. unfold rest_ok in Ho. rewrite Hu, Hg in Ho.
  eapply wp_mono; [by eapply (poll_share_wp 5 args i _ _ _ false); [exact Hp|done|apply Ho|]|].
  cbn. rewrite Hcl. intros sp c' [(_ & [=] & _)|(-> & _ & Hb' & Ho' & Hp')]. by split_and!.
Qed.
End ConnectorSpec.

(** ** The channels of a connection *)

Section ChannelsSpec.
Context {PU : PackUsize} {PUL : PackUsizeLaws}.
Context {IA : IndexAlloc} {IAL : IndexAllocLaws}.
Context {WCA : WaitCellApi} {WCL : WaitCellLaws} {WQA : WaitQueueApi} {WQL : WaitQueueLaws}.
Context {In Out : Type}.

(** A pipe with one sender and one receiver and nothing else: open, empty, all free. *)
Definition handed_out {T} (cap : Z) (p : Pipe T Reset) : Prop :=
  prep p (upd_claimed true (view_new cap)) [] /\ strong_count p = 2.

(** A sender goes while another is left. *)
Lemma drop_other_wp {T} (p : Pipe T Reset) cap :
  prep p (upd_senders 2 (upd_claimed true (view_new cap))) [] -> strong_count p = 3 ->
  wp TrickyPipe_drop (fun _ p' => handed_out cap p') p.
Proof.
  intros Hp Hn. apply wp_bind. eapply core_step_wp; [apply drop_tx_spec|exact Hp|done|..].
  { intros [] v' ->. unfold drop_tx_view. by case_match. }
  intros [] v' p' -> Hp' Hn' _. eapply erased_drop_wp; [exact Hp'|lia|]. intros Hp2. split; [exact Hp2|cbn; lia].
Qed.

Lemma new_pipe {T} cap : 0 <= cap <= MAX_CAPACITY ->
  exists p : Pipe T Reset, TrickyPipe_new cap = Val p /\ prep p (view_new cap) [] /\ strong_count p = 1.
Proof. intros Hc. destruct (session_start (T := T) (E := Reset) cap Hc) as (p & -> & []). by exists p. Qed.

Lemma channel_out_wp {T} cap (p : Pipe T Reset) :
  prep p (view_new cap) [] -> strong_count p = 1 -> wp channel_out (fun _ p' => handed_out cap p') p.
Proof.
  intros Hp Hn. apply wp_bind, wp_bind. eapply core_step_wp; [apply try_claim_rx_spec|exact Hp|done|by intros r v' [_ ->]|].
  intros r v1 p1 [-> ->] Hp1 Hn1 _. cbn. apply wp_bind. eapply erased_clone_wp; [exact Hp1|]. intros Hp2.
  apply wp_ret, wp_bind, wp_ret, wp_bind, wp_bind.
  eapply core_step_wp; [apply add_tx_spec|exact Hp2|cbn; lia|by intros ? ? ->|]. intros [] v3 p3 -> Hp3 Hn3 _.
  eapply erased_clone_wp; [exact Hp3|]. intros Hp4. apply drop_other_wp; [exact Hp4|cbn in *; lia].
Qed.

Lemma channel_in_wp {T} cap (p : Pipe T Reset) :
  prep p (view_new cap) [] -> strong_count p = 1 -> wp channel_in (fun _ p' => handed_out cap p') p.
Proof.
  intros Hp Hn. apply wp_bind, wp_bind.
  eapply core_step_wp; [apply add_tx_spec|exact Hp|cbn; lia|by intros ? ? ->|]. intros [] v3 p3 -> Hp3 Hn3 _.
  eapply erased_clone_wp; [exact Hp3|]. intros Hp4.
  apply wp_bind, wp_bind. eapply core_step_wp; [apply try_claim_rx_spec|exact Hp4|done|by intros r v' [_ ->]|].
  intros r v1 p1 [-> ->] Hp1 Hn1 _. cbn. apply wp_bind. eapply erased_clone_wp; [exact Hp1|]. intros Hp2.
  apply wp_ret, wp_bind, wp_ret. apply drop_other_wp; [exact Hp2|cbn in *; lia].
Qed.

(** [Channels::new] makes two open, empty pipes of the capacity asked for, each with exactly
    one sender and one receiver: closing an end closes what the peer has of it. *)
Theorem Channels_new_spec cap : 0 <= cap <= MAX_CAPACITY ->
  exists ch : Channels (In := In) (Out := Out), Channels_new cap = Val ch /\ handed_out cap (s2c ch) /\ handed_out cap (c2s ch).
Proof.
  intros Hc. unfold Channels_new.
  destruct (new_pipe (T := Out) cap Hc) as (p & -> & Hp & Hn). destruct (new_pipe (T := In) cap Hc) as (q & -> & Hq & Hm).
  destruct (channel_out_wp cap p Hp Hn) as (p' & [] & -> & Hp'). destruct (channel_in_wp cap q Hq Hm) as (q' & [] & -> & Hq').
  by eexists.
Qed.
End ChannelsSpec.
