(* ===== verification/ConnectPath.v ===== *)
(** A connect on its whole way through one interface: from the connector, over the channel of
    requests and the machine, to the CONNECT frame; and back from the ACK frame, over the
    table and the one-shot channel, to the caller.

    The connector and the machine share the channel of requests ([tx], [conns_rx]); the
    table's [replies] are the answers sent through the response handles. *)
From S2P Require Import Prelude Interfaces TypeInfo WaitMap Errors Core CoreWord CoreQueue SerBox SerBoxSpec Oneshot OneshotSpec Pipe PipeSpec BiDi Message ReqRsp ConnTable ConnTableSpec Machine MachineSpec Connector ConnectorSpec.

Section ConnectPath.
Context {PU : PackUsize} {PUL : PackUsizeLaws}.
Context {IA : IndexAlloc} {IAL : IndexAllocLaws}.
Context {WCA : WaitCellApi} {WCL : WaitCellLaws} {WQA : WaitQueueApi} {WQL : WaitQueueLaws}.
Context {SC : SerChannel Reset} {SCL : SerChannelLaws Reset} {RS : ResponseSender} {Hello : Type}.
Context {HelloMsg : Type} {AN : Any HelloMsg} {PC : Postcard HelloMsg} {C : Type}.
Context {PH : Postcard Header} {W : Wire (Frame_out (Hello := Hello))}.
Variable vt : RefVtable (result unit Rejection).
Hypothesis vt_fine : vt_ok vt.
Variable hello_handle : Hello.
Variable rsp_handle : Rsp.
Variable MAX_CONNS : Z.
Hypothesis MAX_CONNS_range : 0 <= MAX_CONNS < u16_mod - 1.
Variable registry : Identity -> bytes -> result Chan Rejection.
Implicit Types (c : Connector Hello HelloMsg C) (m : Machine (Hello := Hello)).

(** The connector is at rest. *)
Definition at_rest c : Prop := box_rep (hello_sharer c) PSharer /\ os_rep (rsp c) (OIdle false).

(** The machine takes the oldest connect request once nothing else is to be done. *)
Lemma run_select_request m t1 tm oc vals v w :
  wire_recv (wire m) = (w, Pending) -> next_outbound (Hello := Hello) (conn_table m) = (t1, Val Pending) ->
  trep MAX_CONNS t1 tm -> Z.of_nat (size tm) <> MAX_CONNS ->
  prep (conns_rx m) v (oc :: vals) -> v_delivered v < LAST_POS ->
  wp (run_select MAX_CONNS true) (fun r m1 => exists i, 1 <= i <= MAX_CONNS /\ tm !! i = None /\
    r = Continue (RunSend true (Some ctx_connect) (frame_connect i (oc_identity oc) (oc_hello oc))) /\
    trep MAX_CONNS (conn_table m1) (<[i := mkSocket (Connecting (oc_rsp oc)) (oc_channel oc)]> tm) /\
    replies (conn_table m1) = replies t1) m.
Proof.
  intros Hw Hn Ht Hsz Hp Hlt. apply wp_bind, on_wire_wp. rewrite Hw. cbn [fst snd].
  apply wp_bind, on_table_wp. eexists _, _. split; [exact Hn|].
  apply wp_bind, on_conns_wp. eapply wp_mono; [by apply Receiver_poll_recv_wp|].
  cbn. intros r p (_ & H). rewrite (proj2 (Z.ltb_lt _ _) Hlt) in H. destruct H as [-> Hp'].
  apply wp_bind, on_table_wp. eapply wp_mono; [by apply (start_connecting_wp MAX_CONNS MAX_CONNS_range t1 tm)|].
  cbn. intros f t2 [(? & _)|(_ & i & Hi & Hm & -> & Ht2 & Hb)]; [done|]. apply wp_ret.
  destruct Hb as (_ & Hr & _). exists i. destruct Hi. by split_and!.
Qed.

(** The machine processes the ACK of a connecting socket. *)
Lemma run_ack m tm i j oc fut remaining :
  trep MAX_CONNS (conn_table m) tm -> 1 <= i -> tm !! i = Some (mkSocket (Connecting rsp_handle) oc) ->
  rsp_send rsp_handle (Ok tt) = true ->
  wp (run_step MAX_CONNS registry (RunProcess remaining (mkFrame (Ack j i) []) fut)) (fun r m1 =>
    r = Continue (RunSelect remaining) /\
    trep MAX_CONNS (conn_table m1) (<[i := mkSocket (Open j) oc]> tm) /\
    replies (conn_table m1) = replies (conn_table m) ++ [(rsp_handle, Ok tt)]) m.
Proof.
  intros Ht Hi Hm Hrsp. cbn [run_step]. apply wp_bind, on_table_wp. unfold process_inbound. cbn [header].
  apply wp_bind. eapply wp_mono; [by eapply process_ack_wp|].
  cbn. intros o t' (m' & Ht' & _ & Hpost). unfold ack_post in Hpost. rewrite Hm in Hpost. destruct Hpost as (-> & Hr & ->).
  apply wp_ret, wp_ret. rewrite Hrsp. by split_and!.
Qed.

(** C17: A connect on its whole way, on an interface that has nothing else to do: the connector is
    at rest, the channel of requests is open, empty, has room, and has carried fewer than
    1023 requests so far (a pipe delivers no more than 1023 over its life: C9), no inbound
    frame or outbound message is pending, the table is not full, and the caller does not
    give up.  The first
    poll hands the request to the machine, whose next turn takes it, claims a free
    identifier and sends the CONNECT frame with the caller's identity and the handle of
    the box, where the interface reads the caller's hello message; when the ACK for that
    identifier arrives, the socket opens the caller's channel to the peer's identifier and
    the reply is [Ok] through the handle of the request; and with that answer the second
    poll returns the caller's end of the connection, the connector being free again. *)
Theorem connect_end_to_end c m args v w t1 tm j fut :
  at_rest c -> prep (tx c) v [] -> v_rx_closed v = false -> ~ all_used v -> v_delivered v < LAST_POS ->
  wire_recv (wire m) = (w, Pending) -> next_outbound (Hello := Hello) (conn_table m) = (t1, Val Pending) ->
  trep MAX_CONNS t1 tm -> Z.of_nat (size tm) <> MAX_CONNS -> rsp_send rsp_handle (Ok tt) = true ->
  wp (connect_poll vt hello_handle rsp_handle 8 args (ConnReserve ReserveStart)) (fun sp c1 =>
    sp = (ConnRecv, Pending) /\
    snd (Consumer_to_vec (hello_sharer c1)) = Val (pc_to_allocvec (ca_hello args)) /\
    wp (run_step MAX_CONNS registry (RunSelect true)) (fun r m1 => exists i, 1 <= i <= MAX_CONNS /\ tm !! i = None /\
      r = Continue (RunSend true (Some ctx_connect) (frame_connect i (ca_identity args) hello_handle)) /\
      wp (run_step MAX_CONNS registry (RunProcess true (mkFrame (Ack j i) []) fut)) (fun r m2 =>
        r = Continue (RunSelect true) /\
        trep MAX_CONNS (conn_table m2) (<[i := mkSocket (Open j) (ca_srv_chan args)]> tm) /\
        replies (conn_table m2) = replies t1 ++ [(rsp_handle, Ok tt)]) m1) (set_conns_rx (tx c1) m) /\
    wp (iface_drop_hello drop_box;; iface_answer vt (Ok tt);; connect_poll vt hello_handle rsp_handle 8 args ConnRecv) (fun sp c2 =>
      snd sp = Ready (Ok (ca_client_chan args)) /\ at_rest c2) c1) c.
Proof.
  intros [Hb Ho] Hp Hcl Hfree Hlt Hw Hn Ht Hsz Hrsp.
  eapply wp_mono; [by eapply (connect_first_poll_wp vt vt_fine hello_handle rsp_handle c args v [])|].
  intros sp c1 (-> & Hb1 & Ho1 & v1 & Hp1 & Hd1). split; [done|]. split; [by rewrite (shared_vec _ _ Hb1)|]. split.
  - eapply wp_mono; [by eapply (run_select_request (set_conns_rx (tx c1) m)); [..|rewrite Hd1]|].
    intros r m1 (i & Hi & Hm & -> & Ht2 & Hr2). exists i. split; [done|]. split; [done|]. split; [done|].
    eapply wp_mono; [by eapply (run_ack m1); [|lia|apply lookup_insert_eq|]|].
    intros r m2 (-> & Ht3 & Hr3). rewrite insert_insert_eq in Ht3. by rewrite Hr3, Hr2.
  - apply wp_bind, on_hello_wp. eapply wp_mono; [by eapply consumer_gone_wp|]. intros _ b [Hb2 _].
    apply wp_bind, wp_bind, on_rsp_wp. eapply wp_mono; [by apply answer_wp|]. intros res o (-> & Ho2 & _). apply wp_ret.
    eapply wp_mono; [by eapply answered_poll_wp|].
    cbn. intros sp c2 (-> & Hb3 & Ho3 & _). split; [done|]. split; [by rewrite Hb3|done].
Qed.
End ConnectPath.
