(* ===== verification/Examples.v ===== *)
(** Concrete instances of the theorems: the hypotheses of each hold for real channels and
    tables, built with the reference instances of [Interfaces.Concrete].  A channel with
    room and one with a queued message come first; each witness then applies one theorem
    to them. *)
From S2P Require Import Prelude Interfaces Errors Core CoreWord CoreQueue Pipe PipeSpec PipeSession PipeTypes CoreConc ConcSafety CoreWait ConcProgress BiDi Message ConnTable ConnTableSpec.
Import Concrete.

(** ** Channels *)

(** A fresh pipe of four slots, held by [n] handles. *)
Definition pipe0 : Pipe Z unit := mkPipe (new_core 4) (replicate 4 None) 2 [].

Lemma pipe0_rep : prep pipe0 (view_new 4) [].
Proof. split; [by apply new_rep|reflexivity|constructor]. Defined.

(** The same pipe after one message. *)
Definition pipe1 : Pipe Z unit := fst (Sender_try_send 7 pipe0).

Lemma pipe1_rep : exists i, prep pipe1 (upd_queue 0 [i] ∅ (view_new 4)) [7] /\ strong_count pipe1 = 2.
Proof.
  destruct (Sender_try_send_wp _ _ _ 7 pipe0_rep) as (p' & r & Hrun & [Hk _] & H).
  unfold pipe1. rewrite Hrun. destruct H as [(? & _)|[(_ & Hall & _)|(_ & _ & i & _ & Hp)]]; [done| |].
  - assert (H0 : 0 <= 0 < v_cap (E := unit) (view_new 4)) by (cbn; lia).
    destruct (Hall 0 H0) as [H|H]; cbn in H; set_solver.
  - by exists i.
Defined.

(** A permit that is committed without a write: the receiver reads uninitialized memory, as the
    safety section of [Permit::commit] says.  Written in place first, it is a message. *)
Example commit_uninitialized :
  snd ((r ← Sender_try_reserve; match r with Ok permit => Permit_commit permit | Err _ => mret tt end;; Receiver_try_recv) pipe0) = Panic.
Proof. vm_compute. reflexivity. Qed.
Example commit_written :
  snd ((r ← Sender_try_reserve;
        match r with
        | Ok permit => Permit_deref_mut permit (fun _ => Some 5);; Permit_deref_mut permit (option_map (Z.add 1));; Permit_commit permit
        | Err _ => mret tt
        end;; Receiver_try_recv) pipe0) = Val (Ok 6).
Proof. vm_compute. reflexivity. Qed.

(** A closed pipe with a reserved index. *)
Definition pipe_permit : Pipe Z unit := fst (Sender_try_reserve pipe0).

Lemma core_refines_queue_witness :
  wp (core_run (E := unit) OpTryReserve)
     (fun a c' => exists v', rep c' v' /\ core_post OpTryReserve (view_new 4) a v') (new_core 4).
Proof. apply (core_refines_queue OpTryReserve (new_core 4) (view_new 4)); [by apply new_rep|done]. Defined.

Lemma queries_spec_witness : is_full (E := unit) (new_core 1) = (new_core 1, Val false).
Proof. apply (queries_spec (new_core 1) (view_new 1)), new_rep. done. Defined.

Lemma Sender_try_send_spec_witness : exists p' r, Sender_try_send 7 pipe0 = (p', Val r) /\ keeps pipe0 p'.
Proof.
  destruct (Sender_try_send_spec pipe0 (view_new 4) [] 7 pipe0_rep) as (p' & r & Hrun & Hk & _).
  by exists p', r.
Defined.

Lemma Receiver_try_recv_spec_witness : exists p', Receiver_try_recv pipe1 = (p', Val (Ok 7)).
Proof.
  destruct pipe1_rep as (i & Hp & _). destruct (Receiver_try_recv_spec _ _ _ Hp) as (p' & r & Hrun & _ & H).
  cbn in H. destruct H as [-> _]. by exists p'.
Defined.

Lemma Receiver_poll_recv_spec_witness : exists p', Receiver_poll_recv pipe0 = (p', Val Pending).
Proof.
  destruct (Receiver_poll_recv_spec _ _ _ pipe0_rep) as (p' & r & Hrun & _ & -> & _). by exists p'.
Defined.

Lemma Sender_send_poll_spec_witness :
  exists p' f r, Sender_send_poll 5 7 ReserveStart pipe0 = (p', Val (f, r)).
Proof.
  destruct (Sender_send_poll_spec pipe0 (view_new 4) [] 7 ReserveStart pipe0_rep) as (p' & [f r] & Hrun & _).
  by exists p', f, r.
Defined.

Lemma Permit_send_closed_witness :
  exists (p : Pipe Z unit) i, wp (Permit_send (mkPermit (mkReservation i)) (9 : Z)) (fun _ p' => destroyed p' = destroyed p) p.
Proof.
  assert (exists (p : Pipe Z unit) i v, prep p v [] /\ i ∈ v_held v /\ v_rx_closed v = true) as (p & i & v & Hp & Hi & Hcl).
  { destruct (Sender_try_reserve_wp pipe0 (view_new 4) []
      (fun _ p => exists i v, prep p v [] /\ i ∈ v_held v /\ v_failed v = None)) as (p1 & r & _ & i & v & Hp & Hi & Hf).
    - apply pipe0_rep.
    - cbn. intros p' r _ _ [(i & _ & _ & _ & Hp)|(_ & Hall & _)]; [exists i; eexists; split; [exact Hp|cbn; set_solver]|].
      assert (H0 : 0 <= 0 < v_cap (E := unit) (view_new 4)) by (cbn; lia).
      destruct (Hall 0 H0) as [H|H]; cbn in H; set_solver.
    - destruct (close_pipe_wp tt p1 v [] (fun _ p => prep p (fail_view tt v) []) Hp) as (p2 & b & _ & Hp2); [done|].
      exists p2, i, (fail_view tt v). unfold fail_view in *. by rewrite Hf in *. }
  exists p, i. destruct (Permit_send_closed p v [] i 9 Hp Hi Hcl) as (p' & r & Hrun & _ & Hd). by exists p', r.
Defined.

Lemma ser_recv_spec_witness : exists p', ser_recv 0 pipe1 = (p', Val (Ok (Ok [7]))).
Proof.
  destruct pipe1_rep as (i & Hp & _). destruct (ser_recv_spec 0 _ _ _ Hp) as (p' & r & Hrun & H).
  cbn in H. destruct H as [-> _]. by exists p'.
Defined.

Lemma pipe0_free : ~ all_used (E := unit) (view_new 4).
Proof.
  intros Hall. assert (H0 : 0 <= 0 < v_cap (E := unit) (view_new 4)) by (cbn; lia).
  destruct (Hall 0 H0) as [H|H]; cbn in H; set_solver.
Defined.

Lemma DeserSender_try_send_spec_witness :
  exists p', DeserSender_try_send 0 [] pipe0 = (p', Val (Err (SerTrySendDeserialize DeserializeUnexpectedEnd))).
Proof.
  destruct (DeserSender_try_send_spec 0 pipe0 (view_new 4) [] [] pipe0_rep)
    as (p' & r & Hrun & [(? & _)|[(_ & Hall & _)|(_ & _ & H)]]); [done|by destruct pipe0_free|].
  cbn in H. destruct H as [-> _]. by exists p'.
Defined.

Lemma ser_round_trip_witness :
  wp (r ← DeserSender_try_send 0 [5]; l ← ser_recvs 0 2; mret (r, l)) (fun rl _ => rl = (Ok tt, [Ok (Ok [7]); Ok (Ok [5])])) pipe1.
Proof.
  destruct pipe1_rep as (i & Hp & _).
  eapply wp_mono; [apply (ser_round_trip 0 pipe1 _ [7] [5] Hp); [done| |by vm_compute]|].
  - intros Hall. pose proof (rep_range _ _ (prep_core _ _ _ Hp)) as Hr.
    destruct (Hall (if decide (i = 0) then 1 else 0)) as [H|H]; cbn in *; case_decide; try lia; set_solver.
  - cbn beta. intros rl _ [_ H]. exact (H 5 eq_refl).
Defined.

Lemma erased_drop_last_witness :
  wp erased_drop (fun _ p' => destroyed p' = [7] /\ strong_count p' = 0) (set_strong_count 1 pipe1).
Proof.
  destruct pipe1_rep as (i & Hp & _).
  assert (Hp1 : prep (set_strong_count 1 pipe1) (upd_queue 0 [i] ∅ (view_new 4)) [7]) by (by destruct Hp; split).
  apply (erased_drop_last _ _ _ Hp1). done.
Defined.

(** A channel of [u8] (here the type 0) asked for another type. *)
Lemma erased_sender_typed_witness :
  wp (erased_try_send 0 1 8) (fun r p' => r = Ok false /\ prep p' (view_new 4) []) pipe0 /\
  wp (erased_try_send 0 0 8) (fun r _ => r = Ok true) pipe0.
Proof.
  assert (Hroom : ~ all_used (E := unit) (view_new 4)).
  { intros Hall. assert (H0 : 0 <= 0 < v_cap (E := unit) (view_new 4)) by (cbn; lia).
    destruct (Hall 0 H0) as [H|H]; cbn in H; set_solver. }
  split; (eapply wp_mono; [apply (erased_sender_typed 0 pipe0 (view_new 4) [] _ 8 pipe0_rep)|]);
    intros r p' [_ [(_ & H & _)|[-> H]]]; done.
Defined.

Lemma failed_downcast_frees_witness :
  exists i, 0 <= i < 4 /\ wp (r ← SerReceiver_downcast (ARC_VTABLE 0) 1; DeserSender_drop (ARC_VTABLE 0);; mret r)
    (fun r p' => r = None /\ strong_count p' = 0 /\ destroyed p' = [7]) pipe1.
Proof.
  destruct pipe1_rep as (i & Hp & Hn). exists i. split.
  - apply (rep_range _ _ (prep_core _ _ _ Hp)), (rep_in_alloc _ _ _ (prep_core _ _ _ Hp)). left. cbn. set_solver.
  - exact (failed_downcast_frees 0 pipe1 _ [7] 1 Hp Hn eq_refl ltac:(done)).
Defined.

Lemma static_sender_balanced_witness :
  wp (StaticTrickyPipe_sender;; Sender_drop (STATIC_VTABLE 0)) (fun _ p' => prep p' (view_new 4) []) pipe0.
Proof. apply (static_sender_balanced 0 pipe0 (view_new 4) [] pipe0_rep); [done|reflexivity]. Defined.

Lemma static_deser_sender_closes_witness :
  wp (StaticTrickyPipe_deser_sender;; StaticTrickyPipe_deser_sender;; DeserSender_drop (STATIC_VTABLE 0))
     (fun _ p' => exists v', prep p' v' [] /\ v_tx_closed v' = true /\ v_senders v' = 0) pipe0.
Proof. by apply (static_deser_sender_closes 0 pipe0 (view_new 4) [] pipe0_rep). Defined.

Lemma Receiver_remaining_underflows_witness : snd (Receiver_remaining pipe0) = Panic.
Proof. apply (Receiver_remaining_underflows pipe0 (view_new 4) [] pipe0_rep). Defined.

Lemma close_with_error_final_witness :
  wp (b ← Receiver_close_with_error tt; b' ← Sender_close_with_error tt; s ← Sender_try_send 8;
      r ← drain 2; mret (b, b', s, r))
     (fun r _ => r = (true, false, Err (TrySendErrorWith 8 tt), ([7], TryRecvErrorWith tt))) pipe1.
Proof. destruct pipe1_rep as (i & Hp & _). by apply (close_with_error_final _ _ _ tt tt 8 Hp). Defined.

Lemma last_sender_drop_drains_witness :
  wp (Sender_drop (ARC_VTABLE 0);; drain 2) (fun r _ => r = ([7], TryRecvDisconnected)) pipe1.
Proof. destruct pipe1_rep as (i & Hp & Hn). apply (last_sender_drop_drains 0 _ _ _ Hp); try done; by rewrite Hn. Defined.


(** ** Interleavings *)

(** Two senders and a receiver take turns. *)
Definition turns : list (event Z) :=
  ConcPanic.round 5 ++ ConcPanic.race.

Lemma turns_safe : claims (reach (E := unit) 2 2 turns) <= SAFE_CLAIMS.
Proof. vm_compute. discriminate. Defined.

Lemma conc_no_panic_witness : c_rx (reach (E := unit) 2 2 turns) <> RPanic.
Proof. apply (conc_no_panic (E := unit) 2 2 turns); [lia|exact turns_safe]. Defined.

Lemma conc_fifo_witness : c_received (reach (E := unit) 2 2 turns) `prefix_of` [5; 0].
Proof.
  assert (Hlog : (c_log (reach (E := unit) 2 2 turns)).*2 = [5; 0]) by (vm_compute; reflexivity).
  rewrite <- Hlog. apply (conc_fifo (E := unit) 2 2 turns); [lia|exact turns_safe].
Defined.

(** Two senders that wrote their elements at the same time. *)
Definition two_writers : list (event Z) :=
  EvSend 0 5 :: EvSend 1 6 :: replicate 3 (EvStep 0 false) ++ replicate 3 (EvStep 1 false).

Lemma conc_exclusive_witness :
  c_senders (reach (E := unit) 2 2 two_writers) = [SWritten 0 5; SWritten 1 6] /\
  sender_touches (SWritten 1 (6 : Z)) <> Some 0.
Proof.
  assert (Hs : c_senders (reach (E := unit) 2 2 two_writers) = [SWritten 0 5; SWritten 1 6]) by (vm_compute; reflexivity).
  assert (Hc : claims (reach (E := unit) 2 2 two_writers) <= SAFE_CLAIMS) by (vm_compute; discriminate).
  split; [exact Hs|].
  apply (proj1 (conc_exclusive (E := unit) 2 2 two_writers ltac:(lia) Hc) 0%nat 1%nat (SWritten 0 5));
    rewrite ?Hs; done.
Defined.

Lemma solo_is_sequential_witness :
  rx_steps 7 RIdle pipe1 = (fst (Receiver_try_recv pipe1), RIdle, [7]) /\
  exists p, sender_steps 2 (SReserve 9) pipe0 = (p, SHave 0 9, []).
Proof.
  split.
  - assert (Hl : length (queue (core pipe1)) = 64%nat) by (vm_compute; reflexivity).
    assert (Hr : reason_known (core pipe1)) by (intros H; vm_compute in H; discriminate H).
    destruct (solo_is_sequential pipe1 0 7 Hl ltac:(by vm_compute) Hr) as (_ & _ & _ & H).
    assert (Hv : snd (Receiver_try_recv pipe1) = Val (Ok 7)) by (vm_compute; reflexivity).
    destruct (Receiver_try_recv pipe1) as [p o]. cbn in Hv. subst o. exact H.
  - assert (Hr : reason_known (core pipe0)) by (intros H; vm_compute in H; discriminate H).
    destruct (solo_is_sequential pipe0 0 9 eq_refl ltac:(by vm_compute) Hr) as ((p & r & Ht & H) & _).
    assert (Hv : snd (on_core try_reserve pipe0) = Val (Ok (mkReservation 0))) by (vm_compute; reflexivity).
    rewrite Ht in Hv. cbn in Hv. injection Hv as ->. by exists p.
Defined.

(** The receiver goes to sleep; a sender claims a position, and stops before it publishes. *)
Definition sleeper : list (wevent (T := Z)) :=
  replicate 4 (WEv (EvRecv false)) ++ WEv (EvSend 0 5) :: replicate 6 (WEv (EvStep 0 false)).
Notation slept := (wreach (E := unit) 2 1 sleeper).

Lemma no_lost_wakeup_witness : pending (c_senders (w_conc slept)) 0.
Proof.
  assert (Hs : c_senders (w_conc slept) = [SClaimed 0 5 0]) by (vm_compute; reflexivity).
  assert (Hc : wsafe slept) by (vm_compute; discriminate).
  assert (Ht : w_task slept = TAsleep) by (vm_compute; reflexivity).
  assert (Hw : ~ woken (cell slept)) by (intros H; apply H; vm_compute; reflexivity).
  assert (Hn : forall m, c_senders (w_conc slept) !! m <> Some SNotify) by (intros [|m]; by rewrite Hs).
  assert (Hr : c_received (w_conc slept) = []) by (vm_compute; reflexivity).
  assert (Hl : c_log (w_conc slept) = [(0, 5)]) by (vm_compute; reflexivity).
  destruct (proj2 (no_lost_wakeup (E := unit) 2 1 sleeper ltac:(lia) Hc Ht Hw Hn eq_refl)) as [H|H].
  - by rewrite Hr, Hl in H.
  - by rewrite Hr in H.
Defined.

(** Sender 0 stops after it claimed its position; sender 1 still goes by the old tail. *)
Definition stopped : list (event Z) := two_writers ++ EvStep 1 false :: replicate 3 (EvStep 0 false).
Lemma obstruction_free_witness :
  c_senders (reach (E := unit) 2 2 stopped) = [SClaimed 0 5 0; SLoop 1 6 0] /\
  exists k, (k <= 8)%nat /\ c_senders (reach (E := unit) 2 2 (stopped ++ replicate k (EvStep 1 false))) !! 1%nat = Some SIdle.
Proof.
  assert (Hs : c_senders (reach (E := unit) 2 2 stopped) = [SClaimed 0 5 0; SLoop 1 6 0]) by (vm_compute; reflexivity).
  split; [exact Hs|]. assert (Hc : claims (reach (E := unit) 2 2 stopped) < SAFE_CLAIMS) by (vm_compute; reflexivity).
  apply (proj1 (obstruction_free (E := unit) 2 2 stopped ltac:(lia) Hc) 1%nat (SLoop 1 6 0)). by rewrite Hs.
Defined.

(** ** Bidirectional channels *)

Definition bidi0 : BiDi Z Z unit := from_pair pipe0 pipe0.

Lemma bidi0_rep : brep bidi0 (view_new 4) (view_new 4) [] [].
Proof. split; apply pipe0_rep. Defined.

Lemma BiDi_close_with_error_spec_witness :
  exists b', BiDi_close_with_error tt bidi0 = (b', Val true).
Proof.
  destruct (BiDi_close_with_error_spec tt bidi0 _ _ _ _ bidi0_rep) as (b' & r & Hrun & _ & ->). by exists b'.
Defined.

(** The sending side was closed with an error. *)
Lemma bidi_failed : exists p, prep (T := Z) p (fail_view tt (view_new 4)) [].
Proof.
  destruct (close_pipe_wp tt pipe0 (view_new 4) [] (fun _ p => prep p (fail_view tt (view_new 4)) []) pipe0_rep)
    as (p & b & _ & Hp); [done|]. by exists p.
Defined.

Lemma wait_send_error_once_witness :
  exists b b' st, wait_poll (In := Z) (Out := Z) 5 (WSelect ReserveStart) b = (b', Val (st, Ready (Err (WaitSend tt)))).
Proof.
  destruct bidi_failed as [p Hp]. exists (from_pair p pipe0).
  assert (Hb : brep (from_pair p pipe0) (fail_view tt (view_new 4)) (view_new 4) [] []) by (split; [exact Hp|apply pipe0_rep]).
  destruct (wait_send_error_once ReserveStart tt _ _ _ _ _ Hb) as (b' & [st r] & Hrun & _ & H); [done..|].
  cbn in H. subst r. by exists b', st.
Defined.

Lemma wait_prefers_sending_witness :
  exists b' st permit, wait_poll 5 (WSelect ReserveStart) bidi0 = (b', Val (st, Ready (Ok (SendReady permit)))).
Proof.
  destruct (wait_prefers_sending bidi0 _ _ _ _ bidi0_rep) as (b' & [st r] & Hrun & permit & H & _);
    [done|apply pipe0_free|]. cbn in H. subst r. by exists b', st, permit.
Defined.

(** ** Frames *)

(** A serializer of some headers, whose identifiers are not zero: those of established
    connections, requests for the one service [echo], and two kinds of resets. *)
Definition echo : Identity := mkIdentity 0 (Name [104]).
Definition ids_ok (l r : Z) : bool := (1 <=? l) && (1 <=? r).
Definition header_encode (h : Header) : result bytes PostcardError :=
  match h with
  | Data l r => if ids_ok l r then Ok [0; l; r] else Err (OtherPostcardError 0)
  | Ack l r => if ids_ok l r then Ok [1; l; r] else Err (OtherPostcardError 0)
  | Connect l i => if ids_ok l l && bool_decide (i = echo) then Ok [2; l] else Err (OtherPostcardError 0)
  | HReset r BecauseISaidSo => if ids_ok r r then Ok [3; r] else Err (OtherPostcardError 0)
  | HReset r NoSuchConn => if ids_ok r r then Ok [4; r] else Err (OtherPostcardError 0)
  | _ => Err (OtherPostcardError 0)
  end.
Definition header_decode (bs : bytes) : result (Header * bytes) PostcardError :=
  match bs with
  | 0 :: l :: r :: rest => if ids_ok l r then Ok (Data l r, rest) else Err SerdeDeCustom
  | 1 :: l :: r :: rest => if ids_ok l r then Ok (Ack l r, rest) else Err SerdeDeCustom
  | 2 :: l :: rest => if ids_ok l l then Ok (Connect l echo, rest) else Err SerdeDeCustom
  | 3 :: r :: rest => if ids_ok r r then Ok (HReset r BecauseISaidSo, rest) else Err SerdeDeCustom
  | 4 :: r :: rest => if ids_ok r r then Ok (HReset r NoSuchConn, rest) else Err SerdeDeCustom
  | _ => Err DeserializeUnexpectedEnd
  end.
#[export] Instance postcard_header : Postcard Header := {|
  pc_to_allocvec := header_encode;
  pc_to_allocvec_cobs h := Err (OtherPostcardError 0);
  pc_to_slice h buf :=
    match header_encode h with Ok bs => (bs ++ drop (length bs) buf, Ok (length bs)) | Err e => (buf, Err e) end;
  pc_to_slice_cobs h buf := (buf, Err (OtherPostcardError 0));
  pc_from_bytes bs := result_map fst (header_decode bs);
  pc_from_bytes_cobs bs := Err DeserializeBadEncoding;
  pc_take_from_bytes := header_decode;
|}.

Lemma header_round_trip h bs rest : header_encode h = Ok bs -> header_decode (bs ++ rest) = Ok (h, rest).
Proof.
  destruct h as [l i | l r | l r | | r []]; cbn; try done; match goal with |- context [ids_ok ?a ?b] => destruct (ids_ok a b) eqn:Hi end;
    cbn; try done; try (case_bool_decide as He; [|done]); intros [= <-]; cbn; by rewrite Hi, ?He.
Defined.

Lemma header_decode_ids bs h rest : header_decode bs = Ok (h, rest) -> frame_ids h /\ exists used, bs = used ++ rest.
Proof.
  intros H. unfold header_decode in H.
  repeat (case_match; simplify_eq); match goal with H : ids_ok _ _ = true |- _ =>
    apply andb_true_iff in H as [?%Z.leb_le ?%Z.leb_le] end; (split; [done|first [by eexists [_; _; _]|by eexists [_; _]]]).
Defined.

#[export] Instance postcard_header_laws : PostcardLaws Header.
Proof.
  split; cbn.
  - intros h bs H. apply (header_round_trip h bs []) in H. rewrite app_nil_r in H. by rewrite H.
  - done.
  - intros h bs rest. apply header_round_trip.
  - intros bs h rest H. by apply header_decode_ids in H as [_ ?].
  - intros h bs buf H _. by rewrite H.
Defined.

#[export] Instance body_bytes : Body bytes := {|
  body_to_vec b := Ok b;
  body_to_slice b buf := (b ++ drop (length b) buf, Ok (length b));
|}.

Lemma frame_round_trip_witness :
  from_bytes [0; 3; 4; 9; 9] = Ok (mkFrame (Data 3 4) [9; 9]).
Proof. by apply (frame_round_trip (D := bytes) (C := bytes) (frame_data 4 3 [9; 9]) [0; 3; 4; 9; 9] [9; 9]). Defined.

Lemma from_bytes_body_is_suffix_witness : exists pre, [0; 3; 4; 9; 9] = pre ++ [9; 9].
Proof. by apply (from_bytes_body_is_suffix [0; 3; 4; 9; 9] (mkFrame (Data 3 4) [9; 9])). Defined.

(** An eight byte buffer: the returned slice starts with the body and ends in stale bytes. *)
Lemma frame_to_slice_misses_header_witness :
  frame_to_slice (frame_data 4 3 [9; 9] : OutboundFrame bytes bytes) [8; 8; 8; 8; 8; 8; 8; 8] =
    ([0; 3; 4; 9; 9; 8; 8; 8], Val (Ok [9; 9; 8; 8; 8])).
Proof.
  by apply (frame_to_slice_misses_header (frame_data 4 3 [9; 9] : OutboundFrame bytes bytes)
    [0; 3; 4] [9; 9] [8; 8; 8; 8; 8; 8; 8; 8]); [|cbn; lia| |cbn; lia].
Defined.

(** ** The connection table *)

(** Channels of bytes; a connector is there ([true]) or gone ([false]). *)
#[export] Instance chan_z : SerChannel Reset := SerBiDi_channel (In := Z) (Out := Z) 0 0.
#[export] Instance chan_z_laws : SerChannelLaws Reset := SerBiDi_channel_laws 0 0.
#[export] Instance rsp_bool : ResponseSender := {| Rsp := bool; rsp_send r _ := r |}.

Definition rpipe : Pipe Z Reset := mkPipe (new_core 4) (replicate 4 None) 2 [].
Definition chan0 : Chan (SerChannel := chan_z) := from_pair rpipe rpipe.

Lemma chan0_ok : sc_inv (SerChannelLaws := chan_z_laws) chan0.
Proof.
  assert (Hr : prep rpipe (view_new 4) []) by (split; [by apply new_rep|reflexivity|constructor]).
  exists (view_new 4), (view_new 4), [], []. by split.
Defined.

Lemma cap2 : 0 <= 2 < u16_mod - 1.
Proof. by split. Defined.

(** An empty table of two entries, and the same table after a CONNECT of a remote. *)
Definition table0 : ConnTable := ConnTable.new 2.
Lemma table0_rep : trep 2 table0 ∅.
Proof. apply new_trep, cap2. Defined.
Lemma chan_ok_empty : chan_ok ∅.
Proof. intros i s H. by rewrite lookup_empty in H. Defined.

Definition table_with (remote : Id) (c : Chan) : ConnTable :=
  fst (ConnTable.accept (Hello := unit) 2 remote c table0).
Lemma table_with_rep remote c :
  trep 2 (table_with remote c) {[1 := mkSocket (Open remote) c]} /\ dead_index (table_with remote c) = None.
Proof.
  destruct (accept_wp 2 cap2 (Hello := unit) table0 ∅ remote c table0_rep) as (t & f & Hrun & m & Hrep & _ & Hpost & Hd).
  unfold table_with. rewrite Hrun. cbn in *. split; [|done].
  destruct Hpost as [(H & _)|(_ & i & -> & _ & _ & _ & -> & _)]; [by rewrite map_size_empty in H|].
  exact Hrep.
Defined.

Definition table1 : ConnTable := table_with 9 chan0.
Lemma table1_rep : trep 2 table1 {[1 := mkSocket (Open 9) chan0]} /\ dead_index table1 = None.
Proof. apply table_with_rep. Defined.
Lemma chan_ok_one : chan_ok {[1 := mkSocket (Open 9) chan0]}.
Proof. intros i s [<- <-]%lookup_singleton_Some. exact chan0_ok. Defined.

Definition registry0 (identity : Identity) (hello : bytes) : result Chan Rejection := Ok chan0.

(** Data for a connection whose remote has another identifier is refused. *)
Lemma process_inbound_spec_witness :
  exists t' f, process_inbound (Hello := unit) 2 registry0 (mkFrame (Data 8 1) [5]) ReserveStart table1 =
    (t', Val (f, Ready (Some (frame_reset 8 NoSuchConn)))).
Proof.
  destruct (process_inbound_spec 2 cap2 (Hello := unit) registry0 table1 _ (mkFrame (Data 8 1) [5]) ReserveStart
    (proj1 table1_rep) chan_ok_one) as (t' & [f r] & Hrun & m' & _ & _ & Hpost).
  - split; lia.
  - intros identity bs c [= <-]. exact chan0_ok.
  - cbn in Hpost. unfold data_post in Hpost. rewrite lookup_singleton_eq in Hpost. cbn in Hpost.
    destruct Hpost as (-> & _). by exists t', f.
Defined.

Definition connect0 : OutboundConnect unit := mkOutboundConnect echo tt chan0 true.

Lemma start_connecting_spec_witness :
  exists t' i, start_connecting 2 connect0 table0 = (t', Val (Some (frame_connect i (oc_identity connect0) tt))) /\ 1 <= i <= 2.
Proof.
  destruct (start_connecting_spec 2 cap2 table0 ∅ connect0 table0_rep)
    as (t' & r & Hrun & [(H & _)|(_ & i & Hi & _ & -> & _)]); [by rewrite map_size_empty in H|].
  by exists t', i.
Defined.

(** A connection with nothing to send keeps [next_outbound] waiting. *)
Lemma next_outbound_spec_witness :
  exists t' r, next_outbound (Hello := unit) table1 = (t', Val r) /\ replies t' = replies table1.
Proof.
  destruct table1_rep as [Hrep Hd].
  destruct (next_outbound_spec 2 cap2 (Hello := unit) table1 _ Hrep chan_ok_one) as (t' & r & Hrun & m' & _ & _ & _ & Hr & _);
    [by rewrite Hd|]. by exists t', r.
Defined.

Lemma handshake_witness : exists t1 i,
  start_connecting 2 connect0 table0 = (t1, Val (Some (frame_connect i (oc_identity connect0) tt))).
Proof.
  destruct (handshake 2 cap2 table0 ∅ table0 ∅ connect0 registry0 registry0 [] chan0 table0_rep table0_rep)
    as (t1 & r & Hrun & i & -> & _); [by rewrite map_size_empty..|done|done|]. by exists t1, i.
Defined.

(** The dead connection 1 is reset by its remote before it was removed. *)
Lemma stale_dead_index_witness :
  exists t' f g, (process_inbound (Hello := unit) 2 registry0 (mkFrame (HReset 1 BecauseISaidSo) []) ReserveStart;;
     process_inbound (Hello := unit) 2 registry0 (mkFrame (Connect 7 (oc_identity connect0)) []) ReserveStart) (set_dead_index (Some 1) table1)
    = (t', Val (g, Ready (Some f))).
Proof.
  assert (Hrep : trep 2 (set_dead_index (Some 1) table1) {[1 := mkSocket (Open 9) chan0]})
    by (eapply trep_ext; [..|apply table1_rep]; done).
  destruct (stale_dead_index_removes_live_connection 2 cap2 (Hello := unit) (set_dead_index (Some 1) table1) _ 1 9 7
     chan0 chan0 registry0 (oc_identity connect0) [] BecauseISaidSo Hrep chan_ok_one chan0_ok)
    as (t' & [g r] & Hrun & Hr & _); try done. cbn in Hr. subst r. by exists t', (frame_ack 1 7), g.
Defined.

Lemma table_never_panics_witness :
  wp (table_run 2 [TInbound registry0 (mkFrame (Connect 7 (oc_identity connect0)) []) ReserveStart; TConnect connect0; TOutbound])
     (fun _ t => table_ok 2 t) (ConnTable.new 2).
Proof.
  apply (table_never_panics 2 cap2). repeat constructor; try exact chan0_ok; cbn; try lia.
  intros identity bs c [= <-]. exact chan0_ok.
Defined.
