(* ===== verification/ReserveExamples.v ===== *)
(** Witnesses and runs for the senders that wait for room. *)
From S2P Require Import Prelude Interfaces Errors Core CoreWord Pipe CoreConc ConcSafety CoreWait ConcProgress ConcRefine CoreReserve.
Import Concrete.

Abbreviation rst := (rreach (T := Z) (E := unit)).
Definition step (n : nat) : revent (T := Z) := REv (EvStep n false).
Definition recv : revent (T := Z) := REv (EvRecv false).

(** A channel with room for one message: sender 0 sends, sender 1 has to wait. *)
Definition one_waits : list (revent (T := Z)) :=
  RSend 0 7 :: replicate 8 (step 0) ++ RSend 1 8 :: replicate 3 (step 1).

Lemma one_waits_state :
  c_senders (r_conc (rst 1 2 one_waits)) = [SIdle; SIdle] /\
  r_tasks (rst 1 2 one_waits) = [KRun true; KAsleep 8 (Some 0%nat)] /\
  c_rx (r_conc (rst 1 2 one_waits)) = RIdle.
Proof. vm_compute. done. Qed.

Lemma one_waits_stranded : stranded (rst 1 2 one_waits) (KAsleep 8 (Some 0%nat)).
Proof. vm_compute. done. Qed.

Lemma two_entries (A : Type) (a b : A) (P : A -> Prop) : P a -> P b -> forall n x, [a; b] !! n = Some x -> P x.
Proof. intros Ha Hb [|[|n]] x H; simpl in H; by simplify_eq. Qed.

Lemma one_waits_at_rest : at_rest (rst 1 2 one_waits).
Proof.
  pose proof one_waits_state as (Hs & Ht & Hr). pose proof one_waits_stranded as Hw. unfold at_rest. rewrite Hs, Ht. split; [exact Hr|]. split; [vm_compute; reflexivity|]. split.
  - intros n pc. exact (two_entries _ _ _ (fun pc => pc = SIdle) eq_refl eq_refl n pc).
  - intros n k. refine (two_entries _ _ _ (fun k => blocked k = true -> stranded _ k) _ _ n k); [discriminate|intros _; exact Hw].
Qed.

Lemma no_stranded_sender_witness : (length (c_received (r_conc (rst 1 2 one_waits))) < length (c_log (r_conc (rst 1 2 one_waits))))%nat.
Proof.
  refine (proj2 (no_stranded_sender (E := unit) 1 2 one_waits 1 (KAsleep 8 (Some 0%nat)) _ _ one_waits_at_rest _ one_waits_stranded)).
  - lia.
  - vm_compute. discriminate.
  - by rewrite (proj1 (proj2 one_waits_state)).
Defined.

Lemma receiver_unblocks_witness :
  exists m' k', r_tasks (rrun (replicate 7 recv) (rst 1 2 one_waits)) !! m' = Some k' /\
    stranded (rst 1 2 one_waits) k' /\ ~ stranded (rrun (replicate 7 recv) (rst 1 2 one_waits)) k'.
Proof.
  refine (proj2 (receiver_unblocks (E := unit) 1 2 one_waits 1 (KAsleep 8 (Some 0%nat)) _ _ one_waits_at_rest _ one_waits_stranded)).
  - lia.
  - vm_compute. discriminate.
  - by rewrite (proj1 (proj2 one_waits_state)).
Defined.

(** The woken task then sends its message, and the receiver gets it. *)
Example woken_sender_sends :
  c_received (r_conc (rst 1 2 (one_waits ++ replicate 7 recv ++ replicate 10 (step 1) ++ replicate 7 recv))) = [7; 8].
Proof. vm_compute. done. Qed.

(** A full channel, polled once. *)
Definition full_pipe : Pipe Z unit := c_pipe (r_conc (rst 1 2 (RSend 0 7 :: replicate 8 (step 0)))).
Lemma solo_reserve_witness :
  exists j, steps (E := unit) 0 j (before_poll (E := unit) (conc_new 1 1) [KRun true] 0 0 8 full_pipe ReserveStart) =
    after_poll (conc_new 1 1) [KRun true] 0 0 8 (fst (on_core (reserve_poll 3 ReserveStart) full_pipe)) (ReserveWaiting (Some 0%nat)) Pending.
Proof.
  apply (solo_reserve (conc_new 1 1) [KRun true] 0 0 8) with (fuel := 3%nat); [cbn; lia|cbn; lia|]. vm_compute. reflexivity.
Defined.

(** One wakeup is stored at most: two tasks find the channel full, the receiver then makes
    room twice before either polls its future, and the second of them goes to sleep beside a
    free index.  It is woken by the next message that is received. *)
Definition two_wait : list (revent (T := Z)) :=
  RSend 0 7 :: replicate 8 (step 0) ++ RSend 1 8 :: replicate 8 (step 1) ++
  RSend 2 9 :: replicate 2 (step 2) ++ RSend 3 10 :: replicate 2 (step 3) ++
  replicate 14 recv ++ replicate 9 (step 2) ++ [step 3].
Example sleeps_beside_room :
  r_tasks (rst 2 4 two_wait) !! 3%nat = Some (KAsleep 10 (Some 0%nat)) /\ stranded (rst 2 4 two_wait) (KAsleep 10 (Some 0%nat)) /\
  base.elements (allocated (r_conc (rst 2 4 two_wait))) = [0] /\
  c_received (r_conc (rst 2 4 (two_wait ++ replicate 7 recv ++ replicate 10 (step 3) ++ replicate 7 recv))) = [7; 8; 9; 10].
Proof. vm_compute. done. Qed.

(** *** Against the specification *)

(** Sender 0 stops after its claim; sender 1 sends; the receiver finds nothing, although the
    message of sender 1 is published. *)
Definition overtaking : list (event Z) :=
  EvSend 0 5 :: replicate 6 (EvStep 0 false) ++ EvSend 1 6 :: replicate 8 (EvStep 1 false) ++ replicate 3 (EvRecv false).

Example nothing_beside_message :
  history (E := unit) overtaking (conc_new 2 2) = [Reserve; Send 5; Reserve; Send 6; Publish 1; Nothing] /\
  abs (reach (E := unit) 2 2 overtaking) 0 = mkChannel 0 [(5, false); (6, true)] false 0.
Proof. vm_compute. done. Qed.

Lemma overtaking_safe : claims (reach (E := unit) 2 2 overtaking) <= SAFE_CLAIMS.
Proof. vm_compute. discriminate. Qed.

Lemma conc_refines_channel_witness :
  spec_run 2 channel_new [Reserve; Send 5; Reserve; Send 6; Publish 1; Nothing] (mkChannel 0 [(5, false); (6, true)] false 0).
Proof.
  destruct nothing_beside_message as [<- <-].
  replace (abs (reach (E := unit) 2 2 overtaking) 0) with
    (abs (reach (E := unit) 2 2 overtaking) (forgotten (history (E := unit) overtaking (conc_new 2 2)))).
  - apply (conc_refines_channel (E := unit) 2 2 overtaking); [lia|exact overtaking_safe].
  - by rewrite (proj1 nothing_beside_message).
Defined.
