(* ===== verification/HandlesExamples.v ===== *)
(** Programs that pass handles around: one that obeys the rules, and the two that lose count. *)
From stdpp Require Import gmap.
From S2P Require Import Prelude Interfaces TypeInfo Errors Core CoreWord CoreQueue Pipe PipeSpec PipeSession Handles HandlesSpec.
Import Concrete ExampleTypes.

Abbreviation new_world := (world_new (T := Z) (E := unit)).

(** A pipe, a sender that is cloned and erased, a receiver that is converted to a serializing one
    and back; a message goes through; a static channel besides.  An action puts the handles
    it leaves at the end of the list. *)
Definition tour : list (command (T := Z)) :=
  [NewPipe 4; Do 0 GetSender; Do 0 GetReceiver; Do 1 Drop; (* sender, receiver *)
   Do 0 Clone; Do 1 (TrySend 7); Do 1 IntoErased;          (* receiver, sender, erased sender *)
   NewStatic 2; Do 3 GetSender;                            (* and the static channel, its sender *)
   Do 0 IntoSerde; Do 4 (Downcast 8); Do 4 TryRecv; Do 0 Drop].

Definition tour_end : world (T := Z) (E := unit) := fst (run_commands tour new_world).
Example tour_runs : snd (run_commands tour new_world) = Val tt.
Proof. vm_compute. reflexivity. Qed.

(** The channel in the [Arc] has two references, of an erased sender and a receiver, and one
    sender; the static one, its sender and itself. *)
Definition strong (ptr : nat) (w : world (T := Z) (E := unit)) : option Z := (fun sh => strong_count (sh_pipe sh)) <$> w_memory w !! ptr.
Definition senders (ptr : nat) (w : world (T := Z) (E := unit)) : option Z :=
  (fun sh => Z.shiftr (state (core (sh_pipe sh))) TX_SHIFT) <$> w_memory w !! ptr.
Example tour_counts :
  strong 0 tour_end = Some 2 /\ total ref 0 (w_handles tour_end) = 2 /\ senders 0 tour_end = Some 1 /\
  senders 1 tour_end = Some 2 /\ length (w_handles tour_end) = 4%nat.
Proof. vm_compute. done. Qed.

Lemma handles_counted_witness :
  wp (run_commands tour) (fun _ w => forall p, w_memory w !! 0%nat = Some (mkShared InArc p) ->
    strong_count p = total ref 0 (w_handles w)) new_world.
Proof.
  eapply wp_mono; [apply (handles_counted (T := Z) (E := unit) tour); [reflexivity|vm_compute; reflexivity]|].
  intros u w H p Hp. specialize (H 0%nat). cbv zeta in H. rewrite Hp in H. by destruct H as (_ & _ & [H _]).
Defined.

(** When every handle is dropped the memory is empty. *)
Example all_dropped :
  let r := run_commands [NewPipe 4; Do 0 GetSerReceiver; Do 1 (Downcast 8); Do 0 Drop; Do 0 Drop] new_world in
  snd r = Val tt /\ length (w_handles (fst r)) = 0%nat /\ size (w_memory (fst r)) = 0%nat.
Proof. vm_compute. done. Qed.

(** A failed downcast gives the handle back and takes a reference from the channel, which is
    freed too early: the next use of the handle is a use after free. *)
Example failed_downcast_dangles :
  let w := run_commands [NewPipe 4; Do 0 GetSerReceiver; Do 0 Drop; Do 0 (Downcast 16)] new_world in
  snd w = Val tt /\ length (w_handles (fst w)) = 1%nat /\ w_memory (fst w) !! 0%nat = None /\
  snd (run_commands [Do 0 Drop] (fst w)) = Panic.
Proof. vm_compute. done. Qed.
