(* ===== verification/SystemExamples.v ===== *)
(** Concrete instances of the theorems about the running machine, a message between two
    machines, the shared box and the one-shot channel. *)
From S2P Require Import Prelude Interfaces TypeInfo Errors Core CoreWord CoreQueue Pipe PipeSpec PipeSession BiDi Message ConnTable ConnTableSpec Machine MachineSpec EndToEnd SerBox SerBoxSpec Oneshot OneshotSpec OneshotRace Examples.
Import Concrete ExampleTypes.

(** ** The machine *)

#[export] Instance body_unit : Body unit := {|
  body_to_vec _ := Ok [];
  body_to_slice _ buf := (buf, Ok 0%nat);
|}.

Definition wire_z : Wire (Frame_out (Hello := unit)) := byte_wire (D := result bytes PostcardError) (C := unit).
#[local] Existing Instance wire_z.

(** No connect request is pending. *)
Definition conns0 : Conns (SC := chan_z) (Hello := unit) := mkPipe (new_core 4) (replicate 4 None) 2 [].
Lemma conns0_ok : conns_ok conns0.
Proof. exists (view_new 4), []. split; [|constructor]. split; [by apply new_rep|reflexivity|constructor]. Defined.

(** A data frame for a connection the machine does not have. *)
Definition wire0 : Wi (Wire := wire_z) := ([[0; 3; 4; 9]], []).
Definition machine0 : Machine (SC := chan_z) (Hello := unit) :=
  mkMachine (SC := chan_z) wire0 (ConnTable.new 2) conns0.

Lemma header_ids_z bs h rest : pc_take_from_bytes (T := Header) bs = Ok (h, rest) -> frame_ids h.
Proof. intros H. by apply header_decode_ids in H as [? _]. Defined.
Lemma registry0_ok identity bs c : registry0 identity bs = Ok c -> sc_inv c.
Proof. intros [= <-]. exact chan0_ok. Defined.

Lemma machine_never_panics_witness :
  wp (run_step 2 registry0 (RunSelect true)) (fun _ m => machine_ok 2 m) machine0.
Proof.
  apply (machine_never_panics 2 cap2 registry0 registry0_ok header_ids_z wire0 conns0
    (RunSelect true) machine0 conns0_ok). constructor.
Defined.

(** A frame that this serializer refuses ends [run]. *)
Definition bad_frame0 : Frame_out (Hello := unit) := frame_reset 1 GoAway.
Lemma run_ends_on_wire_errors_witness :
  exists m' error, run_step 2 registry0 (RunSend true None bad_frame0) machine0 = (m', Val (Return error)) /\
    kind error = Send (OtherPostcardError 0).
Proof.
  eexists _, _. split; [reflexivity|].
  destruct (run_ends_on_wire_errors 2 registry0 (RunSend true None bad_frame0) machine0 machine0
    (mkInterfaceError (Send (OtherPostcardError 0)) None) eq_refl) as [(rem & e & [=] & _)|(rem & ctx & f & e & Hst & He & Hk & Hc)].
  injection Hst as <- <- <-. cbn in He. injection He as <-. exact Hk.
Defined.

(** The wire speaks first. *)
Lemma run_select_order_witness :
  conn_table (fst (run_select 2 true machine0)) = ConnTable.new 2.
Proof. exact (proj1 (proj1 (run_select_order 2 true machine0) ([], []) (Ok [0; 3; 4; 9]) eq_refl)). Defined.

(** ** A message between two machines *)

(** The connection 1 of either table leads to the connection 1 of the other; at the first
    table a client has queued the message 7. *)
Definition rpipe1 : Pipe Z Reset := fst (Sender_try_send 7 rpipe).
Lemma rpipe_rep : prep rpipe (view_new 4) [].
Proof. split; [by apply new_rep|reflexivity|constructor]. Defined.
Lemma rpipe1_rep : exists i, prep rpipe1 (upd_queue 0 [i] ∅ (view_new 4)) [7].
Proof.
  destruct (Sender_try_send_wp _ _ _ 7 rpipe_rep) as (p' & r & Hrun & [Hk _] & H).
  unfold rpipe1. rewrite Hrun. destruct H as [(? & _)|[(_ & Hall & _)|(_ & _ & i & _ & Hp)]]; [done| |].
  - assert (H0 : 0 <= 0 < v_cap (E := Reset) (view_new 4)) by (cbn; lia).
    destruct (Hall 0 H0) as [H|H]; cbn in H; set_solver.
  - by exists i.
Defined.

Definition chan_full : Chan (SerChannel := chan_z) := from_pair rpipe rpipe1.
Lemma chan_full_ok : chan_ok {[1 := mkSocket (Open 1) chan_full]}.
Proof.
  intros i s [<- <-]%lookup_singleton_Some. destruct rpipe1_rep as [k Hk].
  exists (view_new 4), (upd_queue 0 [k] ∅ (view_new 4)), [], [7]. split; [apply rpipe_rep|exact Hk].
Defined.
Lemma chan_empty_ok : chan_ok {[1 := mkSocket (Open 1) chan0]}.
Proof. intros i s [<- <-]%lookup_singleton_Some. exact chan0_ok. Defined.

Lemma message_end_to_end_witness :
  wp (two_steps (SC := chan_z) (Hello := unit) 2 registry0 (RunSelect true))
     (fun r a => wire a = (([], [[0; 1; 1; 7]]) : Wi (Wire := wire_z)))
     (mkMachine (SC := chan_z) (([], []) : Wi (Wire := wire_z)) (table_with 1 chan_full) conns0).
Proof.
  destruct rpipe1_rep as [k Hk].
  assert (Hq : quiet (SC := chan_z) {[1 := mkSocket (Open 1) chan_full]} 0 1).
  { intros i s c Hi [<- _]%lookup_singleton_Some. lia. }
  assert (Hroom : ~ all_used (E := Reset) (view_new 4)).
  { intros Hall. assert (H0 : 0 <= 0 < v_cap (E := Reset) (view_new 4)) by (cbn; lia).
    destruct (Hall 0 H0) as [H|H]; cbn in H; set_solver. }
  assert (Hb1 : brep (chan_full : BiDi Z Z Reset) (view_new 4) (upd_queue 0 [k] ∅ (view_new 4)) [] [7])
    by (split; [apply rpipe_rep|exact Hk]).
  assert (Hb0 : brep (chan0 : BiDi Z Z Reset) (view_new 4) (view_new 4) [] []) by (split; apply rpipe_rep).
  eapply wp_mono.
  { apply (message_end_to_end (Hello := unit) (T := Z) (U := Z) 0 0 2 registry0 registry0 cap2
      (table_with 1 chan_full) _ conns0 chan_full (view_new 4) (upd_queue 0 [k] ∅ (view_new 4)) [] 7 [] [] true
      (table_with 1 chan0) _ conns0 chan0 (view_new 4) (view_new 4) [] [] [] true 1 1 [0; 1; 1] [7]
      (proj1 (table_with_rep 1 chan_full)) chan_full_ok (proj2 (table_with_rep 1 chan_full))
      (lookup_singleton_eq _ _) Hq Hb1 ltac:(done)
      (proj1 (table_with_rep 1 chan0)) chan_empty_ok (lookup_singleton_eq _ _) Hb0
      eq_refl Hroom eq_refl eq_refl). }
  cbn. by intros r a (_ & Hw & _).
Defined.

(** ** The shared box *)

Definition box0 : SerBox Z := fst (sharer SerBox_new).
Lemma box0_rep : box_rep box0 PSharer.
Proof. done. Defined.
Definition box1 : SerBox Z := fst (Sharer_try_share 7 box0).
Lemma box1_rep : box_rep box1 (PShared 7).
Proof. done. Defined.

Lemma serbox_refines_witness :
  wp (box_op_run OpDropConsumer) (fun o b => o = SerBoxSpec.OutUnit /\ box_rep b PSharer /\ sb_dropped b = [7]) box1.
Proof. exact (serbox_refines OpDropConsumer box1 (PShared 7) SerBoxSpec.OutUnit PSharer [7] box1_rep eq_refl). Defined.

Lemma share_waits_for_consumer_witness :
  wp (p ← Sharer_share_poll 3 8; Consumer_drop drop_box;; w ← gets sb_sharer_ready;
      p' ← Sharer_share_poll 3 8; mret (p, snd (wc_poll_wait w), p'))
     (fun r b => r = (Pending, Ready (Ok tt), Ready tt) /\ box_rep b (PShared 8) /\ sb_dropped b = [7]) box1.
Proof. exact (share_waits_for_consumer box1 7 8 box1_rep). Defined.

(** The consumer leaves after the sharer. *)
Definition sharer_first : list (box_event Z) :=
  [EvTryShare 7; EvSharerStep; EvSharerDrop; EvConsumerDrop; EvSharerStep; EvConsumerStep; EvConsumerStep; EvConsumerStep].
Lemma serbox_interleaved_safe_witness :
  wp (box_run drop_box sharer_first) (fun _ t => sb_dropped (th_box t) = [7] /\ sb_freed (th_box t) = true) box_start.
Proof.
  assert (Hs : box_schedule sharer_first (box_start (T := Z))).
  { cbn. split_and!; try done; intros _ _; cbn; auto. }
  destruct (serbox_interleaved_safe sharer_first Hs) as (t & [] & Hrun & rest & Hr & _ & Hdone).
  exists t, tt. split; [exact Hrun|]. vm_compute in Hrun. injection Hrun as <-.
  destruct (Hdone eq_refl eq_refl) as [-> Hf]. rewrite app_nil_r in Hr. split; [by rewrite <- Hr|exact Hf].
Defined.

(** ** The one-shot channel *)

Definition arc : RefVtable Z := ARC_VTABLE.
Lemma arc_ok : vt_ok arc.
Proof. by left. Defined.
Definition oneshot_active : Oneshot Z := fst (os_run arc OpSender Receiver_new).
Lemma oneshot_active_rep : os_rep oneshot_active (OActive false).
Proof. by split. Defined.

Lemma oneshot_refines_witness :
  wp (os_run arc (OpSendBytes [7])) (fun r o => r = OutDeser (Ok tt) /\ os_rep o (OSent false 7) /\ os_dropped o = [])
    oneshot_active.
Proof.
  exact (oneshot_refines (OpSendBytes [7]) arc oneshot_active (OActive false) (OutDeser (Ok tt)) (OSent false 7) []
    arc_ok oneshot_active_rep eq_refl).
Defined.

Lemma oneshot_reuse_witness :
  wp (rounds arc [7; 8]) (fun r o => os_rep o (OIdle false)) Receiver_new.
Proof. destruct (oneshot_reuse arc [7; 8] arc_ok) as (o & r & Hrun & Ho & _). by exists o, r. Defined.

Lemma sender_never_returns_witness :
  wp (os_run arc OpDropSender) (fun _ o => forall fuel, snd (Receiver_sender_poll arc fuel TakeLoop o) = OutOfFuel)
    (fst (os_run arc OpRecv oneshot_active)).
Proof.
  assert (Ho : os_rep (fst (os_run arc OpRecv oneshot_active)) (OActive true)) by (by split).
  destruct (proj2 (sender_never_returns arc _ true arc_ok) Ho) as (o & r & Hrun & _ & Hspin). by exists o, r.
Defined.

Lemma close_loses_and_double_drops_witness :
  wp (os_run arc OpClose) (fun _ o => os_cell o = Some 7 /\ os_dropped o = [])
    (fst (os_run arc (OpSend 7) oneshot_active)).
Proof.
  assert (Ho : os_rep (fst (os_run arc (OpSend 7) oneshot_active)) (OSent false 7)) by (by split).
  exact (proj1 (close_loses_and_double_drops arc _ false 7 arc_ok) Ho).
Defined.

(** The channel is closed while the receiver sleeps and the sender is about to finish. *)
Definition close_first : list actor :=
  [AReceiver; AReceiver; ASender; ACloser; ASender; ACloser; ASender; ASender].

Lemma oneshot_close_race_witness :
  wp (trio_run close_first) (fun _ t =>
    trio_send t = SendRefused 7 /\ trio_recv t = RecvParked /\
    wp (trio_run (replicate 4 AReceiver)) (fun _ t' => ended 7 t') t) (trio_start 7 oneshot_active).
Proof.
  destruct (oneshot_close_race 7 oneshot_active false close_first oneshot_active_rep) as (t & [] & Hrun & _ & _ & Ht).
  exists t, tt. split; [exact Hrun|]. vm_compute in Hrun. injection Hrun as <-.
  split; [done|]. split; [done|]. apply Ht. split; [exact I|by right].
Defined.

(** A close between the two accesses of a receive is undone: the receive opens the channel
    again, and a sender can be taken although [close] has returned. *)
Definition close_late : list actor :=
  [ASender; ASender; AReceiver; AReceiver; ACloser; ACloser; AReceiver].
Example close_undone :
  wp (trio_run close_late) (fun _ t =>
    trio_close t = CloseDone /\ trio_recv t = RecvGot 7 /\ os_state (trio_chan t) = HAS_RX /\
    snd (take_sender_poll 1 TakeLoop (trio_chan t)) = Val (TakeLoop, Ready (Ok tt))) (trio_start 7 oneshot_active).
Proof. eexists _, tt. split; [vm_compute; reflexivity|]. by split_and!. Qed.

(** The receiver is asleep when the sender starts. *)
Lemma oneshot_interleaved_delivers_witness :
  wp (duo_run [false; false; true; true; true]) (fun _ d =>
    wp (duo_run [false; false; false; false]) (fun _ d' => duo_recv d' = RecvGot 7) d) (duo_start 7 oneshot_active).
Proof.
  destruct (oneshot_interleaved_delivers 7 oneshot_active false [false; false; true; true; true] oneshot_active_rep)
    as (d & [] & Hrun & _ & _ & Hd).
  exists d, tt. split; [exact Hrun|]. apply Hd. vm_compute in Hrun. by injection Hrun as <-.
Defined.
