(* ===== verification/ReqRspExamples.v ===== *)
(** Concrete instances of the theorems about the request/response client: one request from
    the first poll to its answer. *)
From S2P Require Import Prelude Interfaces Errors Core CoreWord CoreQueue Pipe PipeSpec PipeSession BiDi Message WaitMap ReqRsp ReqRspSpec ReqRspSystem.
Import Concrete ConcreteMap.

(** ** A channel whose peer has already answered the request 0 with 9 *)

Definition req_pipe : Pipe (Request Z) Reset := mkPipe (new_core 4) (replicate 4 None) 2 [].
Definition rsp_pipe0 : Pipe (Response Z) Reset := mkPipe (new_core 4) (replicate 4 None) 2 [].
Definition rsp_pipe : Pipe (Response Z) Reset := fst (Sender_try_send (mkResponse 0 9) rsp_pipe0).
Definition conn0 : Connection (Req := Z) (Rsp := Z) := from_pair req_pipe rsp_pipe.

Lemma req_pipe_rep : prep req_pipe (view_new 4) [].
Proof. split; [by apply new_rep|reflexivity|constructor]. Defined.
Lemma rsp_pipe_rep : exists i, prep rsp_pipe (upd_queue 0 [i] ∅ (view_new 4)) [mkResponse 0 9].
Proof.
  assert (Hp : prep rsp_pipe0 (view_new 4) []) by (split; [by apply new_rep|reflexivity|constructor]).
  destruct (Sender_try_send_wp _ _ _ (mkResponse 0 (9 : Z)) Hp) as (p' & r & Hrun & _ & H).
  unfold rsp_pipe. rewrite Hrun. destruct H as [(? & _)|[(_ & Hall & _)|(_ & _ & i & _ & Hp')]]; [done| |].
  - assert (H0 : 0 <= 0 < v_cap (E := Reset) (view_new 4)) by (cbn; lia).
    destruct (Hall 0 H0) as [H|H]; cbn in H; set_solver.
  - by exists i.
Defined.

Definition client0 : Client (Req := Z) (Rsp := Z) := Client_new conn0.
Lemma client0_rep : exists i, client_rep client0 (view_new 4) (upd_queue 0 [i] ∅ (view_new 4)) [] [mkResponse 0 9].
Proof.
  destruct rsp_pipe_rep as [i Hi]. exists i. split; [split; [apply req_pipe_rep|exact Hi]|done|done].
Defined.
Lemma conn0_ok : conn_ok conn0.
Proof. destruct client0_rep as [i [Hb Hf _]]. by eexists _, _, _, _. Defined.

(** ** One request, start to end *)

Definition wait0 : MapWait (V := Z) := WNode (0, 1%nat).
Definition client1 : Client := fst (request_poll (request_fuel client0) 5 (ReqReserve ReserveStart) client0).
Definition client2 : Client := set_has true client1.
Definition client3 : Client := fst (dispatch_select client2).
Definition client4 : Client := fst (dispatch_wake (mkResponse 0 9) client3).
Definition client5 : Client := fst (request_poll (request_fuel client4) 5 (ReqWait 0 wait0) client4).

Definition waiting_sys : sys := mkSys client2 [Running 5 (ReqWait 0 wait0)] true [].
Lemma waiting_reach : rtc sys_step (sys_start conn0) waiting_sys.
Proof.
  eapply rtc_l; [apply (SysRequest _ [] false [] 5); done|]. cbn.
  eapply rtc_l; [apply (SysPending _ _ _ _ 0 5 (ReqReserve ReserveStart) client1 (ReqWait 0 wait0)); [done|]|].
  { apply run_pair. vm_compute. reflexivity. }
  eapply rtc_l; [apply SysDispatch; by vm_compute|]. apply rtc_refl.
Defined.

Definition answered_sys : sys := mkSys client5 [Finished (Some 0) (Ok 9)] true [(0, 9)].
Lemma answered_reach : rtc sys_step (sys_start conn0) answered_sys.
Proof.
  etrans; [exact waiting_reach|].
  assert (H3 : dispatch_select client2 = (client3, Val (SelMsg (mkResponse 0 9)))).
  { unfold client3. apply (run_pair dispatch_select). vm_compute. reflexivity. }
  assert (H4 : dispatch_wake (mkResponse 0 9) client3 = (client4, Val tt)).
  { unfold client4. apply (run_pair (dispatch_wake (mkResponse 0 9))). vm_compute. reflexivity. }
  assert (H5 : request_poll (request_fuel client4) 5 (ReqWait 0 wait0) client4 = (client5, Val (ReqEnd (Some 0), Ready (Ok 9)))).
  { unfold client5. apply (run_pair (request_poll (request_fuel client4) 5 (ReqWait 0 wait0))). vm_compute. reflexivity. }
  eapply rtc_l; [exact (SysMsg client2 _ [] _ client3 client4 H3 H4)|].
  eapply rtc_l; [exact (SysReady client4 [Running 5 (ReqWait 0 wait0)] true [(0, 9)] 0 5 _ client5 _ _ eq_refl H5)|].
  apply rtc_refl.
Defined.
(** ** Witnesses *)

Lemma reqrsp_never_panics_witness :
  wp (request_poll (request_fuel client2) 5 (ReqWait 0 wait0)) (fun _ _ => True) client2.
Proof.
  apply (proj1 (reqrsp_never_panics conn0 waiting_sys conn0_ok waiting_reach) 0%nat 5 (ReqWait 0 wait0)). reflexivity.
Defined.

Lemma reqrsp_matches_witness : exists n : Z, Some 0 = Some n /\ (n, 9) ∈ [(0, 9)].
Proof.
  apply (proj1 (reqrsp_matches conn0 answered_sys conn0_ok answered_reach) 0%nat (Some 0) 9). reflexivity.
Defined.

Lemma shutdown_ends_requests_witness :
  wp shutdown (fun _ c => wp (request_poll (request_fuel c) 5 (ReqWait 0 wait0))
    (fun r _ => snd r = Ready (Err BecauseISaidSo)) c) client2.
Proof.
  assert (Ha : shutdown_answer client2 (ReqWait 0 wait0) = Err BecauseISaidSo) by (by vm_compute).
  rewrite <- Ha. by apply (shutdown_ends_requests conn0 waiting_sys 0 5 (ReqWait 0 wait0) conn0_ok waiting_reach).
Defined.

Lemma request_poll_spec_witness :
  exists c' r, request_poll (request_fuel client0) 5 (ReqReserve ReserveStart) client0 = (c', Val r).
Proof.
  destruct client0_rep as [i Hc].
  destruct (request_poll_spec client0 0 ReserveStart 5 _ _ _ _ Hc) as (c' & r & Hrun & _); [done|by vm_compute|].
  by exists c', r.
Defined.

Lemma response_answers_witness :
  wp (dispatch_wake (mkResponse 0 9);; request_poll 1 5 (ReqWait 0 wait0)) (fun r _ => r = (ReqEnd (Some 0), Ready (Ok 9))) client2.
Proof.
  destruct (so_rep _ (sys_reach_ok _ _ conn0_ok waiting_reach)) as (vt & vr & outs & ins & Hc).
  eapply wp_mono; [apply (response_answers client2 0 wait0 5 9 0 vt vr outs ins Hc); by vm_compute|]. by intros r c' [-> _].
Defined.

Lemma dispatch_only_once_witness :
  wp (shutdown;; dispatch_poll 2 DispStart) (fun r c => r = (DispLoop, Ready (Ok tt)) /\
    forall fuel, snd (dispatch_poll (S fuel) DispStart c) = Panic) client0.
Proof. destruct client0_rep as [i Hc]. by apply (dispatch_only_once client0 _ _ _ _ Hc). Defined.

Lemma shutdown_race_panics_witness :
  wp (r ← dispatch_select; shutdown;; mret r)
    (fun r c => r = SelMsg (mkResponse 0 9) /\ snd (dispatch_wake (mkResponse 0 9) c) = Panic) client0.
Proof. destruct client0_rep as [i Hc]. by apply (shutdown_race_panics client0 _ _ _ _ _ Hc). Defined.
