(* ===== verification/ConnectExamples.v ===== *)
(** Concrete instances of the theorems about the connector: connects that are answered,
    refused, left unanswered and given up, what the next one does then, and one on its whole
    way through a machine. *)
From S2P Require Import Prelude Interfaces TypeInfo WaitMap Errors Core CoreWord CoreQueue SerBox SerBoxSpec Oneshot OneshotSpec Pipe PipeSpec BiDi Message ReqRsp ConnTable ConnTableSpec Machine MachineSpec Connector ConnectorSpec ConnectPath Examples SystemExamples.
Import Concrete ExampleTypes.
#[local] Existing Instance wire_z.

Definition arc_rsp : RefVtable (result unit Rejection) := Oneshot.ARC_VTABLE.
Lemma arc_rsp_ok : vt_ok arc_rsp.
Proof. by left. Defined.

(** The handle of the response sender. *)
Definition rsp0 : Rsp (ResponseSender := rsp_bool) := true.

(** A connector with an empty channel of requests, and the arguments of one connect: the
    hello message 7, the client's end 5. *)
Notation Connector_z := (Connector unit Z Z (SC := chan_z)).
Definition connector0 : Connector_z := mkConnector box0 Receiver_new conns0 [].
Definition args0 : ConnectArgs (SC := chan_z) (HelloMsg := Z) (C := Z) :=
  mkConnectArgs (mkIdentity 0 (Name [104])) 7 chan0 5.
Notation poll0 := (connect_poll arc_rsp tt rsp0 8 args0).

Lemma conns0_rep : prep conns0 (view_new 4) [].
Proof. split; [by apply new_rep|reflexivity|constructor]. Defined.
Lemma conns0_free : ~ all_used (E := unit) (view_new 4).
Proof.
  intros Hall. assert (H0 : 0 <= 0 < v_cap (E := unit) (view_new 4)) by (cbn; lia).
  destruct (Hall 0 H0) as [H|H]; cbn in H; set_solver.
Defined.
Lemma connector0_rest : at_rest connector0.
Proof. by repeat split. Defined.
Lemma connector0_fresh : fresh connector0.
Proof. split; [apply connector0_rest|]. split; [apply connector0_rest|]. exists (view_new 4), []. apply conns0_rep. Defined.

(** After the first poll; the hello message is gone, and the channel empty again. *)
Definition connector1 : Connector_z := fst (poll0 (ConnReserve ReserveStart) connector0).
Definition connector2 : Connector_z := fst (iface_drop_hello drop_box connector1).
Definition connector3 : Connector_z := set_tx conns0 connector2.
Notation history_z := (history (SC := chan_z) (HelloMsg := Z) (C := Z)).
Definition waiting_past : history_z := request_sent (next_connect history_start).
Definition sys_waiting : sys := mkSys connector3 (Some (args0, ConnRecv)) false (Some 1%nat) waiting_past.
Notation sys_step0 := (sys_step drop_box arc_rsp tt rsp0).

Lemma waiting_reached : rtc sys_step0 (sys_start connector0) sys_waiting.
Proof.
  eapply rtc_l; [apply (StConnect _ _ _ _ connector0 args0)|].
  assert (H1 : poll0 (ConnReserve ReserveStart) connector0 = (connector1, Val (ConnRecv, Pending))).
  { unfold connector1. apply (run_pair (poll0 (ConnReserve ReserveStart)) connector0). vm_compute. reflexivity. }
  eapply rtc_l; [exact (StPoll _ _ _ _ connector0 args0 (ConnReserve ReserveStart) false None _ connector1 ConnRecv H1)|].
  assert (H2 : iface_drop_hello drop_box connector1 = (connector2, Val tt)).
  { unfold connector2. apply (run_pair (iface_drop_hello drop_box) connector1). vm_compute. reflexivity. }
  eapply rtc_l; [exact (StHelloGone _ _ _ _ connector1 (Some (args0, ConnRecv)) (Some 1%nat) waiting_past connector2 tt H2)|].
  eapply rtc_l; [apply (StRequests _ _ _ _ connector2 (Some (args0, ConnRecv)) false (Some 1%nat) waiting_past conns0)|apply rtc_refl].
  exists (view_new 4), []. split; [apply conns0_rep|]. by intros ? ? i [= <- <-] [].
Defined.

(** A refused connect. *)
Definition connector4 : Connector_z := fst (iface_answer arc_rsp (Err NotFound) connector3).
Definition connector5 : Connector_z := fst (poll0 ConnRecv connector4).
Definition sys_refused : sys :=
  mkSys connector5 None false None (connect_ended args0 (Err (Nak NotFound)) (settled 1 (Answered (Err NotFound)) waiting_past)).
Lemma refused_reached : rtc sys_step0 (sys_start connector0) sys_refused.
Proof.
  etrans; [exact waiting_reached|].
  assert (H1 : iface_answer arc_rsp (Err NotFound) connector3 = (connector4, Val true)).
  { unfold connector4. apply (run_pair (iface_answer arc_rsp (Err NotFound)) connector3). vm_compute. reflexivity. }
  eapply rtc_l; [exact (StAnswer _ _ _ _ connector3 (Some (args0, ConnRecv)) false 1 waiting_past (Err NotFound) connector4 true H1)|].
  assert (H2 : poll0 ConnRecv connector4 = (connector5, Val (ConnEnd, Ready (Err (Nak NotFound))))).
  { unfold connector5. apply (run_pair (poll0 ConnRecv) connector4). vm_compute. reflexivity. }
  eapply rtc_l; [exact (StReturn _ _ _ _ connector4 args0 ConnRecv false None _ connector5 ConnEnd _ H2)|].
  apply rtc_refl.
Defined.

(** A connect whose request the interface drops unanswered, and the next one. *)
Definition connector6 : Connector_z := fst (iface_drop_sender arc_rsp connector3).
Definition connector7 : Connector_z := fst (poll0 ConnRecv connector6).
Definition unanswered_past : history_z := connect_ended args0 (Err InterfaceDead) (settled 1 Unanswered waiting_past).
Definition sys_unanswered : sys := mkSys connector7 None false None unanswered_past.
Definition sys_after : sys := mkSys connector7 (Some (args0, ConnReserve ReserveStart)) false None (next_connect unanswered_past).
Lemma unanswered_reached : rtc sys_step0 (sys_start connector0) sys_unanswered.
Proof.
  etrans; [exact waiting_reached|].
  assert (H1 : iface_drop_sender arc_rsp connector3 = (connector6, Val tt)).
  { unfold connector6. apply (run_pair (iface_drop_sender arc_rsp) connector3). vm_compute. reflexivity. }
  eapply rtc_l; [exact (StUnanswered _ _ _ _ connector3 (Some (args0, ConnRecv)) false 1 waiting_past connector6 tt H1)|].
  assert (H2 : poll0 ConnRecv connector6 = (connector7, Val (ConnEnd, Ready (Err InterfaceDead)))).
  { unfold connector7. apply (run_pair (poll0 ConnRecv) connector6). vm_compute. reflexivity. }
  eapply rtc_l; [exact (StReturn _ _ _ _ connector6 args0 ConnRecv false None _ connector7 ConnEnd _ H2)|].
  apply rtc_refl.
Defined.
Lemma after_reached : rtc sys_step0 (sys_start connector0) sys_after.
Proof. etrans; [exact unanswered_reached|]. eapply rtc_l; [apply StConnect|apply rtc_refl]. Defined.

(** A connect given up while it waits, and the next one. *)
Definition connector8 : Connector_z := fst (connect_drop drop_box args0 ConnRecv connector3).
Definition sys_given_up : sys :=
  mkSys connector8 (Some (args0, ConnReserve ReserveStart)) false (Some 1%nat) (next_connect (gives_up ConnRecv waiting_past)).
Lemma given_up_reached : rtc sys_step0 (sys_start connector0) sys_given_up.
Proof.
  etrans; [exact waiting_reached|].
  assert (H1 : connect_drop drop_box args0 ConnRecv connector3 = (connector8, Val tt)).
  { unfold connector8. apply (run_pair (connect_drop drop_box args0 ConnRecv) connector3). vm_compute. reflexivity. }
  eapply rtc_l; [exact (StGiveUp _ _ _ _ connector3 args0 ConnRecv false (Some 1%nat) waiting_past connector8 tt H1)|].
  eapply rtc_l; [apply StConnect|apply rtc_refl].
Defined.

(** The two polls that do not end well. *)
Example given_up_poll_panics : snd (poll0 (ConnReserve ReserveStart) connector8) = Panic.
Proof. vm_compute. reflexivity. Qed.
Example unanswered_poll_runs_on : snd (poll0 (ConnReserve ReserveStart) connector7) = OutOfFuel.
Proof. vm_compute. reflexivity. Qed.

(** ** Witnesses *)

Lemma connector_outcomes_witness :
  match snd (poll0 ConnRecv connector3) with
  | Val _ => True
  | Panic => h_gave_up waiting_past = true /\ h_unanswered waiting_past = false
  | OutOfFuel => h_unanswered waiting_past = true /\
      forall fuel, snd (connect_poll arc_rsp tt rsp0 fuel args0 ConnRecv connector3) = OutOfFuel
  end.
Proof.
  exact (proj1 (proj1 (connector_outcomes drop_box arc_rsp arc_rsp_ok tt rsp0 connector0 sys_waiting connector0_fresh
    waiting_reached) args0 ConnRecv eq_refl)).
Defined.

Lemma connector_own_answers_witness : @Err Z _ InterfaceDead = Err InterfaceDead /\ @Err Z _ (Nak NotFound) = Err (Nak NotFound).
Proof.
  exact (conj
    (connector_own_answers drop_box arc_rsp arc_rsp_ok tt rsp0 connector0 sys_unanswered args0 Unanswered _
      connector0_fresh unanswered_reached (list_elem_of_here _ _))
    (connector_own_answers drop_box arc_rsp arc_rsp_ok tt rsp0 connector0 sys_refused args0 (Answered (Err NotFound)) _
      connector0_fresh refused_reached (list_elem_of_here _ _))).
Defined.

Lemma connect_makes_progress_witness :
  wp (sp ← poll0 (ConnReserve ReserveStart); p ← gets tx; bs ← iface_hello; iface_drop_hello drop_box;;
      iface_answer arc_rsp (Ok tt);; woke ← gets (fun c => snd (wc_poll_wait (os_wait (rsp c))));
      sp' ← poll0 (fst sp); mret (snd sp, p, bs, woke, snd sp'))
    (fun out _ => exists p, out = (Pending, p, Ok [7], Ready (Ok tt), Ready (Ok 5))) connector0.
Proof.
  eapply wp_mono.
  { apply (connect_makes_progress drop_box arc_rsp arc_rsp_ok tt rsp0 connector0 (sys_start connector0) args0 (view_new 4) []
      (Ok tt) connector0_fresh (rtc_refl _ _) eq_refl eq_refl eq_refl eq_refl conns0_rep eq_refl conns0_free). }
  cbn beta. intros out c (v' & p & _ & -> & _). by exists p.
Defined.

Lemma connect_after_cancel_panics_witness :
  wp (connect_drop drop_box args0 ConnRecv) (fun _ c =>
    snd (connect_poll arc_rsp tt rsp0 8 args0 (ConnReserve ReserveStart) c) = Panic) connector3.
Proof.
  exact (connect_after_cancel_panics drop_box arc_rsp arc_rsp_ok tt rsp0 connector0 sys_waiting args0 args0 (view_new 4) []
    connector0_fresh waiting_reached eq_refl eq_refl eq_refl conns0_rep eq_refl conns0_free).
Defined.

Lemma unanswered_connect_hangs_witness :
  wp (iface_drop_sender arc_rsp) (fun _ c => wp (poll0 ConnRecv) (fun sp c2 => snd sp = Ready (Err InterfaceDead) /\
    forall fuel, snd (connect_poll arc_rsp tt rsp0 fuel args0 (ConnReserve ReserveStart) c2) = OutOfFuel) c) connector3.
Proof.
  eapply wp_mono.
  { exact (unanswered_connect_hangs drop_box arc_rsp arc_rsp_ok tt rsp0 connector0 sys_waiting args0 args0 (view_new 4) []
      connector0_fresh waiting_reached eq_refl eq_refl ltac:(discriminate) conns0_rep eq_refl conns0_free). }
  cbn beta. by intros _ c [_ H].
Defined.

(** A machine with an empty table on a silent wire. *)
Definition machine1 : Machine (SC := chan_z) (Hello := unit) :=
  mkMachine (SC := chan_z) (([], []) : Wi (Wire := wire_z)) (ConnTable.new 2) conns0.

Lemma connect_end_to_end_witness :
  wp (poll0 (ConnReserve ReserveStart)) (fun sp c1 => sp = (ConnRecv, Pending) /\
    wp (run_step 2 registry0 (RunSelect true)) (fun r _ => exists i,
      r = Continue (RunSend true (Some ctx_connect) (frame_connect i (mkIdentity 0 (Name [104])) tt))) (set_conns_rx (tx c1) machine1))
    connector0.
Proof.
  assert (Hn : next_outbound (Hello := unit) (conn_table machine1) = (conn_table machine1, Val Pending)) by done.
  eapply wp_mono.
  { apply (connect_end_to_end arc_rsp arc_rsp_ok tt rsp0 2 cap2 registry0 connector0 machine1 args0 (view_new 4) _ _ ∅ 9 ReserveStart
      connector0_rest conns0_rep eq_refl conns0_free ltac:(done) eq_refl Hn); [apply new_trep; by destruct cap2|done|done]. }
  cbn beta. intros sp c1 (-> & _ & H & _). split; [done|]. eapply wp_mono; [exact H|].
  cbn beta. intros r m1 (i & _ & _ & -> & _). by exists i.
Defined.
