(* ===== verification/PlugTailExamples.v ===== *)
(** Concrete instances of the theorems about the plugtail: a header of one byte before three
    items of two words, and two threads whose destructors overlap. *)
From S2P Require Import Prelude PlugTail PlugTailSpec.

Definition byte_layout : Layout := mkLayout 1 1.
Definition pair_layout : Layout := mkLayout 32 16.
Lemma byte_layout_ok : layout_ok byte_layout.
Proof. split; [by exists 0|]. split; [done|by exists 1]. Defined.
Lemma pair_layout_ok : layout_ok pair_layout.
Proof. split; [by exists 4|]. split; [done|by exists 2]. Defined.

(** The header is at 16, the tail at 32: seven bytes of the header's padding and eight of the
    tail's alignment lie between. *)
Example offsets_computed :
  hdr_offset byte_layout pair_layout = 16 /\ tail_offset byte_layout pair_layout = 32 /\
  ArcPlugTail_layout byte_layout pair_layout 3 = Some (mkLayout 128 16) /\
  ArcPlugTail_layout byte_layout pair_layout (2 ^ 59) = None.
Proof. by vm_compute. Qed.

Lemma layout_in_bounds_witness :
  32 + 3 * 32 = 128 /\ forall base, (16 | base) -> (1 | base + 16) /\ (16 | base + 32).
Proof.
  pose proof (layout_in_bounds byte_layout pair_layout byte_layout_ok pair_layout_ok 3 ltac:(lia)) as H.
  change (ArcPlugTail_layout byte_layout pair_layout 3) with (Some (mkLayout 128 16)) in H.
  destruct H as (_ & _ & _ & _ & H). split; [done|exact H].
Defined.

(** [body_drop] empties the cells. *)
Definition empty_cells (h : Z) (l : list (option Z)) : list (option Z) := replicate (length l) None.
Lemma empty_cells_length h l : length (empty_cells h l) = length l.
Proof. apply length_replicate. Defined.
Definition block0 : Block Z Z :=
  match ArcPlugTail_new (T := Z) byte_layout pair_layout (Some tt) 9 3 with Val b => b | _ => mkBlock 0 0 None [] byte_layout [] [] [] end.

(** A clone; the first handle is leaked and taken back while the second goes, and its own
    destructor then tears everything down. *)
Definition two_threads : list (nat * plug_event) :=
  [(0, EvClone); (0, EvLeak); (1, EvStorage); (1, EvDrop); (0, EvUnleak); (0, EvDrop); (1, EvStep); (0, EvStep); (0, EvStep); (0, EvStep)]%nat.
Lemma handles_safe_witness :
  wp (handle_run byte_layout pair_layout empty_cells two_threads) (fun _ s => torn_down (mkLayout 128 16) 9 3 (hs_block s))
    (mkHandles block0 [HLive]).
Proof.
  destruct (handles_safe byte_layout pair_layout empty_cells 9 3 block0 two_threads empty_cells_length eq_refl ltac:(done))
    as (s & [] & Hrun & _ & _ & Hdone).
  exists s, tt. split; [exact Hrun|]. vm_compute in Hrun. injection Hrun as <-. apply Hdone. by repeat constructor.
Defined.
