(* ===== verification/LinkExamples.v ===== *)
(** A concrete link: one interface asks the other for a connection, and gets it. *)
From S2P Require Import Prelude Interfaces Errors Core CoreWord CoreQueue Pipe PipeSpec PipeSession BiDi Message ConnTable ConnTableSpec Machine MachineSpec EndToEnd Link LinkSpec LinkEnds LinkEndsSpec Examples SystemExamples.
Import Concrete.
#[local] Existing Instance wire_z.

Notation Link_z := (link (SC := chan_z) (Hello := unit)).
Notation lstep_z := (lstep (SC := chan_z) (Hello := unit) 2 registry0).

(** The request for [echo] is queued on the left. *)
Definition conns1 : Conns (SC := chan_z) (Hello := unit) := fst (Sender_try_send connect0 conns0).
Lemma conns1_ok : conns_ok conns1.
Proof.
  destruct (Sender_try_send_wp conns0 (view_new 4) [] connect0) as (p' & r & Hrun & _ & H).
  { split; [by apply new_rep|reflexivity|constructor]. }
  unfold conns1. rewrite Hrun. destruct H as [(? & _)|[(_ & Hall & _)|(_ & _ & i & _ & Hp)]]; [done| |].
  - assert (H0 : 0 <= 0 < v_cap (E := unit) (view_new 4)) by (cbn; lia).
    destruct (Hall 0 H0) as [H|H]; cbn in H; set_solver.
  - eexists _, _. split; [exact Hp|]. constructor; [exact chan0_ok|constructor].
Defined.

(** ** Playing a link *)

(** The local tasks serve the connections of an interface, decided. *)
Definition channel_serves (e : Entry) : bool :=
  match e with
  | Occupied (mkSocket (Open _) c) => match snd (sc_poll_recv c) with Val (Ready (Err _)) => false | _ => true end
  | _ => true
  end.
Definition served_b (n : node (SC := chan_z) (Hello := unit)) : bool :=
  let t := conn_table n.2 in
  match n.1 with
  | RunSelect _ => forallb channel_serves (conns t)
  | RunSend _ _ _ => true
  | RunProcess _ f fut =>
      match header f with
      | Data _ i =>
          match conns t !! to_index i with
          | Some (Occupied s) => match snd (sc_send (body f) fut (sock_channel s)) with Val (_, Ready (Err _)) => false | _ => true end
          | _ => true
          end
      | Ack _ i => match conns t !! to_index i with Some (Occupied (mkSocket (Connecting rsp) _)) => rsp_send rsp (Ok tt) | _ => true end
      | _ => true
      end
  end.

Lemma served_b_ok n : served_b n = true -> served n.
Proof.
  destruct n as [st m]. unfold served_b, served. cbn [fst snd]. destruct st as [rem|rem ctx f|rem f fut]; [|done|].
  - intros H i remote c e Hi He. rewrite List.forallb_forall in H.
    specialize (H _ (proj1 (list_elem_of_In _ _) (list_elem_of_lookup_2 _ _ _ Hi))). cbn in H, He. by rewrite He in H.
  - destruct (header f) as [l identity|l i|l i|i r|i r]; try done.
    + intros H s fut' e Hs He. by rewrite Hs, He in H.
    + intros H rsp c Hs. by rewrite Hs in H.
Defined.

(** What the interface on the left does next, and a frame on its way to the right. *)
Definition run_left (l : Link_z) : option Link_z :=
  if served_b l.1 then
    match run_step 2 registry0 l.1.1 l.1.2 with
    | (m', Val (Continue st')) => Some ((st', m'), l.2)
    | _ => None
    end
  else None.
Definition wire_right (l : Link_z) : option Link_z :=
  match wire l.1.2, wire l.2.2 with
  | (inc, frame :: sent), (inc', sent') =>
      Some ((l.1.1, set_wire (W := byte_wire) (inc, sent) l.1.2), (l.2.1, set_wire (W := byte_wire) (inc' ++ [frame], sent') l.2.2))
  | _, _ => None
  end.

Lemma run_left_ok l l' : run_left l = Some l' -> lstep_z l l'.
Proof.
  destruct l as [[st m] b]. unfold run_left. cbn [fst snd]. destruct (served_b (st, m)) eqn:Hs; [|done]. intros H.
  apply served_b_ok in Hs. destruct (run_step 2 registry0 st m) as [m' [[st'| |]| |]] eqn:Hr; simplify_eq. by constructor.
Defined.
Lemma wire_right_ok l l' : wire_right l = Some l' -> lstep_z l l'.
Proof.
  destruct l as [[st m] [st' m']]. unfold wire_right. cbn [fst snd]. intros H.
  destruct (wire m) as [inc [|frame sent]] eqn:Hw, (wire m') as [inc' sent'] eqn:Hw'; simplify_eq. by apply LEnv, EnvWire.
Defined.

Inductive move := RunA | RunB | AtoB | BtoA.
Definition moved (mv : move) (l : Link_z) : option Link_z :=
  match mv with
  | RunA => run_left l
  | RunB => swap <$> run_left (swap l)
  | AtoB => wire_right l
  | BtoA => swap <$> wire_right (swap l)
  end.
Fixpoint play (mvs : list move) (l : Link_z) : option Link_z :=
  match mvs with [] => Some l | mv :: mvs => moved mv l ≫= play mvs end.

Lemma moved_ok mv l l' : moved mv l = Some l' -> link_step 2 registry0 registry0 l l'.
Proof.
  destruct mv; cbn; [intros H; left; by apply run_left_ok|intros (l1 & H & ->)%fmap_Some; right
    |intros H; left; by apply wire_right_ok|intros (l1 & H & ->)%fmap_Some; right].
  - destruct l1. by apply run_left_ok.
  - destruct l1. by apply wire_right_ok.
Defined.
Lemma play_ok mvs l l' : play mvs l = Some l' -> rtc (link_step 2 registry0 registry0) l l'.
Proof.
  revert l. induction mvs as [|mv mvs IH]; cbn; intros l H; [by injection H as ->|].
  destruct (moved mv l) as [l1|] eqn:Hm; [|done]. eapply rtc_l; [by eapply moved_ok|by apply IH].
Defined.

(** The request is taken and written, and travels; the other side takes it, accepts it, writes
    the ACK, which travels back and is taken in hand; at last it is handled. *)
Definition l0 : Link_z := link_start 2 conns1 conns0.
Definition setup : list move := [RunA; RunA; AtoB; RunB; RunB; RunB; BtoA; RunA].
Definition l_of (mvs : list move) : Link_z := default l0 (play mvs l0).
Definition plays (mvs : list move) : bool := if play mvs l0 then true else false.

Lemma reached mvs : plays mvs = true -> rtc (link_step 2 registry0 registry0) l0 (l_of mvs).
Proof. unfold plays, l_of. intros H. apply (play_ok mvs). by destruct (play mvs l0). Defined.
Lemma reached_pair mvs : plays mvs = true -> rtc (link_step 2 registry0 registry0) l0 ((l_of mvs).1, (l_of mvs).2).
Proof. rewrite <- surjective_pairing. apply reached. Defined.
Lemma setup_plays : plays setup = true.
Proof. vm_compute. reflexivity. Defined.
Lemma done_plays : plays (setup ++ [RunA]) = true.
Proof. vm_compute. reflexivity. Defined.

(** ** Witnesses *)

(** What is in hand, the state of a connection, and whether an interface has nothing to do. *)
Definition has_ack (st : run_state (Hello := unit)) : bool := match st with RunProcess _ f _ => bool_decide (header f = Ack 1 1) | _ => false end.
Definition open_to (s : option State) (j : Z) : bool := match s with Some (Open k) => k =? j | _ => false end.
Definition idle (n : node (SC := chan_z) (Hello := unit)) : bool := match n.1, wire n.2 with RunSelect _, ([], []) => true | _, _ => false end.

Lemma open_to_eq s j : open_to s j = true -> s = Some (Open j).
Proof. destruct s as [[k|rsp]|]; cbn; try done. by intros ->%Z.eqb_eq. Defined.
Lemma idle_eq n : idle n = true -> (exists r, n.1 = RunSelect r) /\ wire n.2 = ([], []).
Proof. unfold idle. destruct n as [[r| |] m]; try done. cbn. destruct (wire m) as [[] []]; try done. intros _. split; [by exists r|done]. Defined.

Definition l_ack : Link_z := l_of setup.
Definition l_done : Link_z := l_of (setup ++ [RunA]).

Lemma link_refines_protocol_witness : exists p, rtc plink_step plink_start p /\ link_rep 2 l_done p.
Proof.
  exact (link_refines_protocol 2 cap2 header_ids_z registry0 registry0 registry0_ok registry0_ok conns1 conns0 l_done
    conns1_ok conns0_ok (reached _ done_plays)).
Defined.

Lemma link_frames_expected_witness : has_ack l_ack.1.1 = true /\ frames_ok l_ack.1 l_ack.2.
Proof.
  split; [vm_compute; reflexivity|].
  exact (proj1 (link_frames_expected 2 cap2 header_ids_z registry0 registry0 registry0_ok registry0_ok conns1 conns0 l_ack.1 l_ack.2
    conns1_ok conns0_ok (reached_pair setup setup_plays))).
Defined.

Lemma link_agrees_when_idle_witness : sock_at l_done.1 1 = Some (Open 1) /\ sock_at l_done.2 1 = Some (Open 1).
Proof.
  assert (Ha : sock_at l_done.1 1 = Some (Open 1)) by (apply open_to_eq; vm_compute; reflexivity).
  assert (Hia : idle l_done.1 = true) by (vm_compute; reflexivity).
  assert (Hib : idle l_done.2 = true) by (vm_compute; reflexivity).
  apply idle_eq in Hia as [[ra Hra] Hwa], Hib as [[rb Hrb] Hwb]. split; [exact Ha|].
  exact (proj1 (proj1 (link_agrees_when_idle 2 cap2 header_ids_z registry0 registry0 registry0_ok registry0_ok conns1 conns0
    l_done.1 l_done.2 1 1 conns1_ok conns0_ok (reached_pair (setup ++ [RunA]) done_plays) (ex_intro _ ra (ex_intro _ rb (conj Hra Hrb))) Hwa Hwb
    ltac:(lia) ltac:(lia))) Ha).
Defined.

(** ** Connections that end

    The same two interfaces, from [l_done] on, without the assumption that the local tasks
    keep their channels.  A message of the right is on the wire when the client on the left
    closes the connection and asks for a new one, which gets the same identifiers.  The late
    message finds the new connection waiting for its ACK, and is answered by a reset that
    only names the identifier of the remote: it ends the new connection there.  The left
    takes it for open. *)
Definition run_any (l : Link_z) : option Link_z :=
  match run_step 2 registry0 l.1.1 l.1.2 with
  | (m', Val (Continue st')) => Some ((st', m'), l.2)
  | _ => None
  end.
Definition touch_left (i : Id) (c : Chan (SerChannel := chan_z)) (l : Link_z) : option Link_z :=
  match table_step (Hello := unit) 2 (TTouch i c) (conn_table l.1.2) with
  | (t, Val _) => Some ((l.1.1, set_conn_table t l.1.2), l.2)
  | _ => None
  end.
Definition ask_left (l : Link_z) : option Link_z := Some ((l.1.1, set_conns_rx conns1 l.1.2), l.2).
Definition right (f : Link_z -> option Link_z) (l : Link_z) : option Link_z := swap <$> f (swap l).

(** A channel closed by its client. *)
Definition chan_closed : Chan (SerChannel := chan_z) := from_pair rpipe (fst (Sender_close_with_error BecauseISaidSo rpipe)).

Definition teardown : list (Link_z -> option Link_z) :=
  [ (* the right sends a message *)
    right (touch_left 1 chan_full); right run_any; right run_any;
    (* the left closes, and the right learns of it *)
    touch_left 1 chan_closed; run_any; run_any; wire_right; right run_any; right run_any;
    (* the left asks for a new connection, and the right accepts it *)
    ask_left; run_any; run_any; wire_right; right run_any; right run_any; right run_any;
    (* the message reaches the left, which answers it by a reset; so does the ACK *)
    right wire_right; run_any; run_any; run_any; right wire_right; run_any; run_any;
    (* the reset reaches the right *)
    wire_right; right run_any; right run_any ].
Definition l_end : Link_z := default l0 (fold_left (fun o f => o ≫= f) teardown (Some l_done)).

Example late_data_ends_the_new_connection :
  sock_at l_end.1 1 = Some (Open 1) /\ sock_at l_end.2 1 = None /\ idle l_end.1 = true /\ idle l_end.2 = true.
Proof.
  split; [apply open_to_eq; vm_compute; reflexivity|]. split; [|split; vm_compute; reflexivity].
  assert (H : (if sock_at l_end.2 1 then true else false) = false) by (vm_compute; reflexivity).
  by destruct (sock_at l_end.2 1).
Defined.

(** The same without the late message, and in good time: the left closes the connection, and
    asks for a new one when nothing refers to the old one any more.  It gets the same
    identifiers, and both ends agree about it. *)
Definition patient_b (n : node (SC := chan_z) (Hello := unit)) : bool :=
  match n.1 with
  | RunProcess _ f _ =>
      match header f with
      | Ack _ i => match conns (conn_table n.2) !! to_index i with Some (Occupied (mkSocket (Connecting rsp) _)) => rsp_send rsp (Ok tt) | _ => true end
      | _ => true
      end
  | _ => true
  end.
Lemma patient_b_ok n : patient_b n = true -> patient n.
Proof.
  destruct n as [st m]. unfold patient_b, patient. cbn [fst snd]. destruct st as [rem|rem ctx f|rem f fut]; [done..|].
  destruct (header f) as [l identity|l i|l i|i r|i r]; try done. intros H rsp c Hs. by rewrite Hs in H.
Defined.
Definition taken_b (a b : node (SC := chan_z) (Hello := unit)) st' m' : bool :=
  match taken (Hello := unit) st' with
  | None => true
  | Some i => unused a b i && bool_decide (dead_index (conn_table (W := byte_wire) m') <> Some i)
  end.
Lemma taken_b_ok a b st' m' : taken_b a b st' m' = true -> taken_in_time a b st' m'.
Proof.
  unfold taken_b, taken_in_time. intros H i Hi. rewrite Hi in H. apply andb_true_iff in H as [? H%bool_decide_eq_true]. done.
Defined.

Inductive emove := LeftRuns | LeftCloses | LeftAsks | LeftWire | Right (mv : emove).
Fixpoint emoved (mv : emove) (l : Link_z) : option Link_z :=
  match mv with
  | LeftRuns =>
      if patient_b l.1 then
        match run_step 2 registry0 l.1.1 l.1.2 with
        | (m', Val (Continue st')) => if taken_b l.1 l.2 st' m' then Some ((st', m'), l.2) else None
        | (m', Val (Yield st')) => Some ((st', m'), l.2)
        | _ => None
        end
      else None
  | LeftCloses => touch_left 1 chan_closed l
  | LeftAsks => ask_left l
  | LeftWire => wire_right l
  | Right mv => swap <$> emoved mv (swap l)
  end.
Definition eplay (mvs : list emove) (l : Link_z) : option Link_z := fold_left (fun o mv => o ≫= emoved mv) mvs (Some l).

Definition quick_end : list emove :=
  [ (* the connection is set up *)
    LeftRuns; LeftRuns; LeftWire; Right LeftRuns; Right LeftRuns; Right LeftRuns; Right LeftWire; LeftRuns; LeftRuns;
    (* the left closes it, and the right learns of it *)
    LeftCloses; LeftRuns; LeftRuns; LeftWire; Right LeftRuns; Right LeftRuns; LeftRuns;
    (* the left asks for a new one *)
    LeftAsks; LeftRuns; LeftRuns; LeftWire; Right LeftRuns; Right LeftRuns; Right LeftRuns; Right LeftWire; LeftRuns; LeftRuns ].

Lemma chan_closed_ok : sc_inv (SerChannelLaws := chan_z_laws) chan_closed.
Proof.
  destruct (close_pipe_wp BecauseISaidSo rpipe (view_new 4) [] (fun _ p => prep p (fail_view BecauseISaidSo (view_new 4)) []) rpipe_rep)
    as (p & b & Hrun & Hp); [done|].
  exists (view_new 4), (fail_view BecauseISaidSo (view_new 4)), [], []. split; [exact rpipe_rep|]. cbn.
  change (Sender_close_with_error BecauseISaidSo rpipe) with (on_core (T := Z) (close_with_error BecauseISaidSo) rpipe). by rewrite Hrun.
Defined.

Notation elink_steps_z := (elink_steps (SC := chan_z) (Hello := unit) 2 registry0 registry0).
Lemma emoved_ok mv l l' : emoved mv l = Some l' -> elink_steps_z l l'.
Proof.
  revert l l'. induction mv as [| | | |mv IH]; cbn; intros l l' H.
  - left. destruct l as [[st m] b]. cbn [fst snd] in H. destruct (patient_b (st, m)) eqn:Hp; [|done]. apply patient_b_ok in Hp.
    destruct (run_step 2 registry0 st m) as [m' [[st'|st'|]| |]] eqn:Hr; try done; [|injection H as <-; by eapply ElPoll].
    destruct (taken_b (st, m) b st' m') eqn:Ht; [|done]. injection H as <-. apply taken_b_ok in Ht. by apply ElRun.
  - left. apply ElEnv. destruct l as [[st m] b]. unfold touch_left in H. cbn [fst snd] in H.
    destruct (table_step _ _ _) as [t [u| |]] eqn:Ht; [|done..]. injection H as <-. by eapply EnvTouch; [|apply chan_closed_ok|].
  - left. apply ElEnv. destruct l as [[st m] b]. injection H as <-. apply EnvConns, conns1_ok.
  - left. apply ElEnv. destruct l as [[st m] [st' m']]. unfold wire_right in H. cbn [fst snd] in H.
    destruct (wire m) as [inc [|frame sent]] eqn:Hw, (wire m') as [inc' sent'] eqn:Hw'; simplify_eq. by apply EnvWire.
  - apply fmap_Some in H as (l1 & H & ->). apply IH in H as [H|H]; [right|left]; destruct l, l1; exact H.
Defined.
Lemma eplay_ok mvs l l' : eplay mvs l = Some l' -> rtc elink_steps_z l l'.
Proof.
  revert l. unfold eplay. induction mvs as [|mv mvs IH]; cbn [fold_left]; intros l H; [by injection H as ->|].
  change (Some l ≫= emoved mv) with (emoved mv l) in H. destruct (emoved mv l) as [l1|] eqn:Hm.
  - eapply rtc_l; [by eapply emoved_ok|by apply IH].
  - exfalso. clear -H. by induction mvs.
Defined.

Definition l_new : Link_z := default l0 (eplay quick_end l0).
Lemma quick_end_reached : rtc elink_steps_z l0 (l_new.1, l_new.2).
Proof.
  rewrite <- surjective_pairing. apply (eplay_ok quick_end). unfold l_new.
  assert (H : is_Some (eplay quick_end l0)); [|by destruct H as [? ->]].
  assert (H : (if eplay quick_end l0 then true else false) = true) by (vm_compute; reflexivity).
  by destruct (eplay quick_end l0).
Defined.

(** In between, both ends had removed the connection. *)
Example quick_end_removes :
  (fun l => (sock_at l.1 1, sock_at l.2 1)) <$> eplay (take 16 quick_end) l0 = Some (None, None).
Proof. vm_compute. reflexivity. Qed.

Lemma ending_link_agrees_when_idle_witness : sock_at l_new.1 1 = Some (Open 1) /\ sock_at l_new.2 1 = Some (Open 1).
Proof.
  assert (Ha : sock_at l_new.1 1 = Some (Open 1)) by (apply open_to_eq; vm_compute; reflexivity).
  assert (Hia : idle l_new.1 = true) by (vm_compute; reflexivity).
  assert (Hib : idle l_new.2 = true) by (vm_compute; reflexivity).
  assert (Hda : dead_index (conn_table l_new.1.2) = None) by (vm_compute; reflexivity).
  assert (Hdb : dead_index (conn_table l_new.2.2) = None) by (vm_compute; reflexivity).
  apply idle_eq in Hia as [[ra Hra] Hwa], Hib as [[rb Hrb] Hwb]. split; [exact Ha|].
  exact (proj1 (proj1 (ending_link_agrees_when_idle 2 cap2 header_ids_z registry0 registry0 registry0_ok registry0_ok conns1 conns0
    l_new.1 l_new.2 1 1 conns1_ok conns0_ok quick_end_reached (ex_intro _ ra (ex_intro _ rb (conj Hra Hrb))) Hwa Hwb Hda Hdb
    ltac:(lia) ltac:(lia))) Ha).
Defined.

(** The reset in the hand of the right, which then removes its end. *)
Definition l_reset : Link_z := default l0 (eplay (take 14 quick_end) l0).
Definition has_reset (st : run_state (Hello := unit)) : bool :=
  match st with RunProcess _ f _ => match header f with HReset i _ => i =? 1 | _ => false end | _ => false end.
Lemma l_reset_reached : rtc elink_steps_z l0 (l_reset.1, l_reset.2).
Proof.
  rewrite <- surjective_pairing. apply (eplay_ok (take 14 quick_end)). unfold l_reset.
  assert (H : is_Some (eplay (take 14 quick_end) l0)); [|by destruct H as [? ->]].
  assert (H : (if eplay (take 14 quick_end) l0 then true else false) = true) by (vm_compute; reflexivity).
  by destruct (eplay (take 14 quick_end) l0).
Defined.
Lemma ending_link_frames_expected_witness :
  has_reset l_reset.2.1 = true /\ sock_at l_reset.2 1 = Some (Open 1) /\ eframes_ok l_reset.2 l_reset.1.
Proof.
  split; [vm_compute; reflexivity|]. split; [apply open_to_eq; vm_compute; reflexivity|].
  exact (proj2 (ending_link_frames_expected 2 cap2 header_ids_z registry0 registry0 registry0_ok registry0_ok conns1 conns0 l_reset.1 l_reset.2
    conns1_ok conns0_ok l_reset_reached)).
Defined.

(** ** An acknowledgement that nobody waits for

    The caller of [connect] is gone: its socket is answered by a reset, but stays in the
    table, open.  When its channel ends a second reset is sent for the same remote
    identifier, which may name another connection by then. *)
Definition abandoned : M (ConnTable.ConnTable (SC := chan_z)) (option Frame_out * poll Frame_out) :=
  start_connecting (Hello := unit) 2 (mkOutboundConnect (oc_identity connect0) tt chan_closed false);;
  first ← process_ack (Hello := unit) 1 1;
  second ← next_outbound (Hello := unit);
  mret (first, second).
Example two_resets_for_one_connection :
  (fun o => match o with Val (Some f, Ready f') => Some (header f, header f') | _ => None end) (snd (abandoned (ConnTable.new 2))) =
  Some (HReset 1 BecauseISaidSo, HReset 1 BecauseISaidSo).
Proof. vm_compute. reflexivity. Qed.
