(* ===== verification/LeakExamples.v ===== *)
(** A test whose spawned thread forgets a tracked value, and one that cleans up. *)
From stdpp Require Import gmap strings.
From S2P Require Import Prelude LeakCheck LeakCheckSpec.
Local Open Scope string_scope.
Local Open Scope Z_scope.

Definition forgetful : list (command Z) :=
  [ CNew 0 0 "u32" "a.rs:1" 7; CSpawn 0 1; CNew 1 1 "bool" "b.rs:2" 1; CNew 2 2 "u8" "c.rs:3" 5;
    CSetRef 0 8; CDrop 0; CEnd 1 ].
Definition forgetful_end : test_state Z * outcome unit := Builder_check 0 None (run_commands forgetful) test_start.

(** The second thread's value is reported; the third thread has no registry, so its value is not. *)
Example forgetful_report :
  last (w_trace (st_world (fst forgetful_end))) =
    Some (Panicked (leak_report [" - id 1, bool allocated at b.rs:2"])).
Proof. vm_compute. reflexivity. Qed.

Lemma leak_check_exact_witness :
  snd forgetful_end = Panic /\ exists k d, tracked (st_values (fst forgetful_end)) k d.
Proof.
  assert (Hp : snd forgetful_end = Panic) by (vm_compute; reflexivity). split; [exact Hp|].
  destruct (leak_check_exact 0 None forgetful (fst forgetful_end) (snd forgetful_end)) as [_ [[Hv _]|(_ & k & d & _ & Hk & _)]].
  - vm_compute. reflexivity.
  - apply surjective_pairing.
  - rewrite Hp in Hv. discriminate Hv.
  - exists k, d. exact Hk.
Defined.

(** When the value is unwrapped in the end, the check is silent. *)
Example tidy : snd (Builder_check 0 None (run_commands (forgetful ++ [CIntoInner 1])) test_start) = Val tt.
Proof. vm_compute. reflexivity. Qed.

(** Names of spawned threads are numbered by the registry. *)
Example spawned_name :
  snd (spawn (T := Z) 0 1 (fst (Builder_check 5 (Some "main") (spawn 5 0;; mret tt) test_start))) = Val (Some ("main:2", 2)).
Proof. vm_compute. reflexivity. Qed.
